(* ===== verification/_CoqProject ===== *)
-Q . S2P
Prelude.v
Io.v
Common.v
Sha256.v
Externals.v
InvVect.v
BlockHeader.v
Protocol.v
NetAddress.v
Tx.v
Mem.v
FreeList.v
TxMem.v
Goroutine.v
Block.v
Arena.v
MsgIface.v
MsgInventory.v
MsgControl.v
MsgFilter.v
ExtendedTx.v
Decoders.v
Concurrency.v
TxCopy.v
Version.v
Receivers.v
Message.v
Framing.v
Relay.v
Constructors.v
Segments.v
Frames.v
Bounds.v
Errors.v
Examples.v
