(* ===== verification/Prelude.v ===== *)
(** * go-wire: a verification development

    go-wire (package [wire], src/*.go) is the Bitcoin SV peer-to-peer protocol:
    it turns Go values into the bytes of the protocol's messages and back, and
    frames them on a connection.  This library models the package as Rocq
    definitions, translated function by function from the source and
    executable, and proves what the package promises about them.

    ** The program and its model

    - [Prelude.v] (this file): bytes, machine integers (values in [Z], every
      conversion of the source written out as [to_u32], [to_i64], ...), byte
      order, lengths, the tactics [zlia] and [len_lia], hint databases.
    - [Io.v]: the Go environment.  Errors (error.go) as an inductive type with
      the description kept as format and operands.  [io.Reader] and
      [io.Writer] as classes ([Reader], [Writer]) with their contracts as
      classes ([ReaderSpec], [WriterSpec]); a connection, [*bytes.Buffer],
      [io.LimitedReader] and [io.TeeReader] are instances.  A [Bsvdecode]
      method is a program [Dec] over [io.ReadFull], run on any reader by [run];
      a [BsvEncode] method is the list of its [Write] calls and its outcome
      ([Enc], [runE]).  [Codec] is the law of a decoder and the encoding it
      inverts, in both directions.
    - [Common.v]: common.go (elements, variable length integers, strings and
      byte arrays) and the limits of message.go ([ebs], [SetLimits]).
    - [Sha256.v]: crypto/sha256, executable.  [Externals.v]: the packages of
      go-bt the code calls ([chainhash], [bt.VarInt]), as the class [Externals]
      of parameters with their documented behaviour [ExternalsSpec] and the
      instance [refExternals] used by the witnesses.
    - [InvVect.v], [BlockHeader.v], [Protocol.v], [NetAddress.v]: invvect.go,
      block_header.go, protocol.go, net_address.go.
    - [Tx.v]: msg_tx.go at value level (a script is a list of bytes).
      [Mem.v]: Go slices over a heap of byte arrays, with capacity and
      aliasing.  [FreeList.v]: the free list of scratch buffers of common.go
      in memory, for one goroutine ([uintM], [putUintM]) and for many as a
      step relation ([step]).  [TxMem.v]: msg_tx.go in memory, the pool of script buffers
      ([Borrow], [Return], [bsvdecodeM]).
    - [Goroutine.v]: goroutines over that memory.  A method is a program
      [Prog] whose constructors are its accesses to the connection, the pool
      and the heap; [gstep] interleaves any number of them, one access at a
      time; [wp] is the proof rule, in which a goroutine owns the arrays it
      made or borrowed.  [Decoders.v]: [MsgTx.bsvdecode] and
      [MsgExtendedTx.Bsvdecode] as such programs.  [Concurrency.v]: the
      theorems about them.  [TxCopy.v]: the two [Copy] methods as programs.
    - [Block.v]: msg_block.go and the arena path of msg_tx.go at value level.
      [Arena.v]: block_arena.go and the same path in memory ([Alloc],
      [BsvdecodeBlockA]).
    - [MsgIface.v]: the interface [Message] of message.go as the class [Msg],
      and what message.go relies on as the class [MsgSpec].
      [MsgInventory.v], [MsgControl.v], [MsgFilter.v], [ExtendedTx.v],
      [Version.v]: the message types (msg_*.go), each with its instances.
      [Receivers.v]: the methods of ping, reject, protoconf and version that
      decode into the message they are called on, field by field ([Rec]: the
      receiver is state that survives an error).
    - [Message.v]: message.go, the command table, the header, writing, the
      buffering and the streaming reader, external handlers.
      [Framing.v]: the theorems about message.go, proved against [MsgSpec] for
      all types at once ([kind_spec]).  [Relay.v]: theorems that join reading
      and writing ([faithful]: what a decoder returns can be sent).
    - [Segments.v]: [io.Reader] as it is, one [Read] call at a time
      ([RawReader], [RawSpec]), a connection that returns its bytes in pieces
      ([conn]), the loops and wrappers of the Go library over it, and the
      streaming reader over those ([ReadMessageStreamingN_raw]).
      [Errors.v]: the error paths of the reading functions, [SetLimits] and
      [SetExternalHandler].  [Frames.v]: the frames of a connection ([frame]).
      [Bounds.v]: the length of every buffer that is read into, recorded by an
      instance of [Reader] ([AuditReader]).
    - [Constructors.v]: the [New...] functions, [OutPoint.String],
      [MessageError.Error], and the messages that can be built with the API
      ([built]).  [Examples.v]: the two programs under examples/, the second
      over a model of [bufio.Writer].

    A definition keeps the name of its Go function; methods of the same name
    are prefixed with their type ([MsgInv_Bsvdecode]), record fields with an
    abbreviation of it.

    ** What the theorems show

    - Primitive encodings ([Common.v]): one accepted encoding per integer,
      limits checked before data is read, elements and byte arrays inverted
      exactly.
    - Message types: a decoder returns a message on precisely the streams that
      begin with the message's encoding ([Inventory_exact], [MsgTx_decode_exact],
      [MsgBlock_decode_exact], ...), with every limit of the code; sizes,
      hashes, script and transaction locations are those of the bytes.
    - Receivers ([Receivers.v]): decoding into a zero message is decoding a new
      one ([Receiver_fresh]); a receiver that was used before keeps what the
      payload leaves out ([Receiver_keeps]), which for the version message is
      any number of trailing fields ([MsgVersion_legacy]).
    - Memory ([FreeList.v], [TxMem.v], [Arena.v]): the integer operations
      through scratch buffers refine the value-level ones and are free of
      races; the pooled and the arena decoder refine the value-level ones; the invariants ([Inv]: no buffer in the pool twice
      or while borrowed; [AInv]: slices handed out are disjoint and never
      written again) are preserved by every operation, so transactions already
      decoded keep their scripts whatever is decoded later.
    - Goroutines ([Concurrency.v], [TxCopy.v]): under every interleaving of
      any number of decoders of both transaction types, each returns what the
      decoder without memory returns and no two messages share memory
      ([Decoders_interleaved]); no run is infinite and none gets stuck
      ([Decoders_finish]); the pooled decoder of extended transactions refines
      the value-level one; the step model and that of [TxMem.v] agree
      ([bsvdecode_models_agree]); [Copy] returns an equal transaction
      that shares no memory with the original ([MsgTx_Copy_deep]).
    - Framing ([Framing.v]): what is written is read back by both readers, for
      the types whose decoder inverts their encoder ([symmetric]); sequences of
      messages too; every call ends at the next header, unless the length is
      above the maximum or is the mark 2^32 - 1 and accepted
      ([ReadMessage_aligned]); the
      streaming and the buffering reader agree; a message is only accepted from
      a correct frame; writing is one [Write] call or none, and the errors are
      [MessageError]s ([WriteMessageN_atomic]).
    - The connection ([Segments.v], [Frames.v], [Bounds.v], [Errors.v]): messages
      that were written are read back, [Read] call by [Read] call, however the
      network splits their bytes ([Segmented_conversation]); what a frame is read as depends on that frame
      only, whatever came before it ([Frames_independent]); no peer can make
      the code allocate a buffer above the limits ([Buffers_bounded]); a connection cut inside
      a message yields no message and the error of the connection
      ([Truncated_packet]);
      every error has one of the listed origins ([Error_provenance]); what a
      registered handler is given ([External_handler]); the limit on payloads
      for every block size and which messages it lets through
      ([SetLimits_payload]).
    - Whole programs ([Relay.v], [Constructors.v], [Examples.v]): a message
      that was read is well formed and can be sent on ([Relay]); a client that
      keeps reading reaches the end of the connection, whatever arrives
      ([ReadLoop_ends]); a message built with the constructors and [Add...]
      methods is delivered if it fits and refused by the writer if it is too
      large ([Built_delivered]); what the example programs do.
    - Where the code does not do what it says, a theorem states what it does
      ([reused_receiver_returns_twice], [AddTxHash_unsendable],
      [SignatureScript_unreadable], [Extended_message_refused],
      [GetCFHeaders_unreadable], [MsgAuthch_corrupted],
      [MsgExtendedTx_size_off_by_six], [MsgVersion_association_before_bip37],
      [AddUserAgent_replaces], [write_message_prints_nothing]).

    ** Bounds and termination

    Decoders recurse structurally: a counted loop runs [Z.to_nat count] times
    ([dloop]) after the count has been checked against its limit, so there is
    no fuel and every function is total.  [FormatUint16] has fuel 16, the
    number of hexadecimal digits of a [uint64], [decDigits] fuel 20, that of
    its decimal digits; the loop of [bufio_Write] has one round per byte and
    two more, where a writer that keeps its contract needs two.  The loops over
    [Read] ([readAtLeast], [copyLoop]) have fuel: a reader may return less than
    it was asked for only [patience] times before its end, which is the number
    of segments left of a [conn]; with that fuel, as [raw_reader] gives them,
    they never stop early ([readAtLeast_spec], [copyLoop_spec]).  Programs
    [Prog] are well founded, and every step of [gstep] takes one of them to a
    subprogram.  Go's [int] is 64 bits wide.

    ** Not modelled

    The contents of a receiver before and after decoding for the types not in
    [Receivers.v] and [TxMem.v]: when they succeed they overwrite every field
    (extmsg, whose method reads nothing, none), and [makeEmptyMessage] gives
    them a new message; running out of memory and allocation panics; nil
    messages; concurrent changes of the global
    limits and handlers, which are plain variables of the package; memory
    races of Go between goroutines that share a message (a step of [gstep] is
    atomic); the rendering of error texts by [fmt]; constants that no function
    of the package uses; arguments that the source ignores ([pver] where it is
    [_], [MessageEncoding]) are dropped.  doc.go is a comment. *)

From Stdlib Require Export ZArith Lia.
From stdpp Require Export base list gmap strings numbers.
From coqutil Require Export Byte Word.LittleEndianList.

#[global] Open Scope Z_scope.

(** ** Bytes *)

#[global] Instance byte_eq_dec : EqDecision byte := Byte.byte_eq_dec.

#[global] Program Instance byte_countable : Countable byte :=
  inj_countable Byte.to_N Byte.of_N _.
Next Obligation. intros b. apply Byte.of_to_N. Qed.

Abbreviation bytes := (list Byte.byte).

(** [b2z] and [z2b] are the conversions [uint64(b)] and [byte(z)]. *)
Abbreviation b2z := byte.unsigned.
Abbreviation z2b := byte.of_Z.

(** The bytes of a Go string constant. *)
Definition str (s : string) : bytes := String.list_byte_of_string s.

Definition zeros (n : nat) : bytes := replicate n Byte.x00.

(** [len(s)] of a Go slice or string. *)
Definition len {A} (l : list A) : Z := Z.of_nat (length l).

(** ** Machine integers: values are kept in [Z], conversions wrap. *)

Definition to_u8  (z : Z) : Z := z mod 2 ^ 8.
Definition to_u16 (z : Z) : Z := z mod 2 ^ 16.
Definition to_u32 (z : Z) : Z := z mod 2 ^ 32.
Definition to_u64 (z : Z) : Z := z mod 2 ^ 64.
Definition to_i32 (z : Z) : Z := (z + 2 ^ 31) mod 2 ^ 32 - 2 ^ 31.
Definition to_i64 (z : Z) : Z := (z + 2 ^ 63) mod 2 ^ 64 - 2 ^ 63.

Definition is_u8  (z : Z) : Prop := 0 <= z < 2 ^ 8.
Definition is_u16 (z : Z) : Prop := 0 <= z < 2 ^ 16.
Definition is_u32 (z : Z) : Prop := 0 <= z < 2 ^ 32.
Definition is_u64 (z : Z) : Prop := 0 <= z < 2 ^ 64.
Definition is_i32 (z : Z) : Prop := - 2 ^ 31 <= z < 2 ^ 31.
Definition is_i64 (z : Z) : Prop := - 2 ^ 63 <= z < 2 ^ 63.

(** Every width is a bounded interval of [Z]: expose it to [lia]. *)
Ltac unfold_widths :=
  unfold is_u8, is_u16, is_u32, is_u64, is_i32, is_i64 in *.
Ltac zlia := unfold_widths; unfold len in *; lia.

(** Unfold the function a term applies. *)
Ltac unfold_head d :=
  lazymatch d with
  | ?f _ => unfold_head f
  | ?f => unfold f
  end.

Create HintDb wire.

Section Widths.
Context (z : Z).
Implicit Types (n : nat).

Lemma to_u8_id : is_u8 z -> to_u8 z = z.
Proof. apply Z.mod_small. Qed.
Lemma to_u16_id : is_u16 z -> to_u16 z = z.
Proof. apply Z.mod_small. Qed.
Lemma to_u32_id : is_u32 z -> to_u32 z = z.
Proof. apply Z.mod_small. Qed.
Lemma to_u64_id : is_u64 z -> to_u64 z = z.
Proof. apply Z.mod_small. Qed.
Lemma to_u32_range : is_u32 (to_u32 z).
Proof. apply Z.mod_pos_bound. done. Qed.
Lemma to_u64_range : is_u64 (to_u64 z).
Proof. apply Z.mod_pos_bound. done. Qed.
Lemma to_i32_range : is_i32 (to_i32 z).
Proof. unfold is_i32, to_i32. pose proof (Z.mod_pos_bound (z + 2 ^ 31) (2 ^ 32)). lia. Qed.
Lemma to_i64_range : is_i64 (to_i64 z).
Proof. unfold is_i64, to_i64. pose proof (Z.mod_pos_bound (z + 2 ^ 63) (2 ^ 64)). lia. Qed.

(** The signed and the unsigned reading of one word determine each other. *)
Lemma to_i32_u32 : is_i32 z -> to_i32 (to_u32 z) = z.
Proof.
  intros H. unfold to_i32, to_u32. rewrite Zplus_mod_idemp_l.
  rewrite Z.mod_small; unfold is_i32 in H; lia.
Qed.
Lemma to_u32_i32 : is_u32 z -> to_u32 (to_i32 z) = z.
Proof.
  intros H. unfold to_i32, to_u32. rewrite Zminus_mod_idemp_l.
  rewrite Z.mod_small; unfold is_u32 in H; lia.
Qed.
Lemma to_i64_u64 : is_i64 z -> to_i64 (to_u64 z) = z.
Proof.
  intros H. unfold to_i64, to_u64. rewrite Zplus_mod_idemp_l.
  rewrite Z.mod_small; unfold is_i64 in H; lia.
Qed.
Lemma to_u64_i64 : is_u64 z -> to_u64 (to_i64 z) = z.
Proof.
  intros H. unfold to_i64, to_u64. rewrite Zminus_mod_idemp_l.
  rewrite Z.mod_small; unfold is_u64 in H; lia.
Qed.
End Widths.

#[export] Hint Resolve to_u32_range to_u64_range to_i32_range to_i64_range : wire.

(** ** Byte order: [binary.LittleEndian] and [binary.BigEndian] *)

Inductive ByteOrder := littleEndian | bigEndian.

(** [byteOrder.PutUint<8n>] and [byteOrder.Uint<8n>] for an [n]-byte word. *)
Definition put_uint (o : ByteOrder) (n : nat) (z : Z) : bytes :=
  match o with
  | littleEndian => le_split n z
  | bigEndian => rev (le_split n z)
  end.

Definition get_uint (o : ByteOrder) (bs : bytes) : Z :=
  match o with
  | littleEndian => le_combine bs
  | bigEndian => le_combine (rev bs)
  end.

#[global] Arguments put_uint : simpl never.
#[global] Arguments get_uint : simpl never.

Lemma length_put_uint o n z : length (put_uint o n z) = n.
Proof. destruct o; unfold put_uint; rewrite ?length_rev; apply length_le_split. Qed.

Lemma len_put_uint o n z : len (put_uint o n z) = Z.of_nat n.
Proof. unfold len. by rewrite length_put_uint. Qed.

Lemma get_put_uint o n z : get_uint o (put_uint o n z) = z mod 2 ^ (8 * Z.of_nat n).
Proof.
  destruct o; unfold get_uint, put_uint; rewrite ?rev_involutive, le_combine_split;
    do 2 f_equal; lia.
Qed.

Lemma put_get_uint o n bs : length bs = n -> put_uint o n (get_uint o bs) = bs.
Proof.
  intros <-. destruct o; unfold get_uint, put_uint; [apply split_le_combine|].
  rewrite <- (length_rev bs), split_le_combine. apply rev_involutive.
Qed.

Lemma get_uint_range o bs : 0 <= get_uint o bs < 2 ^ (8 * len bs).
Proof.
  unfold len. destruct o; unfold get_uint; [apply le_combine_bound|].
  rewrite <- (length_rev bs). apply le_combine_bound.
Qed.

Lemma get_put_uint_small o n z :
  0 <= z < 2 ^ (8 * Z.of_nat n) -> get_uint o (put_uint o n z) = z.
Proof. intros H. rewrite get_put_uint. by apply Z.mod_small. Qed.

(** ** Lists *)

Lemma len_nil {A} : len (@nil A) = 0.
Proof. done. Qed.
Lemma len_cons {A} (x : A) l : len (x :: l) = len l + 1.
Proof. unfold len. rewrite length_cons. lia. Qed.
Lemma len_app {A} (l k : list A) : len (l ++ k) = len l + len k.
Proof. unfold len. rewrite length_app. lia. Qed.
Lemma len_nonneg {A} (l : list A) : 0 <= len l.
Proof. unfold len. lia. Qed.
Lemma len_replicate {A} n (x : A) : len (replicate n x) = Z.of_nat n.
Proof. unfold len. by rewrite length_replicate. Qed.
Lemma len_take {A} n (l : list A) : (n <= length l)%nat -> len (take n l) = Z.of_nat n.
Proof. intros. unfold len. rewrite length_take. lia. Qed.

Create Rewrite HintDb len.
#[export] Hint Rewrite @len_nil @len_cons @len_app @len_replicate len_put_uint : len.
#[export] Hint Resolve len_nonneg : wire.

(** Normalise lengths, then decide. *)
Ltac len_lia := autorewrite with len in *; try zlia.

Lemma to_nat_len {A} (l : list A) : Z.to_nat (len l) = length l.
Proof. unfold len. lia. Qed.

Lemma len_0_inv {A} (l : list A) : len l = 0 -> l = [].
Proof. destruct l; [done|]. rewrite len_cons. pose proof (len_nonneg l). lia. Qed.

(** Sum of a size over a list: the loops [n += x.SerializeSize()]. *)
Definition zsum (l : list Z) : Z := foldr Z.add 0 l.

Lemma zsum_app l k : zsum (l ++ k) = zsum l + zsum k.
Proof. induction l; simpl in *; lia. Qed.

Lemma fold_left_add_zsum {A} (f : A -> Z) l n :
  fold_left (fun n x => n + f x) l n = n + zsum (map f l).
Proof. revert n. induction l as [|x l IH]; intros n; simpl; [lia|]. rewrite IH. lia. Qed.

Lemma len_concat_map {A} (f : A -> bytes) l :
  len (concat (map f l)) = zsum (map (fun x => len (f x)) l).
Proof. induction l; simpl; len_lia. Qed.

Lemma zsum_bound {A} (f : A -> Z) l k :
  (forall x, x ∈ l -> f x <= k) -> zsum (map f l) <= k * len l.
Proof.
  induction l as [|x l IH]; intros H; simpl; [len_lia|].
  rewrite len_cons. specialize (IH ltac:(set_solver)).
  specialize (H x ltac:(set_solver)). lia.
Qed.

Lemma zsum_lower {A} (f : A -> Z) l k :
  (forall x, x ∈ l -> k <= f x) -> k * len l <= zsum (map f l).
Proof.
  induction l as [|x l IH]; intros H; simpl; [len_lia|].
  rewrite len_cons. specialize (IH ltac:(set_solver)).
  specialize (H x ltac:(set_solver)). lia.
Qed.

Lemma zsum_nonneg {A} (f : A -> Z) l : (forall x, x ∈ l -> 0 <= f x) -> 0 <= zsum (map f l).
Proof.
  induction l as [|x l IH]; intros H; simpl; [lia|].
  specialize (IH ltac:(set_solver)). specialize (H x ltac:(set_solver)). lia.
Qed.

(** Splitting a list at a known prefix. *)
Lemma take_app_eq {A} (l k : list A) n : n = length l -> take n (l ++ k) = l.
Proof. intros ->. apply take_app_length. Qed.
Lemma drop_app_eq {A} (l k : list A) n : n = length l -> drop n (l ++ k) = k.
Proof. intros ->. apply drop_app_length. Qed.
