(* ===== verification/Io.v ===== *)
(** * Errors, [io.Reader]/[io.Writer], decoding and encoding programs

    A [Bsvdecode] method is a program over the [io.Reader] interface: it
    calls [io.ReadFull] and goes on with the bytes read or with the error.
    [Dec] is that program, [run] executes it on any instance of the class
    [Reader].  A [BsvEncode] method is a sequence of [Write] calls that stops
    at the first error: [Enc], executed by [runE] on any [Writer].

    The laws [ReaderSpec] state the contract of [io.Reader] (a stream of bytes
    followed by an error); [run_view] proves once, for every decoder, that
    what it returns and what it consumes depend on that stream only. *)

From S2P Require Import Prelude.

(** ** Errors *)

(** The operands of [fmt.Sprintf]; the description of an error is kept as its
    format and operands. *)
Inductive arg := AInt (z : Z) | ABytes (s : bytes).

Record Sprintf := mkSprintf { format : string; operands : list arg }.

(** error.go: [MessageError]. *)
Record MessageError := mkMessageError { Func : string; Description : Sprintf }.

Inductive error :=
| EOF                            (* io.EOF *)
| ErrUnexpectedEOF               (* io.ErrUnexpectedEOF *)
| ErrMessage (e : MessageError)  (* *MessageError *)
| ErrText (s : Sprintf)          (* errors.New, fmt.Errorf *)
| ErrIO (code : Z).              (* any other error of a reader or a writer *)

#[global] Instance arg_eq_dec : EqDecision arg.
Proof. solve_decision. Defined.
#[global] Instance sprintf_eq_dec : EqDecision Sprintf.
Proof. solve_decision. Defined.
#[global] Instance message_error_eq_dec : EqDecision MessageError.
Proof. solve_decision. Defined.
#[global] Instance error_eq_dec : EqDecision error.
Proof. solve_decision. Defined.

(** error.go: [messageError]. *)
Definition messageError (f : string) (fmt : string) (args : list arg) : error :=
  ErrMessage (mkMessageError f (mkSprintf fmt args)).

(** A Go pair [(value, error)] of which one is set. *)
Inductive result (A : Type) := Ok (a : A) | Err (e : error).
Arguments Ok {A} a.
Arguments Err {A} e.

(** ** [io.Reader] *)

(** [Pull n r] calls [r.Read] until [n] bytes have been obtained or an error
    is returned; [PullAll r] until an error is returned.  [AsBuffer r] is the
    type assertion to a [*bytes.Buffer] with its [Len()]. *)
Class Reader (R : Type) := {
  Pull : Z -> R -> bytes * option error * R;
  PullAll : R -> bytes * error * R;
  AsBuffer : R -> option Z;
}.

(** [io.ReadFull]: an end of file in the middle is [ErrUnexpectedEOF]. *)
Definition full_error (bs : bytes) (e : error) : error :=
  match e, bs with
  | EOF, _ :: _ => ErrUnexpectedEOF
  | _, _ => e
  end.

Definition ReadFull `{Reader R} (n : Z) (r : R) : bytes * option error * R :=
  let '(bs, e, r') := Pull n r in (bs, full_error bs <$> e, r').

(** [io.Copy(io.Discard, r)]: [io.EOF] is the normal end. *)
Definition DiscardAll `{Reader R} (r : R) : option error * R :=
  let '(_, e, r') := PullAll r in
  (if decide (e = EOF) then None else Some e, r').

(** ** A connection: the bytes still to come and the error after them *)

Record stream := mkStream { s_data : bytes; s_err : error }.

Definition stream_pull (n : Z) (s : stream) : bytes * option error * stream :=
  if n <=? len (s_data s)
  then (take (Z.to_nat n) (s_data s), None,
        mkStream (drop (Z.to_nat n) (s_data s)) (s_err s))
  else (s_data s, Some (s_err s), mkStream [] (s_err s)).

#[export] Instance stream_reader : Reader stream := {
  Pull := stream_pull;
  PullAll s := (s_data s, s_err s, mkStream [] (s_err s));
  AsBuffer _ := None;
}.

(** [*bytes.Buffer] as a reader. *)
Record buffer := mkBuffer { b_data : bytes }.

Definition buffer_stream (bf : buffer) : stream := mkStream (b_data bf) EOF.

#[export] Instance buffer_reader : Reader buffer := {
  Pull n bf := let '(bs, e, s) := stream_pull n (buffer_stream bf) in
               (bs, e, mkBuffer (s_data s));
  PullAll bf := (b_data bf, EOF, mkBuffer []);
  AsBuffer bf := Some (len (b_data bf));
}.

(** [io.LimitedReader{R, N}]. *)
Record LimitedReader (R : Type) := mkLimited { lr_R : R; lr_N : Z }.
Arguments mkLimited {R} lr_R lr_N.
Arguments lr_R {R} _.
Arguments lr_N {R} _.

Section LimitedReader.
Context `{Reader R}.

(** At most [N] bytes come from [R]; then every [Read] returns [io.EOF]. *)
Definition limited_pull (n : Z) (l : LimitedReader R) :
    bytes * option error * LimitedReader R :=
  if n <=? Z.max 0 (lr_N l)
  then let '(bs, e, r') := Pull n (lr_R l) in
       (bs, e, mkLimited r' (lr_N l - len bs))
  else let '(bs, e, r') := Pull (Z.max 0 (lr_N l)) (lr_R l) in
       (bs, Some (default EOF e), mkLimited r' (lr_N l - len bs)).

#[export] Instance limited_reader : Reader (LimitedReader R) := {
  Pull := limited_pull;
  PullAll l := let '(bs, e, r') := Pull (Z.max 0 (lr_N l)) (lr_R l) in
               (bs, default EOF e, mkLimited r' (lr_N l - len bs));
  AsBuffer _ := None;
}.
End LimitedReader.

(** [io.TeeReader(r, w)] with a writer that never fails (a hash): [tee_w] is
    what has been written to it. *)
Record TeeReader (R : Type) := mkTee { tee_r : R; tee_w : bytes }.
Arguments mkTee {R} tee_r tee_w.
Arguments tee_r {R} _.
Arguments tee_w {R} _.

Section TeeReader.
Context `{Reader R}.

#[export] Instance tee_reader : Reader (TeeReader R) := {
  Pull n t := let '(bs, e, r') := Pull n (tee_r t) in
              (bs, e, mkTee r' (tee_w t ++ bs));
  PullAll t := let '(bs, e, r') := PullAll (tee_r t) in
               (bs, e, mkTee r' (tee_w t ++ bs));
  AsBuffer _ := None;
}.
End TeeReader.

(** ** The contract of [io.Reader] *)

Class ReaderSpec (R : Type) `{Reader R} := {
  view : R -> stream;
  view_Pull n r :
    let '(bs, e, r') := Pull n r in
    stream_pull n (view r) = (bs, e, view r');
  view_PullAll r :
    let '(bs, e, r') := PullAll r in
    s_data (view r) = bs /\ s_err (view r) = e /\ view r' = mkStream [] e;
}.

(** A reader that is not a [*bytes.Buffer]. *)
Class Unbuffered (R : Type) `{Reader R} := not_buffer (r : R) : AsBuffer r = None.

#[export] Instance stream_unbuffered : Unbuffered stream := fun _ => eq_refl.
#[export] Instance limited_unbuffered `{Reader R} : Unbuffered (LimitedReader R) :=
  fun _ => eq_refl.
#[export] Instance tee_unbuffered `{Reader R} : Unbuffered (TeeReader R) :=
  fun _ => eq_refl.

#[export] Instance stream_spec : ReaderSpec stream.
Proof.
  refine {| view s := s |}; [|done].
  intros n r. simpl. by destruct (stream_pull n r) as [[??]?].
Defined.

#[export] Instance buffer_spec : ReaderSpec buffer.
Proof.
  refine {| view := buffer_stream |}; [|done].
  intros n [d]. simpl. unfold stream_pull, buffer_stream. simpl. by destruct (n <=? len d).
Defined.

(** What is left of a limited reader. *)
Definition limit_stream (N : Z) (s : stream) : stream :=
  if N <=? len (s_data s) then mkStream (take (Z.to_nat N) (s_data s)) EOF else s.

Lemma len_take_le (n : Z) (l : bytes) : 0 <= n <= len l -> len (take (Z.to_nat n) l) = n.
Proof. intros. rewrite len_take; zlia. Qed.

Lemma stream_pull_neg n s : n <= 0 -> stream_pull n s = ([], None, s).
Proof.
  intros. unfold stream_pull. rewrite (proj2 (Z.leb_le _ _)) by zlia.
  replace (Z.to_nat n) with O by lia. by destruct s.
Qed.

Lemma limit_stream_pull (n N : Z) (s : stream) :
  0 <= n -> 0 <= N ->
  stream_pull n (limit_stream N s) =
  (let '(bs, e, s') := stream_pull (Z.min n N) s in
   (bs, if n <=? N then e else Some (default EOF e),
    limit_stream (N - len bs) s')).
Proof.
  intros Hn HN. destruct s as [d e]. unfold limit_stream, stream_pull. simpl.
  destruct (Z.leb_spec N (len d)); simpl; [rewrite len_take_le by lia|].
  - destruct (Z.leb_spec n N).
    + rewrite Z.min_l by lia. destruct (Z.leb_spec n (len d)); [|lia]. simpl.
      rewrite len_take_le by lia.
      replace (len (drop (Z.to_nat n) d)) with (len d - n)
        by (unfold len; rewrite length_drop; zlia).
      destruct (Z.leb_spec (N - n) (len d - n)); [|lia].
      rewrite take_take, take_drop_commute.
      repeat f_equal; lia.
    + rewrite Z.min_r by lia. destruct (Z.leb_spec N (len d)); [|lia]. simpl.
      rewrite len_take_le by lia. rewrite Z.sub_diag.
      destruct (Z.leb_spec 0 (len (drop (Z.to_nat N) d))); [done|].
      pose proof (len_nonneg (drop (Z.to_nat N) d)). lia.
  - destruct (Z.leb_spec n (len d)).
    + rewrite Z.min_l by lia. destruct (Z.leb_spec n (len d)); [|lia]. simpl.
      destruct (Z.leb_spec n N); [|lia]. rewrite len_take_le by lia.
      replace (len (drop (Z.to_nat n) d)) with (len d - n)
        by (unfold len; rewrite length_drop; zlia).
      destruct (Z.leb_spec (N - n) (len d - n)); [lia|done].
    + destruct (Z.leb_spec (Z.min n N) (len d)); [lia|]. simpl.
      destruct (Z.leb_spec (N - len d) 0); [lia|]. rewrite len_nil.
      destruct (Z.leb_spec (N - len d) 0); [lia|]. by case_match.
Qed.

Lemma stream_pull_len n s bs e s' :
  stream_pull n s = (bs, e, s') -> 0 <= len bs <= Z.max 0 n.
Proof.
  intros Hp. destruct (Z.le_gt_cases n 0).
  { rewrite stream_pull_neg in Hp by done. simplify_eq. len_lia. }
  unfold stream_pull in Hp.
  destruct (Z.leb_spec n (len (s_data s))); simplify_eq;
    [rewrite len_take_le|pose proof (len_nonneg (s_data s))]; lia.
Qed.

Section ViewInstances.
Context {R : Type} {HR : Reader R} {HS : ReaderSpec R}.

#[export] Instance limited_spec : ReaderSpec (LimitedReader R).
Proof.
  refine {| view l := limit_stream (Z.max 0 (lr_N l)) (view (lr_R l)) |}.
  - intros n [r N]. simpl. unfold limited_pull. simpl.
    destruct (Z.leb_spec n (Z.max 0 N)) as [Hc|Hc].
    + pose proof (view_Pull n r) as Hv.
      destruct (Pull n r) as [[bs e] r'] eqn:Ep. destruct (Z.le_gt_cases n 0).
      { rewrite stream_pull_neg in Hv by done. injection Hv as <- <- Hr.
        rewrite stream_pull_neg by done. simpl. rewrite Hr.
        change (len (@nil byte)) with 0. by rewrite Z.sub_0_r. }
      rewrite limit_stream_pull, Z.min_l, Hv by lia.
      rewrite (proj2 (Z.leb_le n (Z.max 0 N)) Hc).
      apply stream_pull_len in Hv. simpl. repeat f_equal; lia.
    + pose proof (view_Pull (Z.max 0 N) r) as Hv.
      destruct (Pull (Z.max 0 N) r) as [[bs e] r'] eqn:Ep.
      rewrite limit_stream_pull, Z.min_r, Hv by lia.
      rewrite (proj2 (Z.leb_gt n (Z.max 0 N)) Hc).
      apply stream_pull_len in Hv. simpl. repeat f_equal; lia.
  - intros [r N]. simpl.
    pose proof (view_Pull (Z.max 0 N) r) as Hv.
    destruct (Pull (Z.max 0 N) r) as [[bs e] r']. unfold stream_pull in Hv.
    simpl. unfold limit_stream.
    destruct (Z.leb_spec (Z.max 0 N) (len (s_data (view r)))) as [Hl|Hl];
      injection Hv as <- <- Hr; rewrite <- Hr; simpl.
    + rewrite len_take_le by lia. split; [done|]. split; [done|].
      replace (Z.max 0 (N - Z.max 0 N)) with 0 by lia.
      pose proof (len_nonneg (drop (Z.to_nat (Z.max 0 N)) (s_data (view r)))).
      by destruct (Z.leb_spec 0 (len (drop (Z.to_nat (Z.max 0 N)) (s_data (view r))))); [|lia].
    + split; [done|]. split; [done|]. change (len (@nil Byte.byte)) with 0.
      destruct (Z.leb_spec (Z.max 0 (N - len (s_data (view r)))) 0); [zlia|done].
Defined.

#[export] Instance tee_spec : ReaderSpec (TeeReader R).
Proof.
  refine {| view t := view (tee_r t) |}.
  - intros n [r w]. simpl. pose proof (view_Pull n r) as Hv.
    by destruct (Pull n r) as [[bs e] r'].
  - intros [r w]. simpl. pose proof (view_PullAll r) as Hv.
    by destruct (PullAll r) as [[bs e] r'].
Defined.
End ViewInstances.

(** ** Decoding programs *)

Inductive Dec (A : Type) : Type :=
| DRet (a : A)
| DFail (e : error)
| DRead (n : Z) (k : bytes * option error -> Dec A)   (* io.ReadFull(r, buf[:n]) *)
| DLen (k : option Z -> Dec A).                       (* r.( *bytes.Buffer).Len() *)
Arguments DRet {A} a.
Arguments DFail {A} e.
Arguments DRead {A} n k.
Arguments DLen {A} k.

Fixpoint dbind {A B} (d : Dec A) (f : A -> Dec B) : Dec B :=
  match d with
  | DRet a => f a
  | DFail e => DFail e
  | DRead n k => DRead n (fun x => dbind (k x) f)
  | DLen k => DLen (fun x => dbind (k x) f)
  end.

#[export] Instance Dec_ret : MRet Dec := @DRet.
#[export] Instance Dec_bind : MBind Dec := fun A B f d => dbind d f.

(** [if err != nil { return err }] after an [io.ReadFull]. *)
Definition readFull (n : Z) : Dec bytes :=
  DRead n (fun '(bs, e) => match e with None => DRet bs | Some e => DFail e end).

Definition lift {A} (x : result A) : Dec A :=
  match x with Ok a => DRet a | Err e => DFail e end.

(** [for i := 0; i < n; i++ { st = body(st) }] with early return on error. *)
Fixpoint dloop {St} (n : nat) (body : St -> Dec St) (st : St) : Dec St :=
  match n with
  | O => mret st
  | S n => st' ← body st; dloop n body st'
  end.

Section Run.
Context `{Reader R}.

Fixpoint run {A} (d : Dec A) (r : R) : result A * R :=
  match d with
  | DRet a => (Ok a, r)
  | DFail e => (Err e, r)
  | DRead n k => let '(bs, e, r') := ReadFull n r in run (k (bs, e)) r'
  | DLen k => run (k (AsBuffer r)) r
  end.

Lemma run_bind {A B} (d : Dec A) (f : A -> Dec B) r :
  run (d ≫= f) r =
  (let '(x, r') := run d r in
   match x with Ok a => run (f a) r' | Err e => (Err e, r') end).
Proof.
  unfold mbind, Dec_bind. revert r.
  induction d as [a|e|n k IH|k IH]; intros r; simpl; try done.
  destruct (ReadFull n r) as [[bs e] r']. apply IH.
Qed.

Lemma run_bind_Ok {A B} (d : Dec A) (f : A -> Dec B) r y r'' :
  run (d ≫= f) r = (Ok y, r'') <->
  exists a r', run d r = (Ok a, r') /\ run (f a) r' = (Ok y, r'').
Proof.
  rewrite run_bind. destruct (run d r) as [[a|e] r']; split; eauto;
    [intros (?&?&?&?); by simplify_eq | done | intros (?&?&?&?); by simplify_eq].
Qed.

Lemma run_bind_step {A B} (d : Dec A) (f : A -> Dec B) r a r' :
  run d r = (Ok a, r') -> run (d ≫= f) r = run (f a) r'.
Proof. intros Hd. by rewrite run_bind, Hd. Qed.

Lemma run_bind_err {A B} (d : Dec A) (f : A -> Dec B) r e r' :
  run d r = (Err e, r') -> run (d ≫= f) r = (Err e, r').
Proof. intros Hd. by rewrite run_bind, Hd. Qed.
End Run.

(** A decoder that never asks whether its reader is a [*bytes.Buffer]. *)
Fixpoint streamable {A} (d : Dec A) : Prop :=
  match d with
  | DRet _ | DFail _ => True
  | DRead _ k => forall x, streamable (k x)
  | DLen _ => False
  end.

Lemma streamable_bind {A B} (d : Dec A) (f : A -> Dec B) :
  streamable d -> (forall a, streamable (f a)) -> streamable (d ≫= f).
Proof.
  unfold mbind, Dec_bind. induction d as [a|e|n k IH|k IH]; simpl; auto.
Qed.
Lemma streamable_ret {A} (a : A) : streamable (mret a).
Proof. exact I. Qed.
Lemma streamable_fail {A} e : streamable (@DFail A e).
Proof. exact I. Qed.
Lemma streamable_readFull n : streamable (readFull n).
Proof. intros [bs [e|]]; exact I. Qed.
Lemma streamable_lift {A} (x : result A) : streamable (lift x).
Proof. by destruct x. Qed.
Lemma streamable_dloop {St} n (body : St -> Dec St) st :
  (forall s, streamable (body s)) -> streamable (dloop n body st).
Proof.
  intros Hb. revert st. induction n as [|n IH]; intros st; simpl; [exact I|].
  by apply streamable_bind.
Qed.

Create HintDb streamable.
#[export] Hint Resolve streamable_bind streamable_ret streamable_fail streamable_readFull
  streamable_lift streamable_dloop : streamable.

(** Follow the branches of a decoder. *)
Ltac solve_streamable :=
  intros; repeat first
    [ progress intros
    | exact I
    | solve [eauto with streamable nocore]
    | apply streamable_bind
    | apply streamable_dloop
    | match goal with
      | |- streamable (match ?x with _ => _ end) => destruct x
      end ].

(** *** What a decoder does depends on the stream it reads, on nothing else *)

Section RunView.
Context {R : Type} {HR : Reader R} {HS : ReaderSpec R}.

Lemma view_ReadFull n (r : R) :
  let '(bs, e, r') := ReadFull n r in
  ReadFull n (view r) = (bs, e, view r').
Proof.
  unfold ReadFull. pose proof (view_Pull n r) as Hv.
  destruct (Pull n r) as [[bs e] r']. simpl. by rewrite Hv.
Qed.

Lemma run_view_streamable {A} (d : Dec A) (r : R) :
  streamable d ->
  run d (view r) = (let '(x, r') := run d r in (x, view r')).
Proof.
  revert r. induction d as [a|e|n k IH|k IH]; intros r Hd; simpl; try done.
  pose proof (view_ReadFull n r) as Hv. destruct (ReadFull n r) as [[bs e] r'].
  rewrite Hv. apply IH, Hd.
Qed.

Lemma run_view {A} `{!Unbuffered R} (d : Dec A) (r : R) :
  run d (view r) = (let '(x, r') := run d r in (x, view r')).
Proof.
  revert r. induction d as [a|e|n k IH|k IH]; intros r; simpl; try done.
  - pose proof (view_ReadFull n r) as Hv. destruct (ReadFull n r) as [[bs e] r'].
    rewrite Hv. apply IH.
  - rewrite not_buffer. apply IH.
Qed.
End RunView.

(** A decoder reads a prefix of the stream and leaves its end as it is. *)
Lemma run_consumes {A} (d : Dec A) s x s' :
  run d s = (x, s') ->
  exists bs, s_data s = bs ++ s_data s' /\ s_err s' = s_err s.
Proof.
  revert s. induction d as [a|e|n k IH|k IH]; intros s Hr; simpl in Hr.
  1,2: exists []; naive_solver.
  - unfold ReadFull in Hr. simpl in Hr. unfold stream_pull in Hr.
    destruct (n <=? len (s_data s)); simpl in Hr;
      apply IH in Hr as (bs & Hd & He); simpl in *.
    + exists (take (Z.to_nat n) (s_data s) ++ bs).
      by rewrite <- app_assoc, <- Hd, take_drop.
    + exists (s_data s). split; [|done].
      symmetry in Hd. apply app_eq_nil in Hd as [_ ->]. by rewrite app_nil_r.
  - by eapply IH.
Qed.

(** ** The law of a decoder and the encoding it inverts *)

Definition decodes {A} (d : Dec A) (bs : bytes) (a : A) : Prop :=
  forall rest e, run d (mkStream (bs ++ rest) e) = (Ok a, mkStream rest e).

(** [codec_decodes]: the encoding of a well-formed value decodes to it and no
    byte more is read.  [codec_exact]: a successful decoding read exactly the
    encoding of the value it returns, which is well formed. *)
Class Codec {A} (d : Dec A) (enc : A -> bytes) (ok : A -> Prop) : Prop := {
  codec_decodes a : ok a -> decodes d (enc a) a;
  codec_exact s a s' : run d s = (Ok a, s') ->
    s = mkStream (enc a ++ s_data s') (s_err s') /\ ok a;
}.

Lemma decodes_ret {A} (a : A) : decodes (mret a) [] a.
Proof. by intros rest e. Qed.

Lemma decodes_bind {A B} (d : Dec A) (f : A -> Dec B) bs bs' a y :
  decodes d bs a -> decodes (f a) bs' y -> decodes (d ≫= f) (bs ++ bs') y.
Proof.
  intros Hd Hf rest e. rewrite <- app_assoc. erewrite run_bind_step by apply Hd.
  apply Hf.
Qed.

(** The last step of a decoder, whose result is returned as it is. *)
Lemma decodes_bind_last {A B} (d : Dec A) (f : A -> Dec B) bs a y :
  decodes d bs a -> decodes (f a) [] y -> decodes (d ≫= f) bs y.
Proof. intros Hd Hf. rewrite <- (app_nil_r bs). by eapply decodes_bind. Qed.

Lemma decodes_bind_skip {A B} (d : Dec A) (f : A -> Dec B) bs a y :
  decodes d [] a -> decodes (f a) bs y -> decodes (d ≫= f) bs y.
Proof. intros Hd Hf. change bs with ([] ++ bs). by eapply decodes_bind. Qed.

Lemma decodes_readFull n bs : n = len bs -> decodes (readFull n) bs bs.
Proof.
  intros -> rest e. simpl. unfold ReadFull. simpl. unfold stream_pull. simpl.
  rewrite (proj2 (Z.leb_le _ _)) by len_lia. simpl.
  by rewrite to_nat_len, take_app_length, drop_app_length.
Qed.

Lemma readFull_exact n s bs s' :
  0 <= n -> run (readFull n) s = (Ok bs, s') ->
  s = mkStream (bs ++ s_data s') (s_err s') /\ len bs = n.
Proof.
  intros Hn. simpl. unfold ReadFull. simpl. unfold stream_pull.
  destruct (Z.leb_spec n (len (s_data s))); simpl; intros Hr; simplify_eq. simpl.
  rewrite take_drop, len_take_le by lia. by destruct s.
Qed.

(** Fixed-size byte arrays. *)
Definition sized (n : Z) (bs : bytes) : Prop := len bs = n.

Lemma Codec_readFull n : 0 <= n -> Codec (readFull n) (fun bs => bs) (sized n).
Proof.
  intros Hn. split; [|intros s bs s'; by apply readFull_exact].
  intros bs Hs. by apply decodes_readFull.
Qed.

(** A decoder followed by a conversion. *)
Lemma Codec_map {A B} (d : Dec A) (f : A -> B) (g : B -> A) enc ok (ok' : B -> Prop) :
  Codec d enc ok ->
  (forall y, ok' y -> ok (g y) /\ f (g y) = y) ->
  (forall x, ok x -> ok' (f x) /\ g (f x) = x) ->
  Codec (x ← d; mret (f x)) (fun y => enc (g y)) ok'.
Proof.
  intros Hd Hgf Hfg. split.
  - intros y Hy. destruct (Hgf y Hy) as [Hg <-]. rewrite (proj2 (Hgf y Hy)).
    eapply decodes_bind_last; [by apply codec_decodes|]. rewrite (proj2 (Hgf y Hy)).
    apply decodes_ret.
  - intros s y s' Hr. apply run_bind_Ok in Hr as (x & s1 & Hx & Hy).
    apply codec_exact in Hx as [-> Hx]. injection Hy as <- <-. simpl.
    destruct (Hfg x Hx) as [? ->]. done.
Qed.

(** Replace an encoding or a well-formedness predicate by an equal one. *)
Lemma Codec_ext {A} (d : Dec A) enc enc' (ok ok' : A -> Prop) :
  Codec d enc ok -> (forall a, ok a -> enc a = enc' a) -> (forall a, ok a <-> ok' a) ->
  Codec d enc' ok'.
Proof.
  intros Hd He Ho. split.
  - intros a Ha. rewrite <- He by (by apply Ho). by apply codec_decodes, Ho.
  - intros s a s' Hr. apply codec_exact in Hr as [-> Ha].
    by rewrite He, <- Ho.
Qed.

(** Only what a decoder does on a stream matters. *)
Lemma Codec_run_ext {A} (d d' : Dec A) enc ok :
  (forall s : stream, run d s = run d' s) -> Codec d' enc ok -> Codec d enc ok.
Proof.
  intros E Hd. split; [intros a Ha rest e; rewrite E; by apply codec_decodes|].
  intros s a s' Hr. rewrite E in Hr. by apply codec_exact in Hr.
Qed.

(** Two decoders of one format return the same values. *)
Lemma Codec_agree {A} (d d' : Dec A) enc ok `{Hd : !Codec d enc ok} `{Hd' : !Codec d' enc ok}
    (s : stream) a s' :
  run d s = (Ok a, s') -> run d' s = (Ok a, s').
Proof.
  intros Hr. apply Hd in Hr as [-> Ha]. destruct s' as [rest e]. by apply Hd'.
Qed.

(** The laws on a [*bytes.Buffer]. *)
Lemma decodes_buffer {A} (d : Dec A) bs a rest :
  streamable d -> decodes d bs a -> run d (mkBuffer (bs ++ rest)) = (Ok a, mkBuffer rest).
Proof.
  intros Hd Ha. pose proof (run_view_streamable d (mkBuffer (bs ++ rest)) Hd) as Hv.
  cbn [view buffer_spec] in Hv. unfold buffer_stream in Hv. cbn [b_data] in Hv.
  rewrite Ha in Hv. destruct (run d (mkBuffer (bs ++ rest))) as [x [r]]. by injection Hv as <- <-.
Qed.

Lemma codec_decodes_buffer {A} (d : Dec A) enc ok `{!Codec d enc ok} a rest :
  streamable d -> ok a -> run d (mkBuffer (enc a ++ rest)) = (Ok a, mkBuffer rest).
Proof. intros Hd Ha. apply decodes_buffer; [done|]. by apply codec_decodes. Qed.

Lemma codec_exact_buffer {A} (d : Dec A) enc ok `{!Codec d enc ok} data a b' :
  streamable d -> run d (mkBuffer data) = (Ok a, b') -> data = enc a ++ b_data b' /\ ok a.
Proof.
  intros Hd Hr. pose proof (run_view_streamable d (mkBuffer data) Hd) as Hv. rewrite Hr in Hv.
  apply codec_exact in Hv as [Hv Hok]. by injection Hv as ->.
Qed.

(** Loops: [Inv st l] says that the elements [l] can still be read in [st]. *)
Section Loop.
Context {St A : Type} (body : St -> Dec St) (enc : A -> bytes) (step : St -> A -> St).

Lemma decodes_dloop (Inv : St -> list A -> Prop) l st :
  (forall st x l, Inv st (x :: l) ->
     decodes (body st) (enc x) (step st x) /\ Inv (step st x) l) ->
  Inv st l ->
  decodes (dloop (length l) body st) (concat (map enc l)) (fold_left step l st).
Proof.
  intros Hstep. revert st. induction l as [|x l IH]; intros st Hl; simpl.
  - apply decodes_ret.
  - destruct (Hstep _ _ _ Hl) as [Hx Hl']. eapply decodes_bind; [apply Hx|by apply IH].
Qed.

(** A loop that returns has read one encoding per round. *)
Lemma dloop_exact (ok : A -> Prop) n st s st' s' :
  (forall st s st' s', run (body st) s = (Ok st', s') ->
     exists x, st' = step st x /\ ok x /\ s = mkStream (enc x ++ s_data s') (s_err s')) ->
  run (dloop n body st) s = (Ok st', s') ->
  exists l, length l = n /\ Forall ok l /\ st' = fold_left step l st /\
    s = mkStream (concat (map enc l) ++ s_data s') (s_err s').
Proof.
  intros Hbody. revert st s. induction n as [|n IH]; intros st s Hr; simpl in Hr.
  - injection Hr as <- <-. exists []. simpl. by destruct s.
  - apply run_bind_Ok in Hr as (st1 & s1 & H1 & H2).
    apply Hbody in H1 as (x & -> & Hx & ->).
    apply IH in H2 as (l & <- & Hl & -> & ->).
    exists (x :: l). simpl. rewrite <- app_assoc. auto using Forall_cons.
Qed.
End Loop.

Lemma fold_left_snoc_map {A B} (f : A -> B) (l : list A) acc :
  fold_left (fun acc x => acc ++ [f x]) l acc = acc ++ map f l.
Proof.
  revert acc. induction l as [|x l IH]; intros acc; simpl.
  - by rewrite app_nil_r.
  - by rewrite IH, <- app_assoc.
Qed.

Lemma fold_left_snoc {A} (l acc : list A) :
  fold_left (fun acc x => acc ++ [x]) l acc = acc ++ l.
Proof. rewrite (fold_left_snoc_map (fun x => x)). by rewrite map_id. Qed.

(** [n] values read one after the other. *)
Definition dlist {A} (n : nat) (d : Dec A) : Dec (list A) :=
  dloop n (fun l => x ← d; mret (l ++ [x])) [].

Section DList.
Context {A} (d : Dec A) (enc : A -> bytes) (ok : A -> Prop) {Hd : Codec d enc ok}.

Lemma decodes_dlist l :
  Forall ok l -> decodes (dlist (length l) d) (concat (map enc l)) l.
Proof.
  intros Hl. unfold dlist. rewrite <- (app_nil_l l) at 3.
  rewrite <- (fold_left_snoc l []).
  eapply (decodes_dloop _ _ _ (fun _ l => Forall ok l)); [|done].
  intros st x k Hx. inversion Hx; subst. split; [|done].
  eapply decodes_bind_last; [by apply codec_decodes|apply decodes_ret].
Qed.

Lemma dlist_exact n s l s' :
  run (dlist n d) s = (Ok l, s') ->
  length l = n /\ Forall ok l /\ s = mkStream (concat (map enc l) ++ s_data s') (s_err s').
Proof.
  intros Hr. eapply (dloop_exact _ enc (fun st x => st ++ [x]) ok) in Hr.
  - destruct Hr as (k & Hn & Hk & -> & ->). by rewrite fold_left_snoc.
  - clear s l s' Hr. intros st s st' s' Hr. apply run_bind_Ok in Hr as (x & s1 & Hx & Hr).
    apply codec_exact in Hx as [-> Hx]. injection Hr as <- <-. eauto.
Qed.
End DList.

Lemma streamable_dlist {A} n (d : Dec A) : streamable d -> streamable (dlist n d).
Proof. intros Hd. unfold dlist. solve_streamable. Qed.
#[export] Hint Resolve streamable_dlist : streamable.

(** ** [io.Writer] and encoding programs *)

Class Writer (W : Type) := Write : bytes -> W -> Z * option error * W.

(** The [Write] calls an encoder makes, in order, and how it ends when they
    all succeed: [None], or the error it returns itself. *)
Record Enc := mkEnc { chunks : list bytes; outcome : option error }.

Definition edone : Enc := mkEnc [] None.
Definition efail (e : error) : Enc := mkEnc [] (Some e).
Definition ewrite (bs : bytes) : Enc := mkEnc [bs] None.

(** [if err := p(); err != nil { return err }; return q()] *)
Definition eseq (p q : Enc) : Enc :=
  match outcome p with
  | None => mkEnc (chunks p ++ chunks q) (outcome q)
  | Some _ => p
  end.

Declare Scope wire_scope.
Delimit Scope wire_scope with wire.
Infix ">>>" := eseq (at level 62, right associativity) : wire_scope.
#[global] Open Scope wire_scope.

(** [for _, x := range l { if err := f(x); err != nil { return err } }] *)
Fixpoint efor {A} (f : A -> Enc) (l : list A) : Enc :=
  match l with
  | [] => edone
  | x :: l => f x >>> efor f l
  end.

Definition written (p : Enc) : bytes := concat (chunks p).

Section RunE.
Context `{Writer W}.

Fixpoint write_all (l : list bytes) (w : W) : option error * W :=
  match l with
  | [] => (None, w)
  | bs :: l =>
      let '(_, e, w') := Write bs w in
      match e with Some e => (Some e, w') | None => write_all l w' end
  end.

Definition runE (p : Enc) (w : W) : option error * W :=
  let '(e, w') := write_all (chunks p) w in
  (match e with Some e => Some e | None => outcome p end, w').
End RunE.

(** [*bytes.Buffer] and [hash.Hash] as writers: [Write] appends and never
    returns an error. *)
#[export] Instance buffer_writer : Writer buffer :=
  fun bs w => (len bs, None, mkBuffer (b_data w ++ bs)).

Record hasher := mkHasher { h_data : bytes }.

#[export] Instance hasher_writer : Writer hasher :=
  fun bs w => (len bs, None, mkHasher (h_data w ++ bs)).

(** The contract of [io.Writer]: a short write comes with an error. *)
Class WriterSpec (W : Type) `{Writer W} := {
  out : W -> bytes;
  out_Write bs w : let '(n, e, w') := Write bs w in
    0 <= n <= len bs /\ out w' = out w ++ take (Z.to_nat n) bs /\
    (e = None -> n = len bs);
}.

Lemma take_len {A} (l : list A) : take (Z.to_nat (len l)) l = l.
Proof. rewrite to_nat_len. apply firstn_all. Qed.

#[export] Instance buffer_wspec : WriterSpec buffer.
Proof.
  refine {| out := b_data |}. intros bs w. simpl. rewrite take_len.
  pose proof (len_nonneg bs). split_and!; [lia..|done|done].
Defined.

#[export] Instance hasher_wspec : WriterSpec hasher.
Proof.
  refine {| out := h_data |}. intros bs w. simpl. rewrite take_len.
  pose proof (len_nonneg bs). split_and!; [lia..|done|done].
Defined.

Section WriterFacts.
Context {W : Type} {HW : Writer W} {HS : WriterSpec W}.

Lemma write_all_spec l (w : W) :
  let '(e, w') := write_all l w in
  (exists pre, pre `prefix_of` concat l /\ out w' = out w ++ pre) /\
  (e = None -> out w' = out w ++ concat l).
Proof.
  revert w. induction l as [|bs l IH]; intros w; simpl.
  - split; [exists []|]; rewrite ?app_nil_r; auto using prefix_nil.
  - pose proof (out_Write bs w) as Hw.
    destruct (Write bs w) as [[n [e|]] w']; destruct Hw as (Hn & Hout & He).
    + split; [|done]. exists (take (Z.to_nat n) bs). split; [|done].
      apply prefix_app_r. exists (drop (Z.to_nat n) bs). by rewrite take_drop.
    + specialize (IH w'). rewrite (He eq_refl), take_len in Hout.
      destruct (write_all l w') as [e w'']. destruct IH as [(pre & Hpre & Ho) Hf].
      rewrite Hout, <- app_assoc in *. split; [|done].
      exists (bs ++ pre). split; [by apply prefix_app|done].
Qed.

(** What any writer receives from an encoder: a prefix of [written p], and
    all of it when the encoder returns no error. *)
Lemma runE_spec (p : Enc) (w : W) :
  let '(e, w') := runE p w in
  (exists pre, pre `prefix_of` written p /\ out w' = out w ++ pre) /\
  (e = None -> outcome p = None /\ out w' = out w ++ written p).
Proof.
  unfold runE. pose proof (write_all_spec (chunks p) w) as Hw.
  destruct (write_all (chunks p) w) as [[e|] w']; destruct Hw as [Hp Hf];
    (split; [exact Hp|]); [done|auto].
Qed.
End WriterFacts.

Lemma runE_buffer p acc :
  runE p (mkBuffer acc) = (outcome p, mkBuffer (acc ++ written p)).
Proof.
  unfold runE, written. generalize (outcome p). generalize (chunks p). clear p.
  intros l. revert acc. induction l as [|bs l IH]; intros acc o; simpl.
  - by rewrite app_nil_r.
  - rewrite IH. simpl. by rewrite <- app_assoc.
Qed.

Lemma runE_hasher p acc :
  runE p (mkHasher acc) = (outcome p, mkHasher (acc ++ written p)).
Proof.
  unfold runE, written. generalize (outcome p). generalize (chunks p). clear p.
  intros l. revert acc. induction l as [|bs l IH]; intros acc o; simpl.
  - by rewrite app_nil_r.
  - rewrite IH. simpl. by rewrite <- app_assoc.
Qed.

(** *** Encoders that succeed *)

Definition encodes (p : Enc) (bs : bytes) : Prop := outcome p = None /\ written p = bs.

Lemma encodes_done : encodes edone [].
Proof. done. Qed.
Lemma encodes_write bs : encodes (ewrite bs) bs.
Proof. split; [done|]. unfold written. simpl. apply app_nil_r. Qed.
Lemma encodes_seq p q bs bs' :
  encodes p bs -> encodes q bs' -> encodes (p >>> q) (bs ++ bs').
Proof.
  intros [Hp <-] [Hq <-]. unfold encodes, eseq, written. rewrite Hp. simpl.
  by rewrite concat_app.
Qed.
Lemma encodes_for {A} (f : A -> Enc) (enc : A -> bytes) l :
  (forall x, x ∈ l -> encodes (f x) (enc x)) -> encodes (efor f l) (concat (map enc l)).
Proof.
  induction l as [|x l IH]; intros H; simpl; [apply encodes_done|].
  apply encodes_seq; [|apply IH]; set_solver.
Qed.

(** An encoder whose own errors are all of type [MessageError]. *)
Definition messageErrors (p : Enc) : Prop :=
  forall e, outcome p = Some e -> exists m, e = ErrMessage m.

Lemma messageErrors_ok p : outcome p = None -> messageErrors p.
Proof. intros Hp e He. congruence. Qed.
Lemma messageErrors_fail m : messageErrors (efail (ErrMessage m)).
Proof. intros e [= <-]. by exists m. Qed.
Lemma messageErrors_seq p q : messageErrors p -> messageErrors q -> messageErrors (p >>> q).
Proof. intros Hp Hq e. unfold eseq. destruct (outcome p) eqn:E; [rewrite E; intros [= ->]; auto|apply Hq]. Qed.
Lemma messageErrors_for {A} (f : A -> Enc) l :
  (forall x, messageErrors (f x)) -> messageErrors (efor f l).
Proof.
  intros Hf. induction l; [by apply messageErrors_ok|]. by apply messageErrors_seq.
Qed.

(** Follow the branches of an encoder, through the functions it calls. *)
Ltac solve_messageErrors :=
  repeat first
    [ by apply messageErrors_ok
    | by apply messageErrors_fail
    | apply messageErrors_seq
    | apply messageErrors_for; intros
    | match goal with
      | |- messageErrors (match ?x with _ => _ end) => destruct x eqn:?
      | |- messageErrors (let _ := _ in _) => cbv zeta
      | |- messageErrors (efail ?e) => unfold_head e
      | |- messageErrors (efail _) => fail 1
      | |- messageErrors ?p => unfold_head p; cbv beta
      end ].

Lemma eseq_None p q :
  outcome (p >>> q) = None -> outcome p = None /\ outcome q = None /\
  written (p >>> q) = written p ++ written q.
Proof.
  unfold eseq, written. destruct (outcome p) eqn:E; simpl; [congruence|].
  intros ->. by rewrite concat_app.
Qed.

Create HintDb encodes.
#[export] Hint Resolve encodes_done encodes_write encodes_seq encodes_for : encodes.
