(* ===== verification/Common.v ===== *)
(** * common.go: integers, elements, variable length data

    The free list of [binarySerializer] only supplies scratch buffers; it is
    modelled in [FreeList.v], where reading through it is proved equal to the
    direct reads used here. *)

From S2P Require Import Prelude Io.

(** ** Package state: the excessive block size, [SetLimits] (message.go) *)

Class Limits := mkLimits { ebs : Z }.

Definition SetLimits (excessiveBlockSize : Z) : Limits := mkLimits excessiveBlockSize.

(** The initial value of [ebs]. *)
Definition defaultLimits : Limits := mkLimits 32000000.

(** The arithmetic is that of [uint64]. *)
Definition maxMessagePayload `{Limits} : Z :=
  to_u64 (to_u64 (to_u64 (ebs / 1000000 * 1024) * 1024) * 2).

Definition MaxVarIntPayload : Z := 9.
Definition CommandSize : Z := 12.
Definition HashSize : Z := 32.

(** ** [time.Time] *)

Record Time := mkTime { t_sec : Z; t_nsec : Z }.

Definition time_Unix (sec nsec : Z) : Time := mkTime sec nsec.
Definition zeroTime : Time := mkTime (-62135596800) 0.

#[export] Instance time_eq_dec : EqDecision Time.
Proof. solve_decision. Defined.

(** ** [binaryFreeList]: fixed-width integers *)

Definition Uint8 : Dec Z := buf ← readFull 1; mret (b2z (hd Byte.x00 buf)).

Definition Uint16 (o : ByteOrder) : Dec Z := buf ← readFull 2; mret (get_uint o buf).
Definition Uint32 (o : ByteOrder) : Dec Z := buf ← readFull 4; mret (get_uint o buf).
Definition Uint64 (o : ByteOrder) : Dec Z := buf ← readFull 8; mret (get_uint o buf).

Definition PutUint8 (val : Z) : Enc := ewrite [z2b val].
Definition PutUint16 (o : ByteOrder) (val : Z) : Enc := ewrite (put_uint o 2 val).
Definition PutUint32 (o : ByteOrder) (val : Z) : Enc := ewrite (put_uint o 4 val).
Definition PutUint64 (o : ByteOrder) (val : Z) : Enc := ewrite (put_uint o 8 val).

(** ** [readElement]: the pointer types of its type switch *)

Inductive ElemTy :=
| Tint32 | Tuint32 | Tint64 | Tuint64 | Tbool | Tuint32Time | Tint64Time
| Tchecksum | Tcommand | Tip | Thash
| TServiceFlag | TInvType | TBitcoinNet | TBloomUpdateType | TRejectCode
| Tuint8.   (* uint8, FilterType: the [binary.Read] fallback *)

#[export] Instance elemty_eq_dec : EqDecision ElemTy.
Proof. solve_decision. Defined.

Definition elem_val (t : ElemTy) : Type :=
  match t with
  | Tbool => bool
  | Tuint32Time | Tint64Time => Time
  | Tchecksum | Tcommand | Tip | Thash => bytes
  | _ => Z
  end.

Definition readElement (t : ElemTy) : Dec (elem_val t) :=
  match t return Dec (elem_val t) with
  | Tint32 => rv ← Uint32 littleEndian; mret (to_i32 rv)
  | Tuint32 => Uint32 littleEndian
  | Tint64 => rv ← Uint64 littleEndian; mret (to_i64 rv)
  | Tuint64 => Uint64 littleEndian
  | Tbool => rv ← Uint8; mret (negb (rv =? 0))
  | Tuint32Time => rv ← Uint32 littleEndian; mret (time_Unix rv 0)
  | Tint64Time => rv ← Uint64 littleEndian; mret (time_Unix (to_i64 rv) 0)
  | Tchecksum => readFull 4
  | Tcommand => readFull CommandSize
  | Tip => readFull 16
  | Thash => readFull HashSize
  | TServiceFlag => Uint64 littleEndian
  | TInvType => Uint32 littleEndian
  | TBitcoinNet => Uint32 littleEndian
  | TBloomUpdateType => Uint8
  | TRejectCode => Uint8
  | Tuint8 => Uint8
  end.

Fixpoint elems_val (ts : list ElemTy) : Type :=
  match ts with [] => unit | t :: ts => elem_val t * elems_val ts end.

Fixpoint readElements (ts : list ElemTy) : Dec (elems_val ts) :=
  match ts return Dec (elems_val ts) with
  | [] => mret tt
  | t :: ts => v ← readElement t; vs ← readElements ts; mret (v, vs)
  end.

(** ** [writeElement]: the value types of its type switch *)

Inductive Elem :=
| Wint32 (e : Z) | Wuint32 (e : Z) | Wint64 (e : Z) | Wuint64 (e : Z) | Wbool (e : bool)
| Wchecksum (e : bytes) | Wcommand (e : bytes) | Wip (e : bytes) | Whash (e : bytes)
| WServiceFlag (e : Z) | WInvType (e : Z) | WBitcoinNet (e : Z)
| WBloomUpdateType (e : Z) | WRejectCode (e : Z)
(* the [binary.Write] fallback: uint8 and FilterType, *uint32, chainhash.Hash
   by value, []byte; one [Write] call each *)
| Wuint8 (e : Z) | Wuint32Ptr (e : Z) | WhashVal (e : bytes) | Wslice (e : bytes).

Definition writeElement (e : Elem) : Enc :=
  match e with
  | Wint32 e => PutUint32 littleEndian (to_u32 e)
  | Wuint32 e => PutUint32 littleEndian e
  | Wint64 e => PutUint64 littleEndian (to_u64 e)
  | Wuint64 e => PutUint64 littleEndian e
  | Wbool e => if e then PutUint8 1 else PutUint8 0
  | Wchecksum e | Wcommand e | Wip e | Whash e => ewrite e
  | WServiceFlag e => PutUint64 littleEndian e
  | WInvType e => PutUint32 littleEndian e
  | WBitcoinNet e => PutUint32 littleEndian e
  | WBloomUpdateType e => PutUint8 e
  | WRejectCode e => PutUint8 e
  | Wuint8 e => ewrite (put_uint littleEndian 1 e)
  | Wuint32Ptr e => ewrite (put_uint littleEndian 4 e)
  | WhashVal e | Wslice e => ewrite e
  end.

Definition writeElements (l : list Elem) : Enc := efor writeElement l.

(** ** Variable length integers *)

Definition errNonCanonicalVarInt : string :=
  "non-canonical varint %x - discriminant %x must encode a value greater than %x".

Definition canonical (rv discriminant minVal : Z) : Dec Z :=
  if rv <? minVal
  then DFail (messageError "ReadVarInt" errNonCanonicalVarInt
                [AInt rv; AInt discriminant; AInt minVal])
  else mret rv.

Definition ReadVarInt : Dec Z :=
  discriminant ← Uint8;
  if discriminant =? 0xff then
    rv ← Uint64 littleEndian; canonical rv discriminant 0x100000000
  else if discriminant =? 0xfe then
    rv ← Uint32 littleEndian; canonical rv discriminant 0x10000
  else if discriminant =? 0xfd then
    rv ← Uint16 littleEndian; canonical rv discriminant 0xfd
  else mret discriminant.

Definition WriteVarInt (val : Z) : Enc :=
  if val <? 0xfd then PutUint8 (to_u8 val)
  else if val <=? 0xffff then PutUint8 0xfd >>> PutUint16 littleEndian (to_u16 val)
  else if val <=? 0xffffffff then PutUint8 0xfe >>> PutUint32 littleEndian (to_u32 val)
  else PutUint8 0xff >>> PutUint64 littleEndian val.

Definition VarIntSerializeSize (val : Z) : Z :=
  if val <? 0xfd then 1
  else if val <=? 0xffff then 3
  else if val <=? 0xffffffff then 5
  else 9.

(** ** Variable length strings and byte arrays *)

Definition ReadVarString `{Limits} : Dec bytes :=
  count ← ReadVarInt;
  if count >? maxMessagePayload then
    DFail (messageError "ReadVarString" "variable length string is too long [count %d, max %d]"
             [AInt count; AInt maxMessagePayload])
  else readFull count.

Definition WriteVarString (s : bytes) : Enc :=
  WriteVarInt (len s) >>> ewrite s.

Definition ReadVarBytes (maxAllowed : Z) (fieldName : string) : Dec bytes :=
  count ← ReadVarInt;
  if count >? maxAllowed then
    DFail (messageError "ReadVarBytes" "%s is larger than the max allowed size [count %d, max %d]"
             [ABytes (str fieldName); AInt count; AInt maxAllowed])
  else readFull count.

Definition WriteVarBytes (s : bytes) : Enc :=
  WriteVarInt (len s) >>> ewrite s.

Definition randomUint64 : Dec Z := Uint64 bigEndian.

(** [rand.Reader] is the argument. *)
Definition RandomUint64 `{Reader R} (rand_Reader : R) : result Z * R := run randomUint64 rand_Reader.

(** ** Integers: the decoders invert the encoders *)

Lemma pow256 n : 2 ^ (8 * Z.of_nat n) = 256 ^ Z.of_nat n.
Proof. rewrite Z.pow_mul_r by lia. done. Qed.

Lemma Codec_uint o (n : nat) :
  Codec (buf ← readFull (Z.of_nat n); mret (get_uint o buf)) (put_uint o n)
    (fun z => 0 <= z < 2 ^ (8 * Z.of_nat n)).
Proof.
  apply (Codec_map _ (get_uint o) (put_uint o n) (fun bs => bs) (sized (Z.of_nat n))).
  - apply Codec_readFull, Nat2Z.is_nonneg.
  - intros z Hz. split; [apply len_put_uint|by apply get_put_uint_small].
  - intros bs Hbs. unfold sized, len in Hbs. rewrite <- Hbs.
    split; [apply get_uint_range|]. apply put_get_uint. lia.
Qed.

#[export] Instance Codec_Uint16 o : Codec (Uint16 o) (put_uint o 2) is_u16 := Codec_uint o 2.
#[export] Instance Codec_Uint32 o : Codec (Uint32 o) (put_uint o 4) is_u32 := Codec_uint o 4.
#[export] Instance Codec_Uint64 o : Codec (Uint64 o) (put_uint o 8) is_u64 := Codec_uint o 8.

Lemma put_uint_1 o z : put_uint o 1 z = [z2b z].
Proof. by destruct o. Qed.

#[export] Instance Codec_Uint8 : Codec Uint8 (put_uint littleEndian 1) is_u8.
Proof.
  apply (Codec_map _ (fun buf => b2z (hd Byte.x00 buf)) (put_uint littleEndian 1)
           (fun bs => bs) (sized 1)).
  - by apply (Codec_readFull 1).
  - intros z Hz. split; [apply len_put_uint|]. rewrite put_uint_1. simpl.
    rewrite byte.unsigned_of_Z. by apply Z.mod_small.
  - intros bs Hbs. unfold sized, len in Hbs.
    destruct bs as [|x [|]]; simpl in Hbs; try lia. cbn [hd].
    split; [apply byte.unsigned_range|]. rewrite put_uint_1. by rewrite byte.of_Z_unsigned.
Qed.

(** ** Elements *)

Definition elem_ok (t : ElemTy) : elem_val t -> Prop :=
  match t return elem_val t -> Prop with
  | Tint32 => is_i32
  | Tuint32 | TInvType | TBitcoinNet => is_u32
  | Tint64 => is_i64
  | Tuint64 | TServiceFlag => is_u64
  | Tbool => fun _ => True
  | Tuint32Time => fun t => is_u32 (t_sec t) /\ t_nsec t = 0
  | Tint64Time => fun t => is_i64 (t_sec t) /\ t_nsec t = 0
  | Tchecksum => sized 4
  | Tcommand => sized CommandSize
  | Tip => sized 16
  | Thash => sized HashSize
  | TBloomUpdateType | TRejectCode | Tuint8 => is_u8
  end.

(** The bytes of an element: its value as the code writes it. *)
Definition elem_bytes (t : ElemTy) : elem_val t -> bytes :=
  match t return elem_val t -> bytes with
  | Tint32 => fun z => put_uint littleEndian 4 (to_u32 z)
  | Tuint32 | TInvType | TBitcoinNet => put_uint littleEndian 4
  | Tint64 => fun z => put_uint littleEndian 8 (to_u64 z)
  | Tuint64 | TServiceFlag => put_uint littleEndian 8
  | Tbool => fun v => if v then [Byte.x01] else [Byte.x00]
  | Tuint32Time => fun t => put_uint littleEndian 4 (t_sec t)
  | Tint64Time => fun t => put_uint littleEndian 8 (to_u64 (t_sec t))
  | Tchecksum | Tcommand | Tip | Thash => fun bs => bs
  | TBloomUpdateType | TRejectCode | Tuint8 => put_uint littleEndian 1
  end.

Lemma Codec_Tint32 : Codec (readElement Tint32) (elem_bytes Tint32) is_i32.
Proof.
  apply (Codec_map (Uint32 littleEndian) to_i32 to_u32 _ is_u32); [apply _|..]; intros z Hz.
  - split; [apply to_u32_range|by apply to_i32_u32].
  - split; [apply to_i32_range|by apply to_u32_i32].
Qed.

Lemma Codec_Tint64 : Codec (readElement Tint64) (elem_bytes Tint64) is_i64.
Proof.
  apply (Codec_map (Uint64 littleEndian) to_i64 to_u64 _ is_u64); [apply _|..]; intros z Hz.
  - split; [apply to_u64_range|by apply to_i64_u64].
  - split; [apply to_i64_range|by apply to_u64_i64].
Qed.

Lemma Codec_Tuint32Time :
  Codec (readElement Tuint32Time) (elem_bytes Tuint32Time) (elem_ok Tuint32Time).
Proof.
  apply (Codec_map (Uint32 littleEndian) (fun rv => time_Unix rv 0) t_sec _ is_u32);
    [apply _|..]; [intros [z n] [Hz Hn]; simpl in *; by subst|by intros].
Qed.

Lemma Codec_Tint64Time :
  Codec (readElement Tint64Time) (elem_bytes Tint64Time) (elem_ok Tint64Time).
Proof.
  apply (Codec_map (Uint64 littleEndian) (fun rv => time_Unix (to_i64 rv) 0)
           (fun t => to_u64 (t_sec t)) _ is_u64); [apply _|..].
  - intros [z n] [Hz Hn]. simpl in *. subst n. unfold time_Unix.
    rewrite to_i64_u64 by done. split; [apply to_u64_range|done].
  - intros z Hz. simpl. split; [split; [apply to_i64_range|done]|by apply to_u64_i64].
Qed.

(** Every element type but [bool] has one encoding per value; a [bool] is
    read from any byte. *)
Lemma Codec_elem t : t <> Tbool -> Codec (readElement t) (elem_bytes t) (elem_ok t).
Proof.
  destruct t; intros Ht; try done; simpl;
    first [ apply _ | apply Codec_Tint32 | apply Codec_Tint64 | apply Codec_Tuint32Time
          | apply Codec_Tint64Time | by apply Codec_readFull ].
Qed.

Lemma decodes_elem t v : elem_ok t v -> decodes (readElement t) (elem_bytes t v) v.
Proof.
  destruct (decide (t = Tbool)) as [->|Ht].
  - intros _. cbn [readElement elem_bytes].
    eapply decodes_bind_last with (a := if v then 1 else 0).
    + replace (if v then [Byte.x01] else [Byte.x00])
        with (put_uint littleEndian 1 (if v then 1 else 0)) by (by destruct v).
      apply codec_decodes. by destruct v.
    + destruct v; apply decodes_ret.
  - apply Codec_elem; done.
Qed.

Fixpoint elems_ok (ts : list ElemTy) : elems_val ts -> Prop :=
  match ts return elems_val ts -> Prop with
  | [] => fun _ => True
  | t :: ts => fun v => elem_ok t (fst v) /\ elems_ok ts (snd v)
  end.

Fixpoint elems_bytes (ts : list ElemTy) : elems_val ts -> bytes :=
  match ts return elems_val ts -> bytes with
  | [] => fun _ => []
  | t :: ts => fun v => elem_bytes t (fst v) ++ elems_bytes ts (snd v)
  end.

Lemma decodes_elems ts v : elems_ok ts v -> decodes (readElements ts) (elems_bytes ts v) v.
Proof.
  induction ts as [|t ts IH]; simpl; [by destruct v|].
  destruct v as [v vs]. intros [Hv Hvs]. simpl in *.
  eapply decodes_bind; [by apply decodes_elem|].
  eapply decodes_bind_last; [by apply IH|apply decodes_ret].
Qed.

Lemma Codec_elems ts :
  Forall (fun t => t <> Tbool) ts ->
  Codec (readElements ts) (elems_bytes ts) (elems_ok ts).
Proof.
  intros Hts. split; [apply decodes_elems|].
  induction Hts as [|t ts Ht Hts IH]; intros s v s' Hr; simpl in *.
  - injection Hr as <- <-. by destruct s.
  - apply run_bind_Ok in Hr as (x & s1 & Hx & Hr).
    apply run_bind_Ok in Hr as (xs & s2 & Hxs & Hr). injection Hr as <- <-. simpl.
    apply (Codec_elem t Ht) in Hx as [-> Hx]. apply IH in Hxs as [-> Hxs].
    by rewrite <- app_assoc.
Qed.

(** The encoded size of an element. *)
Definition elem_size (t : ElemTy) : Z :=
  match t with
  | Tint32 | Tuint32 | Tuint32Time | TInvType | TBitcoinNet | Tchecksum => 4
  | Tint64 | Tuint64 | Tint64Time | TServiceFlag => 8
  | Tbool | TBloomUpdateType | TRejectCode | Tuint8 => 1
  | Tcommand => CommandSize
  | Tip => 16
  | Thash => HashSize
  end.

Lemma len_elem_bytes t v : elem_ok t v -> len (elem_bytes t v) = elem_size t.
Proof.
  destruct t; cbn [elem_ok elem_bytes elem_size]; intros; rewrite ?len_put_uint; try done.
  by destruct v.
Qed.

Lemma len_elems_bytes ts v :
  elems_ok ts v -> len (elems_bytes ts v) = zsum (map elem_size ts).
Proof.
  induction ts as [|t ts IH]; [done|]. destruct v as [v vs]. intros [Hv Hvs].
  cbn [elems_bytes fst snd]. rewrite len_app, len_elem_bytes, IH by done. done.
Qed.

#[export] Hint Extern 0 (@Codec _ (readElements ?ts) _ _) =>
  refine (Codec_elems ts _); repeat constructor; discriminate : typeclass_instances.
#[export] Hint Extern 0 (@Codec _ (readElement ?t) _ _) =>
  refine (Codec_elem t _); discriminate : typeclass_instances.

(** The bytes an element is written as; no [writeElement] fails by itself. *)
Definition Elem_bytes (e : Elem) : bytes :=
  match e with
  | Wint32 e => elem_bytes Tint32 e
  | Wuint32 e | WInvType e | WBitcoinNet e | Wuint32Ptr e => elem_bytes Tuint32 e
  | Wint64 e => elem_bytes Tint64 e
  | Wuint64 e | WServiceFlag e => elem_bytes Tuint64 e
  | Wbool e => elem_bytes Tbool e
  | Wchecksum e | Wcommand e | Wip e | Whash e | WhashVal e | Wslice e => e
  | WBloomUpdateType e | WRejectCode e | Wuint8 e => elem_bytes Tuint8 e
  end.

Lemma encodes_PutUint8 val : encodes (PutUint8 val) (put_uint littleEndian 1 val).
Proof. apply encodes_write. Qed.
Lemma encodes_PutUint16 o val : encodes (PutUint16 o val) (put_uint o 2 val).
Proof. apply encodes_write. Qed.
Lemma encodes_PutUint32 o val : encodes (PutUint32 o val) (put_uint o 4 val).
Proof. apply encodes_write. Qed.
Lemma encodes_PutUint64 o val : encodes (PutUint64 o val) (put_uint o 8 val).
Proof. apply encodes_write. Qed.

Lemma encodes_writeElement e : encodes (writeElement e) (Elem_bytes e).
Proof. destruct e as [| | | |[]| | | | | | | | | | | | |]; apply encodes_write. Qed.

Lemma encodes_writeElements l : encodes (writeElements l) (concat (map Elem_bytes l)).
Proof. apply encodes_for. intros e _. apply encodes_writeElement. Qed.

#[export] Hint Resolve encodes_PutUint8 encodes_PutUint16 encodes_PutUint32 encodes_PutUint64
  encodes_writeElement encodes_writeElements : encodes.

(** ** Variable length integers *)

Definition varint_bytes (val : Z) : bytes :=
  if val <? 0xfd then put_uint littleEndian 1 (to_u8 val)
  else if val <=? 0xffff then put_uint littleEndian 1 0xfd ++ put_uint littleEndian 2 (to_u16 val)
  else if val <=? 0xffffffff then put_uint littleEndian 1 0xfe ++ put_uint littleEndian 4 (to_u32 val)
  else put_uint littleEndian 1 0xff ++ put_uint littleEndian 8 val.

Lemma encodes_WriteVarInt val : encodes (WriteVarInt val) (varint_bytes val).
Proof.
  unfold WriteVarInt, varint_bytes. repeat case_match; auto with encodes.
Qed.

Lemma len_varint_bytes val : len (varint_bytes val) = VarIntSerializeSize val.
Proof. unfold varint_bytes, VarIntSerializeSize. repeat case_match; len_lia. Qed.

Lemma VarIntSerializeSize_bound val : 1 <= VarIntSerializeSize val <= MaxVarIntPayload.
Proof. unfold VarIntSerializeSize, MaxVarIntPayload. repeat case_match; lia. Qed.

Lemma VarIntSerializeSize_mono x y : x <= y -> VarIntSerializeSize x <= VarIntSerializeSize y.
Proof.
  intros Hxy. unfold VarIntSerializeSize.
  repeat match goal with
  | |- context [?a <? ?b] => destruct (Z.ltb_spec a b); try lia
  | |- context [?a <=? ?b] => destruct (Z.leb_spec a b); try lia
  end.
Qed.

(** Inversion of a decoder that returned: split its sequence of steps and read
    off, with the laws of the steps, the bytes each one consumed. *)
Ltac run_split :=
  repeat match goal with
  | H : run (_ ≫= _) _ = (Ok _, _) |- _ =>
      let a := fresh "v" in let s := fresh "s" in let H1 := fresh "Hr" in
      apply run_bind_Ok in H as (a & s & H1 & H)
  | H : run (mret _) _ = (Ok _, _) |- _ => injection H as <- <-
  | H : run (DRet _) _ = (Ok _, _) |- _ => injection H as <- <-
  | H : run (DFail _) _ = (Ok _, _) |- _ => discriminate H
  | H : run (match ?v with pair _ _ => _ end) _ = (Ok _, _) |- _ => destruct v
  | H : run (if ?c then _ else _) _ = (Ok _, _) |- _ =>
      let E := fresh "Ec" in destruct c eqn:E
  end.

Ltac run_exact :=
  repeat (run_split; match goal with
  | H : run _ ?s = (Ok _, _) |- _ =>
      apply codec_exact in H;
      let E := fresh "Eq" in let Ho := fresh "Hok" in destruct H as [E Ho];
      subst s
  end); run_split;
  repeat match goal with u : unit |- _ => destruct u end;
  cbn [s_data s_err elems_ok fst snd] in *.

Lemma canonical_Ok rv d m (s : stream) v s' :
  run (canonical rv d m) s = (Ok v, s') -> v = rv /\ m <= rv /\ s' = s.
Proof.
  unfold canonical. intros Hr. destruct (Z.ltb_spec rv m); [discriminate Hr|].
  by injection Hr as <- <-.
Qed.

Lemma decodes_canonical rv d m : m <= rv -> decodes (canonical rv d m) [] rv.
Proof.
  intros Hm. unfold canonical. rewrite (proj2 (Z.ltb_ge _ _)) by lia. apply decodes_ret.
Qed.

Lemma decodes_ReadVarInt val : is_u64 val -> decodes ReadVarInt (varint_bytes val) val.
Proof.
  intros Hv. unfold ReadVarInt, varint_bytes.
  destruct (Z.ltb_spec val 0xfd).
  { rewrite to_u8_id by zlia.
    eapply decodes_bind_last; [apply codec_decodes; zlia|].
    repeat (case_match; [lia|]). apply decodes_ret. }
  destruct (Z.leb_spec val 0xffff); [|destruct (Z.leb_spec val 0xffffffff)];
    (eapply decodes_bind; [by apply codec_decodes|]); cbn [Z.eqb];
    rewrite ?to_u16_id, ?to_u32_id by zlia;
    (eapply decodes_bind_last; [apply codec_decodes; zlia|]);
    apply decodes_canonical; lia.
Qed.

Lemma ReadVarInt_exact s val s' :
  run ReadVarInt s = (Ok val, s') ->
  s = mkStream (varint_bytes val ++ s_data s') (s_err s') /\ is_u64 val.
Proof.
  intros Hr. unfold ReadVarInt in Hr. run_exact. all: cbn [s_data s_err] in *.
  1-3: apply canonical_Ok in Hr as (-> & Hm & ->); rewrite app_assoc.
  all: unfold varint_bytes.
  all: repeat match goal with
  | H : (_ =? _) = true |- _ => apply Z.eqb_eq in H; subst
  | H : (_ =? _) = false |- _ => apply Z.eqb_neq in H
  | |- context [?x <? ?y] => destruct (Z.ltb_spec x y); try zlia
  | |- context [?x <=? ?y] => destruct (Z.leb_spec x y); try zlia
  end.
  all: rewrite ?to_u8_id, ?to_u16_id, ?to_u32_id by zlia; split; [done|zlia].
Qed.

#[export] Instance Codec_ReadVarInt : Codec ReadVarInt varint_bytes is_u64.
Proof. split; [apply decodes_ReadVarInt|apply ReadVarInt_exact]. Qed.

(** ** Variable length data *)

Definition var_bytes (s : bytes) : bytes := varint_bytes (len s) ++ s.

Definition var_ok (max : Z) (s : bytes) : Prop := len s <= max /\ is_u64 (len s).

Lemma encodes_WriteVarBytes s : encodes (WriteVarBytes s) (var_bytes s).
Proof. apply encodes_seq; [apply encodes_WriteVarInt|apply encodes_write]. Qed.

Lemma encodes_WriteVarString s : encodes (WriteVarString s) (var_bytes s).
Proof. apply encodes_WriteVarBytes. Qed.

#[export] Hint Resolve encodes_WriteVarInt encodes_WriteVarBytes encodes_WriteVarString : encodes.

Lemma len_var_bytes s : len (var_bytes s) = VarIntSerializeSize (len s) + len s.
Proof. unfold var_bytes. by rewrite len_app, len_varint_bytes. Qed.

#[export] Hint Rewrite len_varint_bytes len_var_bytes : len.

(** A count, its bound, and that many bytes. *)
Lemma Codec_counted (max : Z) (e : Z -> error) :
  Codec (count ← ReadVarInt; if count >? max then DFail (e count) else readFull count)
    var_bytes (var_ok max).
Proof.
  split.
  - intros s [Hm Hu]. eapply decodes_bind; [by apply codec_decodes|].
    rewrite Z.gtb_ltb, (proj2 (Z.ltb_ge _ _)) by lia. by apply decodes_readFull.
  - intros s bs s' Hr. apply run_bind_Ok in Hr as (c & s1 & Hc & Hr).
    apply codec_exact in Hc as [-> Hc]. rewrite Z.gtb_ltb in Hr.
    destruct (Z.ltb_spec max c); [discriminate Hr|].
    apply readFull_exact in Hr as [-> <-]; [|zlia]. cbn [s_data s_err].
    unfold var_bytes. by rewrite <- app_assoc.
Qed.

#[export] Instance Codec_ReadVarBytes max name :
  Codec (ReadVarBytes max name) var_bytes (var_ok max).
Proof.
  apply (Codec_counted max (fun count => messageError "ReadVarBytes" _
           [ABytes (str name); AInt count; AInt max])).
Qed.

#[export] Instance Codec_ReadVarString `{Limits} :
  Codec ReadVarString var_bytes (var_ok maxMessagePayload).
Proof.
  apply (Codec_counted _ (fun count => messageError "ReadVarString" _
           [AInt count; AInt maxMessagePayload])).
Qed.

(** A count, its bound, and that many values. *)
Section CountedList.
Context {A} (d : Dec A) (enc : A -> bytes) (ok : A -> Prop) {Hd : Codec d enc ok}.

Definition list_bytes (l : list A) : bytes := varint_bytes (len l) ++ concat (map enc l).
Definition list_ok (max : Z) (l : list A) : Prop :=
  len l <= max /\ is_u64 (len l) /\ Forall ok l.

Lemma Codec_counted_list (max : Z) (e : Z -> error) :
  Codec (count ← ReadVarInt;
         if count >? max then DFail (e count) else dlist (Z.to_nat count) d)
    list_bytes (list_ok max).
Proof.
  split.
  - intros l (Hm & Hu & Hl). eapply decodes_bind; [by apply codec_decodes|].
    rewrite Z.gtb_ltb, (proj2 (Z.ltb_ge _ _)) by lia. rewrite to_nat_len.
    by apply (decodes_dlist d enc ok).
  - intros s l s' Hr. apply run_bind_Ok in Hr as (c & s1 & Hc & Hr).
    apply codec_exact in Hc as [-> Hc]. rewrite Z.gtb_ltb in Hr.
    destruct (Z.ltb_spec max c); [discriminate Hr|].
    apply (dlist_exact d enc ok) in Hr as (Hn & Hl & ->). cbn [s_data s_err].
    assert (c = len l) as -> by zlia.
    unfold list_bytes, list_ok. by rewrite <- app_assoc.
Qed.
End CountedList.

Lemma len_list_bytes {A} (enc : A -> bytes) l :
  len (list_bytes enc l) = VarIntSerializeSize (len l) + zsum (map (fun x => len (enc x)) l).
Proof. unfold list_bytes. by rewrite len_app, len_varint_bytes, len_concat_map. Qed.

Lemma encodes_counted {A} (f : A -> Enc) (enc : A -> bytes) l :
  (forall x, encodes (f x) (enc x)) ->
  encodes (WriteVarInt (len l) >>> efor f l) (list_bytes enc l).
Proof. intros H. apply encodes_seq; auto with encodes. Qed.

(** ** Streamability *)

Lemma streamable_Uint8 : streamable Uint8.
Proof. solve_streamable. Qed.
Lemma streamable_Uint16 o : streamable (Uint16 o).
Proof. solve_streamable. Qed.
Lemma streamable_Uint32 o : streamable (Uint32 o).
Proof. solve_streamable. Qed.
Lemma streamable_Uint64 o : streamable (Uint64 o).
Proof. solve_streamable. Qed.
#[export] Hint Resolve streamable_Uint8 streamable_Uint16 streamable_Uint32 streamable_Uint64
  : streamable.

Lemma streamable_readElement t : streamable (readElement t).
Proof. destruct t; cbn [readElement]; solve_streamable. Qed.
#[export] Hint Resolve streamable_readElement : streamable.

Lemma streamable_readElements ts : streamable (readElements ts).
Proof. induction ts; cbn [readElements]; solve_streamable. Qed.

Lemma streamable_ReadVarInt : streamable ReadVarInt.
Proof. unfold ReadVarInt, canonical. solve_streamable. Qed.
#[export] Hint Resolve streamable_readElements streamable_ReadVarInt : streamable.

Lemma streamable_ReadVarBytes max name : streamable (ReadVarBytes max name).
Proof. unfold ReadVarBytes. solve_streamable. Qed.
Lemma streamable_ReadVarString `{Limits} : streamable ReadVarString.
Proof. unfold ReadVarString. solve_streamable. Qed.
#[export] Hint Resolve streamable_ReadVarBytes streamable_ReadVarString : streamable.

(** One step of a decoder on the encoding of a known value. *)
Ltac dec_prim :=
  lazymatch goal with
  | |- @decodes _ (readElements ?ts) (elems_bytes _ ?v) _ => refine (decodes_elems ts v _)
  | |- @decodes _ (readElement ?t) (elem_bytes _ ?v) _ => refine (decodes_elem t v _)
  | |- @decodes _ (mret _) _ _ => apply decodes_ret
  | |- _ => apply codec_decodes
  end.

(** ** Theorems *)

(** C31: the variable length integers have exactly one encoding.  [ReadVarInt]
    succeeds with [v] on precisely the streams that begin with what
    [WriteVarInt] writes for [v] (every [uint64] is written), reads just these
    bytes, and their number is [VarIntSerializeSize v]. *)
Theorem ReadVarInt_canonical (s : stream) v s' :
  (run ReadVarInt s = (Ok v, s') <->
   is_u64 v /\ s = mkStream (written (WriteVarInt v) ++ s_data s') (s_err s')) /\
  outcome (WriteVarInt v) = None /\ len (written (WriteVarInt v)) = VarIntSerializeSize v.
Proof.
  destruct (encodes_WriteVarInt v) as [-> ->]. split; [|by rewrite len_varint_bytes].
  split.
  - intros Hr. by apply ReadVarInt_exact in Hr as [-> Hv].
  - intros [Hv ->]. destruct s' as [d e]. by apply decodes_ReadVarInt.
Qed.

Lemma run_Uint8 d rest e :
  is_u8 d -> run Uint8 (mkStream (z2b d :: rest) e) = (Ok d, mkStream rest e).
Proof.
  intros Hd. change (z2b d :: rest) with (put_uint littleEndian 1 d ++ rest). by apply codec_decodes.
Qed.

(** An integer written in a longer form than needed is refused with the
    [MessageError] that names it, for each of the three long forms. *)
Theorem ReadVarInt_nonminimal v rest e :
  let refused d n min :=
    run ReadVarInt (mkStream (z2b d :: put_uint littleEndian n v ++ rest) e) =
    (Err (messageError "ReadVarInt" errNonCanonicalVarInt [AInt v; AInt d; AInt min]),
     mkStream rest e) in
  (0 <= v < 0xfd -> refused 0xfd 2%nat 0xfd) /\
  (0 <= v < 0x10000 -> refused 0xfe 4%nat 0x10000) /\
  (0 <= v < 0x100000000 -> refused 0xff 8%nat 0x100000000).
Proof.
  intros refused. unfold refused, ReadVarInt.
  split_and!; intros Hv; (erewrite run_bind_step; [|by apply run_Uint8]);
    cbn [Z.eqb Pos.eqb]; (erewrite run_bind_step; [|apply codec_decodes; zlia]);
    unfold canonical; by rewrite (proj2 (Z.ltb_lt _ _)) by lia.
Qed.

(** C32: [ReadVarBytes] succeeds with [bs] on precisely the streams that begin
    with what [WriteVarBytes] writes for [bs], when [bs] is within the limit;
    an announced length above the limit is refused before any of the data is
    read. *)
Theorem ReadVarBytes_bounded max name (s : stream) bs s' count rest e :
  (run (ReadVarBytes max name) s = (Ok bs, s') <->
   len bs <= max /\ is_u64 (len bs) /\
   s = mkStream (written (WriteVarBytes bs) ++ s_data s') (s_err s')) /\
  (is_u64 count -> max < count ->
   run (ReadVarBytes max name) (mkStream (written (WriteVarInt count) ++ rest) e) =
   (Err (messageError "ReadVarBytes" "%s is larger than the max allowed size [count %d, max %d]"
           [ABytes (str name); AInt count; AInt max]), mkStream rest e)).
Proof.
  destruct (encodes_WriteVarBytes bs) as [_ ->], (encodes_WriteVarInt count) as [_ ->].
  split; [split|].
  - intros Hr. by apply codec_exact in Hr as [-> []].
  - intros (Hm & Hu & ->). destruct s' as [d e']. by apply codec_decodes.
  - intros Hc Hm. unfold ReadVarBytes. erewrite run_bind_step by (by apply decodes_ReadVarInt).
    by rewrite Z.gtb_ltb, (proj2 (Z.ltb_lt _ _)) by lia.
Qed.

(** The element that [writeElement] is given for a value read as [t]; times
    are written as the integers of their width. *)
Definition elem_of (t : ElemTy) : elem_val t -> Elem :=
  match t return elem_val t -> Elem with
  | Tint32 => Wint32 | Tuint32 => Wuint32 | Tint64 => Wint64 | Tuint64 => Wuint64
  | Tbool => Wbool | Tuint32Time => fun t => Wuint32 (t_sec t)
  | Tint64Time => fun t => Wint64 (t_sec t)
  | Tchecksum => Wchecksum | Tcommand => Wcommand | Tip => Wip | Thash => Whash
  | TServiceFlag => WServiceFlag | TInvType => WInvType | TBitcoinNet => WBitcoinNet
  | TBloomUpdateType => WBloomUpdateType | TRejectCode => WRejectCode | Tuint8 => Wuint8
  end.

Fixpoint elems_of (ts : list ElemTy) : elems_val ts -> list Elem :=
  match ts return elems_val ts -> list Elem with
  | [] => fun _ => []
  | t :: ts => fun v => elem_of t (fst v) :: elems_of ts (snd v)
  end.

Lemma elems_of_bytes ts v : concat (map Elem_bytes (elems_of ts v)) = elems_bytes ts v.
Proof.
  induction ts as [|t ts IH]; [done|]. destruct v as [v vs].
  cbn [elems_of map concat elems_bytes fst snd]. rewrite IH. by destruct t.
Qed.

(** [readElements] inverts [writeElements] on every sequence of element
    types: a sequence of values of these types is written without error and
    read back, and what was read re-encodes to the bytes that were consumed
    (the [bool] apart, for which any non-zero byte is read as true). *)
Theorem Elements_roundtrip ts (v : elems_val ts) (s s' : stream) :
  (elems_ok ts v ->
   outcome (writeElements (elems_of ts v)) = None /\
   decodes (readElements ts) (written (writeElements (elems_of ts v))) v) /\
  (Tbool ∉ ts -> run (readElements ts) s = (Ok v, s') ->
   elems_ok ts v /\
   s = mkStream (written (writeElements (elems_of ts v)) ++ s_data s') (s_err s')).
Proof.
  destruct (encodes_writeElements (elems_of ts v)) as [Ho ->]. rewrite elems_of_bytes.
  split; [intros Hok; split; [done|by apply decodes_elems]|].
  intros Hb Hr. assert (Codec (readElements ts) (elems_bytes ts) (elems_ok ts)) as Hc.
  { apply Codec_elems. apply list.Forall_forall. intros t Ht ->. done. }
  by apply codec_exact in Hr as [-> Hok].
Qed.
