(* ===== verification/Sha256.v ===== *)
(** * crypto/sha256

    [sha256.Sum256] as a function on bytes, and the incremental
    [sha256.New()] / [Write] / [Sum] of [message.go] and [msg_tx.go]: the hash
    of everything written.  The constants are computed from their definition,
    the fractional parts of roots of the first primes. *)

From S2P Require Import Prelude Io.

Definition add32 (x y : Z) : Z := to_u32 (x + y).

Definition rotr (n x : Z) : Z := Z.lor (Z.shiftr x n) (to_u32 (Z.shiftl x (32 - n))).

Fixpoint no_divisor (p : Z) (ds : list Z) : bool :=
  match ds with
  | [] => true
  | d :: ds => negb (p mod d =? 0) && no_divisor p ds
  end.

(** The primes below [2 + fuel], in increasing order. *)
Fixpoint primes_upto (fuel : nat) (p : Z) (acc : list Z) : list Z :=
  match fuel with
  | O => acc
  | S fuel => primes_upto fuel (p + 1) (if no_divisor p acc then acc ++ [p] else acc)
  end.

(** The largest [r] with [r ^ 3 <= n], by bisection of [lo, lo + 2 ^ k). *)
Fixpoint cbrt (k : nat) (lo n : Z) : Z :=
  match k with
  | O => lo
  | S k => let mid := lo + 2 ^ Z.of_nat k in
           if mid * mid * mid <=? n then cbrt k mid n else cbrt k lo n
  end.

Definition K256 : list Z :=
  Eval vm_compute in map (fun p => to_u32 (cbrt 40 0 (p * 2 ^ 96))) (primes_upto 310 2 []).

Definition H256 : list Z :=
  Eval vm_compute in map (fun p => to_u32 (Z.sqrt (p * 2 ^ 64))) (primes_upto 18 2 []).

(** The message schedule, most recent word first: 16 words of the block and
    48 derived ones. *)
Definition schedule_word (w : list Z) : Z :=
  let x := nth 14 w 0 in
  let y := nth 1 w 0 in
  let s0 := Z.lxor (Z.lxor (rotr 7 x) (rotr 18 x)) (Z.shiftr x 3) in
  let s1 := Z.lxor (Z.lxor (rotr 17 y) (rotr 19 y)) (Z.shiftr y 10) in
  add32 (add32 s1 (nth 6 w 0)) (add32 s0 (nth 15 w 0)).

Fixpoint schedule (n : nat) (w : list Z) : list Z :=
  match n with
  | O => rev w
  | S n => schedule n (schedule_word w :: w)
  end.

Record regs := mkRegs { rA : Z; rB : Z; rC : Z; rD : Z; rE : Z; rF : Z; rG : Z; rH : Z }.

Definition round (r : regs) (kw : Z * Z) : regs :=
  let '(mkRegs a b c d e f g h) := r in
  let S1 := Z.lxor (Z.lxor (rotr 6 e) (rotr 11 e)) (rotr 25 e) in
  let ch := Z.lxor (Z.land e f) (Z.land (2 ^ 32 - 1 - e) g) in
  let t1 := add32 (add32 h S1) (add32 ch (add32 (fst kw) (snd kw))) in
  let S0 := Z.lxor (Z.lxor (rotr 2 a) (rotr 13 a)) (rotr 22 a) in
  let maj := Z.lxor (Z.lxor (Z.land a b) (Z.land a c)) (Z.land b c) in
  mkRegs (add32 t1 (add32 S0 maj)) a b c (add32 d t1) e f g.

Fixpoint words (n : nat) (bs : bytes) : list Z :=
  match n with
  | O => []
  | S n => get_uint bigEndian (take 4 bs) :: words n (drop 4 bs)
  end.

Definition compress (r : regs) (block : bytes) : regs :=
  let r' := fold_left round (combine K256 (schedule 48 (rev (words 16 block)))) r in
  mkRegs (add32 (rA r) (rA r')) (add32 (rB r) (rB r')) (add32 (rC r) (rC r'))
         (add32 (rD r) (rD r')) (add32 (rE r) (rE r')) (add32 (rF r) (rF r'))
         (add32 (rG r) (rG r')) (add32 (rH r) (rH r')).

Fixpoint blocks (n : nat) (r : regs) (bs : bytes) : regs :=
  match n with
  | O => r
  | S n => blocks n (compress r (take 64 bs)) (drop 64 bs)
  end.

(** A one bit, zeros up to 56 modulo 64 bytes, the length in bits. *)
Definition pad (bs : bytes) : bytes :=
  bs ++ Byte.x80 :: zeros (Z.to_nat ((55 - len bs) mod 64)) ++ put_uint bigEndian 8 (8 * len bs).

Definition H256_init : regs :=
  match H256 with
  | [a; b; c; d; e; f; g; h] => mkRegs a b c d e f g h
  | _ => mkRegs 0 0 0 0 0 0 0 0
  end.

Definition Sum256 (bs : bytes) : bytes :=
  let p := pad bs in
  let r := blocks (Nat.div (length p) 64) H256_init p in
  put_uint bigEndian 4 (rA r) ++ put_uint bigEndian 4 (rB r) ++
  put_uint bigEndian 4 (rC r) ++ put_uint bigEndian 4 (rD r) ++
  put_uint bigEndian 4 (rE r) ++ put_uint bigEndian 4 (rF r) ++
  put_uint bigEndian 4 (rG r) ++ put_uint bigEndian 4 (rH r).

Lemma len_Sum256 bs : len (Sum256 bs) = 32.
Proof. unfold Sum256. len_lia. Qed.

(** [h.Sum(nil)] of an incremental hash. *)
Definition hasher_Sum (h : hasher) : bytes := Sum256 (h_data h).

(** FIPS 180-4: the digests of the empty message and of [abc]; and the first
    four bytes of the double hash of an empty payload. *)
Example Sum256_empty :
  get_uint bigEndian (Sum256 []) =
  0xe3b0c44298fc1c149afbf4c8996fb92427ae41e4649b934ca495991b7852b855.
Proof. vm_compute. reflexivity. Qed.

Example Sum256_abc :
  get_uint bigEndian (Sum256 (str "abc")) =
  0xba7816bf8f01cfea414140de5dae2223b00361a396177a9cb410ff61f20015ad.
Proof. vm_compute. reflexivity. Qed.

Example Sum256_two_blocks :
  get_uint bigEndian (Sum256 (str "abcdbcdecdefdefgefghfghighijhijkijkljklmklmnlmnomnopnopq")) =
  0x248d6a61d20638b8e5c026930c3e6039a33ce45964ff2167f6ecedd419db06c1.
Proof. vm_compute. reflexivity. Qed.

Example Sum256_verack_checksum :
  take 4 (Sum256 (Sum256 [])) = [Byte.x5d; Byte.xf6; Byte.xe0; Byte.xe2].
Proof. vm_compute. reflexivity. Qed.
