(* ===== verification/Externals.v ===== *)
(** * Code the repository calls and does not contain

    [chainhash] and [bt.VarInt] are packages of go-bt.  They are parameters:
    [Externals] holds their functions, [ExternalsSpec] what the code of the
    repository relies on. *)

From S2P Require Import Prelude Io Common Sha256.

Class Externals := {
  (* chainhash.DoubleHashB, chainhash.DoubleHashH *)
  DoubleHashB : bytes -> bytes;
  DoubleHashH : bytes -> bytes;
  (* bt.VarInt.ReadFrom, bt.VarInt.Bytes *)
  bt_VarInt_ReadFrom : Dec Z;
  bt_VarInt_Bytes : Z -> bytes;
}.

Class ExternalsSpec `{Externals} : Prop := {
  (* "DoubleHashB calculates hash(hash(b)) and returns the resulting bytes." *)
  DoubleHashB_spec bs : DoubleHashB bs = Sum256 (Sum256 bs);
  DoubleHashH_spec bs : DoubleHashH bs = Sum256 (Sum256 bs);
  (* reading back what Bytes wrote; nothing but the stream is consulted *)
  VarInt_decodes v : is_u64 v -> decodes bt_VarInt_ReadFrom (bt_VarInt_Bytes v) v;
  VarInt_streamable : streamable bt_VarInt_ReadFrom;
}.

#[export] Hint Extern 1 (streamable bt_VarInt_ReadFrom) => apply VarInt_streamable : streamable.

(** A concrete instance, used by the witnesses: the double SHA-256 and the
    integers of [common.go]. *)
Definition refExternals : Externals := {|
  DoubleHashB bs := Sum256 (Sum256 bs);
  DoubleHashH bs := Sum256 (Sum256 bs);
  bt_VarInt_ReadFrom := ReadVarInt;
  bt_VarInt_Bytes := varint_bytes;
|}.

Lemma refExternals_spec : @ExternalsSpec refExternals.
Proof.
  split; intros; simpl; try done.
  - by apply decodes_ReadVarInt.
  - apply streamable_ReadVarInt.
Qed.
