(* ===== verification/InvVect.v ===== *)
(** * invvect.go: inventory vectors *)

From S2P Require Import Prelude Io Common.

Definition MaxInvPerMsg : Z := 50000.
Definition maxInvVectPayload : Z := 4 + HashSize.

Definition InvTypeError : Z := 0.
Definition InvTypeTx : Z := 1.
Definition InvTypeBlock : Z := 2.
Definition InvTypeFilteredBlock : Z := 3.

Record InvVect := mkInvVect { iv_Type : Z; iv_Hash : bytes }.

#[export] Instance invvect_eq_dec : EqDecision InvVect.
Proof. solve_decision. Defined.

Definition NewInvVect (typ : Z) (hash : bytes) : InvVect := mkInvVect typ hash.

Definition readInvVect : Dec InvVect :=
  '(t, (h, _)) ← readElements [TInvType; Thash]; mret (mkInvVect t h).

Definition writeInvVect (iv : InvVect) : Enc :=
  writeElements [WInvType (iv_Type iv); Whash (iv_Hash iv)].

(** [InvType.String]. *)
Definition ivStrings : gmap Z bytes :=
  list_to_map [(InvTypeError, str "ERROR"); (InvTypeTx, str "MSG_TX");
    (InvTypeBlock, str "MSG_BLOCK"); (InvTypeFilteredBlock, str "MSG_FILTERED_BLOCK")].

Definition InvType_String (invtype : Z) : bytes + Sprintf :=
  match ivStrings !! invtype with
  | Some s => inl s
  | None => inr (mkSprintf "Unknown InvType (%d)" [AInt invtype])
  end.

(** ** Facts *)

Definition InvVect_ok (iv : InvVect) : Prop := is_u32 (iv_Type iv) /\ sized HashSize (iv_Hash iv).

Definition InvVect_bytes (iv : InvVect) : bytes :=
  elems_bytes [TInvType; Thash] (iv_Type iv, (iv_Hash iv, tt)).

Lemma encodes_writeInvVect iv : encodes (writeInvVect iv) (InvVect_bytes iv).
Proof. apply (encodes_writeElements [WInvType _; Whash _]). Qed.
#[export] Hint Resolve encodes_writeInvVect : encodes.

#[export] Instance Codec_readInvVect : Codec readInvVect InvVect_bytes InvVect_ok.
Proof.
  split.
  - intros [t h] [Ht Hh]. unfold readInvVect.
    eapply decodes_bind_last; [by apply (decodes_elems [TInvType; Thash] (t, (h, tt)))|].
    apply decodes_ret.
  - intros s iv s' Hr. unfold readInvVect in Hr. run_exact.
    by destruct Hok as (Ht & Hh & _).
Qed.

Lemma len_InvVect_bytes iv : InvVect_ok iv -> len (InvVect_bytes iv) = maxInvVectPayload.
Proof.
  intros [Ht Hh]. unfold InvVect_bytes. by rewrite len_elems_bytes.
Qed.

Lemma streamable_readInvVect : streamable readInvVect.
Proof. unfold readInvVect. solve_streamable. Qed.
#[export] Hint Resolve streamable_readInvVect : streamable.
