(* ===== verification/BlockHeader.v ===== *)
(** * block_header.go: the 80 bytes of a block header *)

From S2P Require Import Prelude Io Common Sha256 Externals.

Definition MaxBlockHeaderPayload : Z := 16 + HashSize * 2.
Definition blockHeaderLen : Z := 80.

Record BlockHeader := mkBlockHeader {
  bh_Version : Z;
  bh_PrevBlock : bytes;
  bh_MerkleRoot : bytes;
  bh_Timestamp : Time;
  bh_Bits : Z;
  bh_Nonce : Z;
}.

#[export] Instance block_header_eq_dec : EqDecision BlockHeader.
Proof. solve_decision. Defined.

Definition readBlockHeader : Dec BlockHeader :=
  '(v, (p, (m, (t, (bits, (n, _)))))) ←
    readElements [Tint32; Thash; Thash; Tuint32Time; Tuint32; Tuint32];
  mret (mkBlockHeader v p m t bits n).

Definition writeBlockHeader (bh : BlockHeader) : Enc :=
  let sec := to_u32 (t_sec (bh_Timestamp bh)) in
  writeElements [Wint32 (bh_Version bh); Whash (bh_PrevBlock bh); Whash (bh_MerkleRoot bh);
    Wuint32 sec; Wuint32 (bh_Bits bh); Wuint32 (bh_Nonce bh)].

(** [BlockHash]: the header is written to a [bytes.Buffer] and hashed. *)
Definition BlockHash `{Externals} (h : BlockHeader) : bytes :=
  let '(_, buf) := runE (writeBlockHeader h) (mkBuffer []) in DoubleHashH (b_data buf).

Definition BlockHeader_Bsvdecode : Dec BlockHeader := readBlockHeader.
Definition BlockHeader_BsvEncode (h : BlockHeader) : Enc := writeBlockHeader h.
Definition BlockHeader_Deserialize : Dec BlockHeader := readBlockHeader.
Definition BlockHeader_Serialize (h : BlockHeader) : Enc := writeBlockHeader h.

(** [now] is the clock reading [time.Now()]. *)
Definition NewBlockHeader (now : Time) (version : Z) (prevHash merkleRootHash : bytes)
    (bits nonce : Z) : BlockHeader :=
  mkBlockHeader version prevHash merkleRootHash (time_Unix (t_sec now) 0) bits nonce.

(** ** Facts *)

Definition BlockHeader_ok (bh : BlockHeader) : Prop :=
  is_i32 (bh_Version bh) /\ sized HashSize (bh_PrevBlock bh) /\
  sized HashSize (bh_MerkleRoot bh) /\
  (is_u32 (t_sec (bh_Timestamp bh)) /\ t_nsec (bh_Timestamp bh) = 0) /\
  is_u32 (bh_Bits bh) /\ is_u32 (bh_Nonce bh).

Definition BlockHeader_bytes (bh : BlockHeader) : bytes :=
  elems_bytes [Tint32; Thash; Thash; Tuint32; Tuint32; Tuint32]
    (bh_Version bh, (bh_PrevBlock bh, (bh_MerkleRoot bh,
      (to_u32 (t_sec (bh_Timestamp bh)), (bh_Bits bh, (bh_Nonce bh, tt)))))).

Lemma encodes_writeBlockHeader bh : encodes (writeBlockHeader bh) (BlockHeader_bytes bh).
Proof. apply (encodes_writeElements [Wint32 _; Whash _; Whash _; Wuint32 _; Wuint32 _; Wuint32 _]). Qed.
#[export] Hint Resolve encodes_writeBlockHeader : encodes.

(** On a well-formed header the seconds are written as they are read. *)
Lemma BlockHeader_bytes_time v p m t bits n :
  is_u32 (t_sec t) ->
  BlockHeader_bytes (mkBlockHeader v p m t bits n) =
  elems_bytes [Tint32; Thash; Thash; Tuint32Time; Tuint32; Tuint32]
    (v, (p, (m, (t, (bits, (n, tt)))))).
Proof. intros Ht. unfold BlockHeader_bytes. cbn [bh_Timestamp]. by rewrite to_u32_id. Qed.

#[export] Instance Codec_readBlockHeader :
  Codec readBlockHeader BlockHeader_bytes BlockHeader_ok.
Proof.
  split.
  - intros [v p m t bits n] (Hv & Hp & Hm & [Ht Hns] & Hb & Hn). cbn in Hv, Hp, Hm, Ht, Hns, Hb, Hn.
    unfold readBlockHeader. rewrite BlockHeader_bytes_time by done.
    eapply decodes_bind_last; [by dec_prim|apply decodes_ret].
  - intros s bh s' Hr. unfold readBlockHeader in Hr. run_exact.
    destruct Hok as (Hv & Hp & Hm & [Ht Hns] & Hb & Hn & _).
    rewrite BlockHeader_bytes_time by done. done.
Qed.

Lemma len_BlockHeader_bytes bh : BlockHeader_ok bh -> len (BlockHeader_bytes bh) = blockHeaderLen.
Proof.
  intros (Hv & Hp & Hm & [Ht Hns] & Hb & Hn). unfold BlockHeader_bytes.
  rewrite len_elems_bytes; [done|]. cbn. auto 10 with wire.
Qed.

Lemma streamable_readBlockHeader : streamable readBlockHeader.
Proof. unfold readBlockHeader. solve_streamable. Qed.
#[export] Hint Resolve streamable_readBlockHeader : streamable.

Lemma BlockHash_bytes `{Externals} h : BlockHash h = DoubleHashH (BlockHeader_bytes h).
Proof. unfold BlockHash. by rewrite runE_buffer, (proj2 (encodes_writeBlockHeader h)). Qed.

(** ** Theorems *)

(** C33: block headers and 80-byte strings correspond one to one.
    [Deserialize] returns [h] on precisely the streams that begin with what
    [Serialize] writes for [h], for the headers whose fields have their
    widths; that takes 80 bytes, and [BlockHash] is the double SHA-256 of
    them. *)
Theorem BlockHeader_exact `{ExternalsSpec} (s : stream) h s' :
  (run BlockHeader_Deserialize s = (Ok h, s') <->
   BlockHeader_ok h /\ s = mkStream (written (BlockHeader_Serialize h) ++ s_data s') (s_err s')) /\
  (BlockHeader_ok h -> outcome (BlockHeader_Serialize h) = None /\
   len (written (BlockHeader_Serialize h)) = blockHeaderLen /\
   BlockHash h = Sum256 (Sum256 (written (BlockHeader_Serialize h)))).
Proof.
  unfold BlockHeader_Deserialize, BlockHeader_Serialize.
  destruct (encodes_writeBlockHeader h) as [-> ->]. split; [split|].
  - intros Hr. by apply codec_exact in Hr as [-> Hok].
  - intros [Hok ->]. destruct s' as [d e]. by apply codec_decodes.
  - intros Hok. rewrite BlockHash_bytes, DoubleHashH_spec. auto using len_BlockHeader_bytes.
Qed.

Lemma BlockHeader_exact_witness :
  let h := mkBlockHeader 1 (zeros 32) (zeros 32) (mkTime 1231006505 0) 0x1d00ffff 2083236893 in
  BlockHeader_ok h /\
  @BlockHash refExternals h = Sum256 (Sum256 (written (BlockHeader_Serialize h))).
Proof.
  intros h. assert (BlockHeader_ok h) as Hok by (repeat split; vm_compute; done).
  split; [exact Hok|].
  exact (proj2 (proj2 (proj2 (@BlockHeader_exact refExternals refExternals_spec
    (mkStream [] EOF) h (mkStream [] EOF)) Hok))).
Defined.
