(* ===== verification/Protocol.v ===== *)
(** * protocol.go: protocol versions, service flags, networks *)

From S2P Require Import Prelude Io Common.

Definition ProtocolVersion : Z := 70016.
Definition MultipleAddressVersion : Z := 209.
Definition NetAddressTimeVersion : Z := 31402.
Definition BIP0031Version : Z := 60000.
Definition BIP0035Version : Z := 60002.
Definition BIP0037Version : Z := 70001.
Definition RejectVersion : Z := 70002.
Definition BIP0111Version : Z := 70011.
Definition SendHeadersVersion : Z := 70012.
Definition FeeFilterVersion : Z := 70013.
Definition ProtoconfVersion : Z := 70013.

(** [ServiceFlag]: [1 << iota]. *)
Definition SFNodeNetwork : Z := Z.shiftl 1 0.
Definition SFNodeGetUTXO : Z := Z.shiftl 1 1.
Definition SFNodeBloom : Z := Z.shiftl 1 2.
Definition SFNodeWitness : Z := Z.shiftl 1 3.
Definition SFNodeXthin : Z := Z.shiftl 1 4.
Definition SFNodeBitcoinCash : Z := Z.shiftl 1 5.
Definition SFNodeGraphene : Z := Z.shiftl 1 6.
Definition SFNodeWeakBlocks : Z := Z.shiftl 1 7.
Definition SFNodeCF : Z := Z.shiftl 1 8.
Definition SFNodeXThinner : Z := Z.shiftl 1 9.
Definition SFNodeNetworkLimited : Z := Z.shiftl 1 10.

(** [BitcoinNet]. *)
Definition MainNet : Z := 0xe8f3e1e3.
Definition RegTestNet : Z := 0xfabfb5da.
Definition TestNet : Z := 0xf4f3e5f4.
Definition TeraTestNet : Z := 0x0c09010d.
Definition TeraScalingTestNet : Z := 0x00000004.
Definition Custom : Z := 0x00000001.
Definition STN : Z := 0x00000000.

(** [bnStrings] and [BitcoinNet.String]. *)
Definition bnStrings : gmap Z bytes :=
  list_to_map [(MainNet, str "MainNet"); (RegTestNet, str "RegTest"); (TestNet, str "TestNet");
    (TeraTestNet, str "TeraTestNet"); (TeraScalingTestNet, str "TSTN");
    (Custom, str "Custom"); (STN, str "STN")].

Definition BitcoinNet_String (n : Z) : bytes + Sprintf :=
  match bnStrings !! n with
  | Some s => inl s
  | None => inr (mkSprintf "Unknown BitcoinNet (%d)" [AInt n])
  end.

(** ** [ServiceFlag.String] *)

Definition orderedSFStrings : list Z :=
  [SFNodeNetwork; SFNodeGetUTXO; SFNodeBloom; SFNodeWitness; SFNodeXthin; SFNodeBitcoinCash;
   SFNodeGraphene; SFNodeWeakBlocks; SFNodeCF; SFNodeXThinner; SFNodeNetworkLimited].

Definition sfStrings : gmap Z bytes :=
  list_to_map [(SFNodeNetwork, str "SFNodeNetwork"); (SFNodeGetUTXO, str "SFNodeGetUTXO");
    (SFNodeBloom, str "SFNodeBloom"); (SFNodeWitness, str "SFNodeWitness");
    (SFNodeXthin, str "SFNodeXthin"); (SFNodeBitcoinCash, str "SFNodeBitcoinCash");
    (SFNodeGraphene, str "SFNodeGraphene"); (SFNodeWeakBlocks, str "SFNodeWeakBlocks");
    (SFNodeCF, str "SFNodeCF"); (SFNodeXThinner, str "SFNodeXThinner");
    (SFNodeNetworkLimited, str "SFNodeNetworkLimited")].

(** A missing key gives the empty string. *)
Definition sfString (flag : Z) : bytes := default [] (sfStrings !! flag).

Definition bar : byte := Byte.x7c.

(** [strings.TrimRight(s, "|")] and [strings.TrimLeft(s, "|")]. *)
Fixpoint trimRight (s : bytes) : bytes :=
  match s with
  | [] => []
  | b :: s =>
      match trimRight s with
      | [] => if decide (b = bar) then [] else [b]
      | t => b :: t
      end
  end.

Fixpoint trimLeft (s : bytes) : bytes :=
  match s with
  | [] => []
  | b :: s' => if decide (b = bar) then trimLeft s' else s
  end.

(** [strconv.FormatUint(n, 16)]: at most 16 digits. *)
Definition hexDigit (d : Z) : byte := if d <? 10 then z2b (48 + d) else z2b (87 + d).

Fixpoint hexDigits (fuel : nat) (n : Z) (acc : bytes) : bytes :=
  match fuel with
  | O => acc
  | S fuel =>
      let acc := hexDigit (n mod 16) :: acc in
      if n / 16 =? 0 then acc else hexDigits fuel (n / 16) acc
  end.

Definition FormatUint16 (n : Z) : bytes := hexDigits 16 n [].

(** The loop over [orderedSFStrings]: the text and the flags left. *)
Definition sfLoop (f : Z) : bytes * Z :=
  fold_left (fun '(s, f) flag =>
    if Z.land f flag =? flag then (s ++ sfString flag ++ [bar], to_u64 (f - flag)) else (s, f))
    orderedSFStrings ([], f).

Definition ServiceFlag_String (f : Z) : bytes :=
  if f =? 0 then str "0x0"
  else
    let '(s, f) := sfLoop f in
    let s := trimRight s in
    let s := if negb (f =? 0) then s ++ str "|0x" ++ FormatUint16 f else s in
    trimLeft s.

(** ** Facts *)

(** [strings.Join(l, "|")]. *)
Fixpoint join_bar (l : list bytes) : bytes :=
  match l with
  | [] => []
  | [w] => w
  | w :: l => w ++ bar :: join_bar l
  end.

Definition flagsIn (f : Z) : list Z := List.filter (fun flag => Z.land f flag =? flag) orderedSFStrings.
Definition knownFlags : Z := 0x7ff.

Example ServiceFlag_String_37 :
  ServiceFlag_String 0x825 = str "SFNodeNetwork|SFNodeBloom|SFNodeBitcoinCash|0x800".
Proof. vm_compute. reflexivity. Qed.

(** One flag: the subtraction clears its bit. *)
Lemma flag_set f k : 0 <= k -> (Z.land f (Z.shiftl 1 k) =? Z.shiftl 1 k) = Z.testbit f k.
Proof.
  intros Hk. rewrite Z.shiftl_1_l. destruct (Z.testbit f k) eqn:E.
  - apply Z.eqb_eq, Z.bits_inj'. intros i Hi. rewrite Z.land_spec, Z.pow2_bits_eqb by done.
    destruct (Z.eqb_spec k i) as [->|]; [by rewrite E|by rewrite andb_false_r].
  - apply Z.eqb_neq. intros Hl. apply (f_equal (fun z => Z.testbit z k)) in Hl.
    rewrite Z.land_spec, E, Z.pow2_bits_true in Hl by done. done.
Qed.

Lemma sub_flag f k :
  is_u64 f -> 0 <= k -> Z.testbit f k = true ->
  to_u64 (f - Z.shiftl 1 k) = Z.ldiff f (Z.shiftl 1 k) /\ is_u64 (Z.ldiff f (Z.shiftl 1 k)).
Proof.
  intros Hf Hk Hb. assert (Z.ldiff (Z.shiftl 1 k) f = 0) as H0.
  { apply Z.bits_inj'. intros i Hi.
    rewrite Z.ldiff_spec, Z.shiftl_1_l, Z.pow2_bits_eqb, Z.bits_0 by done.
    destruct (Z.eqb_spec k i) as [->|]; [by rewrite Hb|done]. }
  rewrite <- (Z.sub_nocarry_ldiff f (Z.shiftl 1 k)) by done.
  assert (0 <= f - Z.shiftl 1 k) as Hge.
  { rewrite (Z.sub_nocarry_ldiff f) by done. apply Z.ldiff_nonneg. left. apply Hf. }
  assert (0 <= Z.shiftl 1 k) by (apply Z.shiftl_nonneg; lia).
  assert (is_u64 (f - Z.shiftl 1 k)) by zlia. by rewrite to_u64_id.
Qed.

Definition flagBits : list Z := [0; 1; 2; 3; 4; 5; 6; 7; 8; 9; 10].

Lemma sfLoop_spec ks s f :
  NoDup ks -> Forall (fun k => 0 <= k) ks -> is_u64 f ->
  fold_left (fun '(s, f) flag =>
    if Z.land f flag =? flag then (s ++ sfString flag ++ [bar], to_u64 (f - flag)) else (s, f))
    (map (Z.shiftl 1) ks) (s, f) =
  (s ++ concat (map (fun flag => sfString flag ++ [bar])
                  (List.filter (fun flag => Z.land f flag =? flag) (map (Z.shiftl 1) ks))),
   fold_left (fun f k => Z.ldiff f (Z.shiftl 1 k)) ks f).
Proof.
  revert s f. induction ks as [|k ks IH]; intros s f Hd Hk Hf; [by rewrite app_nil_r|].
  apply list.NoDup_cons in Hd as [Hn Hd]. inversion Hk as [|? ? Hk0 Hks]; subst.
  assert (forall f', Z.ldiff f (Z.shiftl 1 k) = f' ->
    List.filter (fun flag => Z.land f' flag =? flag) (map (Z.shiftl 1) ks) =
    List.filter (fun flag => Z.land f flag =? flag) (map (Z.shiftl 1) ks)) as Hfil.
  { intros f' <-. apply filter_ext_in. intros flag (j & <- & Hj)%in_map_iff.
    assert (0 <= j) as Hj0 by (rewrite list.Forall_forall in Hks; apply Hks; by apply list_elem_of_In).
    rewrite !flag_set by done. rewrite Z.ldiff_spec, Z.shiftl_1_l, Z.pow2_bits_false.
    - by rewrite andb_true_r.
    - intros ->. apply Hn. by apply list_elem_of_In. }
  cbn [map fold_left List.filter]. rewrite (flag_set f k) by done.
  destruct (Z.testbit f k) eqn:E.
  - destruct (sub_flag f k Hf Hk0 E) as [-> Hu]. rewrite IH by done.
    rewrite (Hfil _ eq_refl). cbn [map concat]. by rewrite <- !app_assoc.
  - assert (Z.ldiff f (Z.shiftl 1 k) = f) as Hs.
    { apply Z.bits_inj'. intros i Hi. rewrite Z.ldiff_spec, Z.shiftl_1_l, Z.pow2_bits_eqb by done.
      destruct (Z.eqb_spec k i) as [->|]; [by rewrite E|by rewrite andb_true_r]. }
    rewrite Hs. by apply IH.
Qed.

(** A word that neither begins nor ends with a bar. *)
Definition clean (w : bytes) : Prop := w <> [] /\ trimRight w = w /\ trimLeft w = w.

Lemma trimRight_bar s : trimRight (s ++ [bar]) = trimRight s.
Proof. induction s as [|b s IH]; simpl; [done|]. by rewrite IH. Qed.

Lemma trimRight_app s t : trimRight t <> [] -> trimRight (s ++ t) = s ++ trimRight t.
Proof.
  intros Ht. induction s as [|b s IH]; [done|]. simpl. rewrite IH.
  destruct (s ++ trimRight t) eqn:E; [|done]. by apply app_eq_nil in E as [_ ?].
Qed.

Lemma trimRight_join ws :
  ws <> [] -> Forall clean ws ->
  trimRight (concat (map (fun w => w ++ [bar]) ws)) = join_bar ws /\ join_bar ws <> [].
Proof.
  intros Hne Hc. induction Hc as [|w ws (Hw & Hr & _) Hc IH]; [done|].
  cbn [map concat]. destruct ws as [|w' ws].
  - cbn [map concat join_bar]. by rewrite app_nil_r, trimRight_bar, Hr.
  - destruct IH as [IH Hj]; [done|]. rewrite trimRight_app by (by rewrite IH). rewrite IH.
    change (join_bar (w :: w' :: ws)) with (w ++ bar :: join_bar (w' :: ws)).
    rewrite <- app_assoc. split; [done|]. by destruct w.
Qed.

Lemma trimLeft_clean w s : clean w -> trimLeft (w ++ s) = w ++ s.
Proof.
  intros (Hne & _ & Hl). destruct w as [|b w]; [done|]. simpl in *.
  destruct (decide (b = bar)) as [->|]; [|done]. exfalso.
  assert (forall l, (length (trimLeft l) <= length l)%nat) as Hlen.
  { induction l as [|b l IHl]; simpl; [done|]. case_decide; simpl; lia. }
  specialize (Hlen w). rewrite Hl in Hlen. simpl in Hlen. lia.
Qed.

Lemma sfString_clean : Forall clean (map sfString orderedSFStrings).
Proof. repeat constructor; done. Qed.

(** What is printed: the names of the known flags that are set, in order, then
    the unknown bits in hexadecimal. *)
Definition flagParts (f : Z) : list bytes :=
  map sfString (flagsIn f) ++
  (if Z.ldiff f knownFlags =? 0 then [] else [str "0x" ++ FormatUint16 (Z.ldiff f knownFlags)]).

Lemma join_bar_snoc ws w : ws <> [] -> join_bar (ws ++ [w]) = join_bar ws ++ bar :: w.
Proof.
  induction ws as [|v ws IH]; [done|]. intros _. destruct ws as [|v' ws]; [done|].
  change (join_bar ((v :: v' :: ws) ++ [w])) with (v ++ bar :: join_bar ((v' :: ws) ++ [w])).
  rewrite IH by done. change (join_bar (v :: v' :: ws)) with (v ++ bar :: join_bar (v' :: ws)).
  by rewrite <- app_assoc.
Qed.

Lemma sfLoop_flags f :
  is_u64 f ->
  sfLoop f = (concat (map (fun w => w ++ [bar]) (map sfString (flagsIn f))), Z.ldiff f knownFlags).
Proof.
  intros Hf. unfold sfLoop. change orderedSFStrings with (map (Z.shiftl 1) flagBits).
  rewrite sfLoop_spec; [|apply (bool_decide_unpack _); by vm_compute
                        |apply (bool_decide_unpack _); by vm_compute|done].
  change (map (Z.shiftl 1) flagBits) with orderedSFStrings. fold (flagsIn f).
  rewrite app_nil_l, map_map. f_equal. cbn [fold_left flagBits]. by rewrite !Z.ldiff_ldiff_l.
Qed.

Lemma flagParts_clean f : Forall clean (map sfString (flagsIn f)).
Proof.
  apply list.Forall_forall. intros w (flag & <- & Hin)%list_elem_of_In%in_map_iff.
  apply filter_In in Hin as [Hin _]. pose proof sfString_clean as Hc.
  rewrite list.Forall_forall in Hc. apply Hc, list_elem_of_In, in_map_iff. eauto.
Qed.

(** [ServiceFlag.String] prints the names of the known flags that are
    set, lowest first, then the remaining bits in hexadecimal, separated by
    bars: the text the loop builds and trims is the plain join of these
    parts, and the subtractions never borrow from another flag. *)
Theorem ServiceFlag_String_join f :
  is_u64 f -> ServiceFlag_String f = if f =? 0 then str "0x0" else join_bar (flagParts f).
Proof.
  intros Hf. unfold ServiceFlag_String. destruct (f =? 0); [done|].
  rewrite sfLoop_flags by done. unfold flagParts. pose proof (flagParts_clean f) as Hc.
  set (ws := map sfString (flagsIn f)) in *. set (rest := Z.ldiff f knownFlags).
  destruct (decide (ws = [])) as [->|Hne].
  - cbn [map concat trimRight]. by destruct (rest =? 0).
  - destruct (trimRight_join ws Hne Hc) as [-> Hj].
    assert (forall s, trimLeft (join_bar ws ++ s) = join_bar ws ++ s) as Htl.
    { intros s. destruct ws as [|w [|w' l]]; [done| |]; inversion Hc; subst.
      - cbn [join_bar]. by apply trimLeft_clean.
      - change (join_bar (w :: w' :: l)) with (w ++ bar :: join_bar (w' :: l)).
        rewrite <- app_assoc. by apply trimLeft_clean. }
    destruct (rest =? 0); cbn [negb].
    + rewrite app_nil_r. rewrite <- (app_nil_r (join_bar ws)) at 1.
      by rewrite Htl, app_nil_r.
    + by rewrite Htl, join_bar_snoc.
Qed.

Lemma ServiceFlag_String_join_witness :
  ServiceFlag_String 0x825 = str "SFNodeNetwork|SFNodeBloom|SFNodeBitcoinCash|0x800".
Proof.
  rewrite (ServiceFlag_String_join 0x825) by (split; vm_compute; [discriminate|reflexivity]).
  vm_compute. reflexivity.
Defined.
