(* ===== verification/NetAddress.v ===== *)
(** * net_address.go: peer addresses *)

From S2P Require Import Prelude Io Common Protocol.

Definition maxNetAddressPayload (pver : Z) : Z :=
  let plen := 26 in
  if pver >=? NetAddressTimeVersion then plen + 4 else plen.

(** [net.IP] is a byte slice; [[]] is the nil IP. *)
Record NetAddress := mkNetAddress {
  na_Timestamp : Time;
  na_Services : Z;
  na_IP : bytes;
  na_Port : Z;
}.

#[export] Instance net_address_eq_dec : EqDecision NetAddress.
Proof. solve_decision. Defined.

Definition zeroNetAddress : NetAddress := mkNetAddress zeroTime 0 [] 0.

(** [HasService] and [AddService] on a set of service flags. *)
Definition hasService (services service : Z) : bool := Z.land services service =? service.
Definition addService (services service : Z) : Z := Z.lor services service.

Definition NetAddress_HasService (na : NetAddress) (service : Z) : bool :=
  hasService (na_Services na) service.

Definition NetAddress_AddService (na : NetAddress) (service : Z) : NetAddress :=
  mkNetAddress (na_Timestamp na) (addService (na_Services na) service) (na_IP na) (na_Port na).

Definition NewNetAddressTimestamp (timestamp : Time) (services : Z) (ip : bytes) (port : Z) :
    NetAddress :=
  mkNetAddress (time_Unix (t_sec timestamp) 0) services ip port.

Definition NewNetAddressIPPort (now : Time) (ip : bytes) (port services : Z) : NetAddress :=
  NewNetAddressTimestamp now services ip port.

Definition NewNetAddress (now : Time) (addr_IP : bytes) (addr_Port services : Z) : NetAddress :=
  NewNetAddressIPPort now addr_IP (to_u16 addr_Port) services.

(** [net.IP.To16]: [nil] unless the address has 4 or 16 bytes. *)
Definition v4InV6Prefix : bytes := zeros 10 ++ [Byte.xff; Byte.xff].

Definition To16 (ip : bytes) : bytes :=
  if len ip =? 4 then v4InV6Prefix ++ ip
  else if len ip =? 16 then ip
  else [].

(** [copy(ip[:], na.IP.To16())] into a zeroed [[16]byte]. *)
Definition ip16 (ip : bytes) : bytes :=
  let src := To16 ip in take 16 src ++ drop (length src) (zeros 16).

(** [readNetAddress r pver na ts] into the receiver [na]. *)
Definition readNetAddress (pver : Z) (na : NetAddress) (ts : bool) : Dec NetAddress :=
  timestamp ← (if ts && (pver >=? NetAddressTimeVersion)
               then readElement Tuint32Time else mret (na_Timestamp na));
  '(services, (ip, _)) ← readElements [TServiceFlag; Tip];
  port ← Uint16 bigEndian;
  mret (mkNetAddress timestamp services ip port).

Definition writeNetAddress (pver : Z) (na : NetAddress) (ts : bool) : Enc :=
  (if ts && (pver >=? NetAddressTimeVersion)
   then writeElement (Wuint32 (to_u32 (t_sec (na_Timestamp na)))) else edone) >>>
  writeElements [WServiceFlag (na_Services na); Wip (ip16 (na_IP na))] >>>
  ewrite (put_uint bigEndian 2 (na_Port na)).

(** ** Facts *)

Definition hasTimestamp (pver : Z) (ts : bool) : bool := ts && (pver >=? NetAddressTimeVersion).

Definition NetAddress_bytes (pver : Z) (ts : bool) (na : NetAddress) : bytes :=
  (if hasTimestamp pver ts
   then elem_bytes Tuint32 (to_u32 (t_sec (na_Timestamp na))) else []) ++
  elems_bytes [TServiceFlag; Tip] (na_Services na, (ip16 (na_IP na), tt)) ++
  put_uint bigEndian 2 (na_Port na).

Lemma encodes_writeNetAddress pver na ts :
  encodes (writeNetAddress pver na ts) (NetAddress_bytes pver ts na).
Proof.
  unfold writeNetAddress, NetAddress_bytes, hasTimestamp.
  apply encodes_seq; [case_match; auto with encodes|].
  apply encodes_seq; [apply (encodes_writeElements [WServiceFlag _; Wip _])|apply encodes_write].
Qed.
#[export] Hint Resolve encodes_writeNetAddress : encodes.

Lemma len_ip16 ip : len (ip16 ip) = 16.
Proof.
  unfold ip16. assert (length (To16 ip) <= 16)%nat as Hl.
  { unfold To16. destruct (Z.eqb_spec (len ip) 4) as [E|]; [|destruct (Z.eqb_spec (len ip) 16)].
    - rewrite length_app. unfold len in E. simpl. lia.
    - zlia.
    - simpl. lia. }
  unfold len. rewrite length_app, length_take, length_drop. unfold zeros.
  rewrite length_replicate. lia.
Qed.

Lemma ip16_id ip : len ip = 16 -> ip16 ip = ip.
Proof.
  intros Hl. unfold ip16, To16. rewrite Hl. simpl.
  assert (length ip = 16%nat) as Hn by (unfold len in Hl; lia).
  rewrite firstn_all2 by lia. rewrite drop_ge by (rewrite Hn; done). apply app_nil_r.
Qed.

(** The address a reader with receiver [na0] gets for [na]: seconds modulo
    [2 ^ 32], a 16 byte IP, the receiver's timestamp if none is sent. *)
Definition received (pver : Z) (ts : bool) (na0 na : NetAddress) : NetAddress :=
  mkNetAddress
    (if hasTimestamp pver ts then time_Unix (to_u32 (t_sec (na_Timestamp na))) 0
     else na_Timestamp na0)
    (na_Services na) (ip16 (na_IP na)) (na_Port na).

Lemma decodes_readNetAddress pver na0 na ts :
  is_u64 (na_Services na) -> is_u16 (na_Port na) ->
  decodes (readNetAddress pver na0 ts) (NetAddress_bytes pver ts na)
    (received pver ts na0 na).
Proof.
  intros Hs Hp. unfold readNetAddress, NetAddress_bytes, received.
  change (ts && (pver >=? NetAddressTimeVersion)) with (hasTimestamp pver ts).
  destruct (hasTimestamp pver ts).
  - eapply decodes_bind.
    { apply (decodes_elem Tuint32Time (time_Unix (to_u32 (t_sec (na_Timestamp na))) 0)).
      split; [apply to_u32_range|done]. }
    eapply decodes_bind.
    { refine (decodes_elems [TServiceFlag; Tip] _ _). repeat split; [apply Hs..|apply len_ip16]. }
    eapply decodes_bind_last; [by apply codec_decodes|apply decodes_ret].
  - eapply decodes_bind; [apply decodes_ret|].
    eapply decodes_bind.
    { refine (decodes_elems [TServiceFlag; Tip] _ _). repeat split; [apply Hs..|apply len_ip16]. }
    eapply decodes_bind_last; [by apply codec_decodes|apply decodes_ret].
Qed.

(** The addresses that a reader with receiver [na0] can return. *)
Definition NetAddress_ok (pver : Z) (na0 : NetAddress) (ts : bool) (na : NetAddress) : Prop :=
  (if hasTimestamp pver ts then elem_ok Tuint32Time (na_Timestamp na)
   else na_Timestamp na = na_Timestamp na0) /\
  is_u64 (na_Services na) /\ sized 16 (na_IP na) /\ is_u16 (na_Port na).

Lemma received_ok pver na0 na ts : NetAddress_ok pver na0 ts na -> received pver ts na0 na = na.
Proof.
  destruct na as [[sec ns] sv ip port]. intros (Ht & Hs & Hi & Hp). unfold received. simpl in *.
  rewrite ip16_id by done. destruct (hasTimestamp pver ts); [|by rewrite Ht].
  destruct Ht as [Ht ->]. simpl in Ht. by rewrite to_u32_id.
Qed.

#[export] Instance Codec_readNetAddress pver na0 ts :
  Codec (readNetAddress pver na0 ts) (NetAddress_bytes pver ts) (NetAddress_ok pver na0 ts).
Proof.
  split.
  - intros na Hok. rewrite <- (received_ok _ _ _ _ Hok) at 2.
    destruct Hok as (_ & Hs & _ & Hp). by apply decodes_readNetAddress.
  - intros s na s' Hr. unfold readNetAddress in Hr.
    change (ts && (pver >=? NetAddressTimeVersion)) with (hasTimestamp pver ts) in Hr.
    unfold NetAddress_bytes, NetAddress_ok.
    destruct (hasTimestamp pver ts); run_exact; cbn [na_Timestamp na_Services na_IP na_Port].
    + destruct Hok1 as [Ht Hns], Hok0 as (Hs & Hi & _).
      rewrite ip16_id, to_u32_id, <- !app_assoc by done. done.
    + destruct Hok0 as (Hs & Hi & _). rewrite ip16_id, <- !app_assoc by done. done.
Qed.

Lemma len_NetAddress_bytes pver ts na :
  len (NetAddress_bytes pver ts na) =
  if hasTimestamp pver ts then 30 else 26.
Proof.
  unfold NetAddress_bytes. rewrite !len_app, len_put_uint.
  cbn [elems_bytes elem_bytes fst snd]. rewrite !len_app, !len_put_uint, len_ip16, len_nil.
  case_match; rewrite ?len_put_uint, ?len_nil; lia.
Qed.

Lemma maxNetAddressPayload_nonneg pver : 0 <= maxNetAddressPayload pver.
Proof. unfold maxNetAddressPayload. simpl. case_match; lia. Qed.

Lemma len_NetAddress_bound pver ts na :
  len (NetAddress_bytes pver ts na) <= maxNetAddressPayload pver.
Proof.
  rewrite len_NetAddress_bytes. unfold maxNetAddressPayload, hasTimestamp.
  destruct ts; simpl; case_match; lia.
Qed.

Lemma streamable_readNetAddress pver na ts : streamable (readNetAddress pver na ts).
Proof. unfold readNetAddress. solve_streamable. Qed.
#[export] Hint Resolve streamable_readNetAddress : streamable.


(** ** Theorems *)

(** A network address is written without error, in at most
    [maxNetAddressPayload] bytes, and read back: the services and the port as
    they are, the IP in its 16-byte form, and the timestamp to the second
    modulo 2^32 when both sides send it, else the receiver's own. *)
Theorem NetAddress_roundtrip pver na0 na ts :
  is_u64 (na_Services na) -> is_u16 (na_Port na) ->
  outcome (writeNetAddress pver na ts) = None /\
  len (written (writeNetAddress pver na ts)) <= maxNetAddressPayload pver /\
  decodes (readNetAddress pver na0 ts) (written (writeNetAddress pver na ts))
    (mkNetAddress
       (if ts && (pver >=? NetAddressTimeVersion)
        then mkTime (to_u32 (t_sec (na_Timestamp na))) 0 else na_Timestamp na0)
       (na_Services na) (ip16 (na_IP na)) (na_Port na)).
Proof.
  intros Hs Hp. destruct (encodes_writeNetAddress pver na ts) as [-> ->].
  split_and!; [done|apply len_NetAddress_bound|by apply decodes_readNetAddress].
Qed.

Lemma NetAddress_roundtrip_witness :
  let na := mkNetAddress (mkTime 1700000000 7) 1 [Byte.x7f; Byte.x00; Byte.x00; Byte.x01] 8333 in
  outcome (writeNetAddress 70016 na true) = None /\
  len (written (writeNetAddress 70016 na true)) <= maxNetAddressPayload 70016 /\
  decodes (readNetAddress 70016 zeroNetAddress true) (written (writeNetAddress 70016 na true))
    (mkNetAddress (mkTime 1700000000 0) 1
       (zeros 10 ++ [Byte.xff; Byte.xff; Byte.x7f; Byte.x00; Byte.x00; Byte.x01]) 8333).
Proof.
  intros na. apply (NetAddress_roundtrip 70016 zeroNetAddress na true); done.
Defined.

(** [AddService] sets the bits of the added flag and no others:
    afterwards a flag is supported exactly when every bit of it was set before
    or belongs to the added flag. *)
Theorem AddService_HasService na service flag :
  NetAddress_HasService (NetAddress_AddService na service) flag = true <->
  forall i, 0 <= i -> Z.testbit flag i = true ->
    Z.testbit (na_Services na) i = true \/ Z.testbit service i = true.
Proof.
  unfold NetAddress_HasService, NetAddress_AddService, hasService, addService.
  cbn [na_Services]. rewrite Z.eqb_eq. split.
  - intros E i Hi Hf. apply (f_equal (fun z => Z.testbit z i)) in E.
    rewrite Z.land_spec, Z.lor_spec, Hf, andb_true_r in E. by apply orb_true_iff.
  - intros Hb. apply Z.bits_inj'. intros i Hi. rewrite Z.land_spec, Z.lor_spec.
    destruct (Z.testbit flag i) eqn:Hf; [|by rewrite andb_false_r].
    by rewrite andb_true_r, orb_true_iff; auto.
Qed.
