(* ===== verification/Tx.v ===== *)
(** * msg_tx.go: transactions

    Scripts are values here (the bytes a slice holds).  The buffers they live
    in while a transaction is decoded, the script pool and the block arena,
    are the subject of [TxMem.v], whose decoders are proved to return exactly
    what the ones of this file return. *)

From S2P Require Import Prelude Io Common Sha256.

Definition TxVersion : Z := 1.
Definition MaxTxInSequenceNum : Z := 0xffffffff.
Definition minTxInPayload : Z := 9 + HashSize.
Definition MinTxOutPayload : Z := 9.
Definition minTxPayload : Z := 10.

Definition maxTxInPerMessage `{Limits} : Z := to_u64 (maxMessagePayload / minTxInPayload + 1).
Definition maxTxOutPerMessage `{Limits} : Z := to_u64 (maxMessagePayload / MinTxOutPayload + 1).

Record OutPoint := mkOutPoint { op_Hash : bytes; op_Index : Z }.

Definition NewOutPoint (hash : bytes) (index : Z) : OutPoint := mkOutPoint hash index.

Record TxIn := mkTxIn {
  ti_PreviousOutPoint : OutPoint;
  ti_SignatureScript : bytes;
  ti_Sequence : Z;
}.

Definition NewTxIn (prevOut : OutPoint) (signatureScript : bytes) : TxIn :=
  mkTxIn prevOut signatureScript MaxTxInSequenceNum.

Record TxOut := mkTxOut { to_Value : Z; to_PkScript : bytes }.

Definition NewTxOut (value : Z) (pkScript : bytes) : TxOut := mkTxOut value pkScript.

Record MsgTx := mkMsgTx {
  tx_Version : Z;
  tx_TxIn : list TxIn;
  tx_TxOut : list TxOut;
  tx_LockTime : Z;
}.

#[export] Instance outpoint_eq_dec : EqDecision OutPoint.
Proof. solve_decision. Defined.
#[export] Instance txin_eq_dec : EqDecision TxIn.
Proof. solve_decision. Defined.
#[export] Instance txout_eq_dec : EqDecision TxOut.
Proof. solve_decision. Defined.
#[export] Instance msgtx_eq_dec : EqDecision MsgTx.
Proof. solve_decision. Defined.

Definition NewMsgTx (version : Z) : MsgTx := mkMsgTx version [] [] 0.

Definition AddTxIn (msg : MsgTx) (ti : TxIn) : MsgTx :=
  mkMsgTx (tx_Version msg) (tx_TxIn msg ++ [ti]) (tx_TxOut msg) (tx_LockTime msg).

Definition AddTxOut (msg : MsgTx) (to : TxOut) : MsgTx :=
  mkMsgTx (tx_Version msg) (tx_TxIn msg) (tx_TxOut msg ++ [to]) (tx_LockTime msg).

(** ** Decoding *)

Definition readOutPoint : Dec OutPoint :=
  hash ← readFull HashSize;
  index ← Uint32 littleEndian;
  mret (mkOutPoint hash index).

(** The bytes [readScript] leaves in the buffer it returns. *)
Definition readScript (maxAllowed : Z) (fieldName : string) : Dec bytes :=
  count ← ReadVarInt;
  if count >? maxAllowed then
    DFail (messageError "readScript" "%s is larger than the max allowed size [count %d, max %d]"
             [ABytes (str fieldName); AInt count; AInt maxAllowed])
  else readFull count.

Definition readTxIn `{Limits} : Dec TxIn :=
  op ← readOutPoint;
  script ← readScript maxTxInPerMessage "transaction input signature script";
  sequence ← readElement Tuint32;
  mret (mkTxIn op script sequence).

Definition readTxOut `{Limits} : Dec TxOut :=
  value ← readElement Tint64;
  script ← readScript maxMessagePayload "transaction output public key script";
  mret (mkTxOut value script).

Definition tooManyIn `{Limits} (count : Z) : error :=
  messageError "MsgTx.Bsvdecode"
    "too many input transactions to fit into max message size [count %d, max %d]"
    [AInt count; AInt maxTxInPerMessage].

Definition tooManyOut `{Limits} (f : string) (count : Z) : error :=
  messageError f
    "too many output transactions to fit into max message size [count %d, max %d]"
    [AInt count; AInt maxTxOutPerMessage].

Definition readTxIns `{Limits} : Dec (list TxIn) :=
  count ← ReadVarInt;
  if count >? maxTxInPerMessage then DFail (tooManyIn count)
  else dlist (Z.to_nat count) readTxIn.

Definition readTxOuts `{Limits} : Dec (list TxOut) :=
  count ← ReadVarInt;
  if count >? maxTxOutPerMessage then DFail (tooManyOut "MsgTx.Bsvdecode" count)
  else dlist (Z.to_nat count) readTxOut.

(** [MsgTx.Bsvdecode] (the single-transaction path of [bsvdecode]). *)
Definition MsgTx_Bsvdecode `{Limits} : Dec MsgTx :=
  version ← Uint32 littleEndian;
  ins ← readTxIns;
  outs ← readTxOuts;
  lockTime ← Uint32 littleEndian;
  mret (mkMsgTx (to_i32 version) ins outs lockTime).

Definition MsgTx_Deserialize `{Limits} : Dec MsgTx := MsgTx_Bsvdecode.

(** ** Encoding *)

Definition writeOutPoint (op : OutPoint) : Enc :=
  ewrite (op_Hash op) >>> PutUint32 littleEndian (op_Index op).

Definition writeTxIn (ti : TxIn) : Enc :=
  writeOutPoint (ti_PreviousOutPoint ti) >>>
  WriteVarBytes (ti_SignatureScript ti) >>>
  PutUint32 littleEndian (ti_Sequence ti).

Definition WriteTxOut (to : TxOut) : Enc :=
  PutUint64 littleEndian (to_u64 (to_Value to)) >>> WriteVarBytes (to_PkScript to).

Definition MsgTx_BsvEncode (msg : MsgTx) : Enc :=
  PutUint32 littleEndian (to_u32 (tx_Version msg)) >>>
  WriteVarInt (len (tx_TxIn msg)) >>>
  efor writeTxIn (tx_TxIn msg) >>>
  WriteVarInt (len (tx_TxOut msg)) >>>
  efor WriteTxOut (tx_TxOut msg) >>>
  PutUint32 littleEndian (tx_LockTime msg).

Definition MsgTx_Serialize (msg : MsgTx) : Enc := MsgTx_BsvEncode msg.

(** ** Hash, sizes, script locations *)

(** [TxHash]: the transaction is serialized into a SHA-256 hasher and the
    digest is hashed again. *)
Definition TxHash (msg : MsgTx) : bytes :=
  let '(_, h) := runE (MsgTx_Serialize msg) (mkHasher []) in Sum256 (hasher_Sum h).

Definition TxIn_SerializeSize (t : TxIn) : Z :=
  40 + VarIntSerializeSize (len (ti_SignatureScript t)) + len (ti_SignatureScript t).

Definition TxOut_SerializeSize (t : TxOut) : Z :=
  8 + VarIntSerializeSize (len (to_PkScript t)) + len (to_PkScript t).

Definition baseSize (msg : MsgTx) : Z :=
  let n := 8 + VarIntSerializeSize (len (tx_TxIn msg)) +
           VarIntSerializeSize (len (tx_TxOut msg)) in
  let n := fold_left (fun n txIn => n + TxIn_SerializeSize txIn) (tx_TxIn msg) n in
  fold_left (fun n txOut => n + TxOut_SerializeSize txOut) (tx_TxOut msg) n.

(** The sums of [int] are in [Z]: they stay below 2^63 for all that fits into
    the memory of a 64-bit machine. *)
Definition MsgTx_SerializeSize (msg : MsgTx) : Z := baseSize msg.

(** The loop of [PkScriptLocs] over the outputs, from offset [n]. *)
Fixpoint pkScriptLocs (n : Z) (outs : list TxOut) : list Z :=
  match outs with
  | [] => []
  | txOut :: outs =>
      let n := n + (8 + VarIntSerializeSize (len (to_PkScript txOut))) in
      n :: pkScriptLocs (n + len (to_PkScript txOut)) outs
  end.

Definition PkScriptLocs (msg : MsgTx) : list Z :=
  let numTxOut := len (tx_TxOut msg) in
  if numTxOut =? 0 then []
  else
    let n := 4 + VarIntSerializeSize (len (tx_TxIn msg)) + VarIntSerializeSize numTxOut in
    let n := fold_left (fun n txIn => n + TxIn_SerializeSize txIn) (tx_TxIn msg) n in
    pkScriptLocs n (tx_TxOut msg).

(** [Copy]: every script is copied into a new slice. *)
Definition copyScript (oldScript : bytes) : bytes :=
  if len oldScript >? 0 then take (length oldScript) oldScript else [].

Definition MsgTx_Copy (msg : MsgTx) : MsgTx :=
  mkMsgTx (tx_Version msg)
    (map (fun old => mkTxIn
            (mkOutPoint (op_Hash (ti_PreviousOutPoint old)) (op_Index (ti_PreviousOutPoint old)))
            (copyScript (ti_SignatureScript old)) (ti_Sequence old)) (tx_TxIn msg))
    (map (fun old => mkTxOut (to_Value old) (copyScript (to_PkScript old))) (tx_TxOut msg))
    (tx_LockTime msg).

(** ** The encoding *)

Definition OutPoint_bytes (op : OutPoint) : bytes :=
  op_Hash op ++ put_uint littleEndian 4 (op_Index op).

Definition TxIn_bytes (ti : TxIn) : bytes :=
  OutPoint_bytes (ti_PreviousOutPoint ti) ++ var_bytes (ti_SignatureScript ti) ++
  put_uint littleEndian 4 (ti_Sequence ti).

Definition TxOut_bytes (to : TxOut) : bytes :=
  put_uint littleEndian 8 (to_u64 (to_Value to)) ++ var_bytes (to_PkScript to).

Definition MsgTx_bytes (tx : MsgTx) : bytes :=
  put_uint littleEndian 4 (to_u32 (tx_Version tx)) ++
  list_bytes TxIn_bytes (tx_TxIn tx) ++ list_bytes TxOut_bytes (tx_TxOut tx) ++
  put_uint littleEndian 4 (tx_LockTime tx).

Definition OutPoint_ok (op : OutPoint) : Prop := sized HashSize (op_Hash op) /\ is_u32 (op_Index op).

Definition TxIn_ok `{Limits} (ti : TxIn) : Prop :=
  OutPoint_ok (ti_PreviousOutPoint ti) /\
  var_ok maxTxInPerMessage (ti_SignatureScript ti) /\ is_u32 (ti_Sequence ti).

Definition TxOut_ok `{Limits} (to : TxOut) : Prop :=
  is_i64 (to_Value to) /\ var_ok maxMessagePayload (to_PkScript to).

(** The transactions the decoder accepts. *)
Definition MsgTx_ok `{Limits} (tx : MsgTx) : Prop :=
  is_i32 (tx_Version tx) /\ list_ok TxIn_ok maxTxInPerMessage (tx_TxIn tx) /\
  list_ok TxOut_ok maxTxOutPerMessage (tx_TxOut tx) /\ is_u32 (tx_LockTime tx).

Lemma encodes_writeOutPoint op : encodes (writeOutPoint op) (OutPoint_bytes op).
Proof. apply encodes_seq; [apply encodes_write|auto with encodes]. Qed.
#[export] Hint Resolve encodes_writeOutPoint : encodes.

Lemma encodes_writeTxIn ti : encodes (writeTxIn ti) (TxIn_bytes ti).
Proof. unfold writeTxIn, TxIn_bytes. auto with encodes. Qed.

Lemma encodes_WriteTxOut to : encodes (WriteTxOut to) (TxOut_bytes to).
Proof. unfold WriteTxOut, TxOut_bytes. auto with encodes. Qed.
#[export] Hint Resolve encodes_writeTxIn encodes_WriteTxOut : encodes.

Lemma encodes_MsgTx tx : encodes (MsgTx_BsvEncode tx) (MsgTx_bytes tx).
Proof.
  unfold MsgTx_BsvEncode, MsgTx_bytes, list_bytes. rewrite <- !app_assoc.
  auto 10 with encodes.
Qed.
#[export] Hint Resolve encodes_MsgTx : encodes.

(** ** The decoder inverts the encoder *)

#[export] Instance Codec_readOutPoint : Codec readOutPoint OutPoint_bytes OutPoint_ok.
Proof.
  pose proof (Codec_readFull HashSize ltac:(done)) as Hh. split.
  - intros [h i] [Hs Hi]. eapply decodes_bind; [by apply decodes_readFull|].
    eapply decodes_bind_last; [by apply codec_decodes|apply decodes_ret].
  - intros s op s' Hr. unfold readOutPoint in Hr. run_exact.
    unfold OutPoint_bytes. by rewrite <- app_assoc.
Qed.

#[export] Instance Codec_readScript max name :
  Codec (readScript max name) var_bytes (var_ok max).
Proof.
  apply (Codec_counted max (fun count => messageError "readScript" _
           [ABytes (str name); AInt count; AInt max])).
Qed.

Section WithLimits.
Context `{Limits}.

#[export] Instance Codec_readTxIn : Codec readTxIn TxIn_bytes TxIn_ok.
Proof.
  split.
  - intros [op sc sq] (Ho & Hs & Hq). eapply decodes_bind; [by apply codec_decodes|].
    eapply decodes_bind; [by apply codec_decodes|].
    eapply decodes_bind_last; [by apply (decodes_elem Tuint32)|apply decodes_ret].
  - intros s ti s' Hr. unfold readTxIn in Hr. run_exact.
    unfold TxIn_bytes. by rewrite <- !app_assoc.
Qed.

#[export] Instance Codec_readTxOut : Codec readTxOut TxOut_bytes TxOut_ok.
Proof.
  split.
  - intros [v sc] (Hv & Hs). eapply decodes_bind; [by apply (decodes_elem Tint64)|].
    eapply decodes_bind_last; [by apply codec_decodes|apply decodes_ret].
  - intros s to s' Hr. unfold readTxOut in Hr. run_exact.
    unfold TxOut_bytes. by rewrite <- app_assoc.
Qed.

#[export] Instance Codec_readTxIns :
  Codec readTxIns (list_bytes TxIn_bytes) (list_ok TxIn_ok maxTxInPerMessage).
Proof. apply (Codec_counted_list readTxIn _ _ _ tooManyIn). Qed.

#[export] Instance Codec_readTxOuts :
  Codec readTxOuts (list_bytes TxOut_bytes) (list_ok TxOut_ok maxTxOutPerMessage).
Proof. apply (Codec_counted_list readTxOut _ _ _ (tooManyOut _)). Qed.

#[export] Instance Codec_MsgTx : Codec MsgTx_Bsvdecode MsgTx_bytes MsgTx_ok.
Proof.
  split.
  - intros [v ins outs lt] (Hv & Hi & Ho & Hl).
    eapply decodes_bind; [apply codec_decodes, to_u32_range|].
    do 2 (eapply decodes_bind; [by apply codec_decodes|]).
    eapply decodes_bind_last; [by apply codec_decodes|].
    rewrite to_i32_u32 by done. apply decodes_ret.
  - intros s tx s' Hr. unfold MsgTx_Bsvdecode in Hr. run_exact.
    unfold MsgTx_bytes, MsgTx_ok. cbn [tx_Version tx_TxIn tx_TxOut tx_LockTime].
    rewrite to_u32_i32, <- !app_assoc by done. auto with wire.
Qed.

Lemma streamable_readScript max name : streamable (readScript max name).
Proof. unfold readScript. solve_streamable. Qed.
Hint Resolve streamable_readScript : streamable.

Lemma streamable_readTxIn : streamable readTxIn.
Proof. unfold readTxIn, readOutPoint. solve_streamable. Qed.
Lemma streamable_readTxOut : streamable readTxOut.
Proof. unfold readTxOut. solve_streamable. Qed.
Hint Resolve streamable_readTxIn streamable_readTxOut : streamable.

Lemma streamable_MsgTx : streamable MsgTx_Bsvdecode.
Proof. unfold MsgTx_Bsvdecode, readTxIns, readTxOuts. solve_streamable. Qed.
End WithLimits.

#[export] Hint Resolve streamable_readScript streamable_readTxIn streamable_readTxOut
  streamable_MsgTx : streamable.

(** ** Sizes and script locations *)

(** The hashes are Go arrays of 32 bytes. *)
Definition hashes_sized (tx : MsgTx) : Prop :=
  Forall (fun ti => sized HashSize (op_Hash (ti_PreviousOutPoint ti))) (tx_TxIn tx).

Lemma len_TxIn_bytes ti :
  sized HashSize (op_Hash (ti_PreviousOutPoint ti)) -> len (TxIn_bytes ti) = TxIn_SerializeSize ti.
Proof.
  intros Hs. unfold TxIn_bytes, OutPoint_bytes, TxIn_SerializeSize. autorewrite with len.
  unfold sized, HashSize in Hs. lia.
Qed.

Lemma len_TxOut_bytes to : len (TxOut_bytes to) = TxOut_SerializeSize to.
Proof. unfold TxOut_bytes, TxOut_SerializeSize. autorewrite with len. lia. Qed.

Lemma len_TxIns_bytes ins :
  Forall (fun ti => sized HashSize (op_Hash (ti_PreviousOutPoint ti))) ins ->
  len (list_bytes TxIn_bytes ins) =
  VarIntSerializeSize (len ins) + zsum (map TxIn_SerializeSize ins).
Proof.
  intros Hs. rewrite len_list_bytes. do 2 f_equal. apply map_ext_in. intros ti Hti.
  apply len_TxIn_bytes. rewrite Forall_forall in Hs. by apply Hs.
Qed.

Lemma len_TxOuts_bytes outs :
  len (list_bytes TxOut_bytes outs) =
  VarIntSerializeSize (len outs) + zsum (map TxOut_SerializeSize outs).
Proof. rewrite len_list_bytes. do 2 f_equal. apply map_ext. apply len_TxOut_bytes. Qed.

Lemma len_MsgTx_bytes tx : hashes_sized tx -> len (MsgTx_bytes tx) = MsgTx_SerializeSize tx.
Proof.
  intros Hs. unfold MsgTx_bytes, MsgTx_SerializeSize, baseSize.
  rewrite !len_app, !len_put_uint, len_TxIns_bytes, len_TxOuts_bytes by done.
  rewrite !fold_left_add_zsum. lia.
Qed.

Lemma MsgTx_ok_hashes `{Limits} tx : MsgTx_ok tx -> hashes_sized tx.
Proof.
  intros (_ & (_ & _ & Hi) & _). eapply list.Forall_impl; [exact Hi|]. by intros ti ((? & _) & _).
Qed.

(** A script found in the middle of the serialization. *)
Definition script_at (data : bytes) (loc : Z) (script : bytes) : Prop :=
  take (length script) (drop (Z.to_nat loc) data) = script.

Lemma script_at_app (pre script post : bytes) n :
  n = len pre -> script_at (pre ++ script ++ post) n script.
Proof.
  intros ->. unfold script_at. rewrite to_nat_len, drop_app_eq by done. by apply take_app_eq.
Qed.

Lemma pkScriptLocs_at outs n (pre post : bytes) :
  n = len pre ->
  Forall2 (fun loc to => script_at (pre ++ concat (map TxOut_bytes outs) ++ post) loc (to_PkScript to))
    (pkScriptLocs n outs) outs.
Proof.
  revert n pre. induction outs as [|to outs IH]; intros n pre Hn;
    cbn [pkScriptLocs map concat]; constructor.
  - set (pre' := pre ++ put_uint littleEndian 8 (to_u64 (to_Value to)) ++
                 varint_bytes (len (to_PkScript to))).
    replace (pre ++ (TxOut_bytes to ++ concat (map TxOut_bytes outs)) ++ post)
      with (pre' ++ to_PkScript to ++ concat (map TxOut_bytes outs) ++ post)
      by (subst pre'; unfold TxOut_bytes, var_bytes; by rewrite <- !app_assoc).
    apply script_at_app. subst pre' n. autorewrite with len. lia.
  - replace (pre ++ (TxOut_bytes to ++ concat (map TxOut_bytes outs)) ++ post)
      with ((pre ++ TxOut_bytes to) ++ concat (map TxOut_bytes outs) ++ post)
      by (by rewrite <- !app_assoc).
    apply IH. rewrite len_app, len_TxOut_bytes. unfold TxOut_SerializeSize. lia.
Qed.

Lemma pkScriptLocs_shift k n outs :
  pkScriptLocs (n + k) outs = map (fun loc => loc + k) (pkScriptLocs n outs).
Proof.
  revert n. induction outs as [|to outs IH]; intros n; [done|]. cbn [pkScriptLocs map].
  f_equal; [lia|]. rewrite <- IH. f_equal. lia.
Qed.

(** ** The properties *)

(** A well-formed transaction is encoded without error and decoded
    back to itself from any stream that starts with its encoding; no byte
    after the encoding is read. *)
Theorem MsgTx_roundtrip `{Limits} (tx : MsgTx) (rest : bytes) (e : error) :
  MsgTx_ok tx ->
  outcome (MsgTx_BsvEncode tx) = None /\
  run MsgTx_Bsvdecode (mkStream (written (MsgTx_BsvEncode tx) ++ rest) e) =
    (Ok tx, mkStream rest e).
Proof.
  intros Hok. destruct (encodes_MsgTx tx) as [Ho Hw]. rewrite Hw. split; [done|].
  by apply codec_decodes.
Qed.

Definition exampleTx : MsgTx :=
  mkMsgTx (-1) [mkTxIn (mkOutPoint (zeros 32) 7) [Byte.x51; Byte.x52] 9]
    [mkTxOut (-2) [Byte.x76; Byte.xa9; Byte.x14]] 0xffffffff.

(** A bounded list of well-formed values, on closed data. *)
Ltac ok_list :=
  split; [vm_compute; discriminate|];
  split; [split; [vm_compute; discriminate|vm_compute; reflexivity]|].

Lemma exampleTx_ok : @MsgTx_ok defaultLimits exampleTx.
Proof.
  split; [split; vm_compute; [discriminate|reflexivity]|].
  split; [|split; [|split; vm_compute; [discriminate|reflexivity]]]; ok_list;
    repeat constructor; vm_compute; (reflexivity || discriminate).
Qed.

Lemma MsgTx_roundtrip_witness :
  outcome (MsgTx_BsvEncode exampleTx) = None /\
  run (@MsgTx_Bsvdecode defaultLimits)
    (mkStream (written (MsgTx_BsvEncode exampleTx) ++ [Byte.x01]) EOF) =
    (Ok exampleTx, mkStream [Byte.x01] EOF).
Proof. apply (@MsgTx_roundtrip defaultLimits exampleTx [Byte.x01] EOF). exact exampleTx_ok. Defined.

(** C23: what was decoded re-encodes to exactly the bytes that were
    consumed, the transaction id is the double SHA-256 of those bytes and
    [SerializeSize] is their number. *)
Theorem MsgTx_decode_exact `{Limits} (s : stream) (tx : MsgTx) (s' : stream) :
  run MsgTx_Bsvdecode s = (Ok tx, s') ->
  exists raw, s_data s = raw ++ s_data s' /\ s_err s = s_err s' /\
    written (MsgTx_Serialize tx) = raw /\
    TxHash tx = Sum256 (Sum256 raw) /\ MsgTx_SerializeSize tx = len raw.
Proof.
  intros Hr. apply codec_exact in Hr as [-> Hok]. destruct (encodes_MsgTx tx) as [Ho Hw].
  exists (MsgTx_bytes tx). unfold TxHash, MsgTx_Serialize. rewrite runE_hasher, Hw.
  split_and!; try done. symmetry. by apply len_MsgTx_bytes, MsgTx_ok_hashes.
Qed.

Lemma MsgTx_decode_exact_witness :
  exists raw, MsgTx_bytes exampleTx ++ [Byte.x01] = raw ++ [Byte.x01] /\ EOF = EOF /\
    written (MsgTx_Serialize exampleTx) = raw /\
    TxHash exampleTx = Sum256 (Sum256 raw) /\ MsgTx_SerializeSize exampleTx = len raw.
Proof.
  apply (@MsgTx_decode_exact defaultLimits (mkStream (MsgTx_bytes exampleTx ++ [Byte.x01]) EOF)
           exampleTx (mkStream [Byte.x01] EOF)).
  vm_compute. reflexivity.
Defined.

(** C24: every offset [PkScriptLocs] returns is where the public key
    script of the corresponding output starts in the serialized transaction. *)
Theorem PkScriptLocs_correct (tx : MsgTx) :
  hashes_sized tx ->
  Forall2 (fun loc to => script_at (written (MsgTx_Serialize tx)) loc (to_PkScript to))
    (PkScriptLocs tx) (tx_TxOut tx).
Proof.
  intros Hs. unfold MsgTx_Serialize. rewrite (proj2 (encodes_MsgTx tx)).
  unfold PkScriptLocs. destruct (Z.eqb_spec (len (tx_TxOut tx)) 0) as [E|_].
  { apply len_0_inv in E. by rewrite E. }
  replace (MsgTx_bytes tx) with
    ((put_uint littleEndian 4 (to_u32 (tx_Version tx)) ++ list_bytes TxIn_bytes (tx_TxIn tx) ++
      varint_bytes (len (tx_TxOut tx))) ++
     concat (map TxOut_bytes (tx_TxOut tx)) ++ put_uint littleEndian 4 (tx_LockTime tx))
    by (unfold MsgTx_bytes, list_bytes; by rewrite <- !app_assoc).
  apply pkScriptLocs_at.
  rewrite !len_app, len_put_uint, len_TxIns_bytes, len_varint_bytes, fold_left_add_zsum by done. lia.
Qed.

Lemma PkScriptLocs_correct_witness :
  PkScriptLocs exampleTx = [58] /\
  Forall2 (fun loc to => script_at (written (MsgTx_Serialize exampleTx)) loc (to_PkScript to))
    (PkScriptLocs exampleTx) (tx_TxOut exampleTx).
Proof.
  split; [vm_compute; reflexivity|]. apply (PkScriptLocs_correct exampleTx).
  repeat constructor.
Defined.
