(* ===== verification/Mem.v ===== *)
(** * Go byte slices over a heap of arrays

    [make] allocates a fresh array, a slice is a window on an array.  Two
    slices may share an array: [store] through one is visible through the
    other exactly where their windows overlap. *)

From S2P Require Import Prelude Io.

Abbreviation heap := (list bytes).

(** Offset, length and capacity are counted in bytes from the array's start
    ([sl_cap] from [sl_off], as [cap(s)]). *)
Record Slice := mkSlice { sl_arr : nat; sl_off : Z; sl_len : Z; sl_cap : Z }.

Definition nilSlice : Slice := mkSlice 0 0 0 0.

Definition array (h : heap) (a : nat) : bytes := nth a h [].

Definition contents (h : heap) (s : Slice) : bytes :=
  take (Z.to_nat (sl_len s)) (drop (Z.to_nat (sl_off s)) (array h (sl_arr s))).

(** [make([]byte, n)] *)
Definition make (n : Z) (h : heap) : Slice * heap :=
  (mkSlice (length h) 0 n n, h ++ [zeros (Z.to_nat n)]).

(** [s[:n]] and [s[lo:hi:hi]] *)
Definition reslice (s : Slice) (n : Z) : Slice := mkSlice (sl_arr s) (sl_off s) n (sl_cap s).
Definition subslice (s : Slice) (lo hi : Z) : Slice :=
  mkSlice (sl_arr s) (sl_off s + lo) (hi - lo) (hi - lo).

(** Overwrite the first bytes of a slice, as [copy(s, bs)] and
    [io.ReadFull(r, s)] do. *)
Definition overwrite (off : nat) (bs a : bytes) : bytes :=
  take off a ++ bs ++ drop (off + length bs) a.

Definition store (s : Slice) (bs : bytes) (h : heap) : heap :=
  alter (overwrite (Z.to_nat (sl_off s)) bs) (sl_arr s) h.

(** The window of a slice lies inside its array. *)
Definition wf_slice (h : heap) (s : Slice) : Prop :=
  0 <= sl_off s /\ 0 <= sl_len s <= sl_cap s /\
  sl_off s + sl_cap s <= len (array h (sl_arr s)).

(** No byte is visible through both slices, even after appending. *)
Definition disjoint_slices (s t : Slice) : Prop :=
  sl_arr s <> sl_arr t \/ sl_off s + sl_cap s <= sl_off t \/ sl_off t + sl_cap t <= sl_off s.

Lemma disjoint_slices_sym s t : disjoint_slices s t -> disjoint_slices t s.
Proof. unfold disjoint_slices. intuition congruence. Qed.

Lemma array_lookup h a x : h !! a = Some x -> array h a = x.
Proof. unfold array. revert a. induction h as [|y h IH]; intros [|a]; naive_solver. Qed.

Lemma array_overflow h a : (length h <= a)%nat -> array h a = [].
Proof. apply nth_overflow. Qed.

Lemma array_store s bs h a :
  array (store s bs h) a =
  if decide (a = sl_arr s) then
    (if decide (a < length h)%nat then overwrite (Z.to_nat (sl_off s)) bs (array h a) else [])
  else array h a.
Proof.
  unfold store. destruct (decide (a = sl_arr s)) as [->|Hne].
  - case_decide as Hl.
    + destruct (lookup_lt_is_Some_2 h _ Hl) as [x Hx].
      rewrite (array_lookup h _ x Hx). apply array_lookup.
      by rewrite list_lookup_alter_eq, Hx.
    + apply array_overflow. rewrite length_alter. lia.
  - destruct (decide (a < length h)%nat) as [Hl|Hl].
    + destruct (lookup_lt_is_Some_2 h _ Hl) as [x Hx].
      rewrite (array_lookup h _ x Hx). apply array_lookup.
      by rewrite list_lookup_alter_ne.
    + rewrite !array_overflow; rewrite ?length_alter; lia || done.
Qed.

Lemma length_store s bs h : length (store s bs h) = length h.
Proof. apply length_alter. Qed.

Lemma len_overwrite off bs a :
  (off + length bs <= length a)%nat -> len (overwrite off bs a) = len a.
Proof.
  intros Hl. unfold overwrite, len. rewrite !length_app, length_take, length_drop. lia.
Qed.

Lemma len_array_store s bs h a :
  wf_slice h s -> len bs <= sl_len s ->
  len (array (store s bs h) a) = len (array h a).
Proof.
  intros (Ho & Hl & Hc) Hb. rewrite array_store.
  destruct (decide (a = sl_arr s)) as [->|]; [|done]. case_decide.
  - apply len_overwrite. zlia.
  - by rewrite array_overflow by lia.
Qed.

Lemma wf_slice_store s bs h t :
  wf_slice h s -> len bs <= sl_len s -> wf_slice h t -> wf_slice (store s bs h) t.
Proof. intros Hs Hb (?&?&?). unfold wf_slice. by rewrite len_array_store. Qed.

(** What was stored is read back. *)
Lemma contents_store_eq s bs h :
  wf_slice h s -> len bs = sl_len s -> contents (store s bs h) s = bs.
Proof.
  intros (Ho & Hl & Hc) Hb. unfold contents. rewrite array_store, decide_True by done.
  case_decide as Hlt.
  - unfold overwrite. rewrite drop_app_eq by (rewrite length_take; zlia).
    apply take_app_eq. zlia.
  - rewrite array_overflow in Hc by lia. unfold len in Hc, Hb. simpl in Hc.
    assert (sl_len s = 0) by lia. destruct bs; [|simpl in *; lia].
    by rewrite drop_nil, take_nil.
Qed.

(** The bytes stored are read back through the window they fill. *)
Lemma contents_store_prefix s bs h hi :
  wf_slice h s -> len bs = hi -> hi <= sl_len s ->
  contents (store s bs h) (mkSlice (sl_arr s) (sl_off s) hi hi) = bs.
Proof.
  intros (Ho & Hl & Hc) Hb Hhi.
  assert (wf_slice h (mkSlice (sl_arr s) (sl_off s) hi hi)) as Hw.
  { unfold wf_slice. simpl. pose proof (len_nonneg bs). lia. }
  exact (contents_store_eq (mkSlice (sl_arr s) (sl_off s) hi hi) bs h Hw Hb).
Qed.

(** A store through one slice does not change a disjoint one. *)
Lemma contents_store_ne s bs h t :
  wf_slice h s -> wf_slice h t -> len bs <= sl_len s -> disjoint_slices s t ->
  contents (store s bs h) t = contents h t.
Proof.
  intros (Ho & Hl & Hc) (Ho' & Hl' & Hc') Hb Hd. unfold contents. rewrite array_store.
  destruct (decide (sl_arr t = sl_arr s)) as [E|]; [|done].
  destruct Hd as [|Hd]; [congruence|]. case_decide as Hlt; [|by rewrite array_overflow by lia].
  rewrite E in *. set (a := array h (sl_arr s)) in *. unfold overwrite.
  destruct Hd as [Hd|Hd].
  - rewrite drop_app_ge by (rewrite length_take; zlia).
    rewrite drop_app_ge by (rewrite length_take; zlia).
    rewrite drop_drop, length_take. do 2 f_equal. zlia.
  - rewrite drop_app_le by (rewrite length_take; zlia).
    rewrite take_app_le by (rewrite length_drop, length_take; zlia).
    assert (Z.to_nat (sl_off t) + Z.to_nat (sl_len t) <= Z.to_nat (sl_off s))%nat by zlia.
    rewrite !take_drop_commute, take_take. do 2 f_equal. lia.
Qed.

(** *** Allocation *)

Lemma array_make n h s h' a :
  make n h = (s, h') -> (a < length h)%nat -> array h' a = array h a.
Proof. intros [= <- <-] Ha. unfold array. by apply app_nth1. Qed.

Lemma contents_make n h s h' t :
  make n h = (s, h') -> (sl_arr t < length h)%nat -> contents h' t = contents h t.
Proof. intros Hm Ht. unfold contents. by erewrite array_make. Qed.

Lemma wf_make n h s h' : 0 <= n -> make n h = (s, h') ->
  wf_slice h' s /\ sl_len s = n /\ sl_cap s = n /\ sl_arr s = length h /\ sl_off s = 0 /\
  length h' = S (length h).
Proof.
  intros Hn [= <- <-]. unfold wf_slice. simpl. unfold array.
  rewrite app_nth2, Nat.sub_diag, length_app by lia. simpl.
  unfold zeros. rewrite len_replicate. split_and!; lia.
Qed.

Lemma wf_slice_make n h s h' t :
  make n h = (s, h') -> (sl_arr t < length h)%nat -> wf_slice h t -> wf_slice h' t.
Proof. intros Hm Ht. unfold wf_slice. by erewrite (array_make n h s h'). Qed.

(** A non-empty window lies in an existing array. *)
Lemma wf_slice_lt h s : wf_slice h s -> 0 < sl_cap s -> (sl_arr s < length h)%nat.
Proof.
  intros (Ho & Hl & Hc) Hp. destruct (decide (sl_arr s < length h)%nat); [done|].
  rewrite array_overflow in Hc by lia. unfold len in Hc. simpl in Hc. lia.
Qed.

Lemma len_contents h s : wf_slice h s -> len (contents h s) = sl_len s.
Proof.
  intros (Ho & Hl & Hc). unfold contents, len. rewrite length_take, length_drop. zlia.
Qed.

(** ** Decoders with memory

    A program that reads from an [io.Reader] and updates a memory: an error is
    a value it returns, so that the memory after the error is known. *)

Fixpoint dtry {A} (d : Dec A) : Dec (result A) :=
  match d with
  | DRet a => DRet (Ok a)
  | DFail e => DRet (Err e)
  | DRead n k => DRead n (fun x => dtry (k x))
  | DLen k => DLen (fun x => dtry (k x))
  end.

Lemma run_dtry `{Reader R} {A} (d : Dec A) (r : R) :
  run (dtry d) r = (let '(x, r') := run d r in (Ok x, r')).
Proof.
  revert r. induction d as [a|e|n k IH|k IH]; intros r; simpl; try done.
  destruct (ReadFull n r) as [[bs e] r']. apply IH.
Qed.

(** [io.ReadFull(r, s)]: the bytes that arrived are in [s], also on error. *)
Definition readInto (s : Slice) (h : heap) : Dec (option error * heap) :=
  DRead (sl_len s) (fun '(bs, e) => DRet (e, store s bs h)).

Lemma stream_ReadFull_len n (s : stream) bs e s' :
  0 <= n -> ReadFull n s = (bs, e, s') -> len bs <= n /\ (e = None -> len bs = n).
Proof.
  intros Hn. unfold ReadFull. simpl. unfold stream_pull.
  destruct (Z.leb_spec n (len (s_data s))); intros [= <- <- <-].
  - rewrite len_take_le by lia. lia.
  - split; [lia|done].
Qed.
