(* ===== verification/FreeList.v ===== *)
(** * common.go: the free list of scratch buffers behind [binarySerializer]

    Every integer is read and written through an 8-byte buffer borrowed from
    a shared channel.  [Common.v] gives the integer operations at value level;
    here they run on the memory of [Mem.v].  One goroutine at a time: they
    refine the value-level operations.  Any number of goroutines, interleaved
    step by step: no goroutine ever sees the bytes of another one. *)

From S2P Require Import Prelude Io Common Mem.

Definition binaryFreeListMaxItems : Z := 1024.

(** The heap and the channel: what is sent last is received last. *)
Record freeList := mkFreeList { fl_heap : heap; fl_chan : list Slice }.

(** [Borrow]: [select] takes a buffer if there is one, else [make]. *)
Definition binaryFreeList_Borrow (m : freeList) : Slice * freeList :=
  match fl_chan m with
  | buf :: rest => (reslice buf 8, mkFreeList (fl_heap m) rest)
  | [] => let '(buf, h) := make 8 (fl_heap m) in (reslice buf 8, mkFreeList h [])
  end.

(** [Return]: [select] sends unless the channel is full. *)
Definition binaryFreeList_Return (buf : Slice) (m : freeList) : freeList :=
  if len (fl_chan m) <? binaryFreeListMaxItems
  then mkFreeList (fl_heap m) (fl_chan m ++ [buf]) else m.

Definition setHeap (h : heap) (m : freeList) : freeList := mkFreeList h (fl_chan m).

(** [Uint16], [Uint32], [Uint64] for [n] = 2, 4, 8, and [Uint8] for [n] = 1,
    where the byte order does not matter: the result and the memory. *)
Definition uintM (n : nat) (o : ByteOrder) (m : freeList) : Dec (result Z * freeList) :=
  let '(b, m) := binaryFreeList_Borrow m in
  let buf := reslice b (Z.of_nat n) in
  '(e, h) ← readInto buf (fl_heap m);
  let m := setHeap h m in
  match e with
  | Some e => mret (Err e, binaryFreeList_Return buf m)
  | None =>
      let rv := get_uint o (contents (fl_heap m) buf) in
      mret (Ok rv, binaryFreeList_Return buf m)
  end.

(** [PutUint8], [PutUint16], [PutUint32], [PutUint64]: the error, the writer
    and the memory. *)
Definition putUintM `{Writer W} (n : nat) (o : ByteOrder) (val : Z) (m : freeList) (w : W) :
    option error * W * freeList :=
  let '(b, m) := binaryFreeList_Borrow m in
  let buf := reslice b (Z.of_nat n) in
  let m := setHeap (store buf (put_uint o n val) (fl_heap m)) m in
  let '(_, err, w) := Write (contents (fl_heap m) buf) w in
  (err, w, binaryFreeList_Return buf m).

(** ** The invariant

    [held] are the buffers in the hands of goroutines.  Buffers are whole
    8-byte arrays, and no array is behind two of them, in the channel or in
    hand. *)

Definition is_buffer (h : heap) (s : Slice) : Prop :=
  sl_off s = 0 /\ 0 <= sl_len s <= 8 /\ sl_cap s = 8 /\ len (array h (sl_arr s)) = 8.

Record FInv (m : freeList) (held : list Slice) : Prop := {
  fi_nodup : NoDup (map sl_arr (fl_chan m ++ held));
  fi_buffer : Forall (is_buffer (fl_heap m)) (fl_chan m ++ held);
}.

Lemma is_buffer_wf h s : is_buffer h s -> wf_slice h s.
Proof. intros (Ho & Hl & Hc & Ha). unfold wf_slice. lia. Qed.

Lemma is_buffer_reslice h s n : 0 <= n <= 8 -> is_buffer h s -> is_buffer h (reslice s n).
Proof. intros Hn (Ho & Hl & Hc & Ha). by unfold is_buffer, reslice. Qed.

Lemma is_buffer_lt h s : is_buffer h s -> (sl_arr s < length h)%nat.
Proof. intros Hb. apply wf_slice_lt; [by apply is_buffer_wf|]. destruct Hb as (_ & _ & -> & _). lia. Qed.

Lemma FInv_perm m held held' : held ≡ₚ held' -> FInv m held -> FInv m held'.
Proof.
  intros Hp [Hn Hb]. split; [|by rewrite <- Hp].
  eapply NoDup_Permutation_proper; [|exact Hn]. by rewrite Hp.
Qed.

(** The length of a buffer is not part of the invariant. *)
Lemma FInv_reslice m s held n : 0 <= n <= 8 -> FInv m (s :: held) -> FInv m (reslice s n :: held).
Proof.
  intros Hn [Hd Hb]. split; [by rewrite map_app in *|].
  apply list.Forall_app in Hb as [Hb1 Hb2]. inversion Hb2; subst.
  apply list.Forall_app. split; [done|]. constructor; [by apply is_buffer_reslice|done].
Qed.

Lemma Borrow_FInv m held b m' :
  FInv m held -> binaryFreeList_Borrow m = (b, m') ->
  FInv m' (b :: held) /\
  (forall t, (sl_arr t < length (fl_heap m))%nat -> contents (fl_heap m') t = contents (fl_heap m) t).
Proof.
  intros HI Hb. unfold binaryFreeList_Borrow in Hb. destruct (fl_chan m) as [|buf rest] eqn:Ec.
  - destruct (make 8 (fl_heap m)) as [s h] eqn:Em. injection Hb as <- <-.
    destruct (wf_make 8 _ _ _ ltac:(lia) Em) as (Hw & Hl & Hc & Ha & Ho & _).
    destruct HI as [Hn Hbuf]. rewrite Ec in *.
    assert (forall t, t ∈ held -> (sl_arr t < length (fl_heap m))%nat) as Hlt.
    { intros t Ht. rewrite list.Forall_forall in Hbuf. by eapply is_buffer_lt, Hbuf. }
    split; [split|]; cbn [fl_chan fl_heap app map].
    + apply list.NoDup_cons. split; [|done]. intros (t & Ht & Hin)%list_elem_of_In%in_map_iff.
      apply list_elem_of_In in Hin. specialize (Hlt t Hin). cbn [sl_arr reslice] in Ht. lia.
    + constructor.
      * unfold is_buffer, reslice. cbn. rewrite Ho, Hc. unfold wf_slice in Hw.
        split_and!; try lia. injection Em as <- <-. cbn [sl_arr]. unfold array.
        rewrite app_nth2, Nat.sub_diag by lia. done.
      * apply list.Forall_forall. intros t Ht. rewrite list.Forall_forall in Hbuf.
        destruct (Hbuf t Ht) as (H1 & H2 & H3 & H4). unfold is_buffer.
        erewrite array_make by eauto. done.
    + intros t Ht. by eapply contents_make.
  - injection Hb as <- <-. split; [|done]. cbn [fl_chan fl_heap].
    apply FInv_reslice; [lia|]. destruct HI as [Hn Hbuf]. rewrite Ec in *. split; cbn [fl_chan].
    + eapply NoDup_Permutation_proper; [|exact Hn]. cbn [app map].
      rewrite !map_app. cbn [map]. symmetry. apply Permutation_middle.
    + rewrite <- Permutation_middle. done.
Qed.

Lemma Return_FInv m buf held :
  FInv m (buf :: held) -> FInv (binaryFreeList_Return buf m) held.
Proof.
  intros [Hn Hb]. unfold binaryFreeList_Return. destruct (_ <? _).
  - split; cbn [fl_chan fl_heap]; by rewrite <- app_assoc.
  - split.
    + rewrite map_app in *. cbn [map] in Hn. rewrite <- Permutation_middle in Hn.
      by apply list.NoDup_cons in Hn as [_ ?].
    + rewrite <- Permutation_middle in Hb. by inversion Hb.
Qed.

(** A store through a buffer in hand does not reach another one. *)
Lemma store_FInv m buf held bs :
  FInv m (buf :: held) -> len bs <= sl_len buf ->
  FInv (setHeap (store buf bs (fl_heap m)) m) (buf :: held) /\
  (forall t, t ∈ held -> contents (store buf bs (fl_heap m)) t = contents (fl_heap m) t).
Proof.
  intros [Hn Hb] Hl. assert (is_buffer (fl_heap m) buf) as Hbuf.
  { rewrite list.Forall_forall in Hb. apply Hb. set_solver. }
  split; [split; cbn [fl_chan fl_heap setHeap]; [done|]|].
  - eapply list.Forall_impl; [exact Hb|]. intros t (H1 & H2 & H3 & H4). unfold is_buffer.
    rewrite len_array_store by (done || by apply is_buffer_wf). done.
  - intros t Ht. apply contents_store_ne; try done; [by apply is_buffer_wf| |].
    + apply is_buffer_wf. rewrite list.Forall_forall in Hb. apply Hb. set_solver.
    + left. rewrite map_app in Hn. apply list.NoDup_app in Hn as (_ & _ & Hn).
      cbn [map] in Hn. apply list.NoDup_cons in Hn as [Hn _].
      intros E. apply Hn. rewrite E. apply list_elem_of_In, in_map_iff.
      exists t. split; [done|]. by apply list_elem_of_In.
Qed.

(** ** One goroutine: refinement of the value-level operations *)

Definition uint (n : nat) (o : ByteOrder) : Dec Z :=
  buf ← readFull (Z.of_nat n); mret (get_uint o buf).

Lemma uint_Uint8 o (s : stream) : run (uint 1 o) s = run Uint8 s.
Proof.
  unfold uint, Uint8. change (Z.of_nat 1) with 1. rewrite !run_bind.
  destruct (run (readFull 1) s) as [[bs|e] s'] eqn:Er; [|done].
  apply readFull_exact in Er as [_ Hl]; [|done]. unfold len in Hl.
  destruct bs as [|b [|b' bs]]; cbn [length] in Hl; try lia.
  cbn [hd run mret Dec_ret]. do 2 f_equal. destruct o; apply le_combine_1.
Qed.

(** Nothing but the buffers of the free list is written. *)
Definition Frame (m m' : freeList) : Prop :=
  forall t, (sl_arr t < length (fl_heap m))%nat -> sl_arr t ∉ map sl_arr (fl_chan m) ->
    contents (fl_heap m') t = contents (fl_heap m) t.

Section Sequential.
Context (m : freeList) (HI : FInv m []) (n : nat) (Hn : (n <= 8)%nat).

(** Borrowing a buffer of [n] bytes and filling it. *)
Lemma borrow_fill b m1 :
  binaryFreeList_Borrow m = (b, m1) ->
  let buf := reslice b (Z.of_nat n) in
  FInv m1 [buf] /\
  forall bs, len bs <= Z.of_nat n ->
    let m2 := setHeap (store buf bs (fl_heap m1)) m1 in
    FInv (binaryFreeList_Return buf m2) [] /\
    Frame m (binaryFreeList_Return buf m2) /\
    (len bs = Z.of_nat n -> contents (fl_heap m2) buf = bs).
Proof.
  intros Hb buf. destruct (Borrow_FInv m [] b m1 HI Hb) as [HI1 Hk].
  assert (FInv m1 [buf]) as HI1' by (apply FInv_reslice; [lia|done]). split; [done|].
  intros bs Hl m2. destruct (store_FInv m1 buf [] bs HI1' Hl) as [HI2 _].
  assert (is_buffer (fl_heap m1) buf) as Hbuf.
  { destruct HI1' as [_ Hf]. rewrite list.Forall_forall in Hf. apply Hf. set_solver. }
  split; [by apply Return_FInv|]. split; [|intros El; by apply contents_store_eq; [apply is_buffer_wf|]].
  intros t Ht Hnt. rewrite <- (Hk t Ht). unfold binaryFreeList_Return.
  destruct (_ <? _); cbn [fl_heap setHeap m2]; unfold contents; rewrite array_store, decide_False;
    try done; intros E; unfold binaryFreeList_Borrow in Hb;
    destruct (fl_chan m) as [|c rest]; injection Hb as <- <-; cbn in E; try lia;
    apply Hnt; rewrite E; cbn [map]; set_solver.
Qed.

Lemma uintM_spec o (s : stream) :
  exists m', FInv m' [] /\ Frame m m' /\
    run (uintM n o m) s = (let '(x, s') := run (uint n o) s in (Ok (x, m'), s')).
Proof.
  unfold uintM, uint. destruct (binaryFreeList_Borrow m) as [b m1] eqn:Hb.
  destruct (borrow_fill b m1 Hb) as [HI1 Hfill]. set (buf := reslice b (Z.of_nat n)) in *.
  rewrite !run_bind. unfold readInto, readFull. cbn [run sl_len reslice buf].
  destruct (ReadFull (Z.of_nat n) s) as [[bs e] s'] eqn:Er.
  apply stream_ReadFull_len in Er as [Hle Heq]; [|lia].
  destruct (Hfill bs Hle) as (HI2 & Hfr & Hc). cbn [run]. fold buf.
  eexists. split; [exact HI2|]. split; [exact Hfr|].
  destruct e as [e|]; [done|]. specialize (Hc (Heq eq_refl)). cbn [run mret Dec_ret].
  by rewrite Hc.
Qed.

Lemma putUintM_spec `{Writer W} o val (w : W) :
  exists m', FInv m' [] /\ Frame m m' /\
    putUintM n o val m w = (let '(e, w') := runE (ewrite (put_uint o n val)) w in (e, w', m')).
Proof.
  unfold putUintM. destruct (binaryFreeList_Borrow m) as [b m1] eqn:Hb.
  destruct (borrow_fill b m1 Hb) as [_ Hfill].
  destruct (Hfill (put_uint o n val)) as (HI2 & Hfr & Hc); [by rewrite len_put_uint|].
  eexists. split; [exact HI2|]. split; [exact Hfr|]. rewrite Hc by apply len_put_uint.
  unfold runE. cbn [chunks ewrite write_all outcome].
  by destruct (Write (put_uint o n val) w) as [[? [e|]] w'].
Qed.
End Sequential.

(** ** Many goroutines

    Each goroutine is inside one call at most.  [bs] is what the call put
    into its buffer: the bytes its reader delivered, or the integer it
    writes; [out] is what it then took out of it: the argument of
    [byteOrder.Uint], or of [w.Write]. *)

Inductive phase :=
| Idle
| Holding (buf : Slice)                 (* buf := l.Borrow()[:n] *)
| Filled (buf : Slice) (bs : bytes)     (* io.ReadFull(r, buf), byteOrder.PutUint(buf, val) *)
| Used (buf : Slice) (bs out : bytes)   (* byteOrder.Uint(buf), w.Write(buf) *)
| Broken (buf : Slice).                 (* io.ReadFull returned an error *)

(** The memory, the goroutines, and the calls completed so far. *)
Record world := mkWorld { w_mem : freeList; w_phases : list phase; w_log : list (bytes * bytes) }.

Definition phase_buf (p : phase) : option Slice :=
  match p with
  | Idle => None
  | Holding buf | Filled buf _ | Used buf _ _ | Broken buf => Some buf
  end.

Definition held (ps : list phase) : list Slice := omap phase_buf ps.

(** The arrays of the free list. *)
Definition owned (w : world) : list nat := map sl_arr (fl_chan (w_mem w) ++ held (w_phases w)).

Inductive step : world -> world -> Prop :=
| step_borrow m ps log i n b m' :
    ps !! i = Some Idle -> 0 <= n <= 8 -> binaryFreeList_Borrow m = (b, m') ->
    step (mkWorld m ps log) (mkWorld m' (<[i := Holding (reslice b n)]> ps) log)
| step_fill m ps log i buf bs :
    ps !! i = Some (Holding buf) -> len bs = sl_len buf ->
    step (mkWorld m ps log)
      (mkWorld (setHeap (store buf bs (fl_heap m)) m) (<[i := Filled buf bs]> ps) log)
| step_short m ps log i buf bs :
    ps !! i = Some (Holding buf) -> len bs < sl_len buf ->
    step (mkWorld m ps log)
      (mkWorld (setHeap (store buf bs (fl_heap m)) m) (<[i := Broken buf]> ps) log)
| step_use m ps log i buf bs :
    ps !! i = Some (Filled buf bs) ->
    step (mkWorld m ps log)
      (mkWorld m (<[i := Used buf bs (contents (fl_heap m) buf)]> ps) log)
| step_return m ps log i buf bs out :
    ps !! i = Some (Used buf bs out) ->
    step (mkWorld m ps log)
      (mkWorld (binaryFreeList_Return buf m) (<[i := Idle]> ps) (log ++ [(bs, out)]))
| step_abandon m ps log i buf :
    ps !! i = Some (Broken buf) ->
    step (mkWorld m ps log) (mkWorld (binaryFreeList_Return buf m) (<[i := Idle]> ps) log)
(* the rest of the program allocates, and writes to its own arrays *)
| step_make m ps log n s h :
    0 <= n -> make n (fl_heap m) = (s, h) ->
    step (mkWorld m ps log) (mkWorld (setHeap h m) ps log)
| step_other m ps log t bs :
    wf_slice (fl_heap m) t -> len bs <= sl_len t -> sl_arr t ∉ owned (mkWorld m ps log) ->
    step (mkWorld m ps log) (mkWorld (setHeap (store t bs (fl_heap m)) m) ps log).

(** What a goroutine finds in its buffer is what it put there. *)
Definition phase_ok (h : heap) (p : phase) : Prop :=
  match p with
  | Filled buf bs => contents h buf = bs
  | Used _ bs out => out = bs
  | Idle | Holding _ | Broken _ => True
  end.

Record WInv (w : world) : Prop := {
  wi_mem : FInv (w_mem w) (held (w_phases w));
  wi_phases : Forall (phase_ok (fl_heap (w_mem w))) (w_phases w);
  wi_log : Forall (fun '(bs, out) => out = bs) (w_log w);
}.

Lemma phase_split (ps : list phase) i p p' :
  ps !! i = Some p -> exists l r, ps = l ++ p :: r /\ <[i := p']> ps = l ++ p' :: r.
Proof.
  intros Hi. exists (take i ps), (drop (S i) ps). split; [by rewrite take_drop_middle|].
  apply insert_take_drop. by eapply lookup_lt_Some.
Qed.

Lemma held_middle l p r : held (l ++ p :: r) ≡ₚ option_list (phase_buf p) ++ held (l ++ r).
Proof.
  unfold held. rewrite !omap_app.
  change (omap phase_buf (p :: r)) with
    (match phase_buf p with Some y => y :: omap phase_buf r | None => omap phase_buf r end).
  destruct (phase_buf p) as [b|]; [symmetry; exact (Permutation_middle _ _ b)|done].
Qed.

(** A step of one goroutine: the others keep their buffers and contents. *)
Lemma WInv_update m m' l p p' r log log' :
  WInv (mkWorld m (l ++ p :: r) log) ->
  FInv m' (option_list (phase_buf p') ++ held (l ++ r)) ->
  (forall t, t ∈ held (l ++ r) -> contents (fl_heap m') t = contents (fl_heap m) t) ->
  phase_ok (fl_heap m') p' -> Forall (fun '(bs, out) => out = bs) log' ->
  WInv (mkWorld m' (l ++ p' :: r) log').
Proof.
  intros [_ Hp _] HF Hk Hok Hlog. split; cbn [w_mem w_phases w_log] in *.
  - eapply FInv_perm; [|exact HF]. by rewrite held_middle.
  - assert (forall q, q ∈ l ++ r -> phase_ok (fl_heap m) q -> phase_ok (fl_heap m') q) as Hq.
    { intros q Hin Hq. destruct q; cbn [phase_ok] in *; try done. rewrite Hk; [done|].
      unfold held. apply list_elem_of_omap. by exists (Filled buf bs). }
    rewrite list.Forall_app, list.Forall_cons in *. destruct Hp as (Hl & _ & Hr).
    split_and!; [|done|]; rewrite list.Forall_forall in *; intros q Hin;
      (apply Hq; [set_solver|auto]).
  - done.
Qed.

Lemma held_lt m ps t : FInv m (held ps) -> t ∈ held ps -> (sl_arr t < length (fl_heap m))%nat.
Proof.
  intros [_ Hb] Ht. rewrite list.Forall_forall in Hb. eapply is_buffer_lt, Hb. set_solver.
Qed.

(** The goroutine that moves holds [buf]: its buffer first. *)
Lemma FInv_mover m l p r buf :
  phase_buf p = Some buf -> FInv m (held (l ++ p :: r)) -> FInv m (buf :: held (l ++ r)).
Proof. intros Hb. apply FInv_perm. by rewrite held_middle, Hb. Qed.

Lemma FInv_other m l r buf t :
  FInv m (buf :: held (l ++ r)) -> t ∈ held (l ++ r) ->
  contents (fl_heap (binaryFreeList_Return buf m)) t = contents (fl_heap m) t.
Proof. intros _ _. unfold binaryFreeList_Return. by destruct (_ <? _). Qed.

(** A write elsewhere does not reach the buffers. *)
Lemma FInv_heap m hs h :
  FInv m hs ->
  (forall t, t ∈ fl_chan m ++ hs -> len (array h (sl_arr t)) = len (array (fl_heap m) (sl_arr t))) ->
  FInv (setHeap h m) hs.
Proof.
  intros [Hn Hb] Hl. split; [done|]. cbn [fl_chan fl_heap setHeap].
  rewrite list.Forall_forall in *. intros t Ht. destruct (Hb t Ht) as (H1 & H2 & H3 & H4).
  unfold is_buffer. by rewrite Hl.
Qed.

Lemma WInv_heap m ps log h :
  WInv (mkWorld m ps log) ->
  (forall t, t ∈ fl_chan m ++ held ps -> array h (sl_arr t) = array (fl_heap m) (sl_arr t)) ->
  WInv (mkWorld (setHeap h m) ps log).
Proof.
  intros [HF Hp Hlog] Ha. split; cbn [w_mem w_phases w_log] in *; [| |done].
  - apply FInv_heap; [done|]. intros t Ht. by rewrite Ha.
  - rewrite list.Forall_forall in *. intros q Hq. specialize (Hp q Hq).
    destruct q; cbn [phase_ok] in *; try done. rewrite <- Hp. unfold contents.
    rewrite Ha; [done|]. apply elem_of_app. right. apply list_elem_of_omap. by exists (Filled buf bs).
Qed.

Ltac mover Hi p' l r :=
  let E1 := fresh in let E2 := fresh in
  destruct (phase_split _ _ _ p' Hi) as (l & r & E1 & E2); rewrite E2; subst.

Lemma step_WInv w w' : step w w' -> WInv w -> WInv w'.
Proof.
  intros Hs HW. pose proof (wi_mem _ HW) as HF. pose proof (wi_phases _ HW) as Hp.
  pose proof (wi_log _ HW) as Hlog. destruct Hs as
    [m ps log i n b m' Hi Hn Hb|m ps log i buf bs Hi Hl|m ps log i buf bs Hi Hl|m ps log i buf bs Hi
    |m ps log i buf bs out Hi|m ps log i buf Hi|m ps log n s h Hn Hm|m ps log t bs Hw Hl Ho];
    cbn [w_mem w_phases w_log] in *.
  - mover Hi (Holding (reslice b n)) l r.
    assert (FInv m (held (l ++ r))) as HF' by (eapply FInv_perm; [|exact HF]; by rewrite held_middle).
    destruct (Borrow_FInv m _ b m' HF' Hb) as [HI Hk].
    eapply WInv_update; [exact HW|by apply FInv_reslice| |done|done].
    intros t Ht. apply Hk. by eapply held_lt.
  - mover Hi (Filled buf bs) l r. apply (FInv_mover _ _ _ _ buf) in HF; [|done].
    destruct (store_FInv m buf _ bs HF) as [HI Hk]; [lia|].
    eapply WInv_update; [exact HW|exact HI|exact Hk| |done].
    apply contents_store_eq; [|lia]. destruct HF as [_ Hf]. rewrite list.Forall_forall in Hf.
    apply is_buffer_wf, Hf. set_solver.
  - mover Hi (Broken buf) l r. apply (FInv_mover _ _ _ _ buf) in HF; [|done].
    destruct (store_FInv m buf _ bs HF) as [HI Hk]; [lia|].
    by eapply WInv_update; [exact HW|exact HI|exact Hk| |].
  - mover Hi (Used buf bs (contents (fl_heap m) buf)) l r.
    apply (FInv_mover _ _ _ _ buf) in HF; [|done].
    eapply WInv_update; [exact HW|exact HF|done| |done].
    rewrite list.Forall_app, list.Forall_cons in Hp. apply Hp.
  - mover Hi Idle l r. apply (FInv_mover _ _ _ _ buf) in HF; [|done].
    eapply WInv_update; [exact HW|by apply Return_FInv|by intros; eapply FInv_other|done|].
    apply list.Forall_app. split; [done|]. repeat constructor.
    rewrite list.Forall_app, list.Forall_cons in Hp. apply Hp.
  - mover Hi Idle l r. apply (FInv_mover _ _ _ _ buf) in HF; [|done].
    by eapply WInv_update; [exact HW|by apply Return_FInv|by intros; eapply FInv_other| |].
  - apply WInv_heap; [done|]. intros t Ht. eapply array_make; [done|].
    destruct HF as [_ Hf]. rewrite list.Forall_forall in Hf. by eapply is_buffer_lt, Hf.
  - apply WInv_heap; [done|]. intros u Hu. rewrite array_store, decide_False; [done|].
    intros E. apply Ho. unfold owned. cbn [w_mem w_phases]. rewrite <- E.
    apply list_elem_of_In, in_map_iff. exists u. split; [done|]. by apply list_elem_of_In.
Qed.

(** The start: an empty channel, [k] goroutines, any heap. *)
Definition start (h : heap) (k : nat) : world := mkWorld (mkFreeList h []) (replicate k Idle) [].

Lemma held_idle k : held (replicate k Idle) = [].
Proof. by induction k. Qed.

Lemma start_WInv h k : WInv (start h k).
Proof.
  split; cbn [start w_mem w_phases w_log]; rewrite ?held_idle.
  - split; constructor.
  - apply Forall_replicate. exact I.
  - constructor.
Qed.

Lemma reachable_WInv h k w : rtc step (start h k) w -> WInv w.
Proof.
  intros Hr. remember (start h k) as w0 eqn:E.
  assert (WInv w0) as H0 by (subst; apply start_WInv). clear E.
  induction Hr; [done|]. eauto using step_WInv.
Qed.

(** C21: the free list of scratch buffers is safe under any interleaving of
    any number of goroutines, and of writes of the rest of the program to its
    own memory: in every reachable state each completed call took out of its
    buffer exactly the bytes it had put in, and no two buffers, waiting in the
    channel or in use, share memory. *)
Theorem freeList_race_free h k w :
  rtc step (start h k) w ->
  Forall (fun '(bs, out) => out = bs) (w_log w) /\
  NoDup (map sl_arr (fl_chan (w_mem w) ++ held (w_phases w))).
Proof. intros Hr. apply reachable_WInv in Hr as [[Hn _] _ Hlog]. done. Qed.

(** Two goroutines read 2 bytes each; the second one gets the first one's
    buffer only after it has been returned. *)
Lemma freeList_race_free_witness :
  let bs := [Byte.x2a; Byte.x01] in
  exists w, rtc step (start [] 2) w /\ w_log w = [(bs, bs); (bs, bs)] /\
    Forall (fun '(bs, out) => out = bs) (w_log w) /\
    NoDup (map sl_arr (fl_chan (w_mem w) ++ held (w_phases w))).
Proof.
  intros bs.
  assert (exists w, rtc step (start [] 2) w /\ w_log w = [(bs, bs); (bs, bs)]) as (w & Hr & Hl).
  { eexists. split.
    - eapply rtc_l; [eapply (step_borrow _ _ _ 0 2); [reflexivity|lia|reflexivity]|].
      eapply rtc_l; [eapply (step_fill _ _ _ 0 _ bs); reflexivity|].
      eapply rtc_l; [eapply (step_use _ _ _ 0); reflexivity|].
      eapply rtc_l; [eapply (step_return _ _ _ 0); reflexivity|].
      eapply rtc_l; [eapply (step_borrow _ _ _ 1 2); [reflexivity|lia|reflexivity]|].
      eapply rtc_l; [eapply (step_fill _ _ _ 1 _ bs); reflexivity|].
      eapply rtc_l; [eapply (step_use _ _ _ 1); reflexivity|].
      eapply rtc_l; [eapply (step_return _ _ _ 1); reflexivity|].
      apply rtc_refl.
    - vm_compute. reflexivity. }
  exists w. split; [exact Hr|]. split; [exact Hl|]. exact (freeList_race_free [] 2 w Hr).
Defined.

(** C22: reading and writing an integer through a borrowed buffer does, for a
    free list that respects its invariant (in every reachable state it does),
    exactly what the value-level operations of [Common.v] do, on success and
    on error; afterwards the invariant holds again and no memory outside the
    free list has changed. *)
Theorem freeList_refines `{Writer W} (m : freeList) o (s : stream) (w : W) val :
  FInv m [] ->
  let reads n (d : Dec Z) := exists m', FInv m' [] /\ Frame m m' /\
    run (uintM n o m) s = (let '(x, s') := run d s in (Ok (x, m'), s')) in
  let writes n (p : Enc) := exists m', FInv m' [] /\ Frame m m' /\
    putUintM n o val m w = (let '(e, w') := runE p w in (e, w', m')) in
  (reads 1%nat Uint8 /\ reads 2%nat (Uint16 o) /\ reads 4%nat (Uint32 o) /\ reads 8%nat (Uint64 o)) /\
  (writes 1%nat (PutUint8 val) /\ writes 2%nat (PutUint16 o val) /\ writes 4%nat (PutUint32 o val) /\
   writes 8%nat (PutUint64 o val)).
Proof.
  intros HI reads writes. unfold reads, writes. split; split_and!.
  - rewrite <- (uint_Uint8 o). by apply uintM_spec; [|lia].
  - by apply (uintM_spec m HI 2); lia.
  - by apply (uintM_spec m HI 4); lia.
  - by apply (uintM_spec m HI 8); lia.
  - unfold PutUint8. rewrite <- (put_uint_1 o). by apply putUintM_spec; [|lia].
  - by apply (putUintM_spec m HI 2); lia.
  - by apply (putUintM_spec m HI 4); lia.
  - by apply (putUintM_spec m HI 8); lia.
Qed.

Lemma freeList_refines_witness :
  exists m', FInv m' [] /\ Frame (mkFreeList [] []) m' /\
    run (uintM 4 littleEndian (mkFreeList [] [])) (mkStream [Byte.x01; Byte.x02] EOF) =
    (Ok (Err ErrUnexpectedEOF, m'), mkStream [] EOF).
Proof.
  apply (freeList_refines (W:=buffer) (mkFreeList [] []) littleEndian
    (mkStream [Byte.x01; Byte.x02] EOF) (mkBuffer []) 0).
  split; constructor.
Defined.
