(* ===== verification/TxMem.v ===== *)
(** * msg_tx.go: the script pool and the decoding of one transaction in memory

    [scriptFreeList] recycles 512 byte buffers.  [bsvdecode] without an arena
    reads every script into a borrowed buffer, then copies all scripts into
    one array and returns the buffers.  The theorems state that this returns
    what [MsgTx_Bsvdecode] of [Tx.v] returns, that the pool stays well formed
    (no buffer is in it twice or while it is borrowed), and that no array
    outside the pool is written, so earlier transactions keep their scripts. *)

From S2P Require Import Prelude Io Common Tx Mem.

Definition freeListMaxScriptSize : Z := 512.
Definition freeListMaxItems : Z := 12500.

(** The heap and the channel [scriptPool]. *)
Record mem := mkMem { m_heap : heap; m_pool : list Slice }.

Definition Borrow (size : Z) (m : mem) : Slice * mem :=
  if size >? freeListMaxScriptSize then
    let '(s, h) := make size (m_heap m) in (s, mkMem h (m_pool m))
  else
    match m_pool m with
    | buf :: pool => (reslice buf size, mkMem (m_heap m) pool)
    | [] => let '(s, h) := make freeListMaxScriptSize (m_heap m) in
            (reslice s size, mkMem h [])
    end.

Definition Return (buf : Slice) (m : mem) : mem :=
  if negb (sl_cap buf =? freeListMaxScriptSize) then m
  else if len (m_pool m) <? freeListMaxItems
       then mkMem (m_heap m) (m_pool m ++ [buf]) else m.

(** [x, err := d(r); if err != nil { onerr }] *)
Definition tryret {A X} (d : Dec A) (onerr : error -> Dec X) (k : A -> Dec X) : Dec X :=
  x ← dtry d; match x with Ok a => k a | Err e => onerr e end.

Definition readScriptM (maxAllowed : Z) (fieldName : string) (m : mem) :
    Dec (result Slice * mem) :=
  tryret ReadVarInt (fun e => mret (Err e, m)) (fun count =>
  if count >? maxAllowed then
    mret (Err (messageError "readScript" "%s is larger than the max allowed size [count %d, max %d]"
                 [ABytes (str fieldName); AInt count; AInt maxAllowed]), m)
  else
    let '(b, m) := Borrow count m in
    '(e, h) ← readInto b (m_heap m);
    let m := mkMem h (m_pool m) in
    match e with
    | Some e => mret (Err e, Return b m)
    | None => mret (Ok b, m)
    end).

(** Inputs and outputs with their scripts in memory. *)
Record TxInM := mkTxInM { tim_op : OutPoint; tim_script : Slice; tim_seq : Z }.
Record TxOutM := mkTxOutM { tom_value : Z; tom_script : Slice }.
Record MsgTxM := mkMsgTxM {
  txm_Version : Z; txm_TxIn : list TxInM; txm_TxOut : list TxOutM; txm_LockTime : Z }.

Definition zeroOutPoint : OutPoint := mkOutPoint (zeros 32) 0.

(** The input as far as it has been filled in, and the error if any. *)
Definition readTxInM `{Limits} (m : mem) : Dec (TxInM * option error * mem) :=
  tryret readOutPoint (fun e => mret (mkTxInM zeroOutPoint nilSlice 0, Some e, m)) (fun op =>
  '(x, m) ← readScriptM maxTxInPerMessage "transaction input signature script" m;
  match x with
  | Err e => mret (mkTxInM op nilSlice 0, Some e, m)
  | Ok script =>
      tryret (readElement Tuint32) (fun e => mret (mkTxInM op script 0, Some e, m)) (fun sequence =>
      mret (mkTxInM op script sequence, None, m))
  end).

Definition readTxOutM `{Limits} (m : mem) : Dec (TxOutM * option error * mem) :=
  tryret (readElement Tint64) (fun e => mret (mkTxOutM 0 nilSlice, Some e, m)) (fun value =>
  '(x, m) ← readScriptM maxMessagePayload "transaction output public key script" m;
  match x with
  | Err e => mret (mkTxOutM value nilSlice, Some e, m)
  | Ok script => mret (mkTxOutM value script, None, m)
  end).

(** [for i := 0; i < n; i++]: the elements read so far, also on error. *)
Fixpoint readListM {A} (read : mem -> Dec (A * option error * mem)) (n : nat) (acc : list A)
    (m : mem) : Dec (list A * option error * mem) :=
  match n with
  | O => mret (acc, None, m)
  | S n =>
      '(x, e, m) ← read m;
      match e with
      | Some e => mret (acc ++ [x], Some e, m)
      | None => readListM read n (acc ++ [x]) m
      end
  end.

(** [returnScriptBuffers]; returning a nil slice does nothing. *)
Definition returnAll (l : list Slice) (m : mem) : mem := fold_left (fun m s => Return s m) l m.

Definition returnScriptBuffers (ins : list TxInM) (outs : list TxOutM) (m : mem) : mem :=
  returnAll (map tom_script outs) (returnAll (map tim_script ins) m).

(** Copy each script to [scripts[offset:]], keep its window, return its buffer. *)
Fixpoint gather (scripts : Slice) (offset : Z) (l : list Slice) (m : mem) :
    list Slice * Z * mem :=
  match l with
  | [] => ([], offset, m)
  | sc :: l =>
      let room := subslice scripts offset (sl_len scripts) in
      let h := store room (take (Z.to_nat (sl_len room)) (contents (m_heap m) sc)) (m_heap m) in
      let endo := offset + sl_len sc in
      let m := Return sc (mkMem h (m_pool m)) in
      let '(ws, o, m) := gather scripts endo l m in
      (subslice scripts offset endo :: ws, o, m)
  end.

Definition setInScript (t : TxInM) (s : Slice) : TxInM := mkTxInM (tim_op t) s (tim_seq t).
Definition setOutScript (t : TxOutM) (s : Slice) : TxOutM := mkTxOutM (tom_value t) s.

(** The last step of [bsvdecode]: one array for all scripts. *)
Definition finish (version : Z) (ins : list TxInM) (outs : list TxOutM) (lockTime : Z) (m : mem) :
    MsgTxM * mem :=
  let total := zsum (map (fun t => sl_len (tim_script t)) ins) +
               zsum (map (fun t => sl_len (tom_script t)) outs) in
  let '(scripts, h) := make total (m_heap m) in
  let '(wi, offset, m) := gather scripts 0 (map tim_script ins) (mkMem h (m_pool m)) in
  let '(wo, _, m) := gather scripts offset (map tom_script outs) m in
  (mkMsgTxM (to_i32 version) (zip_with setInScript ins wi) (zip_with setOutScript outs wo) lockTime,
   m).

(** [msg.bsvdecode(r, pver, enc, nil)]; [oldOuts] is [msg.TxOut] before. *)
Definition bsvdecodeM `{Limits} (oldOuts : list TxOutM) (m : mem) : Dec (result MsgTxM * mem) :=
  tryret (Uint32 littleEndian) (fun e => mret (Err e, m)) (fun version =>
  tryret ReadVarInt (fun e => mret (Err e, m)) (fun count =>
  if count >? maxTxInPerMessage then mret (Err (tooManyIn count), m) else
  '(ins, e, m) ← readListM readTxInM (Z.to_nat count) [] m;
  match e with
  | Some e => mret (Err e, returnScriptBuffers ins oldOuts m)
  | None =>
  tryret ReadVarInt (fun e => mret (Err e, returnScriptBuffers ins oldOuts m)) (fun count =>
  if count >? maxTxOutPerMessage then
    mret (Err (tooManyOut "MsgTx.Bsvdecode" count), returnScriptBuffers ins oldOuts m) else
  '(outs, e, m) ← readListM readTxOutM (Z.to_nat count) [] m;
  match e with
  | Some e => mret (Err e, returnScriptBuffers ins outs m)
  | None =>
  tryret (Uint32 littleEndian)
    (fun e => mret (Err e, returnScriptBuffers ins outs m)) (fun lockTime =>
  let '(tx, m) := finish version ins outs lockTime m in mret (Ok tx, m))
  end)
  end)).

(** ** The value of a transaction in memory *)

Definition TxIn_view (h : heap) (t : TxInM) : TxIn :=
  mkTxIn (tim_op t) (contents h (tim_script t)) (tim_seq t).
Definition TxOut_view (h : heap) (t : TxOutM) : TxOut :=
  mkTxOut (tom_value t) (contents h (tom_script t)).
Definition MsgTx_view (h : heap) (t : MsgTxM) : MsgTx :=
  mkMsgTx (txm_Version t) (map (TxIn_view h) (txm_TxIn t)) (map (TxOut_view h) (txm_TxOut t))
    (txm_LockTime t).

(** ** The invariant

    [live] are the buffers borrowed since the memory was [m0]. *)

Definition arrays (l : list Slice) : list nat := map sl_arr l.

Record Inv (m0 m : mem) (live : list Slice) : Prop := {
  inv_nodup : NoDup (arrays (m_pool m ++ live));
  inv_wf : Forall (fun s => wf_slice (m_heap m) s /\ sl_off s = 0 /\ freeListMaxScriptSize <= sl_cap s)
             (m_pool m ++ live);
  inv_pool : Forall (fun s => sl_cap s = freeListMaxScriptSize) (m_pool m);
  inv_size : len (m_pool m) <= freeListMaxItems;
  inv_len : (length (m_heap m0) <= length (m_heap m))%nat;
  inv_owned : forall a, a ∈ arrays (m_pool m ++ live) ->
    a ∈ arrays (m_pool m0) \/ (length (m_heap m0) <= a)%nat;
  inv_frame : forall a, (a < length (m_heap m0))%nat -> a ∉ arrays (m_pool m0) ->
    array (m_heap m) a = array (m_heap m0) a;
}.

(** A well-formed pool: the memory before any decoding and between decodings. *)
Definition PoolOk (m : mem) : Prop := Inv m m [].

(** The slices of [live] show the same bytes in both memories. *)
Definition Keeps (live : list Slice) (m m' : mem) : Prop :=
  forall s, s ∈ live -> contents (m_heap m') s = contents (m_heap m) s.

(** The slices that are not nil. *)
Definition reals (l : list Slice) : list Slice := filter (fun s => sl_cap s <> 0) l.

Lemma Keeps_refl live m : Keeps live m m.
Proof. by intros s _. Qed.
Lemma Keeps_trans live m1 m2 m3 : Keeps live m1 m2 -> Keeps live m2 m3 -> Keeps live m1 m3.
Proof. intros H1 H2 s Hs. rewrite H2, H1; done. Qed.
Lemma Keeps_sub live live' m m' : live ⊆ live' -> Keeps live' m m' -> Keeps live m m'.
Proof. intros Hs Hk s Hin. apply Hk, Hs, Hin. Qed.
#[export] Hint Resolve Keeps_refl : wire.

Section Pool.
Context (m0 : mem).

Lemma Inv_perm m live live' : live ≡ₚ live' -> Inv m0 m live -> Inv m0 m live'.
Proof.
  intros Hp [Hn Hw Hpo Hs Hl Ho Hf]. assert (m_pool m ++ live ≡ₚ m_pool m ++ live') as Hpp.
  { by apply Permutation_app_head. }
  assert (arrays (m_pool m ++ live) ≡ₚ arrays (m_pool m ++ live')) as Ha.
  { by apply Permutation_map. }
  split; try done.
  - by rewrite <- Ha.
  - by rewrite <- Hpp.
  - intros a. rewrite <- Ha. apply Ho.
Qed.

(** A buffer in use is in an existing array. *)
Lemma Inv_lt m live s : Inv m0 m live -> s ∈ m_pool m ++ live ->
  (sl_arr s < length (m_heap m))%nat.
Proof.
  intros HI Hs. pose proof (inv_wf _ _ _ HI) as Hw. rewrite list.Forall_forall in Hw.
  destruct (Hw s Hs) as (Hwf & _ & Hc). eapply wf_slice_lt; [done|].
  unfold freeListMaxScriptSize in Hc. lia.
Qed.

(** A new array taken into use. *)
Lemma Inv_make n k m live s h :
  freeListMaxScriptSize <= n -> 0 <= k <= n -> Inv m0 m live ->
  make n (m_heap m) = (s, h) ->
  Inv m0 (mkMem h (m_pool m)) (reslice s k :: live) /\
  Keeps live m (mkMem h (m_pool m)).
Proof.
  intros Hn Hk HI Hm. destruct (wf_make n _ s h ltac:(unfold freeListMaxScriptSize in *; lia) Hm)
    as ((Hw1 & Hw2 & Hw3) & Hsl & Hsc & Hsa & Hso & Hlen).
  assert (forall t, t ∈ m_pool m ++ live -> (sl_arr t < length (m_heap m))%nat) as Hlt
    by (intros; by eapply Inv_lt).
  split; [|intros t Ht; eapply contents_make; [done|apply Hlt; set_solver]].
  destruct HI as [Hnd Hw Hpo Hs Hl Ho Hf]. split; simpl; try done.
  - unfold arrays in *. rewrite map_app. simpl. rewrite <- Permutation_middle, <- map_app.
    constructor; [|done]. rewrite Hsa. rewrite list_elem_of_fmap. intros (t & Et & Ht).
    apply Hlt in Ht. lia.
  - rewrite <- Permutation_middle. constructor.
    + unfold wf_slice, reslice. simpl. split_and!; lia.
    + rewrite list.Forall_forall in *. intros t Ht. destruct (Hw t Ht) as (Hwt & ?).
      split; [|done]. eapply wf_slice_make; eauto.
  - rewrite Hlen. lia.
  - unfold arrays in *. intros a. rewrite map_app. simpl.
    rewrite <- Permutation_middle, <- map_app, elem_of_cons. intros [->|Ha]; [|by apply Ho].
    right. rewrite Hsa. lia.
  - intros a Ha Hna. rewrite <- Hf by done. eapply array_make; [done|lia].
Qed.

(** [Borrow] hands out a buffer nobody else uses. *)
Lemma Borrow_inv size m live b m' :
  0 <= size -> Inv m0 m live -> Borrow size m = (b, m') ->
  Inv m0 m' (b :: live) /\ sl_len b = size /\ Keeps live m m'.
Proof.
  intros Hsz HI. unfold Borrow. rewrite Z.gtb_ltb.
  destruct (Z.ltb_spec freeListMaxScriptSize size) as [Hb|Hb].
  - destruct (make size (m_heap m)) as [s h] eqn:Em. intros [= <- <-].
    destruct (Inv_make size size m live s h ltac:(lia) ltac:(lia) HI Em) as [H1 H2].
    replace (reslice s size) with s in H1; [|by injection Em as <- _]. split; [done|].
    split; [|done]. by injection Em as <- _.
  - destruct (m_pool m) as [|buf pool] eqn:Ep.
    + destruct (make freeListMaxScriptSize (m_heap m)) as [s h] eqn:Em. intros [= <- <-].
      destruct (Inv_make freeListMaxScriptSize size m live s h ltac:(lia) ltac:(lia) HI Em)
        as [H1 H2]. by rewrite Ep in *.
    + intros [= <- <-]. split; [|split; [done|by intros t]].
      destruct HI as [Hnd Hw Hpo Hs Hl Ho Hf]. rewrite Ep in *.
      inversion_clear Hpo as [|?? Hcap Hpo'].
      split; simpl; try done.
      * unfold arrays in *. rewrite map_app in *. simpl. by rewrite <- Permutation_middle.
      * rewrite <- Permutation_middle. inversion_clear Hw as [|?? (Hwb & Hob & Hcb) Hw'].
        constructor; [|done]. unfold wf_slice, reslice in *. simpl. split_and!; lia.
      * rewrite len_cons in Hs. lia.
      * unfold arrays in *. intros a Ha. apply Ho. rewrite map_app in *. simpl in *.
        by rewrite <- Permutation_middle in Ha.
Qed.

(** Writing to a borrowed buffer changes no other. *)
Lemma store_inv b bs m live :
  Inv m0 m (b :: live) -> len bs <= sl_len b ->
  Inv m0 (mkMem (store b bs (m_heap m)) (m_pool m)) (b :: live) /\
  Keeps live m (mkMem (store b bs (m_heap m)) (m_pool m)).
Proof.
  intros HI Hb. pose proof (inv_wf _ _ _ HI) as Hw. rewrite list.Forall_forall in Hw.
  destruct (Hw b ltac:(set_solver)) as (Hwb & _).
  pose proof (inv_nodup _ _ _ HI) as Hnd. unfold arrays in Hnd.
  rewrite map_app in Hnd. simpl in Hnd.
  rewrite <- Permutation_middle, <- map_app, list.NoDup_cons, list_elem_of_fmap in Hnd.
  destruct Hnd as [Hni _]. split.
  - destruct HI as [Hnd Hw' Hpo Hs Hl Ho Hf]. split; simpl; try done.
    + rewrite list.Forall_forall. intros t Ht. destruct (Hw t Ht) as (Hwt & ?).
      split; [|done]. by apply wf_slice_store.
    + by rewrite length_store.
    + intros a Ha Hna. rewrite array_store, decide_False by
        (intros ->; destruct (Ho (sl_arr b)); [|done|lia];
         unfold arrays; rewrite list_elem_of_fmap; exists b; set_solver).
      by apply Hf.
  - intros t Ht. simpl. apply contents_store_ne; [done| |done|].
    + apply Hw. set_solver.
    + left. intros E. apply Hni. exists t. split; [congruence|set_solver].
Qed.

(** A returned buffer is no longer in use. *)
Lemma Return_inv b m live : Inv m0 m (b :: live) -> Inv m0 (Return b m) live.
Proof.
  intros [Hnd Hw Hpo Hs Hl Ho Hf]. unfold Return.
  assert (Inv m0 m live) as Hdrop.
  { split; try done.
    - unfold arrays in *. rewrite map_app in *. simpl in Hnd.
      rewrite <- Permutation_middle, list.NoDup_cons in Hnd. tauto.
    - rewrite <- Permutation_middle in Hw. by inversion_clear Hw.
    - intros a Ha. apply Ho. unfold arrays in *. rewrite map_app in *. simpl. set_solver. }
  destruct (Z.eqb_spec (sl_cap b) freeListMaxScriptSize) as [Hc|]; simpl; [|done].
  destruct (Z.ltb_spec (len (m_pool m)) freeListMaxItems); [|done].
  assert ((m_pool m ++ [b]) ++ live = m_pool m ++ b :: live) as E by (by rewrite <- app_assoc).
  split; simpl; rewrite ?E; try done.
  - by apply Forall_app_2; [|constructor].
  - rewrite len_app, len_cons. change (len (@nil Slice)) with 0. lia.
Qed.

Lemma m_heap_Return b m : m_heap (Return b m) = m_heap m.
Proof. unfold Return. by repeat case_match. Qed.

Lemma returnAll_inv l m live :
  Inv m0 m (reals l ++ live) -> Inv m0 (returnAll l m) live.
Proof.
  revert m. induction l as [|s l IH]; intros m HI; [done|]. cbn [returnAll fold_left].
  apply IH. unfold reals in HI. rewrite filter_cons in HI. case_decide as Hc.
  - apply Return_inv. done.
  - unfold Return. rewrite (proj2 (Z.eqb_neq (sl_cap s) freeListMaxScriptSize)); [done|].
    unfold freeListMaxScriptSize. lia.
Qed.
End Pool.

(** ** The decoders with memory refine the decoders of [Tx.v] *)

(** [x] is what the decoder with memory returned for [y]. *)
Definition agrees {A B} (P : A -> B -> Prop) (x : result A) (y : result B) : Prop :=
  match x, y with
  | Ok a, Ok b => P a b
  | Err e, Err e' => e = e'
  | _, _ => False
  end.

Lemma run_tryret {A X} (d : Dec A) onerr (k : A -> Dec X) (s : stream) :
  run (tryret d onerr k) s =
  (let '(x, s') := run d s in
   match x with Ok a => run (k a) s' | Err e => run (onerr e) s' end).
Proof.
  unfold tryret. rewrite run_bind, run_dtry. destruct (run d s) as [[a|e] s']; done.
Qed.

Section Refine.
Context `{Limits} (m0 : mem).

Lemma readScriptM_spec max name m live (s : stream) :
  Inv m0 m live ->
  exists x m', run (readScriptM max name m) s = (Ok (x, m'), snd (run (readScript max name) s)) /\
    Keeps live m m' /\
    agrees (fun b bs => contents (m_heap m') b = bs) x (fst (run (readScript max name) s)) /\
    Inv m0 m' (match x with Ok b => b :: live | Err _ => live end).
Proof.
  intros HI. unfold readScriptM, readScript. rewrite run_tryret, run_bind.
  destruct (run ReadVarInt s) as [[count|e] s1] eqn:Ec; [|eexists (Err e), m; by auto with wire].
  apply codec_exact in Ec as [-> Hc].
  destruct (count >? max); [eexists (Err _), m; by auto with wire|].
  destruct (Borrow count m) as [b m1] eqn:Eb.
  destruct (Borrow_inv m0 count m live b m1 ltac:(zlia) HI Eb) as (HI1 & Hlen & Hk).
  unfold readInto, readFull. rewrite run_bind. cbn [run].
  destruct (ReadFull (sl_len b) s1) as [[bs e] s2] eqn:Er. rewrite Hlen in Er. rewrite Er.
  cbn [run]. apply stream_ReadFull_len in Er as [Hle Heq]; [|zlia].
  destruct (store_inv m0 b bs m1 live HI1 ltac:(lia)) as [HI2 Hk2].
  pose proof (Keeps_trans _ _ _ _ Hk Hk2) as Hk3. destruct e as [e|].
  - eexists (Err e), _. split; [done|]. split; [|split; [done|by apply Return_inv]].
    intros t Ht. rewrite m_heap_Return. by apply Hk3.
  - eexists (Ok b), _. split; [done|]. split; [done|]. split; [|done].
    simpl. apply contents_store_eq; [|rewrite Heq by done; lia].
    pose proof (inv_wf _ _ _ HI1) as Hw. rewrite list.Forall_forall in Hw.
    apply Hw. set_solver.
Qed.

(** An element with one script: what reading it in memory guarantees. *)
Definition elem_spec {A B} (scr : A -> Slice) (vw : heap -> A -> B)
    (read : mem -> Dec (A * option error * mem)) (d : Dec B) : Prop :=
  forall m live (s : stream), Inv m0 m live ->
  exists a e m', run (read m) s = (Ok (a, e, m'), snd (run d s)) /\
    Keeps live m m' /\ Inv m0 m' (reals [scr a] ++ live) /\
    match fst (run d s) with
    | Ok b => e = None /\ vw (m_heap m') a = b /\ reals [scr a] = [scr a]
    | Err e' => e = Some e'
    end.

Lemma Inv_reals m b live : Inv m0 m (b :: live) -> reals [b] = [b].
Proof.
  intros HI. pose proof (inv_wf _ _ _ HI) as Hw. rewrite list.Forall_forall in Hw.
  destruct (Hw b ltac:(set_solver)) as (_ & _ & Hc). unfold reals, freeListMaxScriptSize in *.
  rewrite filter_cons, decide_True by lia. done.
Qed.

Lemma readTxInM_spec : elem_spec tim_script TxIn_view readTxInM readTxIn.
Proof.
  intros m live s HI. unfold readTxInM, readTxIn. rewrite run_tryret, run_bind.
  destruct (run readOutPoint s) as [[op|e] s1]; [|eexists _, (Some e), m; by auto with wire].
  rewrite !run_bind.
  destruct (readScriptM_spec maxTxInPerMessage "transaction input signature script" m live s1 HI)
    as (x & m1 & -> & Hk & Ha & HI1).
  destruct (run (readScript _ _) s1) as [y s2]. cbn [fst snd] in Ha |- *.
  destruct x as [b|e], y as [bs|e']; simpl in Ha; try done; subst.
  2: eexists _, (Some _), m1; by auto with wire.
  rewrite run_tryret, run_bind. pose proof (Inv_reals _ _ _ HI1) as Hb.
  cbn [readElement elem_val]. destruct (run (Uint32 littleEndian) s2) as [[sq|e] s3];
    eexists _, _, m1; (split; [done|]); simpl; rewrite ?Hb; by auto.
Qed.

Lemma readTxOutM_spec : elem_spec tom_script TxOut_view readTxOutM readTxOut.
Proof.
  intros m live s HI. unfold readTxOutM, readTxOut. rewrite run_tryret, run_bind.
  change (elem_val Tint64) with Z.
  destruct (run (readElement Tint64 : Dec Z) s) as [[v|e] s1]; [|eexists _, (Some e), m; by auto with wire].
  rewrite !run_bind.
  destruct (readScriptM_spec maxMessagePayload "transaction output public key script" m live s1 HI)
    as (x & m1 & -> & Hk & Ha & HI1).
  destruct (run (readScript _ _) s1) as [y s2]. cbn [fst snd] in Ha |- *.
  destruct x as [b|e], y as [bs|e']; simpl in Ha; try done; subst;
    eexists _, _, m1; (split; [done|]); [|by auto].
  pose proof (Inv_reals _ _ _ HI1) as Hb. simpl. rewrite ?Hb. by auto.
Qed.

(** A loop over such elements. *)
Section List.
Context {A B : Type} (scr : A -> Slice) (vw : heap -> A -> B)
  (read : mem -> Dec (A * option error * mem)) (d : Dec B)
  (Hread : elem_spec scr vw read d)
  (Hvw : forall h h' a, contents h (scr a) = contents h' (scr a) -> vw h a = vw h' a).

Lemma Keeps_views m m' l :
  Keeps (map scr l) m m' -> map (vw (m_heap m')) l = map (vw (m_heap m)) l.
Proof.
  intros Hk. apply map_ext_in. intros a Ha. apply Hvw, Hk.
  apply list_elem_of_fmap. exists a. split; [done|]. by apply list_elem_of_In.
Qed.

Lemma reals_app l k : reals (l ++ k) = reals l ++ reals k.
Proof. apply list.filter_app. Qed.

Lemma readListM_spec n acc m live (s : stream) :
  Inv m0 m (map scr acc ++ live) -> reals (map scr acc) = map scr acc ->
  exists l e m', run (readListM read n acc m) s =
      (Ok (l, e, m'),
       snd (run (dloop n (fun l => x ← d; mret (l ++ [x])) (map (vw (m_heap m)) acc)) s)) /\
    Keeps live m m' /\ Inv m0 m' (reals (map scr l) ++ live) /\
    match fst (run (dloop n (fun l => x ← d; mret (l ++ [x])) (map (vw (m_heap m)) acc)) s) with
    | Ok bs => e = None /\ map (vw (m_heap m')) l = bs /\ reals (map scr l) = map scr l
    | Err e' => e = Some e'
    end.
Proof.
  revert acc m s. induction n as [|n IH]; intros acc m s HI Hr.
  { exists acc, None, m. split; [done|]. split; [by auto with wire|]. by rewrite Hr. }
  cbn [readListM dloop]. rewrite !run_bind.
  destruct (Hread m (map scr acc ++ live) s HI) as (a & e & m1 & -> & Hk & HI1 & Hres).
  destruct (run d s) as [[b|e'] s1]; cbn [fst snd] in Hres |- *.
  - destruct Hres as (-> & Hb & Hra). rewrite Hra in HI1.
    assert (map (vw (m_heap m)) acc ++ [b] = map (vw (m_heap m1)) (acc ++ [a])) as Eacc.
    { rewrite map_app. simpl. rewrite Hb, (Keeps_views m m1); [done|].
      eapply Keeps_sub; [|done]. set_solver. }
    destruct (IH (acc ++ [a]) m1 s1) as (l & e & m2 & E2 & Hk2 & HI2 & Hres2).
    + eapply Inv_perm; [|done]. rewrite map_app, <- app_assoc. simpl.
      by rewrite Permutation_middle.
    + rewrite map_app, reals_app, Hr. simpl. by rewrite Hra.
    + exists l, e, m2. cbn [run mret Dec_ret] in *. rewrite Eacc. split; [done|]. split; [|done].
      eapply Keeps_trans; [|done]. eapply Keeps_sub; [|done]. set_solver.
  - subst e. exists (acc ++ [a]), (Some e'), m1. split; [done|].
    split; [eapply Keeps_sub; [|done]; set_solver|]. split; [|done].
    rewrite map_app, reals_app, Hr, <- app_assoc. eapply Inv_perm; [|done].
    simpl. by rewrite Permutation_app_swap_app.
Qed.
End List.
End Refine.

(** ** Moving the scripts into their final array *)

Section Gather.
Context (m0 : mem) (scripts : Slice).

(** The target array is nobody's buffer. *)
Definition private (m : mem) (live : list Slice) : Prop :=
  wf_slice (m_heap m) scripts /\ (sl_arr scripts ∉ arrays (m_pool m ++ live)) /\
  (length (m_heap m0) <= sl_arr scripts < length (m_heap m))%nat.

Lemma arrays_Return b m live :
  arrays (m_pool (Return b m) ++ live) ⊆ arrays (m_pool m ++ b :: live).
Proof. unfold Return, arrays. repeat case_match; simpl; rewrite !map_app; set_solver. Qed.

Lemma private_Return b m live : private m (b :: live) -> private (Return b m) live.
Proof.
  intros (Hw & Hni & Hl). unfold private. rewrite m_heap_Return.
  split; [done|]. split; [|done]. intros Hin. by apply Hni, arrays_Return.
Qed.

(** Writing to the target keeps the invariant and every buffer. *)
Lemma store_private t bs m live :
  Inv m0 m live -> private m live -> sl_arr t = sl_arr scripts ->
  wf_slice (m_heap m) t -> len bs <= sl_len t ->
  let m' := mkMem (store t bs (m_heap m)) (m_pool m) in
  Inv m0 m' live /\ private m' live /\ Keeps live m m'.
Proof.
  intros HI (Hw & Hni & Hl) Ht Hwt Hb. pose proof (inv_wf _ _ _ HI) as Hwf.
  rewrite list.Forall_forall in Hwf. split; [|split].
  - destruct HI as [Hnd Hw' Hpo Hs Hle Ho Hf]. split; simpl; try done.
    + rewrite list.Forall_forall. intros u Hu. destruct (Hwf u Hu) as (? & ?).
      split; [|done]. by apply wf_slice_store.
    + by rewrite length_store.
    + intros a Ha Hna. rewrite array_store, decide_False by lia. by apply Hf.
  - split; [by apply wf_slice_store|]. split; [done|]. cbn [m_heap]. by rewrite length_store.
  - intros u Hu. apply contents_store_ne; [done|apply Hwf; set_solver|done|].
    left. intros E. apply Hni. apply list_elem_of_fmap. exists u. split; [congruence|set_solver].
Qed.

Lemma gather_spec l offset m live ws o m' :
  gather scripts offset l m = (ws, o, m') ->
  Inv m0 m (l ++ live) -> private m (l ++ live) ->
  0 <= offset -> offset + zsum (map sl_len l) <= sl_len scripts ->
  o = offset + zsum (map sl_len l) /\ Inv m0 m' live /\ private m' live /\ Keeps live m m' /\
  map (contents (m_heap m')) ws = map (contents (m_heap m)) l /\
  (forall t, sl_arr t = sl_arr scripts -> wf_slice (m_heap m) t ->
     sl_off t + sl_cap t <= sl_off scripts + offset ->
     contents (m_heap m') t = contents (m_heap m) t /\ wf_slice (m_heap m') t).
Proof.
  revert offset m ws o m'. induction l as [|sc l IH]; intros offset m ws o m' Hg HI Hp Ho Hsum.
  { injection Hg as <- <- <-. simpl. split_and!; auto with wire lia. }
  cbn [gather] in Hg. cbn [map zsum foldr] in Hsum.
  fold (zsum (map sl_len l)) in Hsum.
  pose proof (inv_wf _ _ _ HI) as Hwf. rewrite list.Forall_forall in Hwf.
  destruct (Hwf sc ltac:(clear; set_solver)) as (Hwsc & _ & _).
  pose proof (len_contents _ _ Hwsc) as Hlc.
  pose proof Hwsc as (_ & Hwl & _). pose proof Hp as ((Hs1 & Hs2 & Hs3) & _ & _).
  assert (0 <= zsum (map sl_len l)) as Hz.
  { apply zsum_nonneg. intros u Hu. destruct (Hwf u ltac:(clear -Hu; set_solver)) as ((_&?&_)&_). lia. }
  set (room := subslice scripts offset (sl_len scripts)) in Hg.
  set (bs := contents (m_heap m) sc) in *.
  rewrite firstn_all2 in Hg by (subst room; simpl; zlia).
  assert (wf_slice (m_heap m) room) as Hwr by (subst room; unfold wf_slice; simpl; lia).
  destruct (store_private room bs m ((sc :: l) ++ live) HI Hp eq_refl Hwr) as (HI1 & Hp1 & Hk1).
  { subst room. simpl. lia. }
  set (m1 := mkMem (store room bs (m_heap m)) (m_pool m)) in *.
  destruct (gather scripts (offset + sl_len sc) l (Return sc m1)) as [[ws' o'] m2] eqn:Eg.
  injection Hg as <- <- <-.
  eapply IH in Eg as (-> & HI2 & Hp2 & Hk2 & Hws & Hold);
    [|by apply Return_inv|by apply private_Return|lia|lia].
  rewrite m_heap_Return in *. split; [simpl; fold (zsum (map sl_len l)); lia|].
  split; [done|]. split; [done|]. split.
  { intros u Hu. rewrite Hk2 by done. rewrite m_heap_Return. apply Hk1. clear -Hu; set_solver. }
  set (win := subslice scripts offset (offset + sl_len sc)) in *.
  assert (wf_slice (m_heap m) win) as Hww by (subst win; unfold wf_slice; simpl; lia).
  split.
  - simpl. f_equal.
    + rewrite (proj1 (Hold win eq_refl ltac:(by apply wf_slice_store; [|subst room; simpl; lia|])
                 ltac:(subst win; simpl; lia))).
      replace win with (mkSlice (sl_arr room) (sl_off room) (sl_len sc) (sl_len sc))
        by (subst room win; unfold subslice; simpl; f_equal; lia).
      apply contents_store_prefix; [done|done|subst room; simpl; lia].
    + rewrite Hws. apply map_ext_in. intros u Hu. apply Hk1.
      apply list_elem_of_In in Hu. clear -Hu; set_solver.
  - intros t Et Hwt Htc. destruct (Hold t Et) as [-> Hw2];
      [by apply wf_slice_store; [|subst room; simpl; lia|]|lia|].
    split; [|done]. subst m1. simpl. apply contents_store_ne; try done.
    + subst room. simpl. lia.
    + right. subst room. simpl. lia.
Qed.
End Gather.

(** ** One transaction *)

(** The script is in an array of its own that no pool buffer uses, and
    appending to it cannot reach a neighbour. *)
Definition safe (m : mem) (s : Slice) : Prop :=
  wf_slice (m_heap m) s /\ sl_cap s = sl_len s /\ (sl_arr s < length (m_heap m))%nat /\
  sl_arr s ∉ arrays (m_pool m).

Definition tx_scripts (t : MsgTxM) : list Slice :=
  map tim_script (txm_TxIn t) ++ map tom_script (txm_TxOut t).

Lemma Inv_PoolOk m0 m : Inv m0 m [] -> PoolOk m.
Proof.
  intros [Hnd Hw Hpo Hs Hl Ho Hf]. split; try done. intros a. rewrite app_nil_r. auto.
Qed.

(** What was in memory before and not in the pool is still there. *)
Lemma Inv_frame_contents m0 m live t :
  Inv m0 m live -> safe m0 t -> contents (m_heap m) t = contents (m_heap m0) t.
Proof.
  intros HI (Hw & Hc & Hlt & Hni). unfold contents. by rewrite (inv_frame _ _ _ HI).
Qed.

Lemma Inv_safe m0 m t : Inv m0 m [] -> safe m0 t -> safe m t.
Proof.
  intros HI (Hw & Hc & Hlt & Hni). unfold safe, wf_slice in *.
  rewrite (inv_frame _ _ _ HI) by done. split; [done|]. split; [done|].
  pose proof (inv_len _ _ _ HI). split; [lia|]. intros Hin.
  destruct (inv_owned _ _ _ HI (sl_arr t)); [by rewrite app_nil_r|done|lia].
Qed.

Lemma map_zip_with_1 {A B C} (f : A -> B -> C) (g : C -> B) l k :
  length l = length k -> (forall a b, g (f a b) = b) -> map g (zip_with f l k) = k.
Proof. intros Hl Hg. revert k Hl. induction l; intros []; intros; simplify_eq/=; f_equal; auto. Qed.

Lemma map_zip_view {A B C} (f : A -> Slice -> A) (scr : A -> Slice) (vw vw' : A -> C)
    (c c' : Slice -> B) l k :
  map c' k = map c (map scr l) ->
  (forall a s, c' s = c (scr a) -> vw' (f a s) = vw a) ->
  map vw' (zip_with f l k) = map vw l.
Proof.
  intros Hc Hf. revert k Hc. induction l as [|a l IH]; intros [|s k] Hc; simplify_eq/=; [done|].
  f_equal; auto.
Qed.

Lemma gather_length scripts offset l m ws o m' :
  gather scripts offset l m = (ws, o, m') ->
  length ws = length l.
Proof.
  revert offset m ws o m'. induction l as [|s l IH]; intros offset m ws o m' Hg; simplify_eq/=; [done|].
  destruct (gather scripts (offset + sl_len s) l _) as [[ws' o'] m2] eqn:E.
  simplify_eq/=. f_equal. by eapply IH.
Qed.

Lemma gather_windows scripts offset l m ws o m' :
  gather scripts offset l m = (ws, o, m') ->
  Forall (fun s => 0 <= sl_len s) l -> 0 <= offset ->
  offset + zsum (map sl_len l) <= sl_len scripts -> wf_slice (m_heap m') scripts ->
  Forall (fun w => sl_arr w = sl_arr scripts /\ wf_slice (m_heap m') w /\ sl_cap w = sl_len w /\
                   sl_off w + sl_cap w <= sl_off scripts + o) ws /\ offset <= o.
Proof.
  intros Hg Hnn Ho Hsum Hw. revert offset m ws o m' Hg Ho Hsum Hw.
  induction Hnn as [|s l Hs Hnn IH]; intros offset m ws o m' Hg Ho Hsum Hw.
  { simplify_eq/=. split; [done|lia]. }
  cbn [gather] in Hg. cbn [map zsum foldr] in Hsum. fold (zsum (map sl_len l)) in Hsum.
  assert (0 <= zsum (map sl_len l)).
  { apply zsum_nonneg. rewrite list.Forall_forall in Hnn. auto. }
  destruct (gather scripts (offset + sl_len s) l _) as [[ws' o'] m2] eqn:E. simplify_eq/=.
  eapply IH in E as [Hws Hoo]; [|lia|lia|done]. split; [|lia]. constructor; [|done].
  destruct Hw as (?&?&?). unfold wf_slice. simpl. split_and!; try done; lia.
Qed.

(** A new array that is nobody's buffer. *)
Lemma make_private m0 m live n s h :
  0 <= n -> Inv m0 m live -> make n (m_heap m) = (s, h) ->
  Inv m0 (mkMem h (m_pool m)) live /\ private m0 s (mkMem h (m_pool m)) live /\
  Keeps live m (mkMem h (m_pool m)).
Proof.
  intros Hn HI Hm. destruct (wf_make n _ s h Hn Hm) as (Hws & Hsl & Hsc & Hsa & Hso & Hlen).
  assert (forall t, t ∈ m_pool m ++ live -> (sl_arr t < length (m_heap m))%nat) as Hlt
    by (intros; by eapply Inv_lt).
  split_and!.
  - destruct HI as [Hnd Hw Hpo Hs Hl Ho Hf]. split; simpl; try done.
    + rewrite list.Forall_forall in *. intros t Ht. destruct (Hw t Ht) as (Hwt & ?).
      split; [|done]. eapply wf_slice_make; eauto.
    + lia.
    + intros a Ha Hna. rewrite <- Hf by done. eapply array_make; [done|lia].
  - split; [done|]. split.
    + intros Hin. apply list_elem_of_fmap in Hin as (t & Et & Ht). apply Hlt in Ht. lia.
    + pose proof (inv_len _ _ _ HI). simpl. lia.
  - intros t Ht. eapply contents_make; [done|]. apply Hlt. set_solver.
Qed.

Lemma nonneg_lens m0 m l : Inv m0 m l -> Forall (fun s => 0 <= sl_len s) l.
Proof.
  intros HI. pose proof (inv_wf _ _ _ HI) as Hwf. rewrite list.Forall_forall in *.
  intros s Hs. destruct (Hwf s ltac:(set_solver)) as ((_ & ? & _) & _). lia.
Qed.

(** Both loops together: every script is moved and none is overwritten. *)
Lemma gather2_spec m0 m li lo scripts h wi o1 m1 wo o2 m2 :
  Inv m0 m (li ++ lo) ->
  make (zsum (map sl_len li) + zsum (map sl_len lo)) (m_heap m) = (scripts, h) ->
  gather scripts 0 li (mkMem h (m_pool m)) = (wi, o1, m1) ->
  gather scripts o1 lo m1 = (wo, o2, m2) ->
  Inv m0 m2 [] /\ Forall (safe m2) (wi ++ wo) /\
  map (contents (m_heap m2)) wi = map (contents (m_heap m)) li /\
  map (contents (m_heap m2)) wo = map (contents (m_heap m)) lo.
Proof.
  intros HI Em E1 E2. pose proof (nonneg_lens _ _ _ HI) as Hnn.
  apply Forall_app in Hnn as [Hni Hno].
  assert (0 <= zsum (map sl_len li)) as Hzi by (apply zsum_nonneg, list.Forall_forall, Hni).
  assert (0 <= zsum (map sl_len lo)) as Hzo by (apply zsum_nonneg, list.Forall_forall, Hno).
  set (total := _ + _) in Em.
  destruct (wf_make total _ scripts h ltac:(lia) Em) as (_ & Hsl & _).
  destruct (make_private m0 m _ total scripts h ltac:(lia) HI Em) as (HI1 & Hp1 & Hk1).
  destruct (gather_spec m0 _ _ _ _ _ _ _ _ E1 HI1 Hp1 ltac:(lia) ltac:(lia))
    as (Ho1 & HI2 & Hp2 & Hk2 & Hc1 & _).
  destruct (gather_windows _ _ _ _ _ _ _ E1 Hni ltac:(lia) ltac:(lia) (proj1 Hp2)) as [Hw1 _].
  rewrite <- (app_nil_r lo) in HI2, Hp2.
  destruct (gather_spec m0 _ _ _ _ _ _ _ _ E2 HI2 Hp2 ltac:(lia) ltac:(lia))
    as (Ho2 & HI3 & Hp3 & _ & Hc2 & Hold).
  destruct (gather_windows _ _ _ _ _ _ _ E2 Hno ltac:(lia) ltac:(lia) (proj1 Hp3)) as [Hw2 _].
  destruct Hp3 as (_ & Hna & Hlt). rewrite app_nil_r in Hna.
  rewrite list.Forall_forall in Hw1, Hw2. split; [done|]. split; [|split].
  - apply list.Forall_forall. intros w [Hin|Hin]%elem_of_app.
    + destruct (Hw1 w Hin) as (Ea & Hww & Hcl & Hwe). rewrite <- Ea in Hna, Hlt.
      split; [by apply Hold|]. split_and!; [done|lia|done].
    + destruct (Hw2 w Hin) as (Ea & Hww & Hcl & Hwe). rewrite <- Ea in Hna, Hlt.
      split_and!; [done|done|lia|done].
  - transitivity (map (contents (m_heap m1)) wi); [|rewrite Hc1]; apply map_ext_in;
      intros w Hin%list_elem_of_In.
    + destruct (Hw1 w Hin) as (Ea & Hww & _ & Hwe). by apply Hold.
    + apply Hk1. set_solver.
  - rewrite Hc2. apply map_ext_in. intros s Hs%list_elem_of_In.
    rewrite (Hk2 s Hs). apply Hk1. set_solver.
Qed.

Lemma finish_spec m0 version ins outs lockTime m t m' :
  Inv m0 m (map tim_script ins ++ map tom_script outs) ->
  finish version ins outs lockTime m = (t, m') ->
  Inv m0 m' [] /\ Forall (safe m') (tx_scripts t) /\
  MsgTx_view (m_heap m') t =
  mkMsgTx (to_i32 version) (map (TxIn_view (m_heap m)) ins) (map (TxOut_view (m_heap m)) outs)
    lockTime.
Proof.
  intros HI. unfold finish.
  rewrite <- (map_map tim_script sl_len), <- (map_map tom_script sl_len).
  destruct (make _ (m_heap m)) as [scripts h] eqn:Em.
  destruct (gather scripts 0 _ _) as [[wi o1] m1] eqn:E1.
  destruct (gather scripts o1 _ _) as [[wo o2] m2] eqn:E2. intros [= <- <-].
  destruct (gather2_spec _ _ _ _ _ _ _ _ _ _ _ _ HI Em E1 E2) as (HI2 & Hs & Hi & Ho).
  split; [done|]. split.
  - unfold tx_scripts. simpl.
    apply gather_length in E1, E2. rewrite length_map in E1, E2. by rewrite !map_zip_with_1.
  - unfold MsgTx_view. simpl. f_equal.
    + apply (map_zip_view setInScript tim_script _ _ _ _ _ _ Hi). intros a s Es.
      unfold TxIn_view. simpl. by rewrite Es.
    + apply (map_zip_view setOutScript tom_script _ _ _ _ _ _ Ho). intros a s Es.
      unfold TxOut_view. simpl. by rewrite Es.
Qed.

Section Main.
Context `{Limits}.

(** The statement about one decoding, for any way to continue after it. *)
Definition decoded (m : mem) (x : result MsgTxM) (m' : mem) (y : result MsgTx) : Prop :=
  agrees (fun t tx => MsgTx_view (m_heap m') t = tx /\ Forall (safe m') (tx_scripts t)) x y /\
  Inv m m' [].

Lemma decoded_err m e m' : Inv m m' [] -> decoded m (Err e) m' (Err e).
Proof. by split. Qed.

Lemma run_MsgTx_Bsvdecode (s : stream) :
  run MsgTx_Bsvdecode s =
  (let '(v, s) := run (Uint32 littleEndian) s in
   match v with Err e => (Err e, s) | Ok version =>
   let '(ins, s) := run readTxIns s in
   match ins with Err e => (Err e, s) | Ok ins =>
   let '(outs, s) := run readTxOuts s in
   match outs with Err e => (Err e, s) | Ok outs =>
   let '(lt, s) := run (Uint32 littleEndian) s in
   match lt with Err e => (Err e, s) | Ok lt =>
   (Ok (mkMsgTx (to_i32 version) ins outs lt), s) end end end end).
Proof.
  unfold MsgTx_Bsvdecode. repeat (rewrite run_bind;
    match goal with |- context [run ?d ?s] => destruct (run d s) as [[?|?] ?] end; try done).
Qed.

Lemma bsvdecodeM_spec m (s : stream) :
  PoolOk m ->
  exists x m', run (bsvdecodeM [] m) s = (Ok (x, m'), snd (run MsgTx_Bsvdecode s)) /\
    decoded m x m' (fst (run MsgTx_Bsvdecode s)).
Proof.
  intros HI. rewrite run_MsgTx_Bsvdecode. unfold bsvdecodeM, readTxIns, readTxOuts.
  rewrite run_tryret. destruct (run (Uint32 littleEndian) s) as [[version|e] s1];
    [|by eexists (Err e), m].
  rewrite run_tryret, run_bind. destruct (run ReadVarInt s1) as [[count|e] s2];
    [|by eexists (Err e), m].
  destruct (count >? maxTxInPerMessage); [by eexists (Err _), m|].
  rewrite run_bind.
  destruct (readListM_spec m tim_script TxIn_view readTxInM readTxIn (readTxInM_spec m)
              ltac:(intros ??? E; unfold TxIn_view; by rewrite E) (Z.to_nat count) [] m [] s2 HI
              eq_refl) as (ins & e & m1 & -> & _ & HI1 & Hres).
  rewrite app_nil_r in HI1. unfold dlist. cbn [map] in *.
  destruct (run (dloop _ _ []) s2) as [[bs|e'] s3]; cbn [fst snd] in *.
  2: { subst e. eexists (Err e'), _. split; [done|]. apply decoded_err.
       apply returnAll_inv. rewrite app_nil_r. by apply returnAll_inv; rewrite app_nil_r. }
  destruct Hres as (-> & <- & Hri). rewrite Hri in HI1.
  assert (Inv m (returnScriptBuffers ins [] m1) []) as Hret.
  { apply (returnAll_inv m []), returnAll_inv. by rewrite Hri, app_nil_r. }
  rewrite run_tryret, run_bind. destruct (run ReadVarInt s3) as [[count'|e] s4];
    [|eexists (Err e), _; by auto using decoded_err].
  destruct (count' >? maxTxOutPerMessage); [eexists (Err _), _; by auto using decoded_err|].
  rewrite run_bind.
  destruct (readListM_spec m tom_script TxOut_view readTxOutM readTxOut (readTxOutM_spec m)
              ltac:(intros ??? E; unfold TxOut_view; by rewrite E) (Z.to_nat count') [] m1
              (map tim_script ins) s4 HI1 eq_refl) as (outs & e & m2 & -> & Hk & HI2 & Hres).
  cbn [map] in *.
  assert (Inv m (returnScriptBuffers ins outs m2) []) as Hret2.
  { apply returnAll_inv, returnAll_inv. rewrite Hri, app_nil_r.
    eapply Inv_perm; [|done]. apply Permutation_app_comm. }
  destruct (run (dloop _ _ []) s4) as [[bs|e'] s5]; cbn [fst snd] in *.
  2: { subst e. eexists (Err e'), _. by auto using decoded_err. }
  destruct Hres as (-> & <- & Hro). rewrite Hro in HI2.
  rewrite run_tryret. destruct (run (Uint32 littleEndian) s5) as [[lt|e] s6];
    [|eexists (Err e), _; by auto using decoded_err].
  destruct (finish version ins outs lt m2) as [t m3] eqn:Ef.
  eapply finish_spec in Ef as (HI3 & Hs & Hv);
    [|eapply Inv_perm; [|exact HI2]; apply Permutation_app_comm].
  eexists (Ok t), m3. split; [done|]. split; [|done]. split; [|done]. rewrite Hv. f_equal.
  apply (Keeps_views tim_script TxIn_view); [|done].
  intros ??? E; unfold TxIn_view; by rewrite E.
Qed.
End Main.

(** ** The properties *)

(** Transactions decoded one after the other, each into a new [MsgTx]. *)
Fixpoint decodeSeq `{Limits} (ss : list stream) (m : mem) : list (result MsgTxM) * mem :=
  match ss with
  | [] => ([], m)
  | s :: ss =>
      match run (bsvdecodeM [] m) s with
      | (Ok (x, m), _) => let '(xs, m) := decodeSeq ss m in (x :: xs, m)
      | (Err e, _) => ([], m)
      end
  end.

(** [x] holds, in the memory [m], what the decoder of [Tx.v] returns for [s]. *)
Definition holds `{Limits} (m : mem) (x : result MsgTxM) (s : stream) : Prop :=
  agrees (fun t tx => MsgTx_view (m_heap m) t = tx) x (fst (run MsgTx_Bsvdecode s)).

Lemma view_stays m m' t :
  Inv m m' [] -> Forall (safe m) (tx_scripts t) -> MsgTx_view (m_heap m') t = MsgTx_view (m_heap m) t.
Proof.
  intros HI Hs. unfold tx_scripts in Hs. apply Forall_app in Hs as [Hi Ho].
  rewrite list.Forall_forall in Hi, Ho. unfold MsgTx_view. f_equal; apply map_ext_in; intros u Hu%list_elem_of_In.
  - unfold TxIn_view. f_equal. eapply Inv_frame_contents; [done|]. apply Hi, list_elem_of_fmap. eauto.
  - unfold TxOut_view. f_equal. eapply Inv_frame_contents; [done|]. apply Ho, list_elem_of_fmap. eauto.
Qed.

Lemma Inv_trans m0 m1 m2 : Inv m0 m1 [] -> Inv m1 m2 [] -> Inv m0 m2 [].
Proof.
  intros [Hnd Hw Hpo Hs Hl Ho Hf] [Hnd' Hw' Hpo' Hs' Hl' Ho' Hf'].
  rewrite app_nil_r in Ho, Ho'. split; try done; rewrite ?app_nil_r; [lia|..].
  - intros a Ha. destruct (Ho' a Ha) as [?|?]; [by apply Ho|right; lia].
  - intros a Ha Hna. rewrite Hf'; [by apply Hf|lia|].
    intros Hin. destruct (Ho a Hin); [done|lia].
Qed.

Lemma decodeSeq_inv `{Limits} ss m :
  PoolOk m ->
  let '(xs, m') := decodeSeq ss m in Forall2 (holds m') xs ss /\ Inv m m' [].
Proof.
  revert m. induction ss as [|s ss IH]; intros m HI; [by split|]. cbn [decodeSeq].
  destruct (bsvdecodeM_spec m s HI) as (x & m1 & -> & Ha & HI1).
  specialize (IH m1 (Inv_PoolOk _ _ HI1)). destruct (decodeSeq ss m1) as [xs m2].
  destruct IH as [Hxs HI2]. split; [|by eapply Inv_trans]. constructor; [|done].
  unfold holds. destruct x as [t|e], (fst (run MsgTx_Bsvdecode s)); simpl in *; try done.
  destruct Ha as [<- Hs]. by apply view_stays.
Qed.

(** C15: decoding one transaction into a new [MsgTx] through the script pool returns what
    the decoder without memory returns (value, error and rest of the stream);
    the scripts are found through their slices in the resulting memory, each
    in an array of its own with [cap == len]; and the pool is well formed
    again, also on every error path. *)
Theorem bsvdecode_refines `{Limits} (m : mem) (s : stream) :
  PoolOk m ->
  exists x m', run (bsvdecodeM [] m) s = (Ok (x, m'), snd (run MsgTx_Bsvdecode s)) /\
    agrees (fun t tx => MsgTx_view (m_heap m') t = tx /\ Forall (safe m') (tx_scripts t))
      x (fst (run MsgTx_Bsvdecode s)) /\
    PoolOk m'.
Proof.
  intros HI. destruct (bsvdecodeM_spec m s HI) as (x & m' & Hr & Ha & HI').
  exists x, m'. split; [done|]. split; [done|]. by eapply Inv_PoolOk.
Qed.

(** The memory a process starts with. *)
Definition emptyMem : mem := mkMem [] [].

Lemma emptyMem_ok : PoolOk emptyMem.
Proof. by split; try constructor; intros; simpl; try lia. Qed.

(** A transaction with one input and one output, both with short scripts. *)
Definition sampleTx : MsgTx :=
  mkMsgTx 1 [mkTxIn (mkOutPoint (zeros 32) 7) [Byte.x51; Byte.x52] 9]
    [mkTxOut 5000 [Byte.x76; Byte.xa9; Byte.x14]] 0.

Lemma bsvdecode_refines_witness :
  exists x m', run (@bsvdecodeM defaultLimits [] emptyMem) (mkStream (MsgTx_bytes sampleTx) EOF) =
      (Ok (x, m'), snd (run (@MsgTx_Bsvdecode defaultLimits) (mkStream (MsgTx_bytes sampleTx) EOF))) /\
    agrees (fun t tx => MsgTx_view (m_heap m') t = tx /\ Forall (safe m') (tx_scripts t))
      x (fst (run (@MsgTx_Bsvdecode defaultLimits) (mkStream (MsgTx_bytes sampleTx) EOF))) /\
    PoolOk m'.
Proof. apply (@bsvdecode_refines defaultLimits emptyMem). exact emptyMem_ok. Defined.

(** C16: however many transactions are decoded after it, each into a new
    [MsgTx], through the shared pool, successfully or not, a decoded transaction keeps its scripts:
    at the end every one is the value its stream encodes. *)
Theorem decodeSeq_stable `{Limits} (ss : list stream) (m : mem) :
  PoolOk m ->
  let '(xs, m') := decodeSeq ss m in Forall2 (holds m') xs ss /\ PoolOk m'.
Proof.
  intros HI. pose proof (decodeSeq_inv ss m HI) as Hd.
  destruct (decodeSeq ss m) as [xs m']. destruct Hd. split; [done|]. by eapply Inv_PoolOk.
Qed.

Definition sampleStreams : list stream :=
  [mkStream (MsgTx_bytes sampleTx) EOF; mkStream (take 60 (MsgTx_bytes sampleTx)) EOF;
   mkStream (MsgTx_bytes sampleTx) EOF].

Lemma decodeSeq_stable_witness :
  let '(xs, m') := @decodeSeq defaultLimits sampleStreams emptyMem in
  Forall2 (@holds defaultLimits m') xs sampleStreams /\ PoolOk m'.
Proof. apply (@decodeSeq_stable defaultLimits sampleStreams emptyMem). exact emptyMem_ok. Defined.

(** Decode into a [MsgTx] that already holds the outputs [outs]; the memory
    after it. *)
Definition decodeInto `{Limits} (outs : list TxOutM) (s : stream) (m : mem) : mem :=
  match run (bsvdecodeM outs m) s with (Ok (_, m), _) => m | (Err _, _) => m end.

(** The counts are fine and the first input cannot be read, as when the
    connection ends there. *)
Definition failsInInput `{Limits} (s : stream) : Prop :=
  exists count s1 e s2,
    run (_ ← Uint32 littleEndian; ReadVarInt) s = (Ok count, s1) /\
    1 <= count <= maxTxInPerMessage /\ run readOutPoint s1 = (Err e, s2).

(** All that happens to the memory is that the scripts of the old outputs are
    returned. *)
Lemma decodeInto_fails `{Limits} outs s m :
  failsInInput s -> decodeInto outs s m = returnAll (map tom_script outs) m.
Proof.
  intros (count & s1 & e & s2 & Hc & Hb & Ho). unfold decodeInto, bsvdecodeM. rewrite run_tryret.
  rewrite run_bind in Hc. destruct (run (Uint32 littleEndian) s) as [[v|e1] s0]; [|done].
  rewrite run_tryret, Hc. rewrite Z.gtb_ltb, (proj2 (Z.ltb_ge _ _)) by lia.
  destruct (Z.to_nat count) as [|n] eqn:En; [lia|]. cbn [readListM]. rewrite !run_bind.
  unfold readTxInM. rewrite run_tryret, Ho. cbn [run mret Dec_ret app]. done.
Qed.

(** The buffers [Return] takes back, as long as the channel has room. *)
Definition returned (l : list Slice) : list Slice :=
  filter (fun s => sl_cap s = freeListMaxScriptSize) l.

Lemma returnAll_pool l m :
  len (m_pool m) + len (returned l) <= freeListMaxItems ->
  returnAll l m = mkMem (m_heap m) (m_pool m ++ returned l).
Proof.
  revert m. induction l as [|s l IH]; intros m Hl; [destruct m; by rewrite app_nil_r|].
  unfold returnAll, returned in *. cbn [fold_left]. rewrite filter_cons in *. unfold Return at 2.
  destruct (decide (sl_cap s = freeListMaxScriptSize)) as [Hs|Hs].
  - rewrite (proj2 (Z.eqb_eq _ _) Hs). cbn [negb]. pose proof (len_nonneg (returned l)).
    unfold returned in *. rewrite len_cons in Hl.
    rewrite (proj2 (Z.ltb_lt _ _)) by lia. rewrite IH by (cbn [m_pool]; len_lia). cbn [m_heap m_pool].
    by rewrite <- app_assoc.
  - rewrite (proj2 (Z.eqb_neq _ _) Hs). cbn [negb]. by apply IH.
Qed.


Definition corruptedIn `{Limits} (m : mem) (s : stream) : option (list bytes) :=
  match run (bsvdecodeM [] m) s with
  | (Ok (Ok t, m'), _) => Some (map ti_SignatureScript (tx_TxIn (MsgTx_view (m_heap m') t)))
  | _ => None
  end.

(** What follows for a transaction that is decoded next, into a new [MsgTx]: it
    gets its output's script where its input's script should be. *)
Example reused_receiver_corrupts :
  let script := mkSlice 0 0 512 512 in
  let m := mkMem [zeros 512] [] in
  let outs := [mkTxOutM 0 script] in
  let short := mkStream (take 20 (MsgTx_bytes sampleTx)) EOF in
  let m1 := @decodeInto defaultLimits outs short m in
  let m2 := @decodeInto defaultLimits outs short m1 in
  m_pool m1 = [script] /\ m_pool m2 = [script; script] /\ ~ PoolOk m2 /\
  @corruptedIn defaultLimits m2 (mkStream (MsgTx_bytes sampleTx) EOF) =
    Some [take 2 [Byte.x76; Byte.xa9; Byte.x14]].
Proof.
  cbv zeta. set (m2 := decodeInto _ _ (decodeInto _ _ _)).
  assert (m_pool m2 = [mkSlice 0 0 512 512; mkSlice 0 0 512 512]) as E by (vm_compute; reflexivity).
  split; [vm_compute; reflexivity|]. split; [exact E|]. split.
  - intros HI. apply inv_nodup in HI. rewrite E in HI. inversion_clear HI. set_solver.
  - vm_compute. reflexivity.
Qed.

