(* ===== verification/Goroutine.v ===== *)
(** * Goroutines that share the script pool

    [TxMem.v] runs one decoder at a time.  Here a decoder is a program whose
    accesses to shared state (the pool, the heap) are separate steps, any
    number of such programs run interleaved, and an expression that Go would
    stop with a panic (an index out of range) has no step.

    [wp] is a specification of one program on its own: it owns some arrays
    ([owned]) and relies on nobody else writing to them.  [interleaved] shows
    that such specifications hold in every interleaving. *)

From S2P Require Import Prelude Io Mem TxMem.

(** ** Programs *)

Inductive Prog (A : Type) : Type :=
| PRet (a : A)
| PRead (n : Z) (k : bytes * option error -> Prog A)  (* io.ReadFull from the program's own reader *)
| PLen (k : option Z -> Prog A)                       (* r.( *bytes.Buffer).Len() *)
| PBorrow (size : Z) (k : Slice -> Prog A)            (* scriptPool.Borrow(size) *)
| PReturn (buf : Slice) (k : Prog A)                  (* scriptPool.Return(buf) *)
| PMake (n : Z) (k : Slice -> Prog A)                 (* make([]byte, n) *)
| PSlice (s : Slice) (lo hi max : Z) (k : Slice -> Prog A)  (* s[lo:hi:max] *)
| PLoad (s : Slice) (k : bytes -> Prog A)             (* the bytes of s *)
| PStore (s : Slice) (bs : bytes) (k : Prog A).       (* bs into s *)
Arguments PRet {A} a.
Arguments PRead {A} n k.
Arguments PLen {A} k.
Arguments PBorrow {A} size k.
Arguments PReturn {A} buf k.
Arguments PMake {A} n k.
Arguments PSlice {A} s lo hi max k.
Arguments PLoad {A} s k.
Arguments PStore {A} s bs k.

Fixpoint pbind {A B} (p : Prog A) (f : A -> Prog B) : Prog B :=
  match p with
  | PRet a => f a
  | PRead n k => PRead n (fun x => pbind (k x) f)
  | PLen k => PLen (fun x => pbind (k x) f)
  | PBorrow n k => PBorrow n (fun x => pbind (k x) f)
  | PReturn b k => PReturn b (pbind k f)
  | PMake n k => PMake n (fun x => pbind (k x) f)
  | PSlice s lo hi max k => PSlice s lo hi max (fun x => pbind (k x) f)
  | PLoad s k => PLoad s (fun x => pbind (k x) f)
  | PStore s bs k => PStore s bs (pbind k f)
  end.

#[export] Instance Prog_ret : MRet Prog := @PRet.
#[export] Instance Prog_bind : MBind Prog := fun A B f p => pbind p f.

(** A decoder that does not touch shared memory; its error is a value. *)
Fixpoint pdec {A} (d : Dec A) : Prog (result A) :=
  match d with
  | DRet a => PRet (Ok a)
  | DFail e => PRet (Err e)
  | DRead n k => PRead n (fun x => pdec (k x))
  | DLen k => PLen (fun x => pdec (k x))
  end.

Definition s3 (s : Slice) (lo hi max : Z) : Slice :=
  mkSlice (sl_arr s) (sl_off s + lo) (hi - lo) (max - lo).

Definition s3_ok (s : Slice) (lo hi max : Z) : bool :=
  (0 <=? lo) && (lo <=? hi) && (hi <=? max) && (max <=? sl_cap s).

(** ** Steps

    The next step of a program: [None] when it has ended, or for a panic. *)
Definition pstep {A} (m : mem) (p : Prog A) (s : stream) : option (mem * Prog A * stream) :=
  match p with
  | PRet _ => None
  | PRead n k => let '(bs, e, s) := ReadFull n s in Some (m, k (bs, e), s)
  | PLen k => Some (m, k (AsBuffer s), s)
  | PBorrow size k => let '(b, m) := Borrow size m in Some (m, k b, s)
  | PReturn b k => Some (Return b m, k, s)
  | PMake n k =>
      if n <? 0 then None
      else let '(b, h) := make n (m_heap m) in Some (mkMem h (m_pool m), k b, s)
  | PSlice b lo hi max k => if s3_ok b lo hi max then Some (m, k (s3 b lo hi max), s) else None
  | PLoad b k => Some (m, k (contents (m_heap m) b), s)
  | PStore b bs k => Some (mkMem (store b bs (m_heap m)) (m_pool m), k, s)
  end.

(** One program alone, to its end. *)
Fixpoint exec {A} (p : Prog A) (m : mem) (s : stream) : option (A * mem * stream) :=
  match p with
  | PRet a => Some (a, m, s)
  | PRead n k => let '(bs, e, s) := ReadFull n s in exec (k (bs, e)) m s
  | PLen k => exec (k (AsBuffer s)) m s
  | PBorrow size k => let '(b, m) := Borrow size m in exec (k b) m s
  | PReturn b k => exec k (Return b m) s
  | PMake n k =>
      if n <? 0 then None
      else let '(b, h) := make n (m_heap m) in exec (k b) (mkMem h (m_pool m)) s
  | PSlice b lo hi max k => if s3_ok b lo hi max then exec (k (s3 b lo hi max)) m s else None
  | PLoad b k => exec (k (contents (m_heap m) b)) m s
  | PStore b bs k => exec k (mkMem (store b bs (m_heap m)) (m_pool m)) s
  end.

(** The shared memory and the goroutines, each with its own connection. *)
Record gworld (A : Type) := mkGWorld { gw_mem : mem; gw_threads : list (Prog A * stream) }.
Arguments mkGWorld {A} gw_mem gw_threads.
Arguments gw_mem {A} _.
Arguments gw_threads {A} _.

Inductive gstep {A} : gworld A -> gworld A -> Prop :=
| gstep_thread m ts i p s m' p' s' :
    ts !! i = Some (p, s) -> pstep m p s = Some (m', p', s') ->
    gstep (mkGWorld m ts) (mkGWorld m' (<[i := (p', s')]> ts)).

(** The same as a function of a schedule; an entry that cannot move is skipped. *)
Fixpoint runSched {A} (sched : list nat) (w : gworld A) : gworld A :=
  match sched with
  | [] => w
  | i :: sched =>
      match gw_threads w !! i with
      | Some (p, s) =>
          match pstep (gw_mem w) p s with
          | Some (m', p', s') => runSched sched (mkGWorld m' (<[i := (p', s')]> (gw_threads w)))
          | None => runSched sched w
          end
      | None => runSched sched w
      end
  end.

Definition finished {A} (p : Prog A) : bool := match p with PRet _ => true | _ => false end.

Lemma runSched_steps {A} sched (w : gworld A) : rtc gstep w (runSched sched w).
Proof.
  revert w. induction sched as [|i sched IH]; intros [m ts]; [done|]. cbn [runSched gw_threads gw_mem].
  destruct (ts !! i) as [[p s]|] eqn:Ei; [|apply IH].
  destruct (pstep m p s) as [[[m' p'] s']|] eqn:Ep; [|apply IH].
  eapply rtc_l; [by econstructor|apply IH].
Qed.

Lemma exec_pstep {A} (p : Prog A) m s m' p' s' :
  pstep m p s = Some (m', p', s') -> exec p m s = exec p' m' s'.
Proof.
  destruct p; simpl; intros Hp;
    repeat (case_match || simplify_eq); try done.
Qed.

(** ** Termination: a program is a well-founded tree, and so is a set of them *)

Definition child {A} (p p' : Prog A) : Prop :=
  exists m s m' s', pstep m p s = Some (m', p', s').

Lemma child_sn {A} (p : Prog A) : sn child p.
Proof.
  induction p as [a|n k IH|k IH|n k IH|b p IH|n k IH|b lo hi max k IH|b k IH|b bs p IH];
    constructor; intros p' (m & s & m' & s' & Hp); simpl in Hp;
    repeat (case_match || simplify_eq); auto.
Qed.

Inductive lstep {A} : list (Prog A) -> list (Prog A) -> Prop :=
| lstep_child l i p p' : l !! i = Some p -> child p p' -> lstep l (<[i := p']> l).

Lemma lstep_sn {A} (l : list (Prog A)) : sn lstep l.
Proof.
  induction l as [|p l IHl].
  { constructor. intros l' Hs. inversion Hs as [? i p p' Hi Hc]. done. }
  pose proof (child_sn p) as Hp. revert l IHl.
  induction Hp as [p _ IHp]. intros l Hl. induction Hl as [l Hacc IHl].
  constructor. intros l' Hs. inversion Hs as [? [|i] q q' Hi Hc]; subst; simpl in *.
  - simplify_eq. apply (IHp q' Hc). by constructor.
  - apply IHl. by econstructor.
Qed.

Lemma gstep_sn {A} (w : gworld A) : sn gstep w.
Proof.
  remember (map fst (gw_threads w)) as l eqn:El. revert w El.
  induction (lstep_sn l) as [l _ IH]. intros w ->. constructor. intros w' Hs.
  destruct Hs as [m ts i p s m' p' s' Hi Hp]. eapply IH; [|reflexivity].
  cbn [gw_threads flip]. change (map fst ?x) with (fst <$> x). rewrite list_fmap_insert.
  cbn [fst]. econstructor; [by rewrite list_lookup_fmap, Hi|]. by exists m, s, m', s'.
Qed.

(** ** Ownership

    The arrays a program owns, with their contents. *)
Abbreviation owned := (gmap nat bytes).

Definition ocontents (own : owned) (s : Slice) : bytes :=
  take (Z.to_nat (sl_len s)) (drop (Z.to_nat (sl_off s)) (default [] (own !! sl_arr s))).

(** [s] is a window on an array of the program. *)
Definition owns_slice (own : owned) (s : Slice) : Prop :=
  exists arr, own !! sl_arr s = Some arr /\
    0 <= sl_off s /\ 0 <= sl_len s <= sl_cap s /\ sl_off s + sl_cap s <= len arr.

(** [s] starts where its array starts. *)
Definition is_buf (s : Slice) (arr : bytes) : Prop :=
  sl_off s = 0 /\ 0 <= sl_len s <= sl_cap s /\ sl_cap s <= len arr.

Definition ostore (own : owned) (s : Slice) (bs : bytes) : owned :=
  alter (overwrite (Z.to_nat (sl_off s)) bs) (sl_arr s) own.

(** What [p] does on its own, wherever its buffers come from and whatever is
    in them: it does not panic, touches its own arrays only, gives back whole
    buffers, and ends with [Q].  A returned buffer is not its own any more. *)
Fixpoint wp {A} (p : Prog A) (s : stream) (own : owned) (Q : A -> stream -> owned -> Prop) : Prop :=
  match p with
  | PRet a => Q a s own
  | PRead n k => let '(bs, e, s) := ReadFull n s in wp (k (bs, e)) s own Q
  | PLen k => wp (k (AsBuffer s)) s own Q
  | PBorrow size k => forall a arr, own !! a = None -> Z.max size freeListMaxScriptSize <= len arr ->
      wp (k (mkSlice a 0 size (Z.max size freeListMaxScriptSize))) s (<[a := arr]> own) Q
  | PReturn b k => exists arr, own !! sl_arr b = Some arr /\ is_buf b arr /\
      wp k s (delete (sl_arr b) own) Q
  | PMake n k => 0 <= n /\ forall a, own !! a = None ->
      wp (k (mkSlice a 0 n n)) s (<[a := zeros (Z.to_nat n)]> own) Q
  | PSlice b lo hi max k => s3_ok b lo hi max = true /\ wp (k (s3 b lo hi max)) s own Q
  | PLoad b k => owns_slice own b /\ wp (k (ocontents own b)) s own Q
  | PStore b bs k => owns_slice own b /\ len bs <= sl_len b /\ wp k s (ostore own b bs) Q
  end.

Lemma wp_mono {A} (p : Prog A) s own (Q Q' : A -> stream -> owned -> Prop) :
  (forall a s own, Q a s own -> Q' a s own) -> wp p s own Q -> wp p s own Q'.
Proof.
  intros HQ. revert s own.
  induction p as [a|n k IH|k IH|n k IH|b p IH|n k IH|b lo hi max k IH|b k IH|b bs p IH];
    intros s own; simpl; auto.
  - destruct (ReadFull n s) as [[bs e] s']. apply IH.
  - intros (arr & ? & ? & ?). eauto.
  - intros [? ?]. auto.
  - intros [? ?]. auto.
  - intros [? ?]. auto.
  - intros (? & ? & ?). auto.
Qed.

Lemma wp_bind {A B} (p : Prog A) (f : A -> Prog B) s own Q :
  wp p s own (fun a s own => wp (f a) s own Q) -> wp (p ≫= f) s own Q.
Proof.
  unfold mbind, Prog_bind. revert s own.
  induction p as [a|n k IH|k IH|n k IH|b p IH|n k IH|b lo hi max k IH|b k IH|b bs p IH];
    intros s own; simpl; auto.
  - destruct (ReadFull n s) as [[bs e] s']. apply IH.
  - intros (arr & ? & ? & ?). eauto.
  - intros [? ?]. auto.
  - intros [? ?]. auto.
  - intros [? ?]. auto.
  - intros (? & ? & ?). auto.
Qed.

Lemma wp_pdec {A} (d : Dec A) s own (Q : result A -> stream -> owned -> Prop) :
  Q (fst (run d s)) (snd (run d s)) own -> wp (pdec d) s own Q.
Proof.
  revert s. induction d as [a|e|n k IH|k IH]; intros s; simpl; try done.
  - destruct (ReadFull n s) as [[bs e] s']. apply IH.
  - apply IH.
Qed.

(** ** The memory and its owners *)

Definition pool_buf (h : heap) (s : Slice) : Prop :=
  sl_off s = 0 /\ sl_cap s = freeListMaxScriptSize /\ 0 <= sl_len s <= freeListMaxScriptSize /\
  exists arr, h !! sl_arr s = Some arr /\ freeListMaxScriptSize <= len arr.

(** Every array has one owner at most: the pool or one of the goroutines. *)
Record MemInv (m : mem) (owns : list owned) : Prop := {
  mi_nodup : NoDup (arrays (m_pool m));
  mi_pool : Forall (pool_buf (m_heap m)) (m_pool m);
  mi_size : len (m_pool m) <= freeListMaxItems;
  mi_heap : forall i own a arr, owns !! i = Some own -> own !! a = Some arr ->
    m_heap m !! a = Some arr;
  mi_unpooled : forall i own a, owns !! i = Some own -> is_Some (own !! a) -> a ∉ arrays (m_pool m);
  mi_disjoint : forall i j o1 o2 a, owns !! i = Some o1 -> owns !! j = Some o2 ->
    is_Some (o1 !! a) -> is_Some (o2 !! a) -> i = j;
}.

Lemma elem_arrays a l : a ∈ arrays l <-> exists s, s ∈ l /\ sl_arr s = a.
Proof. unfold arrays. rewrite list_elem_of_fmap. naive_solver. Qed.

(** A step of goroutine [i] from [own] to [own']: what it takes comes from the
    pool or is new, what the pool takes was its own, and nothing that belongs
    to others is written. *)
Lemma MemInv_update m owns i own m' own' :
  MemInv m owns -> owns !! i = Some own ->
  NoDup (arrays (m_pool m')) -> Forall (pool_buf (m_heap m')) (m_pool m') ->
  len (m_pool m') <= freeListMaxItems ->
  (forall a arr, own' !! a = Some arr -> m_heap m' !! a = Some arr /\ (a ∉ arrays (m_pool m')) /\
     (is_Some (own !! a) \/ (a ∈ arrays (m_pool m)) \/ m_heap m !! a = None)) ->
  (forall a, a ∈ arrays (m_pool m') -> (a ∈ arrays (m_pool m)) \/ is_Some (own !! a)) ->
  (forall a arr, own !! a = None -> a ∉ arrays (m_pool m) -> m_heap m !! a = Some arr ->
     m_heap m' !! a = Some arr) ->
  MemInv m' (<[i := own']> owns).
Proof.
  intros [Hnd Hp Hs Hh Hu Hd] Hi Hnd' Hp' Hs' Hown Hpool Hother.
  assert (forall j o a, j <> i -> owns !! j = Some o -> is_Some (o !! a) ->
            own !! a = None /\ (a ∉ arrays (m_pool m))) as Hothers.
  { intros j o a Hj Ho Ha. split; [|by eapply Hu]. apply eq_None_not_Some. intros Ha'.
    destruct Hj. by eapply Hd. }
  assert (forall j o a, (<[i := own']> owns) !! j = Some o -> is_Some (o !! a) ->
            (j = i /\ o = own') \/ (j <> i /\ owns !! j = Some o)) as Hcase.
  { intros j o a [(-> & -> & _)|[? ?]]%list_lookup_insert_Some _; auto. }
  split; try done.
  - intros j o a arr Ho Ha. destruct (Hcase j o a Ho ltac:(eauto)) as [[-> ->]|[Hj Ho']].
    + by apply Hown.
    + destruct (Hothers j o a Hj Ho' ltac:(eauto)). eauto.
  - intros j o a Ho Ha. destruct (Hcase j o a Ho Ha) as [[-> ->]|[Hj Ho']].
    + destruct Ha as [arr Ha]. by apply (Hown a arr Ha).
    + destruct (Hothers j o a Hj Ho' Ha) as [Hn Hnp]. intros [?|[? ?]]%Hpool; [done|congruence].
  - assert (forall j o a, j <> i -> owns !! j = Some o -> is_Some (o !! a) -> own' !! a = None) as Hx.
    { intros j o a Hj Ho Ha. destruct (Hothers j o a Hj Ho Ha) as [Hn Hnp].
      apply eq_None_not_Some. intros [arr Harr]. destruct Ha as [arr' Ha].
      pose proof (Hh j o a arr' Ho Ha). destruct (Hown a arr Harr) as (_ & _ & [[? ?]|[?|?]]);
        done || congruence. }
    intros j j' o1 o2 a Ho1 Ho2 Ha1 Ha2.
    destruct (Hcase j o1 a Ho1 Ha1) as [[-> ->]|[Hj Ho1']],
             (Hcase j' o2 a Ho2 Ha2) as [[-> ->]|[Hj' Ho2']]; try done.
    + rewrite (Hx _ _ _ Hj' Ho2' Ha2) in Ha1. by destruct Ha1.
    + rewrite (Hx _ _ _ Hj Ho1' Ha1) in Ha2. by destruct Ha2.
    + by eapply Hd.
Qed.

Lemma pool_buf_stays (h h' : heap) l :
  (forall a arr, a ∈ arrays l -> h !! a = Some arr -> h' !! a = Some arr) ->
  Forall (pool_buf h) l -> Forall (pool_buf h') l.
Proof.
  intros Hh. rewrite !list.Forall_forall. intros Hp s Hs.
  destruct (Hp s Hs) as (? & ? & ? & arr & Ha & ?). split_and!; try done; try lia. exists arr. split; [|done].
  apply Hh; [|done]. apply elem_arrays. eauto.
Qed.

Section Steps.
Context (m : mem) (owns : list owned) (i : nat) (own : owned)
  (HM : MemInv m owns) (Hi : owns !! i = Some own).

(** A new array taken into use. *)
Lemma MemInv_make n a h' arr :
  make n (m_heap m) = (mkSlice a 0 n n, h') -> arr = zeros (Z.to_nat n) ->
  own !! a = None /\ MemInv (mkMem h' (m_pool m)) (<[i := <[a := arr]> own]> owns).
Proof.
  intros [= <- <-] ->. set (a := length (m_heap m)).
  assert (m_heap m !! a = None) as Hnone by (by apply lookup_ge_None).
  assert (forall b arr, m_heap m !! b = Some arr ->
            (m_heap m ++ [zeros (Z.to_nat n)]) !! b = Some arr) as Hold
    by (intros; by apply lookup_app_l_Some).
  assert (a ∉ arrays (m_pool m)) as Hna.
  { intros (s & Hs & E)%elem_arrays. pose proof (mi_pool _ _ HM) as Hp.
    rewrite list.Forall_forall in Hp. destruct (Hp s Hs) as (_ & _ & _ & arr & Ha & _). congruence. }
  split.
  { apply eq_None_not_Some. intros [arr Ha]. pose proof (mi_heap _ _ HM i own a arr Hi Ha). congruence. }
  eapply MemInv_update; [exact HM|exact Hi|..]; cbn [m_pool m_heap].
  - apply HM.
  - eapply pool_buf_stays; [|apply HM]. auto.
  - apply HM.
  - intros b arr [[<- <-]|[Hb Ha]]%lookup_insert_Some.
    + split_and!; [by apply list_lookup_middle|done|auto].
    + pose proof (mi_heap _ _ HM i own b arr Hi Ha). split_and!; [auto| |eauto].
      by eapply (mi_unpooled _ _ HM).
  - auto.
  - auto.
Qed.

Lemma MemInv_Borrow size b m' :
  Borrow size m = (b, m') ->
  exists a arr, b = mkSlice a 0 size (Z.max size freeListMaxScriptSize) /\ own !! a = None /\
    Z.max size freeListMaxScriptSize <= len arr /\ MemInv m' (<[i := <[a := arr]> own]> owns).
Proof.
  unfold Borrow. rewrite Z.gtb_ltb. destruct (Z.ltb_spec freeListMaxScriptSize size) as [Hb|Hb].
  - destruct (make size (m_heap m)) as [s h] eqn:Em. intros [= <- <-].
    injection Em as Es Eh. exists (length (m_heap m)), (zeros (Z.to_nat size)).
    destruct (MemInv_make size (length (m_heap m)) h _ ltac:(by rewrite <- Eh) eq_refl) as [Hn HM'].
    unfold zeros in *. rewrite len_replicate in *. unfold freeListMaxScriptSize in *.
    rewrite Z.max_l by lia. split_and!; [by rewrite <- Es|done|lia|done].
  - destruct (m_pool m) as [|buf pool] eqn:Ep.
    + destruct (make freeListMaxScriptSize (m_heap m)) as [s h] eqn:Em. intros [= <- <-].
      injection Em as Es Eh.
      exists (length (m_heap m)), (zeros (Z.to_nat freeListMaxScriptSize)).
      destruct (MemInv_make freeListMaxScriptSize (length (m_heap m)) h _ ltac:(by rewrite <- Eh)
                  eq_refl) as [Hn HM'].
      unfold zeros in *. rewrite len_replicate in *.
      rewrite Z.max_r by lia.
      split_and!; [by rewrite <- Es|done|unfold freeListMaxScriptSize in *; lia|by rewrite Ep in HM'].
    + intros [= <- <-]. pose proof HM as [Hnd Hp Hs Hh Hu Hd]. rewrite Ep in *.
      unfold arrays in Hnd. cbn [map] in Hnd. apply list.NoDup_cons in Hnd as [Hni Hnd].
      inversion Hp as [|?? (Ho & Hc & _ & arr & Harr & Hl) Hp']; subst.
      exists (sl_arr buf), arr. unfold reslice. rewrite Ho, Hc, Z.max_r by lia.
      split_and!; [done| |done|].
      { apply eq_None_not_Some. intros Ha. apply (Hu i own _ Hi Ha). unfold arrays. cbn [map]. set_solver. }
      eapply MemInv_update; [exact HM|exact Hi|..]; cbn [m_pool m_heap]; rewrite ?Ep; try done.
      * rewrite len_cons in Hs. lia.
      * intros b arr' [[<- <-]|[Hb' Ha]]%lookup_insert_Some.
        -- split_and!; [done|done|]. right. left. unfold arrays. cbn [map]. set_solver.
        -- split_and!; [by eapply Hh| |eauto]. intros Hin. eapply (Hu i own b Hi); [eauto|].
           unfold arrays in *. cbn [map]. set_solver.
      * unfold arrays. cbn [map]. set_solver.
Qed.

Lemma MemInv_Return b arr :
  own !! sl_arr b = Some arr -> is_buf b arr ->
  MemInv (Return b m) (<[i := delete (sl_arr b) own]> owns).
Proof.
  intros Hb (Ho & Hl & Hc). pose proof HM as [Hnd Hp Hs Hh Hu Hd].
  pose proof (Hu i own _ Hi ltac:(eauto)) as Hni.
  assert (MemInv m (<[i := delete (sl_arr b) own]> owns)) as Hdrop.
  { eapply MemInv_update; [exact HM|exact Hi|done..| | |]; [|auto|auto].
    intros a arr' [Hab Ha]%lookup_delete_Some. split_and!; [by eapply Hh|by eapply Hu; eauto|eauto]. }
  unfold Return. destruct (Z.eqb_spec (sl_cap b) freeListMaxScriptSize) as [Hcap|]; simpl; [|done].
  destruct (Z.ltb_spec (len (m_pool m)) freeListMaxItems); [|done].
  eapply MemInv_update; [exact HM|exact Hi|..]; cbn [m_pool m_heap].
  - unfold arrays in *. rewrite map_app. cbn [map]. apply list.NoDup_app.
    split_and!; [done| |apply list.NoDup_singleton]. set_solver.
  - apply list.Forall_app. split; [done|]. constructor; [|done].
    split_and!; [done|done|lia|lia|]. exists arr. split; [by eapply Hh|lia].
  - rewrite len_app, len_cons. change (len (@nil Slice)) with 0. lia.
  - intros a arr' [Hab Ha]%lookup_delete_Some. split_and!; [by eapply Hh| |eauto].
    unfold arrays. rewrite map_app. cbn [map]. intros [Hin|Hin]%elem_of_app; [|set_solver].
    by eapply (Hu i own a Hi); eauto.
  - intros a. unfold arrays. rewrite map_app. cbn [map]. intros [Hin|Hin]%elem_of_app; [auto|].
    right. apply list_elem_of_singleton in Hin as ->. eauto.
  - auto.
Qed.

Lemma MemInv_store b bs :
  owns_slice own b ->
  MemInv (mkMem (store b bs (m_heap m)) (m_pool m)) (<[i := ostore own b bs]> owns).
Proof.
  intros (arr & Hb & _). pose proof HM as [Hnd Hp Hs Hh Hu Hd].
  pose proof (Hu i own _ Hi ltac:(eauto)) as Hni.
  assert (forall a, a <> sl_arr b -> store b bs (m_heap m) !! a = m_heap m !! a) as Hne.
  { intros a Ha. unfold store. by apply list_lookup_alter_ne. }
  eapply MemInv_update; [exact HM|exact Hi|..]; cbn [m_pool m_heap]; try done.
  - eapply pool_buf_stays; [|done]. intros a arr' Ha Hha. rewrite Hne; [done|]. by intros ->.
  - intros a arr'. unfold ostore. destruct (decide (a = sl_arr b)) as [->|Ha].
    + rewrite lookup_alter_eq, Hb. intros [= <-]. split_and!; [|done|eauto]. unfold store.
      by rewrite list_lookup_alter_eq, (Hh i own _ arr Hi Hb).
    + rewrite lookup_alter_ne by done. intros Ha'. rewrite Hne by done.
      split_and!; [by eapply Hh|by eapply Hu; eauto|eauto].
  - auto.
  - intros a arr' Ha Hnp Hha. rewrite Hne; [done|]. intros ->. congruence.
Qed.

Lemma ocontents_heap b : owns_slice own b -> contents (m_heap m) b = ocontents own b.
Proof.
  intros (arr & Hb & _). unfold contents, ocontents. rewrite Hb. cbn [default].
  by rewrite (array_lookup _ _ arr) by (by eapply (mi_heap _ _ HM)).
Qed.

(** The next step exists, and leads to a state like this one. *)
Lemma pstep_sound {A} (p : Prog A) s Q :
  wp p s own Q -> finished p = false ->
  exists m' p' s' own', pstep m p s = Some (m', p', s') /\
    MemInv m' (<[i := own']> owns) /\ wp p' s' own' Q.
Proof.
  assert (<[i := own]> owns = owns) as Hid by (by apply list_insert_id).
  destruct p as [a|n k|k|n k|b p|n k|b lo hi max k|b k|b bs p]; simpl; intros Hw Hf; try done.
  - destruct (ReadFull n s) as [[bs e] s']. eexists _, _, _, own. by rewrite Hid.
  - eexists _, _, _, own. by rewrite Hid.
  - destruct (Borrow n m) as [b m'] eqn:Eb.
    destruct (MemInv_Borrow n b m' Eb) as (a & arr & -> & Hn & Hl & HM'). eauto 10.
  - destruct Hw as (arr & Hb & Hbuf & Hw). eexists _, _, _, _. split; [done|].
    split; [by eapply MemInv_Return|done].
  - destruct Hw as [Hn Hw]. destruct (Z.ltb_spec n 0); [lia|].
    edestruct (MemInv_make n) as [Ha HM']; [reflexivity|reflexivity|]. eexists _, _, _, _.
    split; [done|]. split; [exact HM'|]. by apply Hw.
  - destruct Hw as [-> Hw]. eexists _, _, _, own. by rewrite Hid.
  - destruct Hw as [Hb Hw]. rewrite ocontents_heap by done. eexists _, _, _, own. by rewrite Hid.
  - destruct Hw as (Hb & Hl & Hw). eexists _, _, _, _. split; [done|].
    split; [by apply MemInv_store|done].
Qed.
End Steps.

(** The pool of [TxMem.v] is this one, with no goroutine running. *)
Lemma PoolOk_MemInv m : PoolOk m -> MemInv m [].
Proof.
  intros HI. pose proof (inv_wf _ _ _ HI) as Hw. pose proof (inv_pool _ _ _ HI) as Hp.
  pose proof (inv_nodup _ _ _ HI) as Hn. rewrite app_nil_r in *. rewrite list.Forall_forall in *.
  split; [done| |by apply HI|naive_solver..].
  apply list.Forall_forall. intros s Hs. destruct (Hw s Hs) as ((Ho & Hl & Hc) & Hz & Hm).
  specialize (Hp s Hs). split_and!; [done|done|lia|lia|].
  assert (sl_arr s < length (m_heap m))%nat as Hlt.
  { apply wf_slice_lt; [done|]. unfold freeListMaxScriptSize in *. lia. }
  apply lookup_lt_is_Some in Hlt as [arr Ha]. exists arr. split; [done|].
  rewrite (array_lookup _ _ _ Ha) in Hc. lia.
Qed.

Lemma MemInv_PoolOk m owns : MemInv m owns -> PoolOk m.
Proof.
  intros [Hn Hp Hs _ _ _]. rewrite list.Forall_forall in Hp.
  assert (forall s, s ∈ m_pool m -> (sl_arr s < length (m_heap m))%nat) as Hlt.
  { intros s Hin. destruct (Hp s Hin) as (_ & _ & _ & arr & Ha & _). by eapply lookup_lt_Some. }
  split; rewrite ?app_nil_r; try done; [| |auto].
  - apply list.Forall_forall. intros s Hin. destruct (Hp s Hin) as (Ho & Hc & Hl & arr & Ha & Hla).
    unfold wf_slice. rewrite (array_lookup _ _ _ Ha). split_and!; lia.
  - apply list.Forall_forall. intros s Hin. by destruct (Hp s Hin) as (_ & ? & _).
Qed.

(** A goroutine more, which owns nothing yet. *)
Lemma MemInv_spawn m owns : MemInv m owns -> MemInv m (owns ++ [∅]).
Proof.
  intros [Hnd Hp Hs Hh Hu Hd].
  assert (forall i own a, (owns ++ [∅]) !! i = Some own -> is_Some (own !! a) -> owns !! i = Some own) as Hc.
  { intros i own a [?|[_ E]]%lookup_app_Some Ha; [done|].
    apply list_lookup_singleton_Some in E as [_ <-]. rewrite lookup_empty in Ha. by destruct Ha. }
  split; try done; intros; [eapply Hh|eapply Hu|eapply Hd]; eauto.
Qed.

Lemma MemInv_start m k : PoolOk m -> MemInv m (replicate k ∅).
Proof.
  intros HI%PoolOk_MemInv. induction k as [|k IH]; [done|].
  rewrite <- Nat.add_1_r, replicate_add. by apply MemInv_spawn.
Qed.

(** ** Interleavings *)

Section Interleaved.
Context {A : Type} (Q : nat -> A -> stream -> owned -> Prop).

(** Every goroutine is in the middle of doing what its specification says. *)
Definition WorldInv (w : gworld A) : Prop := exists owns, MemInv (gw_mem w) owns /\
  forall i p s, gw_threads w !! i = Some (p, s) -> exists own, owns !! i = Some own /\ wp p s own (Q i).

Lemma WorldInv_step w w' : gstep w w' -> WorldInv w -> WorldInv w'.
Proof.
  intros [m ts i p s m' p' s' Hi Hp] (owns & HM & Hw). cbn [gw_mem gw_threads] in *.
  destruct (Hw i p s Hi) as (own & Hown & Hwp).
  assert (finished p = false) as Hf by (by destruct p).
  destruct (pstep_sound m owns i own HM Hown p s _ Hwp Hf) as (m2 & p2 & s2 & own' & E & HM' & Hwp').
  rewrite Hp in E. simplify_eq. exists (<[i := own']> owns). split; [done|].
  intros j q t [(-> & E & _)|[Hj Hq]]%list_lookup_insert_Some.
  - simplify_eq. exists own'. split; [|done].
    apply list_lookup_insert_eq. by eapply lookup_lt_Some.
  - destruct (Hw j q t Hq) as (o & Ho & ?). exists o. by rewrite list_lookup_insert_ne.
Qed.

Lemma WorldInv_steps w w' : rtc gstep w w' -> WorldInv w -> WorldInv w'.
Proof. induction 1; eauto using WorldInv_step. Qed.

Lemma WorldInv_start m ts :
  PoolOk m -> (forall i p s, ts !! i = Some (p, s) -> wp p s ∅ (Q i)) -> WorldInv (mkGWorld m ts).
Proof.
  intros HI Hw. exists (replicate (length ts) ∅). split; [by apply MemInv_start|].
  intros i p s Hi. exists ∅. split; [|by apply Hw]. apply lookup_replicate_2.
  by eapply lookup_lt_Some.
Qed.

(** Nobody panics, and nobody waits for another one. *)
Lemma WorldInv_progress w i p s :
  WorldInv w -> gw_threads w !! i = Some (p, s) -> finished p = false -> exists w', gstep w w'.
Proof.
  destruct w as [m ts]. cbn [gw_threads]. intros (owns & HM & Hw) Hi Hf. cbn [gw_mem gw_threads] in *.
  destruct (Hw i p s Hi) as (own & Hown & Hwp).
  destruct (pstep_sound m owns i own HM Hown p s _ Hwp Hf) as (m' & p' & s' & own' & E & _).
  eexists. by econstructor.
Qed.

Lemma WorldInv_stuck w i p s :
  WorldInv w -> nf gstep w -> gw_threads w !! i = Some (p, s) -> exists a, p = PRet a.
Proof.
  intros HW Hnf Hi. destruct (finished p) eqn:Hf; [destruct p; naive_solver|].
  destruct Hnf. by eapply WorldInv_progress.
Qed.

Lemma WorldInv_finished w i a s :
  WorldInv w -> gw_threads w !! i = Some (PRet a, s) ->
  exists own, (forall b arr, own !! b = Some arr -> m_heap (gw_mem w) !! b = Some arr) /\
    (forall b, is_Some (own !! b) -> b ∉ arrays (m_pool (gw_mem w))) /\ Q i a s own.
Proof.
  intros (owns & HM & Hw) Hi. destruct (Hw i _ _ Hi) as (own & Hown & Hwp). exists own.
  split_and!; [|by intros; eapply (mi_unpooled _ _ HM)|done].
  intros b arr Hb. by eapply (mi_heap _ _ HM).
Qed.
End Interleaved.

(** One goroutine alone. *)
Lemma exec_sound {A} (p : Prog A) m owns i own s Q :
  MemInv m owns -> owns !! i = Some own -> wp p s own Q ->
  exists a m' s' own', exec p m s = Some (a, m', s') /\ MemInv m' (<[i := own']> owns) /\ Q a s' own'.
Proof.
  intros HM Hi Hw. revert m owns own s HM Hi Hw. induction (child_sn p) as [p _ IH].
  intros m owns own s HM Hi Hw. destruct (finished p) eqn:Hf.
  - destruct p as [a| | | | | | | |]; try done. exists a, m, s, own.
    rewrite list_insert_id by done. done.
  - destruct (pstep_sound m owns i own HM Hi p s Q Hw Hf) as (m' & p' & s' & own' & E & HM' & Hw').
    destruct (IH p' ltac:(by exists m, s, m', s') m' _ own' s' HM') as (a & m2 & s2 & own2 & Ee & H2).
    + apply list_lookup_insert_eq. by eapply lookup_lt_Some.
    + done.
    + exists a, m2, s2, own2. rewrite list_insert_insert_eq in H2. by rewrite (exec_pstep _ _ _ _ _ _ E).
Qed.

Lemma exec_alone {A} (p : Prog A) m s Q :
  PoolOk m -> wp p s ∅ Q ->
  exists a m' s' own, exec p m s = Some (a, m', s') /\ MemInv m' [own] /\ Q a s' own.
Proof.
  intros HI Hw. destruct (exec_sound p m [∅] 0 ∅ s Q (MemInv_start m 1 HI) eq_refl Hw)
    as (a & m' & s' & own & ? & ? & ?). by exists a, m', s', own.
Qed.

(** ** The buffers a program holds

    [Owns own0 l own]: since the program owned [own0] it has taken the arrays
    of [l], and nothing else has changed. *)
Definition Owns (own0 : owned) (l : list Slice) (own : owned) : Prop :=
  NoDup (arrays l) /\
  (forall s, s ∈ l -> own0 !! sl_arr s = None /\
     exists arr, own !! sl_arr s = Some arr /\ is_buf s arr) /\
  (forall a, a ∉ arrays l -> own !! a = own0 !! a).

(** The slices of [l] show the same bytes. *)
Definition OKeeps (l : list Slice) (own own' : owned) : Prop :=
  forall t, t ∈ l -> ocontents own' t = ocontents own t.

Lemma OKeeps_refl l own : OKeeps l own own.
Proof. by intros t _. Qed.
Lemma OKeeps_trans l o1 o2 o3 : OKeeps l o1 o2 -> OKeeps l o2 o3 -> OKeeps l o1 o3.
Proof. intros H1 H2 t Ht. rewrite H2, H1; done. Qed.
Lemma OKeeps_sub l l' o o' : l ⊆ l' -> OKeeps l' o o' -> OKeeps l o o'.
Proof. intros Hs Hk t Ht. apply Hk, Hs, Ht. Qed.
Lemma OKeeps_map l o o' : OKeeps l o o' -> map (ocontents o') l = map (ocontents o) l.
Proof. intros Hk. apply map_ext_in. intros t Ht%list_elem_of_In. by apply Hk. Qed.
#[export] Hint Resolve OKeeps_refl : wire.

Lemma ocontents_ne own own' t : own' !! sl_arr t = own !! sl_arr t -> ocontents own' t = ocontents own t.
Proof. unfold ocontents. by intros ->. Qed.

Section Owns.
Context (own0 : owned).

Lemma Owns_refl : Owns own0 [] own0.
Proof. split_and!; [constructor|set_solver|done]. Qed.

Lemma Owns_nil own : Owns own0 [] own -> own = own0.
Proof. intros (_ & _ & H). apply map_eq. intros a. apply H. set_solver. Qed.

Lemma Owns_perm l l' own : l ≡ₚ l' -> Owns own0 l own -> Owns own0 l' own.
Proof.
  intros Hp (Hn & Hl & Ho). assert (arrays l ≡ₚ arrays l') as Ha by (by apply Permutation_map).
  split_and!.
  - by rewrite <- Ha.
  - intros s. rewrite <- Hp. apply Hl.
  - intros a. rewrite <- Ha. apply Ho.
Qed.

Lemma Owns_lookup l own s : Owns own0 l own -> s ∈ l ->
  exists arr, own !! sl_arr s = Some arr /\ is_buf s arr.
Proof. intros (_ & Hl & _) Hs. by apply Hl. Qed.

Lemma Owns_slice l own s : Owns own0 l own -> s ∈ l -> owns_slice own s.
Proof.
  intros HO Hs. destruct (Owns_lookup _ _ _ HO Hs) as (arr & Ha & Ho & Hl & Hc).
  exists arr. split_and!; try done; lia.
Qed.

(** What was owned before is still owned, unchanged. *)
Lemma Owns_sub l own : Owns own0 l own -> own0 ⊆ own.
Proof.
  intros (_ & Hl & Ho). apply map_subseteq_spec. intros a arr Ha. rewrite Ho; [done|].
  intros (s & Hs & <-)%elem_arrays. destruct (Hl s Hs) as [Hn _]. congruence.
Qed.

Lemma Owns_acquire l own s arr :
  Owns own0 l own -> own !! sl_arr s = None -> is_buf s arr ->
  Owns own0 (s :: l) (<[sl_arr s := arr]> own) /\ OKeeps l own (<[sl_arr s := arr]> own).
Proof.
  intros (Hn & Hl & Ho) Hs Hb.
  assert (sl_arr s ∉ arrays l) as Hni.
  { intros (t & Ht & E)%elem_arrays. destruct (Hl t Ht) as (_ & arr' & Ha & _). congruence. }
  assert (forall t, t ∈ l -> sl_arr s <> sl_arr t) as Hne.
  { intros t Ht E. apply Hni. apply elem_arrays. eauto. }
  split; [split_and!|].
  - by constructor.
  - intros t [->|Ht]%elem_of_cons.
    + split; [by rewrite <- Ho|]. exists arr. by rewrite lookup_insert_eq.
    + destruct (Hl t Ht) as (? & arr' & ? & ?). split; [done|]. exists arr'.
      by rewrite lookup_insert_ne by auto.
  - unfold arrays. cbn [map]. intros a [Ha Hna]%not_elem_of_cons.
    rewrite lookup_insert_ne by done. by apply Ho.
  - intros t Ht. apply ocontents_ne. by rewrite lookup_insert_ne by auto.
Qed.

Lemma Owns_notin l own s t : Owns own0 (s :: l) own -> t ∈ l -> sl_arr s <> sl_arr t.
Proof.
  intros (Hn & _) Ht E. unfold arrays in Hn. cbn [map] in Hn. apply list.NoDup_cons in Hn as [Hn _].
  apply Hn. rewrite E. apply elem_arrays. eauto.
Qed.

Lemma Owns_release l own s :
  Owns own0 (s :: l) own ->
  Owns own0 l (delete (sl_arr s) own) /\ OKeeps l own (delete (sl_arr s) own).
Proof.
  intros HO. pose proof (fun t => Owns_notin l own s t HO) as Hne. destruct HO as (Hn & Hl & Ho).
  unfold arrays in Hn. cbn [map] in Hn. apply list.NoDup_cons in Hn as [Hni Hn].
  split; [split_and!|].
  - done.
  - intros t Ht. destruct (Hl t ltac:(set_solver)) as (? & arr' & ? & ?). split; [done|]. exists arr'.
    by rewrite lookup_delete_ne by eauto.
  - intros a Ha. destruct (decide (a = sl_arr s)) as [->|Has].
    + rewrite lookup_delete_eq. by destruct (Hl s ltac:(set_solver)) as [-> _].
    + rewrite lookup_delete_ne by done. apply Ho. unfold arrays. cbn [map].
      intros [?|?]%elem_of_cons; done.
  - intros t Ht. apply ocontents_ne. by rewrite lookup_delete_ne by eauto.
Qed.

(** A store into a window [t] of the array of [s]. *)
Lemma Owns_store l own s t bs :
  Owns own0 (s :: l) own -> sl_arr t = sl_arr s -> owns_slice own t -> len bs <= sl_len t ->
  Owns own0 (s :: l) (ostore own t bs) /\ OKeeps l own (ostore own t bs).
Proof.
  intros HO Et (arrt & Harrt & Hto & Htl & Htc) Hbs.
  assert (forall u, u ∈ l -> ostore own t bs !! sl_arr u = own !! sl_arr u) as Hne.
  { intros u Hu. unfold ostore. apply lookup_alter_ne. rewrite Et. by eapply Owns_notin. }
  split; [|intros u Hu; apply ocontents_ne; auto]. destruct HO as (Hn & Hl & Ho). split_and!; [done| |].
  - intros u Hu. destruct (Hl u Hu) as (? & arr & Ha & Hb1 & Hb2 & Hb3). split; [done|].
    apply elem_of_cons in Hu as [->|Hu]; [|exists arr; by rewrite Hne].
    rewrite <- Et in *. simplify_eq. unfold ostore. rewrite lookup_alter_eq, Harrt. cbn [fmap option_fmap option_map].
    eexists. split; [done|]. unfold is_buf. rewrite len_overwrite; [done|zlia].
  - intros a Ha. unfold ostore. rewrite lookup_alter_ne; [by apply Ho|].
    intros <-. apply Ha. rewrite Et. unfold arrays. cbn [map]. set_solver.
Qed.
End Owns.

(** *** Windows of one array *)

Lemma window_overwrite (off : nat) bs arr :
  (off + length bs <= length arr)%nat -> take (length bs) (drop off (overwrite off bs arr)) = bs.
Proof.
  intros Hl. unfold overwrite. rewrite drop_app_eq by (rewrite length_take; lia).
  by apply take_app_eq.
Qed.

Lemma window_before (off n k : nat) bs (arr : bytes) :
  (k + n <= off)%nat -> (off <= length arr)%nat ->
  take n (drop k (overwrite off bs arr)) = take n (drop k arr).
Proof.
  intros Hk Ha. unfold overwrite. rewrite drop_app_le by (rewrite length_take; lia).
  rewrite take_app_le by (rewrite length_drop, length_take; lia).
  rewrite !take_drop_commute, take_take. do 2 f_equal. lia.
Qed.

Lemma ocontents_store own s bs :
  owns_slice own s -> len bs <= sl_len s ->
  ocontents (ostore own s bs) (mkSlice (sl_arr s) (sl_off s) (len bs) (len bs)) = bs.
Proof.
  intros (arr & Ha & Ho & Hl & Hc) Hbs. unfold ocontents, ostore. cbn [sl_arr sl_off sl_len].
  rewrite lookup_alter_eq, Ha. cbn [fmap option_fmap option_map default].
  unfold len at 1. rewrite Nat2Z.id. apply window_overwrite. zlia.
Qed.

Lemma ocontents_store_full own s bs :
  owns_slice own s -> len bs = sl_len s -> ocontents (ostore own s bs) s = bs.
Proof.
  intros Ho Hl. rewrite <- (ocontents_store own s bs Ho ltac:(lia)) at 2.
  unfold ocontents. cbn [sl_arr sl_off sl_len]. by rewrite Hl.
Qed.

Lemma ocontents_store_before own s bs t :
  owns_slice own s -> sl_arr t = sl_arr s -> 0 <= sl_off t -> 0 <= sl_len t ->
  sl_off t + sl_len t <= sl_off s -> ocontents (ostore own s bs) t = ocontents own t.
Proof.
  intros (arr & Ha & Ho & Hl & Hc) Et Hto Htl Hle. unfold ocontents, ostore.
  rewrite Et, lookup_alter_eq, Ha. cbn [fmap option_fmap option_map default]. apply window_before; [lia|]. unfold len in Hc. simpl. lia.
Qed.
