(* ===== verification/Block.v ===== *)
(** * msg_block.go: blocks

    The transactions of a block are decoded by [bsvdecodeWithArena]; the
    values it returns are given here, its memory is in [Arena.v]. *)

From S2P Require Import Prelude Io Common Sha256 Externals BlockHeader Tx.

Definition MaxBlocksPerMsg : Z := 500.
Definition arenaScriptHintPerTx : Z := 256.

Definition MaxBlockPayload `{Limits} : Z := ebs.
Definition maxTxPerBlock `{Limits} : Z := to_u64 (MaxBlockPayload / minTxPayload + 1).

Record TxLoc := mkTxLoc { TxStart : Z; TxLen : Z }.

Record MsgBlock := mkMsgBlock { blk_Header : BlockHeader; blk_Transactions : list MsgTx }.

#[export] Instance txloc_eq_dec : EqDecision TxLoc.
Proof. solve_decision. Defined.
#[export] Instance msgblock_eq_dec : EqDecision MsgBlock.
Proof. solve_decision. Defined.

Definition NewMsgBlock (blockHeader : BlockHeader) : MsgBlock := mkMsgBlock blockHeader [].

Definition AddTransaction (msg : MsgBlock) (tx : MsgTx) : MsgBlock :=
  mkMsgBlock (blk_Header msg) (blk_Transactions msg ++ [tx]).

Definition ClearTransactions (msg : MsgBlock) : MsgBlock := mkMsgBlock (blk_Header msg) [].

(** ** [bsvdecodeWithArena]: the values *)

(** The length of a script, its bound, and the bytes read into the arena. *)
Definition readScriptArena (maxAllowed : Z) (format : string) : Dec bytes :=
  scriptLen ← ReadVarInt;
  if scriptLen >? maxAllowed then
    DFail (messageError "MsgTx.bsvdecodeWithArena" format [AInt scriptLen; AInt maxAllowed])
  else if scriptLen >? 0 then readFull scriptLen else mret [].

Definition sigScriptFormat : string :=
  "transaction input signature script is larger than the max allowed size [count %d, max %d]".
Definition pkScriptFormat : string :=
  "transaction output public key script is larger than the max allowed size [count %d, max %d]".

Definition readTxInArena `{Limits} : Dec TxIn :=
  op ← readOutPoint;
  script ← readScriptArena maxTxInPerMessage sigScriptFormat;
  sequence ← readElement Tuint32;
  mret (mkTxIn op script sequence).

Definition readTxOutArena `{Limits} : Dec TxOut :=
  value ← readElement Tint64;
  script ← readScriptArena maxMessagePayload pkScriptFormat;
  mret (mkTxOut value script).

Definition bsvdecodeWithArena `{Limits} (version inCount : Z) : Dec MsgTx :=
  ins ← dlist (Z.to_nat inCount) readTxInArena;
  outCount ← ReadVarInt;
  if outCount >? maxTxOutPerMessage
  then DFail (tooManyOut "MsgTx.bsvdecodeWithArena" outCount)
  else
    outs ← dlist (Z.to_nat outCount) readTxOutArena;
    lockTime ← Uint32 littleEndian;
    mret (mkMsgTx version ins outs lockTime).

(** [bsvdecode] when it is given an arena. *)
Definition MsgTx_bsvdecodeArena `{Limits} : Dec MsgTx :=
  version ← Uint32 littleEndian;
  count ← ReadVarInt;
  if count >? maxTxInPerMessage then DFail (tooManyIn count)
  else bsvdecodeWithArena (to_i32 version) count.

(** ** Blocks *)

Definition tooManyTx `{Limits} (f : string) (txCount : Z) : error :=
  messageError f "too many transactions to fit into a block [count %d, max %d]"
    [AInt txCount; AInt maxTxPerBlock].

Definition MsgBlock_Bsvdecode `{Limits} : Dec MsgBlock :=
  header ← readBlockHeader;
  txCount ← ReadVarInt;
  if txCount >? maxTxPerBlock then DFail (tooManyTx "MsgBlock.Bsvdecode" txCount)
  else
    txs ← dlist (Z.to_nat txCount) MsgTx_bsvdecodeArena;
    mret (mkMsgBlock header txs).

Definition MsgBlock_Deserialize `{Limits} : Dec MsgBlock := MsgBlock_Bsvdecode.

(** [r.Len()] of the [*bytes.Buffer] the caller passes. *)
Definition bufferLen : Dec Z := DLen (fun o => DRet (default 0 o)).

(** One round of the loop: the transaction and where it was found. *)
Definition txLocBody `{Limits} (fullLen : Z) :
    list MsgTx * list TxLoc -> Dec (list MsgTx * list TxLoc) :=
  fun '(txs, txLocs) =>
    l ← bufferLen;
    let txStart := fullLen - l in
    tx ← MsgTx_Deserialize;
    l ← bufferLen;
    mret (txs ++ [tx], txLocs ++ [mkTxLoc txStart ((fullLen - l) - txStart)]).

Definition DeserializeTxLoc `{Limits} : Dec (MsgBlock * list TxLoc) :=
  fullLen ← bufferLen;
  header ← readBlockHeader;
  txCount ← ReadVarInt;
  if txCount >? maxTxPerBlock then DFail (tooManyTx "MsgBlock.DeserializeTxLoc" txCount)
  else
    '(txs, txLocs) ← dloop (Z.to_nat txCount) (txLocBody fullLen) ([], []);
    mret (mkMsgBlock header txs, txLocs).

Definition MsgBlock_BsvEncode (msg : MsgBlock) : Enc :=
  writeBlockHeader (blk_Header msg) >>>
  WriteVarInt (len (blk_Transactions msg)) >>>
  efor MsgTx_BsvEncode (blk_Transactions msg).

Definition MsgBlock_Serialize (msg : MsgBlock) : Enc := MsgBlock_BsvEncode msg.

Definition MsgBlock_SerializeSize (msg : MsgBlock) : Z :=
  let n := blockHeaderLen + VarIntSerializeSize (len (blk_Transactions msg)) in
  fold_left (fun n tx => n + MsgTx_SerializeSize tx) (blk_Transactions msg) n.

Definition MsgBlock_BlockHash `{Externals} (msg : MsgBlock) : bytes := BlockHash (blk_Header msg).

Definition TxHashes (msg : MsgBlock) : list bytes :=
  fold_left (fun hashList tx => hashList ++ [TxHash tx]) (blk_Transactions msg) [].

(** ** The encoding *)

Definition MsgBlock_bytes (msg : MsgBlock) : bytes :=
  BlockHeader_bytes (blk_Header msg) ++ list_bytes MsgTx_bytes (blk_Transactions msg).

Definition MsgBlock_ok `{Limits} (msg : MsgBlock) : Prop :=
  BlockHeader_ok (blk_Header msg) /\ list_ok MsgTx_ok maxTxPerBlock (blk_Transactions msg).

Lemma encodes_MsgBlock msg : encodes (MsgBlock_BsvEncode msg) (MsgBlock_bytes msg).
Proof. unfold MsgBlock_BsvEncode, MsgBlock_bytes, list_bytes. auto 10 with encodes. Qed.
#[export] Hint Resolve encodes_MsgBlock : encodes.

#[export] Instance Codec_readScriptArena max format :
  Codec (readScriptArena max format) var_bytes (var_ok max).
Proof.
  pose proof (Codec_counted max (fun c => messageError "MsgTx.bsvdecodeWithArena" format
    [AInt c; AInt max])) as Hc.
  eapply Codec_run_ext; [|exact Hc]. intros s. unfold readScriptArena. rewrite !run_bind.
  destruct (run ReadVarInt s) as [[c|e] s1] eqn:Er; [|done].
  apply codec_exact in Er as [_ Hu]. destruct (c >? max); [done|].
  rewrite Z.gtb_ltb. destruct (Z.ltb_spec 0 c); [done|].
  replace c with 0 by zlia. cbn [run readFull mret Dec_ret]. unfold ReadFull. simpl.
  by rewrite stream_pull_neg by lia.
Qed.

Section WithLimits.
Context `{Limits}.

#[export] Instance Codec_readTxInArena : Codec readTxInArena TxIn_bytes TxIn_ok.
Proof.
  split.
  - intros [op sc sq] (Ho & Hs & Hq). eapply decodes_bind; [by apply codec_decodes|].
    eapply decodes_bind; [by apply codec_decodes|].
    eapply decodes_bind_last; [by apply (decodes_elem Tuint32)|apply decodes_ret].
  - intros s ti s' Hr. unfold readTxInArena in Hr. run_exact.
    unfold TxIn_bytes. by rewrite <- !app_assoc.
Qed.

#[export] Instance Codec_readTxOutArena : Codec readTxOutArena TxOut_bytes TxOut_ok.
Proof.
  split.
  - intros [v sc] (Hv & Hs). eapply decodes_bind; [by apply (decodes_elem Tint64)|].
    eapply decodes_bind_last; [by apply codec_decodes|apply decodes_ret].
  - intros s to s' Hr. unfold readTxOutArena in Hr. run_exact.
    unfold TxOut_bytes. by rewrite <- app_assoc.
Qed.

(** The decoder in the shape of [MsgTx_Bsvdecode]. *)
Definition arenaIns : Dec (list TxIn) :=
  count ← ReadVarInt;
  if count >? maxTxInPerMessage then DFail (tooManyIn count)
  else dlist (Z.to_nat count) readTxInArena.

Definition arenaOuts : Dec (list TxOut) :=
  count ← ReadVarInt;
  if count >? maxTxOutPerMessage then DFail (tooManyOut "MsgTx.bsvdecodeWithArena" count)
  else dlist (Z.to_nat count) readTxOutArena.

Definition arenaTx : Dec MsgTx :=
  version ← Uint32 littleEndian;
  ins ← arenaIns;
  outs ← arenaOuts;
  lockTime ← Uint32 littleEndian;
  mret (mkMsgTx (to_i32 version) ins outs lockTime).

Lemma MsgTx_bsvdecodeArena_lists (s : stream) :
  run MsgTx_bsvdecodeArena s = run arenaTx s.
Proof.
  unfold MsgTx_bsvdecodeArena, bsvdecodeWithArena, arenaTx, arenaIns, arenaOuts.
  repeat first [done | rewrite run_bind | match goal with
    | |- context [run (if ?c then _ else _)] => destruct c
    | |- context [run ?d ?s] => destruct (run d s) as [[?|?] ?] end]; done.
Qed.

Instance Codec_arenaIns :
  Codec arenaIns (list_bytes TxIn_bytes) (list_ok TxIn_ok maxTxInPerMessage).
Proof. apply (Codec_counted_list readTxInArena _ _ _ tooManyIn). Qed.

Instance Codec_arenaOuts :
  Codec arenaOuts (list_bytes TxOut_bytes) (list_ok TxOut_ok maxTxOutPerMessage).
Proof. apply (Codec_counted_list readTxOutArena _ _ _ (tooManyOut _)). Qed.

#[export] Instance Codec_MsgTx_arena : Codec MsgTx_bsvdecodeArena MsgTx_bytes MsgTx_ok.
Proof.
  eapply Codec_run_ext; [apply MsgTx_bsvdecodeArena_lists|]. split.
  - intros [v ins outs lt] (Hv & Hi & Ho & Hl).
    eapply decodes_bind; [apply codec_decodes, to_u32_range|].
    do 2 (eapply decodes_bind; [by apply codec_decodes|]).
    eapply decodes_bind_last; [by apply codec_decodes|].
    rewrite to_i32_u32 by done. apply decodes_ret.
  - intros s tx s' Hr. unfold arenaTx in Hr. run_exact.
    unfold MsgTx_bytes, MsgTx_ok. cbn [tx_Version tx_TxIn tx_TxOut tx_LockTime].
    rewrite to_u32_i32, <- !app_assoc by done. auto with wire.
Qed.

#[export] Instance Codec_MsgBlock : Codec MsgBlock_Bsvdecode MsgBlock_bytes MsgBlock_ok.
Proof.
  split.
  - intros [hd txs] (Hh & Hm & Hu & Hl). eapply decodes_bind; [by apply codec_decodes|].
    eapply decodes_bind; [by apply codec_decodes|].
    rewrite Z.gtb_ltb, (proj2 (Z.ltb_ge _ _)) by done. rewrite to_nat_len.
    eapply decodes_bind_last; [by apply (decodes_dlist MsgTx_bsvdecodeArena _ MsgTx_ok)|apply decodes_ret].
  - intros s msg s' Hr. unfold MsgBlock_Bsvdecode in Hr. run_split.
    apply codec_exact in Hr0 as [-> Hh]. apply codec_exact in Hr1 as [-> Hc].
    apply (dlist_exact MsgTx_bsvdecodeArena MsgTx_bytes MsgTx_ok) in Hr2 as (Hn & Hl & ->).
    cbn [s_data s_err]. assert (v0 = len v1) as -> by zlia.
    unfold MsgBlock_bytes, MsgBlock_ok, list_bytes, list_ok. simpl. rewrite <- !app_assoc.
    rewrite Z.gtb_ltb, Z.ltb_ge in Ec. auto.
Qed.

Lemma streamable_readScriptArena max format : streamable (readScriptArena max format).
Proof. unfold readScriptArena. solve_streamable. Qed.
Hint Resolve streamable_readScriptArena : streamable.

Lemma streamable_MsgBlock : streamable MsgBlock_Bsvdecode.
Proof.
  unfold MsgBlock_Bsvdecode, MsgTx_bsvdecodeArena, bsvdecodeWithArena, readTxInArena,
    readTxOutArena, readOutPoint. solve_streamable.
Qed.
End WithLimits.

#[export] Hint Resolve streamable_MsgBlock : streamable.

(** ** Transaction locations *)

(** The locations of transactions that start at offset [start]. *)
Fixpoint tx_locs (start : Z) (txs : list MsgTx) : list TxLoc :=
  match txs with
  | [] => []
  | tx :: txs =>
      mkTxLoc start (len (MsgTx_bytes tx)) :: tx_locs (start + len (MsgTx_bytes tx)) txs
  end.

Lemma tx_locs_at txs start (pre post : bytes) :
  start = len pre ->
  Forall2 (fun loc tx => script_at (pre ++ concat (map MsgTx_bytes txs) ++ post) (TxStart loc)
                           (MsgTx_bytes tx) /\ TxLen loc = len (MsgTx_bytes tx))
    (tx_locs start txs) txs.
Proof.
  revert start pre. induction txs as [|tx txs IH]; intros start pre ->;
    cbn [tx_locs map concat]; constructor; rewrite <- (app_assoc (MsgTx_bytes tx)).
  - split; [|done]. by apply script_at_app.
  - rewrite (app_assoc pre). apply IH. by rewrite len_app.
Qed.

Section TxLocs.
Context `{Limits}.

Lemma run_txLocBody fullLen txs locs tx rest :
  MsgTx_ok tx ->
  run (txLocBody fullLen (txs, locs)) (mkBuffer (MsgTx_bytes tx ++ rest)) =
  (Ok (txs ++ [tx], locs ++ [mkTxLoc (fullLen - len (MsgTx_bytes tx ++ rest))
                               (len (MsgTx_bytes tx))]), mkBuffer rest).
Proof.
  intros Hok. unfold txLocBody. rewrite run_bind. cbn [run bufferLen AsBuffer buffer_reader default].
  cbn [b_data]. rewrite run_bind. unfold MsgTx_Deserialize.
  rewrite (codec_decodes_buffer MsgTx_Bsvdecode MsgTx_bytes MsgTx_ok) by auto with streamable.
  rewrite run_bind. cbn [run bufferLen AsBuffer buffer_reader default b_data mret Dec_ret].
  unfold id. set (k := _ - _ - _). replace k with (len (MsgTx_bytes tx)); [done|].
  subst k. rewrite len_app. lia.
Qed.

Lemma run_txLocLoop l txs locs fullLen rest :
  Forall MsgTx_ok l ->
  run (dloop (length l) (txLocBody fullLen) (txs, locs))
    (mkBuffer (concat (map MsgTx_bytes l) ++ rest)) =
  (Ok (txs ++ l, locs ++ tx_locs (fullLen - len (concat (map MsgTx_bytes l) ++ rest)) l),
   mkBuffer rest).
Proof.
  intros Hl. revert txs locs. induction Hl as [|tx l Htx Hl IH]; intros txs locs.
  { cbn. by rewrite !app_nil_r. }
  cbn [length dloop map concat]. rewrite run_bind, <- (app_assoc (MsgTx_bytes tx)).
  rewrite run_txLocBody, IH, <- !app_assoc by done. cbn [app tx_locs].
  set (k := _ - _ + _). replace k with (fullLen - len (concat (map MsgTx_bytes l) ++ rest)); [done|].
  subst k. rewrite !len_app. lia.
Qed.

(** A loop that returns consumed that many well-formed transactions. *)
Lemma txLocLoop_exact n st fullLen data x b' :
  run (dloop n (txLocBody fullLen) st) (mkBuffer data) = (Ok x, b') ->
  exists l, length l = n /\ Forall MsgTx_ok l /\ data = concat (map MsgTx_bytes l) ++ b_data b'.
Proof.
  revert st data. induction n as [|n IH]; intros [txs locs] data Hr; cbn [dloop] in Hr.
  { injection Hr as <- <-. by exists []. }
  apply run_bind_Ok in Hr as (st1 & [d1] & Hb & Hr). unfold txLocBody in Hb.
  apply run_bind_Ok in Hb as (c & b1 & Hc & Hb). injection Hc as _ <-.
  apply run_bind_Ok in Hb as (tx & b2 & Htx & Hb).
  apply (codec_exact_buffer MsgTx_Bsvdecode MsgTx_bytes MsgTx_ok) in Htx as [-> Hok];
    [|auto with streamable].
  injection Hb as _ ->. cbn [b_data].
  apply IH in Hr as (l & <- & Hl & ->). exists (tx :: l). cbn [map concat].
  rewrite <- app_assoc. auto.
Qed.

Lemma run_DeserializeTxLoc msg rest :
  MsgBlock_ok msg ->
  run DeserializeTxLoc (mkBuffer (MsgBlock_bytes msg ++ rest)) =
  (Ok (msg, tx_locs (len (BlockHeader_bytes (blk_Header msg)) +
                     len (varint_bytes (len (blk_Transactions msg)))) (blk_Transactions msg)),
   mkBuffer rest).
Proof.
  destruct msg as [hd txs]. intros (Hh & Hm & Hu & Hl). cbn [blk_Header blk_Transactions] in *.
  unfold DeserializeTxLoc. rewrite run_bind. cbn [run bufferLen AsBuffer buffer_reader default b_data].
  unfold MsgBlock_bytes, list_bytes. cbn [blk_Header blk_Transactions].
  rewrite <- !app_assoc. set (full := len _).
  rewrite run_bind, (codec_decodes_buffer readBlockHeader BlockHeader_bytes BlockHeader_ok)
    by auto with streamable.
  rewrite run_bind, (codec_decodes_buffer ReadVarInt varint_bytes is_u64) by auto with streamable.
  rewrite Z.gtb_ltb, (proj2 (Z.ltb_ge _ _)), to_nat_len by done.
  unfold id. rewrite run_bind, run_txLocLoop by done. cbn [run mret Dec_ret app].
  replace (full - _) with (len (BlockHeader_bytes hd) + len (varint_bytes (len txs))); [done|].
  subst full. rewrite !len_app. lia.
Qed.

Lemma DeserializeTxLoc_exact data msg locs b' :
  run DeserializeTxLoc (mkBuffer data) = (Ok (msg, locs), b') ->
  exists msg', MsgBlock_ok msg' /\ data = MsgBlock_bytes msg' ++ b_data b'.
Proof.
  intros Hr. unfold DeserializeTxLoc in Hr.
  apply run_bind_Ok in Hr as (full & b1 & Hc & Hr). injection Hc as _ <-.
  apply run_bind_Ok in Hr as (hd & [d2] & Hh & Hr).
  apply (codec_exact_buffer readBlockHeader BlockHeader_bytes BlockHeader_ok) in Hh as [-> Hh];
    [|auto with streamable].
  apply run_bind_Ok in Hr as (count & [d3] & Hc & Hr).
  apply (codec_exact_buffer ReadVarInt varint_bytes is_u64) in Hc as [-> Hc];
    [|auto with streamable].
  rewrite Z.gtb_ltb in Hr. destruct (Z.ltb_spec maxTxPerBlock count); [discriminate Hr|].
  apply run_bind_Ok in Hr as ([txs locs'] & b4 & Hl & Hr). injection Hr as _ _ <-.
  apply txLocLoop_exact in Hl as (l & Hn & Hl & ->). exists (mkMsgBlock hd l).
  assert (count = len l) as -> by zlia.
  unfold MsgBlock_ok, MsgBlock_bytes, list_bytes. cbn [blk_Header blk_Transactions b_data].
  rewrite <- !app_assoc. split; [|done]. split; [done|]. by split.
Qed.
End TxLocs.

(** ** The properties *)

(** A well-formed block is encoded without error and decoded back
    to itself, whatever follows it in the stream. *)
Theorem MsgBlock_roundtrip `{Limits} (msg : MsgBlock) (rest : bytes) (e : error) :
  MsgBlock_ok msg ->
  outcome (MsgBlock_BsvEncode msg) = None /\
  run MsgBlock_Bsvdecode (mkStream (written (MsgBlock_BsvEncode msg) ++ rest) e) =
    (Ok msg, mkStream rest e).
Proof.
  intros Hok. destruct (encodes_MsgBlock msg) as [Ho Hw]. rewrite Hw. split; [done|].
  by apply codec_decodes.
Qed.

Definition exampleHeader : BlockHeader :=
  mkBlockHeader 1 (zeros 32) (zeros 32) (mkTime 1231006505 0) 0x1d00ffff 2083236893.
Definition exampleBlock : MsgBlock := mkMsgBlock exampleHeader [exampleTx; exampleTx].

Lemma exampleBlock_ok : @MsgBlock_ok defaultLimits exampleBlock.
Proof.
  split.
  - repeat split; vm_compute; (reflexivity || discriminate).
  - ok_list. repeat constructor; apply exampleTx_ok.
Qed.

Lemma MsgBlock_roundtrip_witness :
  outcome (MsgBlock_BsvEncode exampleBlock) = None /\
  run (@MsgBlock_Bsvdecode defaultLimits)
    (mkStream (written (MsgBlock_BsvEncode exampleBlock) ++ [Byte.x01]) EOF) =
    (Ok exampleBlock, mkStream [Byte.x01] EOF).
Proof.
  apply (@MsgBlock_roundtrip defaultLimits exampleBlock [Byte.x01] EOF). exact exampleBlock_ok.
Defined.

(** What is known of a block that was decoded. *)
Definition block_facts `{Externals} (msg : MsgBlock) (raw : bytes) : Prop :=
  written (MsgBlock_Serialize msg) = raw /\
  MsgBlock_SerializeSize msg = len raw /\
  MsgBlock_BlockHash msg = DoubleHashH (take 80 raw) /\
  TxHashes msg = map (fun tx => Sum256 (Sum256 (written (MsgTx_Serialize tx)))) (blk_Transactions msg).

Lemma len_MsgBlock_bytes `{Limits} msg :
  MsgBlock_ok msg -> len (MsgBlock_bytes msg) = MsgBlock_SerializeSize msg.
Proof.
  intros (Hh & _ & _ & Hl). unfold MsgBlock_bytes, MsgBlock_SerializeSize.
  rewrite len_app, len_BlockHeader_bytes, len_list_bytes, fold_left_add_zsum by done.
  rewrite Z.add_assoc. do 2 f_equal. apply map_ext_in. intros tx Htx.
  apply len_MsgTx_bytes. eapply MsgTx_ok_hashes. rewrite Forall_forall in Hl. by apply Hl.
Qed.

(** C25: a decoded block re-encodes to exactly the bytes consumed,
    [SerializeSize] is their number, [BlockHash] hashes the first 80 of them
    and [TxHashes] lists the double SHA-256 of each serialized transaction. *)
Theorem MsgBlock_decode_exact `{Limits} `{Externals} (s : stream) (msg : MsgBlock) (s' : stream) :
  run MsgBlock_Bsvdecode s = (Ok msg, s') ->
  exists raw, s_data s = raw ++ s_data s' /\ block_facts msg raw.
Proof.
  intros Hr. apply codec_exact in Hr as [-> Hok]. exists (MsgBlock_bytes msg). split; [done|].
  unfold block_facts, MsgBlock_Serialize. rewrite (proj2 (encodes_MsgBlock msg)).
  split_and!; [done|symmetry; by apply len_MsgBlock_bytes|..].
  - unfold MsgBlock_BlockHash. rewrite BlockHash_bytes. unfold MsgBlock_bytes.
    rewrite take_app_eq; [done|]. pose proof (len_BlockHeader_bytes _ (proj1 Hok)) as Hl.
    unfold len, blockHeaderLen in Hl. lia.
  - unfold TxHashes. rewrite fold_left_snoc_map. apply map_ext. intros tx.
    unfold TxHash. by rewrite runE_hasher.
Qed.

Lemma MsgBlock_decode_exact_witness :
  exists raw, MsgBlock_bytes exampleBlock ++ [Byte.x01] = raw ++ [Byte.x01] /\
    @block_facts refExternals exampleBlock raw.
Proof.
  apply (@MsgBlock_decode_exact defaultLimits refExternals
           (mkStream (MsgBlock_bytes exampleBlock ++ [Byte.x01]) EOF) exampleBlock
           (mkStream [Byte.x01] EOF)).
  vm_compute. reflexivity.
Defined.

(** C26: [DeserializeTxLoc] accepts the same data as [Deserialize],
    returns the same block and leaves the same rest of the buffer, and each
    location is the start and the length, within the data, of the bytes of
    the corresponding transaction. *)
Theorem DeserializeTxLoc_correct `{Limits} (data : bytes) :
  match run MsgBlock_Deserialize (mkBuffer data) with
  | (Ok msg, rest) => exists locs,
      run DeserializeTxLoc (mkBuffer data) = (Ok (msg, locs), rest) /\
      Forall2 (fun loc tx => script_at data (TxStart loc) (written (MsgTx_Serialize tx)) /\
                             TxLen loc = len (written (MsgTx_Serialize tx)))
        locs (blk_Transactions msg)
  | (Err _, _) => exists e rest, run DeserializeTxLoc (mkBuffer data) = (Err e, rest)
  end.
Proof.
  unfold MsgBlock_Deserialize.
  destruct (run MsgBlock_Bsvdecode (mkBuffer data)) as [[msg|e] rest] eqn:Er.
  - apply (codec_exact_buffer MsgBlock_Bsvdecode MsgBlock_bytes MsgBlock_ok) in Er as [-> Hok];
      [|auto with streamable].
    eexists. destruct rest as [rest]. cbn [b_data]. split; [by apply run_DeserializeTxLoc|].
    unfold MsgBlock_bytes, list_bytes. rewrite !app_assoc, <- (app_assoc _ (concat _)).
    unfold MsgTx_Serialize. eapply list.Forall2_impl; [apply tx_locs_at; by rewrite len_app|].
    intros loc tx. by rewrite (proj2 (encodes_MsgTx tx)).
  - destruct (run DeserializeTxLoc (mkBuffer data)) as [[[msg locs]|e'] b'] eqn:Ed; [|by eauto].
    apply DeserializeTxLoc_exact in Ed as (msg' & Hok & ->).
    rewrite (codec_decodes_buffer MsgBlock_Bsvdecode MsgBlock_bytes MsgBlock_ok) in Er
      by auto with streamable. discriminate.
Qed.

(** C27: the block decoder and the single-transaction decoder accept
    the same transactions and return the same values; only the text of the
    errors differs. *)
Theorem arena_decoder_agrees `{Limits} (s : stream) :
  match run MsgTx_bsvdecodeArena s, run MsgTx_Bsvdecode s with
  | (Ok tx, s1), (Ok tx', s2) => tx = tx' /\ s1 = s2
  | (Err _, _), (Err _, _) => True
  | _, _ => False
  end.
Proof.
  destruct (run MsgTx_bsvdecodeArena s) as [[tx|e] s1] eqn:E1.
  - by rewrite (Codec_agree _ MsgTx_Bsvdecode _ _ _ _ _ E1).
  - destruct (run MsgTx_Bsvdecode s) as [[tx|e'] s2] eqn:E2; [|done].
    rewrite (Codec_agree _ MsgTx_bsvdecodeArena _ _ _ _ _ E2) in E1. discriminate.
Qed.
