(* ===== verification/Arena.v ===== *)
(** * block_arena.go: the bump-pointer allocator of a block's scripts, and
      [bsvdecodeWithArena] (msg_tx.go) in memory

    [Alloc] cuts scripts out of large chunks.  The invariant [AInv] lists the
    slices handed out so far: they never overlap and no later allocation or
    write changes them.  With it the block decoder is proved to return, in
    memory, exactly the transactions of [MsgTx_bsvdecodeArena] (Block.v). *)

From S2P Require Import Prelude Io Common BlockHeader Tx Block Mem TxMem.

Definition blockArenaChunkSize : Z := 4 * 1024 * 1024.
Definition blockArenaMinFirstChunk : Z := 4 * 1024.

Record blockArena := mkArena {
  ar_active : option Slice;   (* nil when no chunk is allocated yet *)
  ar_offset : Z;
  ar_others : list Slice;
  ar_sizeHint : Z;
}.

Definition newBlockArena : blockArena := mkArena None 0 [] 0.
Definition newBlockArenaSized (sizeHint : Z) : blockArena := mkArena None 0 [] sizeHint.

(** The size of the first standard chunk. *)
Definition firstChunk (n sizeHint : Z) : Z :=
  let first := n in
  let first := if sizeHint >? first then sizeHint else first in
  let first := if first <? blockArenaMinFirstChunk then blockArenaMinFirstChunk else first in
  if first >? blockArenaChunkSize then blockArenaChunkSize else first.

(** The active chunk, allocated when there is none. *)
Definition activate (n : Z) (a : blockArena) (h : heap) : Slice * Z * heap :=
  match ar_active a with
  | Some c => (c, ar_offset a, h)
  | None => let '(c, h) := make (firstChunk n (ar_sizeHint a)) h in (c, 0, h)
  end.

Definition Alloc (n : Z) (a : blockArena) (h : heap) : Slice * blockArena * heap :=
  if n =? 0 then (nilSlice, a, h)
  else if n >? blockArenaChunkSize then
    let '(chunk, h) := make n h in
    (subslice chunk 0 n,
     mkArena (ar_active a) (ar_offset a) (ar_others a ++ [chunk]) (ar_sizeHint a), h)
  else
    let '(active, offset, h) := activate n a h in
    if offset + n <=? sl_len active then
      (subslice active offset (offset + n),
       mkArena (Some active) (offset + n) (ar_others a) (ar_sizeHint a), h)
    else
      let '(chunk, h) := make blockArenaChunkSize h in
      (subslice chunk 0 n,
       mkArena (Some chunk) n (ar_others a ++ [active]) (ar_sizeHint a), h).

(** ** Decoding with the arena *)

Record amem := mkAmem { am_arena : blockArena; am_heap : heap }.

Definition readScriptA (maxAllowed : Z) (format : string) (m : amem) : Dec (Slice * amem) :=
  scriptLen ← ReadVarInt;
  if scriptLen >? maxAllowed then
    DFail (messageError "MsgTx.bsvdecodeWithArena" format [AInt scriptLen; AInt maxAllowed])
  else
    let '(s, a, h) := Alloc (to_i64 scriptLen) (am_arena m) (am_heap m) in
    if scriptLen >? 0 then
      '(e, h) ← readInto s h;
      match e with Some e => DFail e | None => mret (s, mkAmem a h) end
    else mret (s, mkAmem a h).

Definition readTxInA `{Limits} (m : amem) : Dec (TxInM * amem) :=
  op ← readOutPoint;
  '(s, m) ← readScriptA maxTxInPerMessage sigScriptFormat m;
  sequence ← readElement Tuint32;
  mret (mkTxInM op s sequence, m).

Definition readTxOutA `{Limits} (m : amem) : Dec (TxOutM * amem) :=
  value ← readElement Tint64;
  '(s, m) ← readScriptA maxMessagePayload pkScriptFormat m;
  mret (mkTxOutM value s, m).

(** [n] elements into the slice [acc], threading the memory. *)
Definition readListA {A} (read : amem -> Dec (A * amem)) (n : nat) (m : amem) :
    Dec (list A * amem) :=
  dloop n (fun '(acc, m) => '(x, m) ← read m; mret (acc ++ [x], m)) ([], m).

Definition bsvdecodeWithArenaA `{Limits} (version inCount : Z) (m : amem) : Dec (MsgTxM * amem) :=
  '(ins, m) ← readListA readTxInA (Z.to_nat inCount) m;
  outCount ← ReadVarInt;
  if outCount >? maxTxOutPerMessage
  then DFail (tooManyOut "MsgTx.bsvdecodeWithArena" outCount)
  else
    '(outs, m) ← readListA readTxOutA (Z.to_nat outCount) m;
    lockTime ← Uint32 littleEndian;
    mret (mkMsgTxM version ins outs lockTime, m).

Definition bsvdecodeA `{Limits} (m : amem) : Dec (MsgTxM * amem) :=
  version ← Uint32 littleEndian;
  count ← ReadVarInt;
  if count >? maxTxInPerMessage then DFail (tooManyIn count)
  else bsvdecodeWithArenaA (to_i32 version) count m.

(** [MsgBlock.Bsvdecode]: one arena for all transactions of the block. *)
Definition BsvdecodeBlockA `{Limits} (h : heap) : Dec (BlockHeader * list MsgTxM * heap) :=
  header ← readBlockHeader;
  txCount ← ReadVarInt;
  if txCount >? maxTxPerBlock then DFail (tooManyTx "MsgBlock.Bsvdecode" txCount)
  else
    let arena := newBlockArenaSized (to_i64 (to_i64 txCount * arenaScriptHintPerTx)) in
    '(txs, m) ← readListA bsvdecodeA (Z.to_nat txCount) (mkAmem arena h);
    mret (header, txs, am_heap m).

Definition Block_view (h : heap) (header : BlockHeader) (txs : list MsgTxM) : MsgBlock :=
  mkMsgBlock header (map (MsgTx_view h) txs).

(** ** The invariant

    [h0] is the heap before the arena was created, [given] the slices it
    handed out. *)

Record AInv (h0 : heap) (a : blockArena) (h : heap) (given : list Slice) : Prop := {
  ai_len : (length h0 <= length h)%nat;
  ai_frame : forall i, (i < length h0)%nat -> array h i = array h0 i;
  ai_active : forall c, ar_active a = Some c ->
    wf_slice h c /\ sl_off c = 0 /\ sl_cap c = sl_len c /\
    (length h0 <= sl_arr c < length h)%nat /\ 0 <= ar_offset a <= sl_len c;
  ai_given : Forall (fun s => wf_slice h s /\ sl_cap s = sl_len s /\
    (s = nilSlice \/ 0 < sl_len s /\ (length h0 <= sl_arr s)%nat)) given;
  ai_below : forall c, ar_active a = Some c ->
    Forall (fun s => sl_arr s = sl_arr c -> sl_off s + sl_cap s <= ar_offset a) given;
  ai_disjoint : ForallOrdPairs disjoint_slices given;
}.

Lemma newBlockArenaSized_inv h sizeHint : AInv h (newBlockArenaSized sizeHint) h [].
Proof. by split; try constructor. Qed.

Lemma firstChunk_bounds n sizeHint :
  0 < n <= blockArenaChunkSize -> n <= firstChunk n sizeHint <= blockArenaChunkSize.
Proof.
  unfold firstChunk, blockArenaMinFirstChunk, blockArenaChunkSize. intros Hn.
  repeat case_match; lia.
Qed.

(** The slices handed out do not change. *)
Definition Unchanged (given : list Slice) (h h' : heap) : Prop :=
  forall s, s ∈ given -> contents h' s = contents h s.

Section Alloc.
Context (h0 : heap).

(** A new array is disjoint from what was handed out. *)
Lemma AInv_make n a h given c h' :
  0 < n -> AInv h0 a h given -> make n h = (c, h') ->
  AInv h0 a h' given /\ Unchanged given h h' /\
  wf_slice h' c /\ sl_off c = 0 /\ sl_len c = n /\ sl_cap c = n /\
  (length h0 <= sl_arr c < length h')%nat /\
  Forall (fun s => s = nilSlice \/ sl_arr s <> sl_arr c) given /\
  (forall c', ar_active a = Some c' -> sl_arr c' <> sl_arr c).
Proof.
  intros Hn HI Hm. destruct (wf_make n h c h' ltac:(lia) Hm) as (Hw & Hl & Hc & Ha & Ho & Hlen).
  destruct HI as [Il If Ia Ig Ib Id].
  assert (forall s, wf_slice h s -> sl_cap s = sl_len s -> wf_slice h' s /\
            contents h' s = contents h s /\ (sl_len s <> 0 -> (sl_arr s < length h)%nat)) as Hold.
  { intros s Hs Hcl. destruct (decide (sl_arr s < length h)%nat) as [Hlt|Hge].
    - split; [by eapply wf_slice_make|]. split; [by eapply contents_make|done].
    - pose proof Hs as (?&?&Hc3). rewrite array_overflow in Hc3 by lia.
      unfold len in Hc3. simpl in Hc3. assert (sl_len s = 0) as E by lia.
      split; [|split; [|lia]].
      + unfold wf_slice. pose proof (len_nonneg (array h' (sl_arr s))). lia.
      + unfold contents. by rewrite E. }
  rewrite Forall_forall in Ig. split; [|split_and!; try done; try lia].
  - split; try done; [lia|..].
    + intros i Hi. rewrite <- If by done. eapply array_make; [done|lia].
    + intros c' Hc'. destruct (Ia c' Hc') as (?&?&?&?&?). split_and!; try done; try lia.
      by apply Hold.
    + apply Forall_forall. intros s Hs. destruct (Ig s Hs) as (?&?&?).
      split_and!; try done. by apply Hold.
  - intros s Hs%list_elem_of_In. destruct (Ig s Hs) as (?&?&?). by apply Hold.
  - apply Forall_forall. intros s Hs. destruct (Ig s Hs) as (Hw'&Hc'&[->|[??]]); [by left|right].
    destruct (Hold s Hw' Hc') as (_ & _ & Hlt). specialize (Hlt ltac:(lia)). lia.
  - intros c' Hc'. destruct (Ia c' Hc') as (?&?&?&?&?). lia.
Qed.

(** The window [[lo, lo+n)] of a chunk that nobody else uses is handed out. *)
Lemma AInv_give a h given c lo n others hint :
  AInv h0 a h given -> 0 < n -> 0 <= lo -> lo + n <= sl_len c ->
  wf_slice h c -> sl_off c = 0 -> sl_cap c = sl_len c ->
  (length h0 <= sl_arr c < length h)%nat ->
  Forall (fun s => sl_arr s = sl_arr c -> sl_off s + sl_cap s <= lo) given ->
  AInv h0 (mkArena (Some c) (lo + n) others hint) h (subslice c lo (lo + n) :: given).
Proof.
  intros [Il If Ia Ig Ib Id] Hn Hlo Hhi Hw Ho Hc Ha Hb.
  assert (wf_slice h (subslice c lo (lo + n))) as Hws
    by (destruct Hw as (?&?&?); unfold wf_slice; simpl; lia).
  split; try done.
  - intros c' [= <-]. simpl. split_and!; try done; lia.
  - constructor; [|done]. split; [done|]. split; [done|]. right. simpl. lia.
  - intros c' [= <-]. constructor; [simpl; lia|]. simpl. eapply list.Forall_impl; [exact Hb|].
    simpl. intros s Hs E. specialize (Hs E). lia.
  - constructor; [|done]. rewrite Forall_forall in *. intros s Hs. unfold disjoint_slices. simpl.
    destruct (decide (sl_arr c = sl_arr s)) as [E|]; [|by left].
    specialize (Hb s Hs (eq_sym E)). right. right. lia.
Qed.

Lemma nil_below lo c given :
  0 <= lo -> Forall (fun s => s = nilSlice \/ sl_arr s <> sl_arr c) given ->
  Forall (fun s => sl_arr s = sl_arr c -> sl_off s + sl_cap s <= lo) given.
Proof.
  intros Hlo Hg. eapply list.Forall_impl; [exact Hg|]. intros s [->|Hne] E; [simpl; lia|done].
Qed.

(** The empty script. *)
Lemma AInv_nil a h given : AInv h0 a h given -> AInv h0 a h (nilSlice :: given).
Proof.
  intros [Il If Ia Ig Ib Id]. split; try done.
  - constructor; [|done]. split; [|by auto]. unfold wf_slice. simpl.
    pose proof (len_nonneg (array h 0)). lia.
  - intros c Hc. constructor; [|by apply Ib]. destruct (Ia c Hc) as (?&?&?&?&?). simpl. lia.
  - constructor; [|done]. rewrite Forall_forall in *. intros s Hs.
    destruct (Ig s Hs) as ((?&?&?)&_). unfold disjoint_slices. simpl. right. left. lia.
Qed.

(** A private chunk beside the active one. *)
Lemma AInv_oversize a h given c others :
  AInv h0 a h given -> 0 < sl_len c -> wf_slice h c -> sl_off c = 0 -> sl_cap c = sl_len c ->
  (length h0 <= sl_arr c)%nat ->
  Forall (fun s => s = nilSlice \/ sl_arr s <> sl_arr c) given ->
  (forall c', ar_active a = Some c' -> sl_arr c' <> sl_arr c) ->
  AInv h0 (mkArena (ar_active a) (ar_offset a) others (ar_sizeHint a)) h
    (subslice c 0 (sl_len c) :: given).
Proof.
  intros [Il If Ia Ig Ib Id] Hn Hw Ho Hc Hl Hg Hact. split; try done.
  - constructor; [|done]. destruct Hw as (?&?&?). unfold wf_slice. simpl.
    split_and!; try lia.
  - intros c' Hc'. constructor; [|by apply Ib]. simpl. intros E. by destruct (Hact c' Hc').
  - constructor; [|done]. rewrite Forall_forall in *. intros s Hs. unfold disjoint_slices. simpl.
    destruct (Hg s Hs) as [->|]; [|left; congruence]. simpl. right. right. lia.
Qed.

(** [Alloc] returns a slice of exactly [n] bytes with [cap == len], disjoint
    from all earlier ones, which it leaves unchanged. *)
Lemma Alloc_inv n a h given s a' h' :
  0 <= n -> AInv h0 a h given -> Alloc n a h = (s, a', h') ->
  AInv h0 a' h' (s :: given) /\ Unchanged given h h' /\ sl_len s = n.
Proof.
  intros Hn HI. unfold Alloc. destruct (Z.eqb_spec n 0) as [->|Hnz].
  { intros [= <- <- <-]. split; [by apply AInv_nil|]. by split; [intros u|]. }
  rewrite Z.gtb_ltb. destruct (Z.ltb_spec blockArenaChunkSize n).
  { destruct (make n h) as [c h1] eqn:Em. intros [= <- <- <-].
    destruct (AInv_make n a h given c h1 ltac:(lia) HI Em)
      as (HI1 & Hu & Hw & Ho & Hl & Hc & Ha & Hg & Hact).
    split; [|split; [done|simpl; lia]]. subst n. apply AInv_oversize; try done; lia. }
  destruct (activate n a h) as [[c off] h1] eqn:Eact.
  assert (exists a1, AInv h0 a1 h1 given /\ ar_active a1 = Some c /\ ar_offset a1 = off /\
            Unchanged given h h1) as (a1 & HI1 & Hc1 & <- & Hu1).
  { unfold activate in Eact. destruct (ar_active a) as [c'|] eqn:Ea.
    - injection Eact as <- <- <-. exists a. by split_and!.
    - pose proof (firstChunk_bounds n (ar_sizeHint a) ltac:(lia)).
      destruct (make (firstChunk n (ar_sizeHint a)) h) as [c1 h2] eqn:Em.
      injection Eact as <- <- <-.
      destruct (AInv_make (firstChunk n (ar_sizeHint a)) a h given c1 h2 ltac:(lia) HI Em)
        as (HI1 & Hu & Hw & Ho & Hl & Hc & Ha & Hg & _).
      exists (mkArena (Some c1) 0 (ar_others a) (ar_sizeHint a)). split; [|done].
      destruct HI1 as [Il If Ia Ig Ib Id]. split; try done; simpl.
      + intros c' [= <-]. split_and!; try done; lia.
      + intros c' [= <-]. by apply nil_below. }
  destruct (ai_active _ _ _ _ HI1 c Hc1) as (Hw & Ho & Hcl & Ha & Hoff).
  destruct (Z.leb_spec (ar_offset a1 + n) (sl_len c)).
  - intros [= <- <- <-]. split; [|split; [done|simpl; lia]].
    eapply AInv_give; try done; try lia. by apply (ai_below _ _ _ _ HI1).
  - destruct (make blockArenaChunkSize h1) as [c2 h2] eqn:Em. intros [= <- <- <-].
    destruct (AInv_make blockArenaChunkSize a1 h1 given c2 h2 ltac:(done) HI1 Em)
      as (HI2 & Hu & Hw2 & Ho2 & Hl2 & Hc2 & Ha2 & Hg2 & _).
    split; [|split; [|simpl; lia]].
    + change n with (0 + n) at 1. replace (subslice c2 0 n) with (subslice c2 0 (0 + n)) by done.
      eapply AInv_give; try done; try lia. by apply nil_below.
    + intros u Hin. rewrite Hu, Hu1 by done. done.
Qed.

(** Filling the slice just handed out changes no other. *)
Lemma AInv_store a h given s bs :
  AInv h0 a h (s :: given) -> len bs <= sl_len s ->
  AInv h0 a (store s bs h) (s :: given) /\ Unchanged given h (store s bs h).
Proof.
  intros [Il If Ia Ig Ib Id] Hb. inversion Ig as [|?? (Hws & Hcs & Hs) Ig']; subst.
  inversion Id as [|?? Hd Id']; subst. rewrite Forall_forall in Ig', Hd. split.
  - split; try done.
    + by rewrite length_store.
    + intros i Hi. rewrite array_store. destruct (decide (i = sl_arr s)) as [->|]; [|by apply If].
      destruct Hs as [->|[??]]; [|lia]. simpl in Hb. assert (bs = []) as ->.
      { apply len_0_inv. pose proof (len_nonneg bs). lia. }
      rewrite decide_True by (simpl in *; lia). unfold overwrite. simpl. by apply If.
    + intros c Hc. destruct (Ia c Hc) as (?&?&?&?&?). rewrite length_store.
      split_and!; try done; try lia. by apply wf_slice_store.
    + rewrite Forall_forall in Ig |- *. intros t Ht. destruct (Ig t Ht) as (?&?&?).
      split_and!; try done. by apply wf_slice_store.
  - intros t Ht%list_elem_of_In. destruct (Ig' t Ht) as (?&?&?).
    apply contents_store_ne; auto.
Qed.
End Alloc.

(** ** The decoders with an arena refine the decoders of Block.v *)

Lemma Unchanged_trans given h1 h2 h3 :
  Unchanged given h1 h2 -> Unchanged given h2 h3 -> Unchanged given h1 h3.
Proof. intros H1 H2 s Hs. rewrite H2, H1; done. Qed.
Lemma Unchanged_sub given given' h h' :
  given ⊆ given' -> Unchanged given' h h' -> Unchanged given h h'.
Proof. intros Hs Hk s Hin. apply Hk, Hs, Hin. Qed.

(** [read], threading the memory, does what [d] does: the value found in the
    resulting memory, the error, the rest of the stream.  [scrs] are the
    scripts of a value, the last allocated first. *)
Definition refinesA {A B} (h0 : heap) (scrs : A -> list Slice) (vw : heap -> A -> B)
    (read : amem -> Dec (A * amem)) (d : Dec B) : Prop :=
  forall m given (s : stream), AInv h0 (am_arena m) (am_heap m) given ->
  match run d s with
  | (Ok b, s') => exists a m', run (read m) s = (Ok (a, m'), s') /\
      AInv h0 (am_arena m') (am_heap m') (scrs a ++ given) /\
      Unchanged given (am_heap m) (am_heap m') /\ vw (am_heap m') a = b
  | (Err e, s') => run (read m) s = (Err e, s')
  end.

(** A view looks at the contents of the scripts only. *)
Definition local_view {A B} (scrs : A -> list Slice) (vw : heap -> A -> B) : Prop :=
  forall h h' a, Unchanged (scrs a) h h' -> vw h' a = vw h a.

Section RefineA.
Context (h0 : heap).


Lemma readScriptA_refines max format :
  max < 2 ^ 63 ->
  refinesA h0 (fun s => [s]) contents (readScriptA max format) (readScriptArena max format).
Proof.
  intros Hmax [a h] given s HI. cbn [am_arena am_heap] in HI |- *.
  unfold readScriptA, readScriptArena. rewrite !run_bind.
  destruct (run ReadVarInt s) as [[n|e] s1] eqn:Er; [|done].
  apply codec_exact in Er as [_ Hn]. rewrite !Z.gtb_ltb.
  destruct (Z.ltb_spec max n); [done|].
  assert (to_i64 n = n) as -> by (unfold to_i64; rewrite Z.mod_small; zlia).
  cbn [am_arena am_heap]. destruct (Alloc n a h) as [[sl a1] h1] eqn:Ea.
  destruct (Alloc_inv h0 n a h given sl a1 h1 ltac:(zlia) HI Ea) as (HI1 & Hu & Hl).
  destruct (Z.ltb_spec 0 n) as [Hpos|Hz].
  - rewrite run_bind. unfold readInto, readFull. cbn [run]. rewrite Hl.
    destruct (ReadFull n s1) as [[bs e] s2] eqn:Er. cbn [run].
    apply stream_ReadFull_len in Er as [Hle Heq]; [|zlia].
    destruct e as [e|]; cbn [run]; [done|]. specialize (Heq eq_refl).
    destruct (AInv_store h0 a1 h1 given sl bs HI1 ltac:(lia)) as [HI2 Hu2].
    eexists sl, (mkAmem a1 _). split; [done|]. split; [done|].
    split; [by eapply Unchanged_trans|]. cbn [am_heap]. apply contents_store_eq; [|lia].
    pose proof (ai_given _ _ _ _ HI1) as Hg. inversion Hg; subst. tauto.
  - cbn [run mret Dec_ret]. eexists sl, (mkAmem a1 h1). split; [done|]. split; [done|].
    split; [done|]. unfold contents. by replace (sl_len sl) with 0 by zlia.
Qed.

Section List.
Context {A B : Type} (scrs : A -> list Slice) (vw : heap -> A -> B)
  (read : amem -> Dec (A * amem)) (d : Dec B)
  (Hread : refinesA h0 scrs vw read d) (Hvw : local_view scrs vw).

(** The scripts of a list of values, the last allocated first. *)
Definition scrsL (l : list A) : list Slice := concat (map scrs (rev l)).

Lemma scrsL_snoc l x : scrsL (l ++ [x]) = scrs x ++ scrsL l.
Proof. unfold scrsL. by rewrite rev_app_distr. Qed.

Lemma scrs_scrsL l x : x ∈ l -> scrs x ⊆ scrsL l.
Proof.
  intros Hx s Hs. unfold scrsL. apply list_elem_of_In, in_concat.
  exists (scrs x). split; [|by apply list_elem_of_In].
  apply in_map. rewrite <- in_rev. by apply list_elem_of_In.
Qed.

Lemma local_view_list : local_view scrsL (fun h => map (vw h)).
Proof.
  intros h h' l Hu. apply map_ext_in. intros x Hx%list_elem_of_In. apply Hvw.
  eapply Unchanged_sub; [by apply scrs_scrsL|done].
Qed.

Lemma dloop_refinesA n acc m given (s : stream) :
  AInv h0 (am_arena m) (am_heap m) (scrsL acc ++ given) ->
  match run (dloop n (fun l => x ← d; mret (l ++ [x])) (map (vw (am_heap m)) acc)) s with
  | (Ok bs, s') => exists l m',
      run (dloop n (fun '(acc, m) => '(x, m) ← read m; mret (acc ++ [x], m)) (acc, m)) s =
        (Ok (l, m'), s') /\
      AInv h0 (am_arena m') (am_heap m') (scrsL l ++ given) /\
      Unchanged given (am_heap m) (am_heap m') /\ map (vw (am_heap m')) l = bs
  | (Err e, s') =>
      run (dloop n (fun '(acc, m) => '(x, m) ← read m; mret (acc ++ [x], m)) (acc, m)) s =
        (Err e, s')
  end.
Proof.
  revert acc m s. induction n as [|n IH]; intros acc m s HI.
  { exists acc, m. split; [done|]. split; [done|]. split; [by intros u|done]. }
  cbn [dloop]. rewrite !run_bind. specialize (Hread m _ s HI).
  destruct (run d s) as [[b|e] s1]; [|by rewrite Hread].
  destruct Hread as (x & m1 & Hx & HI1 & Hu & Hb). rewrite Hx.
  cbn [run mret Dec_ret].
  assert (map (vw (am_heap m)) acc ++ [b] = map (vw (am_heap m1)) (acc ++ [x])) as ->.
  { rewrite map_app. simpl. rewrite Hb. f_equal. symmetry. apply local_view_list.
    eapply Unchanged_sub; [|done]. set_solver. }
  rewrite app_assoc, <- scrsL_snoc in HI1. specialize (IH (acc ++ [x]) m1 s1 HI1).
  destruct (run (dloop n _ (map _ (acc ++ [x]))) s1) as [[bs|e] s2]; [|done].
  destruct IH as (l & m2 & Hl & HI2 & Hu2 & Hv). exists l, m2. split_and!; try done.
  eapply Unchanged_trans; [|done]. eapply Unchanged_sub; [|done]. set_solver.
Qed.

Lemma readListA_refines n :
  refinesA h0 scrsL (fun h => map (vw h)) (readListA read n) (dlist n d).
Proof. intros m given s HI. apply (dloop_refinesA n [] m given s HI). Qed.
End List.
End RefineA.

Lemma local_TxIn : local_view (fun t => [tim_script t]) TxIn_view.
Proof. intros h h' t Hu. unfold TxIn_view. f_equal. apply Hu. set_solver. Qed.
Lemma local_TxOut : local_view (fun t => [tom_script t]) TxOut_view.
Proof. intros h h' t Hu. unfold TxOut_view. f_equal. apply Hu. set_solver. Qed.

(** The scripts of a transaction, the last allocated first. *)
Definition tx_scrs (t : MsgTxM) : list Slice :=
  scrsL (fun t => [tom_script t]) (txm_TxOut t) ++ scrsL (fun t => [tim_script t]) (txm_TxIn t).

Lemma local_MsgTx : local_view tx_scrs MsgTx_view.
Proof.
  intros h h' t Hu. unfold MsgTx_view. f_equal.
  - apply (local_view_list _ _ local_TxIn). eapply Unchanged_sub; [|done].
    unfold tx_scrs. set_solver.
  - apply (local_view_list _ _ local_TxOut). eapply Unchanged_sub; [|done].
    unfold tx_scrs. set_solver.
Qed.

Section RefineTx.
Context `{Limits} (h0 : heap) (Hmax : maxMessagePayload < 2 ^ 63).

Lemma maxTxIn_small : maxTxInPerMessage < 2 ^ 63.
Proof.
  unfold maxTxInPerMessage, minTxInPayload, HashSize.
  assert (0 <= maxMessagePayload) by apply to_u64_range.
  assert (0 <= maxMessagePayload / (9 + 32) < 2 ^ 62) as Hd.
  { split; [by apply Z.div_pos|]. apply Z.div_lt_upper_bound; lia. }
  rewrite to_u64_id by zlia. lia.
Qed.

Lemma readTxInA_refines :
  refinesA h0 (fun t => [tim_script t]) TxIn_view readTxInA readTxInArena.
Proof.
  intros m given s HI. unfold readTxInA, readTxInArena. rewrite !run_bind.
  destruct (run readOutPoint s) as [[op|e] s1]; [|done]. rewrite !run_bind.
  pose proof (readScriptA_refines h0 _ sigScriptFormat maxTxIn_small m given s1 HI) as Hs.
  destruct (run (readScriptArena _ _) s1) as [[sc|e] s2]; [|by rewrite Hs].
  destruct Hs as (sl & m1 & -> & HI1 & Hu & Hc). rewrite !run_bind. cbn [readElement elem_val].
  destruct (run (Uint32 littleEndian) s2) as [[sq|e] s3]; [|done].
  exists (mkTxInM op sl sq), m1. split; [done|]. split; [done|]. split; [done|].
  unfold TxIn_view. simpl. by rewrite Hc.
Qed.

Lemma readTxOutA_refines :
  refinesA h0 (fun t => [tom_script t]) TxOut_view readTxOutA readTxOutArena.
Proof.
  intros m given s HI. unfold readTxOutA, readTxOutArena. rewrite !run_bind.
  change (elem_val Tint64) with Z.
  destruct (run (readElement Tint64 : Dec Z) s) as [[v|e] s1]; [|done]. rewrite !run_bind.
  pose proof (readScriptA_refines h0 _ pkScriptFormat Hmax m given s1 HI) as Hs.
  destruct (run (readScriptArena _ _) s1) as [[sc|e] s2]; [|by rewrite Hs].
  destruct Hs as (sl & m1 & -> & HI1 & Hu & Hc).
  exists (mkTxOutM v sl), m1. split; [done|]. split; [done|]. split; [done|].
  unfold TxOut_view. simpl. by rewrite Hc.
Qed.

Lemma bsvdecodeA_refines : refinesA h0 tx_scrs MsgTx_view bsvdecodeA MsgTx_bsvdecodeArena.
Proof.
  intros m given s HI. unfold bsvdecodeA, MsgTx_bsvdecodeArena. rewrite !run_bind.
  destruct (run (Uint32 littleEndian) s) as [[version|e] s1]; [|done]. rewrite !run_bind.
  destruct (run ReadVarInt s1) as [[count|e] s2]; [|done].
  destruct (count >? maxTxInPerMessage); [done|].
  unfold bsvdecodeWithArenaA, bsvdecodeWithArena. rewrite !run_bind.
  pose proof (readListA_refines h0 _ _ _ _ readTxInA_refines local_TxIn (Z.to_nat count)
                m given s2 HI) as Hi.
  destruct (run (dlist _ readTxInArena) s2) as [[ins|e] s3]; [|by rewrite Hi].
  destruct Hi as (li & m1 & -> & HI1 & Hu1 & Hv1). rewrite !run_bind.
  destruct (run ReadVarInt s3) as [[count'|e] s4]; [|done].
  destruct (count' >? maxTxOutPerMessage); [done|]. rewrite !run_bind.
  pose proof (readListA_refines h0 _ _ _ _ readTxOutA_refines local_TxOut (Z.to_nat count')
                m1 _ s4 HI1) as Ho.
  destruct (run (dlist _ readTxOutArena) s4) as [[outs|e] s5]; [|by rewrite Ho].
  destruct Ho as (lo & m2 & -> & HI2 & Hu2 & Hv2). rewrite !run_bind.
  destruct (run (Uint32 littleEndian) s5) as [[lt|e] s6]; [|done].
  exists (mkMsgTxM (to_i32 version) li lo lt), m2. split; [done|].
  split; [unfold tx_scrs; simpl; by rewrite <- app_assoc|]. split.
  - eapply Unchanged_trans; [done|]. eapply Unchanged_sub; [|done]. set_solver.
  - unfold MsgTx_view. simpl. rewrite Hv2. f_equal. rewrite <- Hv1.
    apply (local_view_list _ _ local_TxIn). eapply Unchanged_sub; [|done]. set_solver.
Qed.
End RefineTx.

(** ** The properties *)

(** A history of requests to one arena, and the slices they returned, the
    last one first. *)
Fixpoint allocs (ns : list Z) (a : blockArena) (h : heap) : list Slice * blockArena * heap :=
  match ns with
  | [] => ([], a, h)
  | n :: ns =>
      let '(l, a, h) := allocs ns a h in
      let '(s, a, h) := Alloc n a h in (s :: l, a, h)
  end.

(** C19: the slices an arena hands out, for any sequence of requests
    and any size hint, have exactly the requested length, [cap == len], lie
    inside their chunks, never overlap one another, and are outside every
    array that existed before. *)
Theorem Alloc_disjoint (ns : list Z) (sizeHint : Z) (h : heap) :
  Forall (fun n => 0 <= n) ns ->
  let '(l, a, h') := allocs ns (newBlockArenaSized sizeHint) h in
  map sl_len l = ns /\
  Forall (fun s => wf_slice h' s /\ sl_cap s = sl_len s /\
                   (s = nilSlice \/ 0 < sl_len s /\ (length h <= sl_arr s)%nat)) l /\
  ForallOrdPairs disjoint_slices l /\
  (forall i, (i < length h)%nat -> array h' i = array h i).
Proof.
  intros Hns. assert (forall l a h', allocs ns (newBlockArenaSized sizeHint) h = (l, a, h') ->
    map sl_len l = ns /\ AInv h a h' l) as Hall.
  { induction Hns as [|n ns Hn Hns IH]; intros l a h' Hal; simpl in Hal.
    - injection Hal as <- <- <-. split; [done|apply newBlockArenaSized_inv].
    - destruct (allocs ns _ _) as [[l1 a1] h1]. destruct (IH l1 a1 h1 eq_refl) as [<- HI].
      destruct (Alloc n a1 h1) as [[s a2] h2] eqn:Ea. injection Hal as <- <- <-.
      destruct (Alloc_inv h n a1 h1 l1 s a2 h2 Hn HI Ea) as (HI2 & _ & Hl).
      split; [simpl; by rewrite Hl|done]. }
  destruct (allocs ns _ _) as [[l a] h']. destruct (Hall l a h' eq_refl) as [Hl [? ? ? ? ? ?]].
  by split_and!.
Qed.

Lemma Alloc_disjoint_witness :
  let '(l, a, h') := allocs [10; 0; 4000; 200] (newBlockArenaSized 7) [zeros 4] in
  map sl_len l = [10; 0; 4000; 200] /\
  Forall (fun s => wf_slice h' s /\ sl_cap s = sl_len s /\
                   (s = nilSlice \/ 0 < sl_len s /\ (length [zeros 4] <= sl_arr s)%nat)) l /\
  ForallOrdPairs disjoint_slices l /\
  (forall i, (i < length [zeros 4])%nat -> array h' i = array [zeros 4] i).
Proof. apply (Alloc_disjoint [10; 0; 4000; 200] 7 [zeros 4]). repeat constructor; lia. Defined.

(** What a decoded block looks like in memory. *)
Definition block_in_memory (h0 h : heap) (header : BlockHeader) (txs : list MsgTxM)
    (msg : MsgBlock) : Prop :=
  Block_view h header txs = msg /\
  ForallOrdPairs disjoint_slices (scrsL tx_scrs txs) /\
  Forall (fun s => wf_slice h s /\ sl_cap s = sl_len s) (scrsL tx_scrs txs) /\
  (forall i, (i < length h0)%nat -> array h i = array h0 i).

(** C20: decoding a block through the arena returns exactly the block
    (or the error, and the rest of the stream) of the decoder on values; at
    the end every script of every transaction is intact in memory, no two
    scripts overlap, each has [cap == len], and no older array was touched. *)
Theorem MsgBlock_arena_refines `{Limits} (h0 : heap) (s : stream) :
  maxMessagePayload < 2 ^ 63 ->
  match run MsgBlock_Bsvdecode s with
  | (Ok msg, s') => exists header txs h,
      run (BsvdecodeBlockA h0) s = (Ok (header, txs, h), s') /\
      block_in_memory h0 h header txs msg
  | (Err e, s') => run (BsvdecodeBlockA h0) s = (Err e, s')
  end.
Proof.
  intros Hmax. unfold BsvdecodeBlockA, MsgBlock_Bsvdecode. rewrite !run_bind.
  destruct (run readBlockHeader s) as [[hd|e] s1]; [|done]. rewrite !run_bind.
  destruct (run ReadVarInt s1) as [[count|e] s2]; [|done].
  destruct (count >? maxTxPerBlock); [done|]. rewrite !run_bind.
  set (arena := newBlockArenaSized _).
  pose proof (readListA_refines h0 _ _ _ _ (bsvdecodeA_refines h0 Hmax) local_MsgTx (Z.to_nat count)
                (mkAmem arena h0) [] s2 (newBlockArenaSized_inv _ _)) as Hr.
  destruct (run (dlist _ MsgTx_bsvdecodeArena) s2) as [[txs|e] s3]; [|by rewrite Hr].
  destruct Hr as (l & [a h] & -> & HI & _ & Hv). rewrite app_nil_r in HI.
  cbn [am_heap am_arena] in HI, Hv.
  exists hd, l, h. split; [done|]. destruct HI as [? ? ? Hg ? ?]. split_and!; try done.
  - unfold Block_view. by rewrite Hv.
  - eapply list.Forall_impl; [exact Hg|]. simpl. tauto.
Qed.

Lemma MsgBlock_arena_refines_witness :
  match run (@MsgBlock_Bsvdecode defaultLimits) (mkStream (MsgBlock_bytes exampleBlock) EOF) with
  | (Ok msg, s') => exists header txs h,
      run (@BsvdecodeBlockA defaultLimits []) (mkStream (MsgBlock_bytes exampleBlock) EOF) =
        (Ok (header, txs, h), s') /\ block_in_memory [] h header txs msg
  | (Err e, s') =>
      run (@BsvdecodeBlockA defaultLimits []) (mkStream (MsgBlock_bytes exampleBlock) EOF) = (Err e, s')
  end.
Proof.
  apply (@MsgBlock_arena_refines defaultLimits [] (mkStream (MsgBlock_bytes exampleBlock) EOF)).
  vm_compute. reflexivity.
Defined.
