(* ===== verification/MsgIface.v ===== *)
(** * The interface [Message] (message.go) and the promise of its implementations

    [Msg] is the Go interface; [MsgSpec] is what message.go relies on: a
    well-formed message is encoded without error, to at most
    [MaxPayloadLength] bytes, and decoded back from a buffer that holds
    exactly its payload.  Each message file proves an instance; [Message.v]
    is proved against the interface. *)

From S2P Require Import Prelude Io Common.

(** ** The commands (message.go) *)

Definition CmdVersion : bytes := str "version".
Definition CmdVerAck : bytes := str "verack".
Definition CmdGetAddr : bytes := str "getaddr".
Definition CmdAddr : bytes := str "addr".
Definition CmdGetBlocks : bytes := str "getblocks".
Definition CmdInv : bytes := str "inv".
Definition CmdGetData : bytes := str "getdata".
Definition CmdNotFound : bytes := str "notfound".
Definition CmdBlock : bytes := str "block".
Definition CmdTx : bytes := str "tx".
Definition CmdExtendedTx : bytes := str "exttx".
Definition CmdGetHeaders : bytes := str "getheaders".
Definition CmdHeaders : bytes := str "headers".
Definition CmdPing : bytes := str "ping".
Definition CmdPong : bytes := str "pong".
Definition CmdMemPool : bytes := str "mempool".
Definition CmdFilterAdd : bytes := str "filteradd".
Definition CmdFilterClear : bytes := str "filterclear".
Definition CmdFilterLoad : bytes := str "filterload".
Definition CmdMerkleBlock : bytes := str "merkleblock".
Definition CmdReject : bytes := str "reject".
Definition CmdSendHeaders : bytes := str "sendheaders".
Definition CmdFeeFilter : bytes := str "feefilter".
Definition CmdGetCFilters : bytes := str "getcfilters".
Definition CmdGetCFHeaders : bytes := str "getcfheaders".
Definition CmdGetCFCheckpt : bytes := str "getcfcheckpt".
Definition CmdCFilter : bytes := str "cfilter".
Definition CmdCFHeaders : bytes := str "cfheaders".
Definition CmdCFCheckpt : bytes := str "cfcheckpt".
Definition CmdProtoconf : bytes := str "protoconf".
Definition CmdExtMsg : bytes := str "extmsg".
Definition CmdSendcmpct : bytes := str "sendcmpct".
Definition CmdAuthch : bytes := str "authch".
Definition CmdAuthresp : bytes := str "authresp".
Definition CmdCreateStream : bytes := str "createstrm".
Definition CmdStreamAck : bytes := str "streamack".

(** ** The interface *)

Class Msg (T : Type) := {
  Command : bytes;
  MaxPayloadLength : Z -> Z;
  Bsvdecode : Z -> Dec T;
  BsvEncode : Z -> T -> Enc;
}.
Arguments Command T {_}.
Arguments MaxPayloadLength T {_} pver.
Arguments Bsvdecode T {_} pver.

Class MsgSpec (T : Type) `{Msg T} := {
  msg_bytes : Z -> T -> bytes;
  msg_ok : Z -> T -> Prop;
  msg_encodes pver m : msg_ok pver m -> encodes (BsvEncode pver m) (msg_bytes pver m);
  msg_decodes pver m :
    msg_ok pver m -> run (Bsvdecode T pver) (mkBuffer (msg_bytes pver m)) = (Ok m, mkBuffer []);
  msg_bounded pver m : msg_ok pver m -> len (msg_bytes pver m) <= MaxPayloadLength T pver;
}.

(** A message whose decoder reads any [io.Reader]. *)
Class Streamable (T : Type) `{Msg T} := msg_streamable pver : streamable (Bsvdecode T pver).

(** The usual way to an instance, for a decoder that reads any reader. *)
Definition mkMsgSpec {T} `{HM : Msg T} (bs : Z -> T -> bytes) (ok : Z -> T -> Prop)
    (Hst : Streamable T)
    (Hdec : forall pver m, ok pver m -> decodes (Bsvdecode T pver) (bs pver m) m)
    (Henc : forall pver m, ok pver m -> encodes (BsvEncode pver m) (bs pver m))
    (Hlen : forall pver m, ok pver m -> len (bs pver m) <= MaxPayloadLength T pver) : MsgSpec T.
Proof.
  refine {| msg_bytes := bs; msg_ok := ok |}; [done| |done].
  intros pver m Hm. rewrite <- (app_nil_r (bs pver m)). by apply decodes_buffer; [|apply Hdec].
Defined.

(** ** Errors shared by the messages *)

Definition invalidPver (f what : string) (pver : Z) : error :=
  messageError f (String.append what " message invalid for protocol version %d") [AInt pver].

(** ** Lists filled by an [Add...] method

    The decoders append with the message's own method, which checks the limit
    again; below the limit it always succeeds. *)

Section AddLoop.
Context {A : Type} (d : Dec A) (add : list A -> A -> result (list A)) (max : Z).

(** [err = msg.Add(x); if err != nil { return err }] and [_ = msg.Add(x)] *)
Definition addStrict (l : list A) : Dec (list A) := x ← d; lift (add l x).
Definition addLax (l : list A) : Dec (list A) :=
  x ← d; mret (match add l x with Ok l' => l' | Err _ => l end).

Context (Hadd : forall l x, len l + 1 <= max -> add l x = Ok (l ++ [x])).

Lemma add_loops n acc (s : stream) :
  len acc + Z.of_nat n <= max ->
  run (dloop n addStrict acc) s = run (dloop n (fun l => x ← d; mret (l ++ [x])) acc) s /\
  run (dloop n addLax acc) s = run (dloop n (fun l => x ← d; mret (l ++ [x])) acc) s.
Proof.
  revert acc s. induction n as [|n IH]; intros acc s Hn; [done|].
  cbn [dloop]. rewrite !run_bind. unfold addStrict at 1, addLax at 1. rewrite !run_bind.
  destruct (run d s) as [[x|e] s1]; [|done].
  rewrite !Hadd by lia. cbn [run lift mret Dec_ret]. apply IH. len_lia.
Qed.
End AddLoop.

Section CountedAdd.
Context {A : Type} (d : Dec A) (enc : A -> bytes) (ok : A -> Prop) {Hd : Codec d enc ok}
  (add : list A -> A -> result (list A)) (max : Z) (e : Z -> error)
  (Hadd : forall l x, len l + 1 <= max -> add l x = Ok (l ++ [x])).

Lemma Codec_counted_loop (loop : nat -> Dec (list A)) :
  (forall n (s : stream), Z.of_nat n <= max -> run (loop n) s = run (dlist n d) s) ->
  Codec (count ← ReadVarInt; if count >? max then DFail (e count) else loop (Z.to_nat count))
    (list_bytes enc) (list_ok ok max).
Proof.
  intros Hl. eapply Codec_run_ext; [|apply (Codec_counted_list d enc ok max e)].
  intros s. rewrite !run_bind. destruct (run ReadVarInt s) as [[c|e'] s1] eqn:Ec; [|done].
  apply codec_exact in Ec as [_ Hc]. rewrite Z.gtb_ltb.
  destruct (Z.ltb_spec max c); [done|]. apply Hl. zlia.
Qed.

Lemma Codec_counted_strict :
  Codec (count ← ReadVarInt; if count >? max then DFail (e count)
         else dloop (Z.to_nat count) (addStrict d add) [])
    (list_bytes enc) (list_ok ok max).
Proof.
  apply Codec_counted_loop with (loop := fun n => dloop n (addStrict d add) []).
  intros n s Hn. by apply (add_loops d add max Hadd).
Qed.

Lemma Codec_counted_lax :
  Codec (count ← ReadVarInt; if count >? max then DFail (e count)
         else dloop (Z.to_nat count) (addLax d add) [])
    (list_bytes enc) (list_ok ok max).
Proof.
  apply Codec_counted_loop with (loop := fun n => dloop n (addLax d add) []).
  intros n s Hn. by apply (add_loops d add max Hadd).
Qed.
End CountedAdd.

Lemma streamable_addStrict {A} (d : Dec A) add l : streamable d -> streamable (addStrict d add l).
Proof. intros. unfold addStrict. solve_streamable. Qed.
Lemma streamable_addLax {A} (d : Dec A) add l : streamable d -> streamable (addLax d add l).
Proof. intros. unfold addLax. solve_streamable. Qed.
#[export] Hint Resolve streamable_addStrict streamable_addLax : streamable.

(** A list whose elements have a bounded size. *)
Lemma len_list_bound {A} (enc : A -> bytes) (ok : A -> Prop) l max k :
  list_ok ok max l -> 0 <= k -> (forall x, ok x -> len (enc x) <= k) ->
  len (list_bytes enc l) <= MaxVarIntPayload + max * k.
Proof.
  intros (Hm & Hu & Hl) Hk Hb. rewrite len_list_bytes.
  pose proof (VarIntSerializeSize_bound (len l)).
  assert (zsum (map (fun x => len (enc x)) l) <= k * len l) as Hz.
  { apply zsum_bound. intros x Hx. apply Hb. rewrite list.Forall_forall in Hl. auto. }
  pose proof (len_nonneg l). nia.
Qed.

(** A bound that a successful comparison establishes. *)
Lemma gtb_false x y : x <= y -> (x >? y) = false.
Proof. intros. rewrite Z.gtb_ltb. by apply Z.ltb_ge. Qed.

(** For a decoder with an exact law: it returns [m] on precisely the streams
    that begin with the encoding of [m]. *)
Lemma codec_msg_iff {T} {HM : Msg T} {HS : MsgSpec T} pver
    (Hc : Codec (Bsvdecode T pver) (msg_bytes pver) (msg_ok pver)) (s : stream) m s' :
  run (Bsvdecode T pver) s = (Ok m, s') <->
  msg_ok pver m /\ outcome (BsvEncode pver m) = None /\
  s = mkStream (written (BsvEncode pver m) ++ s_data s') (s_err s').
Proof.
  split.
  - intros Hr. apply codec_exact in Hr as [-> Hok].
    by destruct (msg_encodes pver m Hok) as [-> ->].
  - intros (Hok & Ho & ->). destruct (msg_encodes pver m Hok) as [_ ->].
    destruct s' as [d e]. by apply Hc.
Qed.

(** Limits below 2^64 make the width of the count redundant. *)
Lemma list_ok_iff {A} (ok : A -> Prop) max l :
  max < 2 ^ 64 -> list_ok ok max l <-> len l <= max /\ Forall ok l.
Proof.
  intros Hm. unfold list_ok. pose proof (len_nonneg l).
  split; intros; destruct_and?; split_and?; auto; zlia.
Qed.
