(* ===== verification/MsgInventory.v ===== *)
(** * msg_inv.go, msg_get_data.go, msg_not_found.go, msg_headers.go,
      msg_get_headers.go, msg_get_blocks.go, msg_addr.go: lists of hashes,
      headers and addresses *)

From S2P Require Import Prelude Io Common Sha256 Externals InvVect BlockHeader Protocol NetAddress.
From S2P Require Import MsgIface.

Definition MaxBlockHeadersPerMsg : Z := 2000.
Definition MaxBlockLocatorsPerMsg : Z := 500.
Definition MaxAddrPerMsg : Z := 1000.

(** [msg.Add...]: append below a limit. *)
Definition addBelow {A} (max : Z) (e : error) (l : list A) (x : A) : result (list A) :=
  if len l + 1 >? max then Err e else Ok (l ++ [x]).

Lemma addBelow_Ok {A} max e (l : list A) x :
  len l + 1 <= max -> addBelow max e l x = Ok (l ++ [x]).
Proof. intros Hl. unfold addBelow. by rewrite gtb_false. Qed.

Definition tooManyInvVect (f : string) : error :=
  messageError f "too many invvect in message [max %v]" [AInt MaxInvPerMsg].
Definition invCountTooLarge (f : string) (count : Z) : error :=
  messageError f "too many invvect in message [%v]" [AInt count].

(** ** MsgInv *)

Record MsgInv := mkMsgInv { inv_InvList : list InvVect }.

Definition MsgInv_AddInvVect : list InvVect -> InvVect -> result (list InvVect) :=
  addBelow MaxInvPerMsg (tooManyInvVect "MsgInv.AddInvVect").

Definition MsgInv_readList : Dec (list InvVect) :=
  count ← ReadVarInt;
  if count >? MaxInvPerMsg then DFail (invCountTooLarge "MsgInv.Bsvdecode" count)
  else dloop (Z.to_nat count) (addStrict readInvVect MsgInv_AddInvVect) [].

Definition MsgInv_Bsvdecode (pver : Z) : Dec MsgInv :=
  invList ← MsgInv_readList; mret (mkMsgInv invList).

Definition MsgInv_BsvEncode (pver : Z) (msg : MsgInv) : Enc :=
  let count := len (inv_InvList msg) in
  if count >? MaxInvPerMsg then efail (invCountTooLarge "MsgInv.BsvEncode" count)
  else WriteVarInt count >>> efor writeInvVect (inv_InvList msg).

Definition MsgInv_MaxPayloadLength (pver : Z) : Z :=
  MaxVarIntPayload + MaxInvPerMsg * maxInvVectPayload.

#[export] Instance MsgInv_Msg : Msg MsgInv := {|
  Command := CmdInv; MaxPayloadLength := MsgInv_MaxPayloadLength;
  Bsvdecode := MsgInv_Bsvdecode; BsvEncode := MsgInv_BsvEncode |}.

(** ** MsgGetData *)

Record MsgGetData := mkMsgGetData { gd_InvList : list InvVect }.

Definition MsgGetData_AddInvVect : list InvVect -> InvVect -> result (list InvVect) :=
  addBelow MaxInvPerMsg (tooManyInvVect "MsgGetData.AddInvVect").

Definition MsgGetData_readList : Dec (list InvVect) :=
  count ← ReadVarInt;
  if count >? MaxInvPerMsg then DFail (invCountTooLarge "MsgGetData.Bsvdecode" count)
  else dloop (Z.to_nat count) (addStrict readInvVect MsgGetData_AddInvVect) [].

Definition MsgGetData_Bsvdecode (pver : Z) : Dec MsgGetData :=
  invList ← MsgGetData_readList; mret (mkMsgGetData invList).

Definition MsgGetData_BsvEncode (pver : Z) (msg : MsgGetData) : Enc :=
  let count := len (gd_InvList msg) in
  if count >? MaxInvPerMsg then efail (invCountTooLarge "MsgGetData.BsvEncode" count)
  else WriteVarInt count >>> efor writeInvVect (gd_InvList msg).

Definition MsgGetData_MaxPayloadLength (pver : Z) : Z :=
  MaxVarIntPayload + MaxInvPerMsg * maxInvVectPayload.

#[export] Instance MsgGetData_Msg : Msg MsgGetData := {|
  Command := CmdGetData; MaxPayloadLength := MsgGetData_MaxPayloadLength;
  Bsvdecode := MsgGetData_Bsvdecode; BsvEncode := MsgGetData_BsvEncode |}.

(** ** MsgNotFound: its decoder ignores the error of [AddInvVect] *)

Record MsgNotFound := mkMsgNotFound { nf_InvList : list InvVect }.

Definition MsgNotFound_AddInvVect : list InvVect -> InvVect -> result (list InvVect) :=
  addBelow MaxInvPerMsg (tooManyInvVect "MsgNotFound.AddInvVect").

Definition MsgNotFound_readList : Dec (list InvVect) :=
  count ← ReadVarInt;
  if count >? MaxInvPerMsg then DFail (invCountTooLarge "MsgNotFound.Bsvdecode" count)
  else dloop (Z.to_nat count) (addLax readInvVect MsgNotFound_AddInvVect) [].

Definition MsgNotFound_Bsvdecode (pver : Z) : Dec MsgNotFound :=
  invList ← MsgNotFound_readList; mret (mkMsgNotFound invList).

Definition MsgNotFound_BsvEncode (pver : Z) (msg : MsgNotFound) : Enc :=
  let count := len (nf_InvList msg) in
  if count >? MaxInvPerMsg then efail (invCountTooLarge "MsgNotFound.BsvEncode" count)
  else WriteVarInt count >>> efor writeInvVect (nf_InvList msg).

Definition MsgNotFound_MaxPayloadLength (pver : Z) : Z :=
  MaxVarIntPayload + MaxInvPerMsg * maxInvVectPayload.

#[export] Instance MsgNotFound_Msg : Msg MsgNotFound := {|
  Command := CmdNotFound; MaxPayloadLength := MsgNotFound_MaxPayloadLength;
  Bsvdecode := MsgNotFound_Bsvdecode; BsvEncode := MsgNotFound_BsvEncode |}.

(** ** MsgHeaders *)

Record MsgHeaders := mkMsgHeaders { hs_Headers : list BlockHeader }.

Definition AddBlockHeader : list BlockHeader -> BlockHeader -> result (list BlockHeader) :=
  addBelow MaxBlockHeadersPerMsg
    (messageError "MsgHeaders.AddBlockHeader" "too many block headers in message [max %v]"
       [AInt MaxBlockHeadersPerMsg]).

Definition headersCountTooLarge (f : string) (count : Z) : error :=
  messageError f "too many block headers for message [count %v, max %v]"
    [AInt count; AInt MaxBlockHeadersPerMsg].

(** A header and the number of transactions after it, which must be 0. *)
Definition readHeaderEntry : Dec BlockHeader :=
  bh ← readBlockHeader;
  txCount ← ReadVarInt;
  if txCount >? 0 then
    DFail (messageError "MsgHeaders.Bsvdecode"
             "block headers may not contain transactions [count %v]" [AInt txCount])
  else mret bh.

Definition MsgHeaders_readList : Dec (list BlockHeader) :=
  count ← ReadVarInt;
  if count >? MaxBlockHeadersPerMsg
  then DFail (headersCountTooLarge "MsgHeaders.Bsvdecode" count)
  else dloop (Z.to_nat count) (addStrict readHeaderEntry AddBlockHeader) [].

Definition MsgHeaders_Bsvdecode (pver : Z) : Dec MsgHeaders :=
  headers ← MsgHeaders_readList; mret (mkMsgHeaders headers).

Definition writeHeaderEntry (bh : BlockHeader) : Enc := writeBlockHeader bh >>> WriteVarInt 0.

Definition MsgHeaders_BsvEncode (pver : Z) (msg : MsgHeaders) : Enc :=
  let count := len (hs_Headers msg) in
  if count >? MaxBlockHeadersPerMsg then efail (headersCountTooLarge "MsgHeaders.BsvEncode" count)
  else WriteVarInt count >>> efor writeHeaderEntry (hs_Headers msg).

Definition MsgHeaders_MaxPayloadLength (pver : Z) : Z :=
  MaxVarIntPayload + (MaxBlockHeaderPayload + 1) * MaxBlockHeadersPerMsg.

#[export] Instance MsgHeaders_Msg : Msg MsgHeaders := {|
  Command := CmdHeaders; MaxPayloadLength := MsgHeaders_MaxPayloadLength;
  Bsvdecode := MsgHeaders_Bsvdecode; BsvEncode := MsgHeaders_BsvEncode |}.

(** ** MsgGetHeaders *)

Record MsgGetHeaders := mkMsgGetHeaders {
  gh_ProtocolVersion : Z; gh_BlockLocatorHashes : list bytes; gh_HashStop : bytes }.

Definition tooManyLocators (f : string) : error :=
  messageError f "too many block locator hashes for message [max %v]"
    [AInt MaxBlockLocatorsPerMsg].
Definition locatorCountTooLarge (f : string) (count : Z) : error :=
  messageError f "too many block locator hashes for message [count %v, max %v]"
    [AInt count; AInt MaxBlockLocatorsPerMsg].

Definition MsgGetHeaders_AddBlockLocatorHash : list bytes -> bytes -> result (list bytes) :=
  addBelow MaxBlockLocatorsPerMsg (tooManyLocators "MsgGetHeaders.AddBlockLocatorHash").

Definition MsgGetHeaders_readList : Dec (list bytes) :=
  count ← ReadVarInt;
  if count >? MaxBlockLocatorsPerMsg
  then DFail (locatorCountTooLarge "MsgGetHeaders.Bsvdecode" count)
  else dloop (Z.to_nat count)
         (addStrict (readElement Thash : Dec bytes) MsgGetHeaders_AddBlockLocatorHash) [].

Definition MsgGetHeaders_Bsvdecode (pver : Z) : Dec MsgGetHeaders :=
  v ← readElement Tuint32;
  hashes ← MsgGetHeaders_readList;
  stop ← readElement Thash;
  mret (mkMsgGetHeaders v hashes stop).

Definition MsgGetHeaders_BsvEncode (pver : Z) (msg : MsgGetHeaders) : Enc :=
  let count := len (gh_BlockLocatorHashes msg) in
  if count >? MaxBlockLocatorsPerMsg
  then efail (locatorCountTooLarge "MsgGetHeaders.BsvEncode" count)
  else
    writeElement (Wuint32 (gh_ProtocolVersion msg)) >>>
    WriteVarInt count >>>
    efor (fun hash => writeElement (Whash hash)) (gh_BlockLocatorHashes msg) >>>
    writeElement (Whash (gh_HashStop msg)).

Definition MsgGetHeaders_MaxPayloadLength (pver : Z) : Z :=
  4 + MaxVarIntPayload + MaxBlockLocatorsPerMsg * HashSize + HashSize.

#[export] Instance MsgGetHeaders_Msg : Msg MsgGetHeaders := {|
  Command := CmdGetHeaders; MaxPayloadLength := MsgGetHeaders_MaxPayloadLength;
  Bsvdecode := MsgGetHeaders_Bsvdecode; BsvEncode := MsgGetHeaders_BsvEncode |}.

(** ** MsgGetBlocks: its decoder ignores the error of [AddBlockLocatorHash] *)

Record MsgGetBlocks := mkMsgGetBlocks {
  gb_ProtocolVersion : Z; gb_BlockLocatorHashes : list bytes; gb_HashStop : bytes }.

Definition NewMsgGetBlocks (hashStop : bytes) : MsgGetBlocks :=
  mkMsgGetBlocks ProtocolVersion [] hashStop.

Definition MsgGetBlocks_AddBlockLocatorHash : list bytes -> bytes -> result (list bytes) :=
  addBelow MaxBlockLocatorsPerMsg (tooManyLocators "MsgGetBlocks.AddBlockLocatorHash").

Definition MsgGetBlocks_readList : Dec (list bytes) :=
  count ← ReadVarInt;
  if count >? MaxBlockLocatorsPerMsg
  then DFail (locatorCountTooLarge "MsgGetBlocks.Bsvdecode" count)
  else dloop (Z.to_nat count)
         (addLax (readElement Thash : Dec bytes) MsgGetBlocks_AddBlockLocatorHash) [].

Definition MsgGetBlocks_Bsvdecode (pver : Z) : Dec MsgGetBlocks :=
  v ← readElement Tuint32;
  hashes ← MsgGetBlocks_readList;
  stop ← readElement Thash;
  mret (mkMsgGetBlocks v hashes stop).

Definition MsgGetBlocks_BsvEncode (pver : Z) (msg : MsgGetBlocks) : Enc :=
  let count := len (gb_BlockLocatorHashes msg) in
  if count >? MaxBlockLocatorsPerMsg
  then efail (locatorCountTooLarge "MsgGetBlocks.BsvEncode" count)
  else
    writeElement (Wuint32 (gb_ProtocolVersion msg)) >>>
    WriteVarInt count >>>
    efor (fun hash => writeElement (Whash hash)) (gb_BlockLocatorHashes msg) >>>
    writeElement (Whash (gb_HashStop msg)).

Definition MsgGetBlocks_MaxPayloadLength (pver : Z) : Z :=
  4 + MaxVarIntPayload + MaxBlockLocatorsPerMsg * HashSize + HashSize.

#[export] Instance MsgGetBlocks_Msg : Msg MsgGetBlocks := {|
  Command := CmdGetBlocks; MaxPayloadLength := MsgGetBlocks_MaxPayloadLength;
  Bsvdecode := MsgGetBlocks_Bsvdecode; BsvEncode := MsgGetBlocks_BsvEncode |}.

(** ** MsgAddr *)

Record MsgAddr := mkMsgAddr { addr_AddrList : list NetAddress }.

Definition AddAddress : list NetAddress -> NetAddress -> result (list NetAddress) :=
  addBelow MaxAddrPerMsg
    (messageError "MsgAddr.AddAddress" "too many addresses in message [max %v]"
       [AInt MaxAddrPerMsg]).

(** [AddAddresses]: the list as far as it got, and the first error. *)
Fixpoint AddAddresses (l : list NetAddress) (netAddrs : list NetAddress) :
    list NetAddress * option error :=
  match netAddrs with
  | [] => (l, None)
  | na :: netAddrs =>
      match AddAddress l na with
      | Err e => (l, Some e)
      | Ok l => AddAddresses l netAddrs
      end
  end.

Definition ClearAddresses (msg : MsgAddr) : MsgAddr := mkMsgAddr [].

Definition addrCountTooLarge (f : string) (count : Z) : error :=
  messageError f "too many addresses for message [count %v, max %v]"
    [AInt count; AInt MaxAddrPerMsg].

Definition MsgAddr_readList (pver : Z) : Dec (list NetAddress) :=
  count ← ReadVarInt;
  if count >? MaxAddrPerMsg then DFail (addrCountTooLarge "MsgAddr.Bsvdecode" count)
  else dloop (Z.to_nat count) (addLax (readNetAddress pver zeroNetAddress true) AddAddress) [].

Definition MsgAddr_Bsvdecode (pver : Z) : Dec MsgAddr :=
  addrList ← MsgAddr_readList pver; mret (mkMsgAddr addrList).

Definition MsgAddr_BsvEncode (pver : Z) (msg : MsgAddr) : Enc :=
  let count := len (addr_AddrList msg) in
  if (pver <? MultipleAddressVersion) && (count >? 1) then
    efail (messageError "MsgAddr.BsvEncode"
             "too many addresses for message of protocol version %v [count %v, max 1]"
             [AInt pver; AInt count])
  else if count >? MaxAddrPerMsg then efail (addrCountTooLarge "MsgAddr.BsvEncode" count)
  else WriteVarInt count >>> efor (fun na => writeNetAddress pver na true) (addr_AddrList msg).

Definition MsgAddr_MaxPayloadLength (pver : Z) : Z :=
  if pver <? MultipleAddressVersion then MaxVarIntPayload + maxNetAddressPayload pver
  else MaxVarIntPayload + MaxAddrPerMsg * maxNetAddressPayload pver.

#[export] Instance MsgAddr_Msg : Msg MsgAddr := {|
  Command := CmdAddr; MaxPayloadLength := MsgAddr_MaxPayloadLength;
  Bsvdecode := MsgAddr_Bsvdecode; BsvEncode := MsgAddr_BsvEncode |}.

(** ** The laws *)

#[export] Instance Codec_Inv_list :
  Codec MsgInv_readList (list_bytes InvVect_bytes) (list_ok InvVect_ok MaxInvPerMsg).
Proof.
  apply (Codec_counted_strict readInvVect InvVect_bytes InvVect_ok MsgInv_AddInvVect _
           (invCountTooLarge _)), addBelow_Ok.
Qed.
#[export] Instance Codec_GetData_list :
  Codec MsgGetData_readList (list_bytes InvVect_bytes) (list_ok InvVect_ok MaxInvPerMsg).
Proof.
  apply (Codec_counted_strict readInvVect InvVect_bytes InvVect_ok MsgGetData_AddInvVect _
           (invCountTooLarge _)), addBelow_Ok.
Qed.
#[export] Instance Codec_NotFound_list :
  Codec MsgNotFound_readList (list_bytes InvVect_bytes) (list_ok InvVect_ok MaxInvPerMsg).
Proof.
  apply (Codec_counted_lax readInvVect InvVect_bytes InvVect_ok MsgNotFound_AddInvVect _
           (invCountTooLarge _)), addBelow_Ok.
Qed.

(** A decoder that wraps what another one returns. *)
Lemma Codec_wrap {A B} (d : Dec A) (mk : A -> B) (get : B -> A) enc ok :
  Codec d enc ok -> (forall b, mk (get b) = b) -> (forall a, get (mk a) = a) ->
  Codec (x ← d; mret (mk x)) (fun b => enc (get b)) (fun b => ok (get b)).
Proof. intros Hd H1 H2. apply (Codec_map d mk get enc ok); [done|by auto|]. intros a. by rewrite H2. Qed.

Lemma InvList_bound l :
  list_ok InvVect_ok MaxInvPerMsg l ->
  len (list_bytes InvVect_bytes l) <= MaxVarIntPayload + MaxInvPerMsg * maxInvVectPayload.
Proof.
  intros Hl. eapply len_list_bound; [done|done|]. intros x Hx. by rewrite len_InvVect_bytes.
Qed.

#[export] Instance MsgInv_streamable : Streamable MsgInv.
Proof. intros pver. change (streamable (MsgInv_Bsvdecode pver)). unfold MsgInv_Bsvdecode, MsgInv_readList. solve_streamable. Qed.
#[export] Instance MsgGetData_streamable : Streamable MsgGetData.
Proof. intros pver. change (streamable (MsgGetData_Bsvdecode pver)). unfold MsgGetData_Bsvdecode, MsgGetData_readList. solve_streamable. Qed.
#[export] Instance MsgNotFound_streamable : Streamable MsgNotFound.
Proof. intros pver. change (streamable (MsgNotFound_Bsvdecode pver)). unfold MsgNotFound_Bsvdecode, MsgNotFound_readList. solve_streamable. Qed.

#[export] Instance Codec_MsgInv pver :
  Codec (MsgInv_Bsvdecode pver) (fun m => list_bytes InvVect_bytes (inv_InvList m))
    (fun m => list_ok InvVect_ok MaxInvPerMsg (inv_InvList m)).
Proof. by apply (Codec_wrap MsgInv_readList mkMsgInv); [apply _|intros []|]. Qed.

#[export] Instance MsgInv_spec : MsgSpec MsgInv.
Proof.
  refine (mkMsgSpec (fun _ m => list_bytes InvVect_bytes (inv_InvList m))
            (fun _ m => list_ok InvVect_ok MaxInvPerMsg (inv_InvList m)) _ _ _ _).
  - intros pver m Hm. by apply (Codec_MsgInv pver).
  - intros pver m (Hm & _). cbn. unfold MsgInv_BsvEncode. rewrite gtb_false by done.
    apply encodes_counted. auto with encodes.
  - intros pver m. apply InvList_bound.
Defined.

#[export] Instance Codec_MsgGetData pver :
  Codec (MsgGetData_Bsvdecode pver) (fun m => list_bytes InvVect_bytes (gd_InvList m))
    (fun m => list_ok InvVect_ok MaxInvPerMsg (gd_InvList m)).
Proof. by apply (Codec_wrap MsgGetData_readList mkMsgGetData); [apply _|intros []|]. Qed.

#[export] Instance MsgGetData_spec : MsgSpec MsgGetData.
Proof.
  refine (mkMsgSpec (fun _ m => list_bytes InvVect_bytes (gd_InvList m))
            (fun _ m => list_ok InvVect_ok MaxInvPerMsg (gd_InvList m)) _ _ _ _).
  - intros pver m Hm. by apply (Codec_MsgGetData pver).
  - intros pver m (Hm & _). cbn. unfold MsgGetData_BsvEncode. rewrite gtb_false by done.
    apply encodes_counted. auto with encodes.
  - intros pver m. apply InvList_bound.
Defined.

#[export] Instance Codec_MsgNotFound pver :
  Codec (MsgNotFound_Bsvdecode pver) (fun m => list_bytes InvVect_bytes (nf_InvList m))
    (fun m => list_ok InvVect_ok MaxInvPerMsg (nf_InvList m)).
Proof. by apply (Codec_wrap MsgNotFound_readList mkMsgNotFound); [apply _|intros []|]. Qed.

#[export] Instance MsgNotFound_spec : MsgSpec MsgNotFound.
Proof.
  refine (mkMsgSpec (fun _ m => list_bytes InvVect_bytes (nf_InvList m))
            (fun _ m => list_ok InvVect_ok MaxInvPerMsg (nf_InvList m)) _ _ _ _).
  - intros pver m Hm. by apply (Codec_MsgNotFound pver).
  - intros pver m (Hm & _). cbn. unfold MsgNotFound_BsvEncode. rewrite gtb_false by done.
    apply encodes_counted. auto with encodes.
  - intros pver m. apply InvList_bound.
Defined.

(** *** Headers *)

Definition HeaderEntry_bytes (bh : BlockHeader) : bytes := BlockHeader_bytes bh ++ varint_bytes 0.

#[export] Instance Codec_readHeaderEntry : Codec readHeaderEntry HeaderEntry_bytes BlockHeader_ok.
Proof.
  split.
  - intros bh Hok. eapply decodes_bind; [by apply codec_decodes|].
    eapply decodes_bind_last; [by apply codec_decodes|]. apply decodes_ret.
  - intros s bh s' Hr. unfold readHeaderEntry in Hr. run_exact.
    assert (v0 = 0) as -> by (rewrite Z.gtb_ltb, Z.ltb_ge in Ec; zlia).
    unfold HeaderEntry_bytes. by rewrite <- app_assoc.
Qed.

#[export] Instance Codec_Headers_list :
  Codec MsgHeaders_readList (list_bytes HeaderEntry_bytes)
    (list_ok BlockHeader_ok MaxBlockHeadersPerMsg).
Proof.
  apply (Codec_counted_strict readHeaderEntry HeaderEntry_bytes BlockHeader_ok AddBlockHeader _
           (headersCountTooLarge _)), addBelow_Ok.
Qed.

Lemma streamable_readHeaderEntry : streamable readHeaderEntry.
Proof. unfold readHeaderEntry. solve_streamable. Qed.
#[export] Hint Resolve streamable_readHeaderEntry : streamable.

#[export] Instance MsgHeaders_streamable : Streamable MsgHeaders.
Proof. intros pver. change (streamable (MsgHeaders_Bsvdecode pver)). unfold MsgHeaders_Bsvdecode, MsgHeaders_readList. solve_streamable. Qed.

#[export] Instance Codec_MsgHeaders pver :
  Codec (MsgHeaders_Bsvdecode pver) (fun m => list_bytes HeaderEntry_bytes (hs_Headers m))
    (fun m => list_ok BlockHeader_ok MaxBlockHeadersPerMsg (hs_Headers m)).
Proof. by apply (Codec_wrap MsgHeaders_readList mkMsgHeaders); [apply _|intros []|]. Qed.

#[export] Instance MsgHeaders_spec : MsgSpec MsgHeaders.
Proof.
  refine (mkMsgSpec (fun _ m => list_bytes HeaderEntry_bytes (hs_Headers m))
            (fun _ m => list_ok BlockHeader_ok MaxBlockHeadersPerMsg (hs_Headers m)) _ _ _ _).
  - intros pver m Hm. by apply (Codec_MsgHeaders pver).
  - intros pver m (Hm & _). cbn. unfold MsgHeaders_BsvEncode. rewrite gtb_false by done.
    apply encodes_counted. intros bh. unfold writeHeaderEntry, HeaderEntry_bytes. auto with encodes.
  - intros pver m Hm. cbn. unfold MsgHeaders_MaxPayloadLength. rewrite Z.mul_comm.
    eapply len_list_bound; [done|done|]. intros bh Hbh. unfold HeaderEntry_bytes.
    by rewrite len_app, len_BlockHeader_bytes.
Defined.

(** *** Locators *)

#[export] Instance Codec_readHash : Codec (readElement Thash : Dec bytes) (fun h => h) (sized HashSize).
Proof. apply (Codec_elem Thash). done. Qed.

Lemma streamable_readHash : streamable (readElement Thash : Dec bytes).
Proof. apply (streamable_readElement Thash). Qed.
#[export] Hint Resolve streamable_readHash : streamable.

#[export] Instance Codec_GetHeaders_list :
  Codec MsgGetHeaders_readList (list_bytes (fun h => h))
    (list_ok (sized HashSize) MaxBlockLocatorsPerMsg).
Proof.
  apply (Codec_counted_strict (readElement Thash) _ _ MsgGetHeaders_AddBlockLocatorHash _
           (locatorCountTooLarge _)), addBelow_Ok.
Qed.
#[export] Instance Codec_GetBlocks_list :
  Codec MsgGetBlocks_readList (list_bytes (fun h => h))
    (list_ok (sized HashSize) MaxBlockLocatorsPerMsg).
Proof.
  apply (Codec_counted_lax (readElement Thash) _ _ MsgGetBlocks_AddBlockLocatorHash _
           (locatorCountTooLarge _)), addBelow_Ok.
Qed.

Definition Locator_bytes (v : Z) (hashes : list bytes) (stop : bytes) : bytes :=
  put_uint littleEndian 4 v ++ list_bytes (fun h => h) hashes ++ stop.

Definition Locator_ok (v : Z) (hashes : list bytes) (stop : bytes) : Prop :=
  is_u32 v /\ list_ok (sized HashSize) MaxBlockLocatorsPerMsg hashes /\ sized HashSize stop.

Lemma len_Locator_bytes v hashes stop :
  Locator_ok v hashes stop ->
  len (Locator_bytes v hashes stop) <=
  4 + MaxVarIntPayload + MaxBlockLocatorsPerMsg * HashSize + HashSize.
Proof.
  intros (Hv & Hl & Hs). unfold Locator_bytes. rewrite !len_app, len_put_uint.
  assert (len (list_bytes (fun h => h) hashes) <=
          MaxVarIntPayload + MaxBlockLocatorsPerMsg * HashSize).
  { eapply len_list_bound; [done|done|]. intros h Hh. unfold sized in Hh. lia. }
  unfold sized in Hs. lia.
Qed.

Lemma Locator_encodes v hashes stop :
  encodes (writeElement (Wuint32 v) >>> WriteVarInt (len hashes) >>>
           efor (fun hash => writeElement (Whash hash)) hashes >>> writeElement (Whash stop))
    (Locator_bytes v hashes stop).
Proof.
  unfold Locator_bytes, list_bytes. rewrite <- app_assoc.
  repeat apply encodes_seq; auto with encodes.
Qed.

Lemma Locator_codec {T} (readList : Dec (list bytes)) (mk : Z -> list bytes -> bytes -> T)
    (gv : T -> Z) (gl : T -> list bytes) (gs : T -> bytes) :
  Codec readList (list_bytes (fun h => h)) (list_ok (sized HashSize) MaxBlockLocatorsPerMsg) ->
  (forall m, mk (gv m) (gl m) (gs m) = m) ->
  (forall v l s, gv (mk v l s) = v /\ gl (mk v l s) = l /\ gs (mk v l s) = s) ->
  Codec (v ← readElement Tuint32; hashes ← readList; stop ← readElement Thash;
         mret (mk v hashes stop))
    (fun m => Locator_bytes (gv m) (gl m) (gs m)) (fun m => Locator_ok (gv m) (gl m) (gs m)).
Proof.
  intros Hl Hmk Hg. split.
  - intros m (Hv & Hh & Hs). eapply decodes_bind; [by apply (decodes_elem Tuint32)|].
    eapply decodes_bind; [by apply codec_decodes|].
    eapply decodes_bind_last; [by apply (decodes_elem Thash)|]. rewrite Hmk. apply decodes_ret.
  - intros s m s' Hr. run_exact. destruct (Hg v v0 v1) as (-> & -> & ->).
    unfold Locator_bytes. by rewrite <- !app_assoc.
Qed.

#[export] Instance MsgGetHeaders_streamable : Streamable MsgGetHeaders.
Proof. intros pver. change (streamable (MsgGetHeaders_Bsvdecode pver)). unfold MsgGetHeaders_Bsvdecode, MsgGetHeaders_readList. solve_streamable. Qed.
#[export] Instance MsgGetBlocks_streamable : Streamable MsgGetBlocks.
Proof. intros pver. change (streamable (MsgGetBlocks_Bsvdecode pver)). unfold MsgGetBlocks_Bsvdecode, MsgGetBlocks_readList. solve_streamable. Qed.

Definition MsgGetHeaders_bytes (m : MsgGetHeaders) : bytes :=
  Locator_bytes (gh_ProtocolVersion m) (gh_BlockLocatorHashes m) (gh_HashStop m).
Definition MsgGetHeaders_ok (m : MsgGetHeaders) : Prop :=
  Locator_ok (gh_ProtocolVersion m) (gh_BlockLocatorHashes m) (gh_HashStop m).

#[export] Instance Codec_MsgGetHeaders pver : Codec (MsgGetHeaders_Bsvdecode pver) MsgGetHeaders_bytes MsgGetHeaders_ok.
Proof. apply (Locator_codec MsgGetHeaders_readList mkMsgGetHeaders); [apply _|by intros []|done]. Qed.

#[export] Instance MsgGetHeaders_spec : MsgSpec MsgGetHeaders.
Proof.
  refine (mkMsgSpec (fun _ => MsgGetHeaders_bytes) (fun _ => MsgGetHeaders_ok) _ _ _ _).
  - intros pver m Hm. by apply (Codec_MsgGetHeaders pver).
  - intros pver m (_ & (Hm & _) & _). cbn. unfold MsgGetHeaders_BsvEncode. rewrite gtb_false by done.
    apply Locator_encodes.
  - intros pver m. apply len_Locator_bytes.
Defined.

Definition MsgGetBlocks_bytes (m : MsgGetBlocks) : bytes :=
  Locator_bytes (gb_ProtocolVersion m) (gb_BlockLocatorHashes m) (gb_HashStop m).
Definition MsgGetBlocks_ok (m : MsgGetBlocks) : Prop :=
  Locator_ok (gb_ProtocolVersion m) (gb_BlockLocatorHashes m) (gb_HashStop m).

#[export] Instance Codec_MsgGetBlocks pver : Codec (MsgGetBlocks_Bsvdecode pver) MsgGetBlocks_bytes MsgGetBlocks_ok.
Proof. apply (Locator_codec MsgGetBlocks_readList mkMsgGetBlocks); [apply _|by intros []|done]. Qed.

#[export] Instance MsgGetBlocks_spec : MsgSpec MsgGetBlocks.
Proof.
  refine (mkMsgSpec (fun _ => MsgGetBlocks_bytes) (fun _ => MsgGetBlocks_ok) _ _ _ _).
  - intros pver m Hm. by apply (Codec_MsgGetBlocks pver).
  - intros pver m (_ & (Hm & _) & _). cbn. unfold MsgGetBlocks_BsvEncode. rewrite gtb_false by done.
    apply Locator_encodes.
  - intros pver m. apply len_Locator_bytes.
Defined.

(** *** Addresses *)

#[export] Instance Codec_Addr_list pver :
  Codec (MsgAddr_readList pver) (list_bytes (NetAddress_bytes pver true))
    (list_ok (NetAddress_ok pver zeroNetAddress true) MaxAddrPerMsg).
Proof.
  apply (Codec_counted_lax (readNetAddress pver zeroNetAddress true) _ _ AddAddress _
           (addrCountTooLarge _)), addBelow_Ok.
Qed.

#[export] Instance MsgAddr_streamable : Streamable MsgAddr.
Proof. intros pver. change (streamable (MsgAddr_Bsvdecode pver)). unfold MsgAddr_Bsvdecode, MsgAddr_readList. solve_streamable. Qed.

(** Before [MultipleAddressVersion] a message holds at most one address. *)
Definition MsgAddr_ok (pver : Z) (m : MsgAddr) : Prop :=
  list_ok (NetAddress_ok pver zeroNetAddress true)
    (if pver <? MultipleAddressVersion then 1 else MaxAddrPerMsg) (addr_AddrList m).

Lemma MsgAddr_ok_len pver m :
  MsgAddr_ok pver m -> len (addr_AddrList m) <= MaxAddrPerMsg.
Proof.
  unfold MsgAddr_ok, list_ok, MaxAddrPerMsg. intros (Hm & _ & _). revert Hm. case_match; lia.
Qed.

#[export] Instance Codec_MsgAddr pver :
  Codec (MsgAddr_Bsvdecode pver) (fun m => list_bytes (NetAddress_bytes pver true) (addr_AddrList m))
    (fun m => list_ok (NetAddress_ok pver zeroNetAddress true) MaxAddrPerMsg (addr_AddrList m)).
Proof. by apply (Codec_wrap (MsgAddr_readList pver) mkMsgAddr); [apply _|intros []|]. Qed.

#[export] Instance MsgAddr_spec : MsgSpec MsgAddr.
Proof.
  refine (mkMsgSpec (fun pver m => list_bytes (NetAddress_bytes pver true) (addr_AddrList m))
            MsgAddr_ok _ _ _ _).
  - intros pver m Hok. apply (Codec_MsgAddr pver).
    split; [by eapply MsgAddr_ok_len|apply Hok].
  - intros pver m Hok. pose proof (MsgAddr_ok_len _ _ Hok). destruct Hok as (Hm & _).
    cbn. unfold MsgAddr_BsvEncode.
    assert ((pver <? MultipleAddressVersion) && (len (addr_AddrList m) >? 1) = false) as ->.
    { destruct (pver <? MultipleAddressVersion); [|done]. by rewrite gtb_false. }
    rewrite gtb_false by done.
    apply encodes_counted. auto with encodes.
  - intros pver m Hm. cbn. unfold MsgAddr_MaxPayloadLength, MsgAddr_ok in *.
    eapply (len_list_bound (NetAddress_bytes pver true) _ _ _ (maxNetAddressPayload pver)) in Hm;
      [|apply maxNetAddressPayload_nonneg|intros; apply len_NetAddress_bound].
    revert Hm. destruct (pver <? MultipleAddressVersion); lia.
Defined.

(** ** Theorems *)

(** [inv], [getdata] and [notfound] share one format and each decoder
    accepts exactly what the encoder of its type writes: a message is returned
    on precisely the streams that begin with its encoding, for the messages of
    at most 50000 vectors with a 32-bit type and a 32-byte hash.  The decoder
    of [notfound] ignores the error of [AddInvVect] and loses no vector by
    it. *)
Theorem Inventory_exact pver (s : stream) l s' :
  let ok := len l <= MaxInvPerMsg /\ Forall InvVect_ok l in
  let reads {T} (d : Dec T) (e : Enc) (m : T) :=
    run d s = (Ok m, s') <->
    ok /\ outcome e = None /\ s = mkStream (written e ++ s_data s') (s_err s') in
  reads (MsgInv_Bsvdecode pver) (MsgInv_BsvEncode pver (mkMsgInv l)) (mkMsgInv l) /\
  reads (MsgGetData_Bsvdecode pver) (MsgGetData_BsvEncode pver (mkMsgGetData l)) (mkMsgGetData l) /\
  reads (MsgNotFound_Bsvdecode pver) (MsgNotFound_BsvEncode pver (mkMsgNotFound l))
    (mkMsgNotFound l).
Proof.
  intros ok. assert (list_ok InvVect_ok MaxInvPerMsg l <-> ok) as Hok.
  { by apply list_ok_iff. }
  split_and!; rewrite <- Hok;
    [apply (codec_msg_iff (HS:=MsgInv_spec) pver (Codec_MsgInv pver))|apply (codec_msg_iff (HS:=MsgGetData_spec) pver (Codec_MsgGetData pver))
    |apply (codec_msg_iff (HS:=MsgNotFound_spec) pver (Codec_MsgNotFound pver))].
Qed.

(** A [headers] message is returned on precisely the streams that begin
    with its encoding: at most 2000 headers, each followed by a transaction
    count of 0. *)
Theorem MsgHeaders_exact pver (s : stream) m s' :
  run (MsgHeaders_Bsvdecode pver) s = (Ok m, s') <->
  (len (hs_Headers m) <= MaxBlockHeadersPerMsg /\ Forall BlockHeader_ok (hs_Headers m)) /\
  outcome (MsgHeaders_BsvEncode pver m) = None /\
  s = mkStream (written (MsgHeaders_BsvEncode pver m) ++ s_data s') (s_err s').
Proof.
  assert (list_ok BlockHeader_ok MaxBlockHeadersPerMsg (hs_Headers m) <->
    len (hs_Headers m) <= MaxBlockHeadersPerMsg /\ Forall BlockHeader_ok (hs_Headers m)) as <-.
  { by apply list_ok_iff. }
  apply (codec_msg_iff (HS:=MsgHeaders_spec) pver (Codec_MsgHeaders pver)).
Qed.

(** [getheaders] and [getblocks] have one format (a version, at most 500
    locator hashes, a stop hash) and each decoder accepts exactly what the
    encoder of its type writes. *)
Theorem Locators_exact pver (s : stream) v l stop s' :
  let ok := is_u32 v /\ (len l <= MaxBlockLocatorsPerMsg /\ Forall (sized HashSize) l) /\
            sized HashSize stop in
  let reads {T} (d : Dec T) (e : Enc) (m : T) :=
    run d s = (Ok m, s') <->
    ok /\ outcome e = None /\ s = mkStream (written e ++ s_data s') (s_err s') in
  reads (MsgGetHeaders_Bsvdecode pver) (MsgGetHeaders_BsvEncode pver (mkMsgGetHeaders v l stop))
    (mkMsgGetHeaders v l stop) /\
  reads (MsgGetBlocks_Bsvdecode pver) (MsgGetBlocks_BsvEncode pver (mkMsgGetBlocks v l stop))
    (mkMsgGetBlocks v l stop).
Proof.
  intros ok. assert (Locator_ok v l stop <-> ok) as Hok.
  { unfold Locator_ok, ok. by rewrite list_ok_iff. }
  split; rewrite <- Hok; [apply (codec_msg_iff (HS:=MsgGetHeaders_spec) pver (Codec_MsgGetHeaders pver))
                         |apply (codec_msg_iff (HS:=MsgGetBlocks_spec) pver (Codec_MsgGetBlocks pver))].
Qed.

(** An [addr] message of at most 1000 addresses, and before protocol
    version 209 of at most one, is returned on precisely the streams that begin
    with its encoding.  The decoder does not know the older limit: before
    version 209 it also returns messages of several addresses, which the
    encoder refuses. *)
Theorem MsgAddr_exact pver l (s s' : stream) :
  let ok := len l <= MaxAddrPerMsg /\ Forall (NetAddress_ok pver zeroNetAddress true) l in
  let enc := MsgAddr_BsvEncode pver (mkMsgAddr l) in
  let refused := pver < MultipleAddressVersion /\ 1 < len l in
  (~ refused ->
   run (MsgAddr_Bsvdecode pver) s = (Ok (mkMsgAddr l), s') <->
   ok /\ outcome enc = None /\ s = mkStream (written enc ++ s_data s') (s_err s')) /\
  (refused -> ok ->
   outcome enc <> None /\ exists s, run (MsgAddr_Bsvdecode pver) s = (Ok (mkMsgAddr l), s')).
Proof.
  intros ok enc refused. assert (MaxAddrPerMsg < 2 ^ 64) as Hmax by done.
  pose proof (Codec_MsgAddr pver) as Hc. split.
  - intros Hn. assert (MsgAddr_ok pver (mkMsgAddr l) <-> ok) as Hok.
    { unfold MsgAddr_ok, ok, refused in *. cbn [addr_AddrList].
      rewrite list_ok_iff by (unfold MaxAddrPerMsg; case_match; lia).
      destruct (Z.ltb_spec pver MultipleAddressVersion); [|done].
      unfold MaxAddrPerMsg. split; intros [? ?]; (split; [lia|done]). }
    destruct (Z.le_gt_cases (len l) MaxAddrPerMsg) as [Hl|Hl].
    + rewrite <- Hok. split.
      * intros Hr. apply Hc in Hr as [-> Ha]. assert (MsgAddr_ok pver (mkMsgAddr l)) as Hm.
        { apply Hok. by apply list_ok_iff. }
        by destruct (@msg_encodes MsgAddr _ MsgAddr_spec pver (mkMsgAddr l) Hm :
          encodes enc (list_bytes (NetAddress_bytes pver true) l)) as [-> ->].
      * intros (Hm & _ & ->). destruct (@msg_encodes MsgAddr _ MsgAddr_spec pver (mkMsgAddr l) Hm :
          encodes enc (list_bytes (NetAddress_bytes pver true) l)) as [_ ->].
        destruct s' as [d e]. refine (codec_decodes (Codec:=Hc) (mkMsgAddr l) _ d e).
        apply list_ok_iff; [done|]. by apply Hok.
    + split; [|unfold ok; lia]. intros Hr. apply Hc in Hr as [_ (Ha & _)]. cbn in Ha. lia.
  - intros [Hp Hl] Hok. split.
    + unfold enc, MsgAddr_BsvEncode. cbn [addr_AddrList].
      rewrite (proj2 (Z.ltb_lt _ _) Hp), Z.gtb_ltb, (proj2 (Z.ltb_lt _ _) Hl). done.
    + destruct s' as [d e]. eexists (mkStream (_ ++ d) e).
      refine (codec_decodes (Codec:=Hc) (mkMsgAddr l) _ d e). by apply list_ok_iff.
Qed.

(** [AddAddresses] appends the addresses in order up to the limit of 1000
    and fails exactly when one did not fit; those before it stay added. *)
Theorem AddAddresses_limit l k :
  len l <= MaxAddrPerMsg ->
  AddAddresses l k =
  (take (Z.to_nat MaxAddrPerMsg) (l ++ k),
   if len (l ++ k) <=? MaxAddrPerMsg then None
   else Some (messageError "MsgAddr.AddAddress" "too many addresses in message [max %v]"
                [AInt MaxAddrPerMsg])).
Proof.
  revert l. induction k as [|na k IH]; intros l Hl; cbn [AddAddresses].
  - rewrite app_nil_r, (proj2 (Z.leb_le _ _) Hl), take_ge by (unfold MaxAddrPerMsg in *; zlia). done.
  - unfold AddAddress, addBelow at 1. rewrite Z.gtb_ltb.
    destruct (Z.ltb_spec MaxAddrPerMsg (len l + 1)) as [Hg|Hg].
    + rewrite (proj2 (Z.leb_gt _ _)) by len_lia.
      rewrite take_app_eq by (unfold MaxAddrPerMsg in *; zlia). done.
    + rewrite IH by len_lia. by rewrite <- app_assoc.
Qed.

Lemma AddAddresses_limit_witness :
  AddAddresses [zeroNetAddress] [zeroNetAddress] = ([zeroNetAddress; zeroNetAddress], None).
Proof. apply (AddAddresses_limit [zeroNetAddress] [zeroNetAddress]). vm_compute. discriminate. Defined.
