(* ===== verification/MsgControl.v ===== *)
(** * Handshake and control messages: ping, pong, verack, getaddr, mempool,
      sendheaders, feefilter, sendcmpct, reject, streamack, createstrm,
      authch, authresp, extmsg, protoconf (one source file each) *)

From S2P Require Import Prelude Io Common Externals Protocol MsgIface MsgInventory.

(** ** msg_ping.go *)

Record MsgPing := mkMsgPing { ping_Nonce : Z }.

Definition MsgPing_Bsvdecode (pver : Z) : Dec MsgPing :=
  if pver >? BIP0031Version then nonce ← readElement Tuint64; mret (mkMsgPing nonce)
  else mret (mkMsgPing 0).

Definition MsgPing_BsvEncode (pver : Z) (msg : MsgPing) : Enc :=
  if pver >? BIP0031Version then writeElement (Wuint64 (ping_Nonce msg)) else edone.

Definition MsgPing_MaxPayloadLength (pver : Z) : Z :=
  let plen := 0 in if pver >? BIP0031Version then plen + 8 else plen.

#[export] Instance MsgPing_Msg : Msg MsgPing := {|
  Command := CmdPing; MaxPayloadLength := MsgPing_MaxPayloadLength;
  Bsvdecode := MsgPing_Bsvdecode; BsvEncode := MsgPing_BsvEncode |}.

(** ** msg_pong.go *)

Record MsgPong := mkMsgPong { pong_Nonce : Z }.

Definition MsgPong_Bsvdecode (pver : Z) : Dec MsgPong :=
  if pver <=? BIP0031Version then DFail (invalidPver "MsgPong.Bsvdecode" "pong" pver)
  else nonce ← readElement Tuint64; mret (mkMsgPong nonce).

Definition MsgPong_BsvEncode (pver : Z) (msg : MsgPong) : Enc :=
  if pver <=? BIP0031Version then efail (invalidPver "MsgPong.BsvEncode" "pong" pver)
  else writeElement (Wuint64 (pong_Nonce msg)).

Definition MsgPong_MaxPayloadLength (pver : Z) : Z :=
  let plen := 0 in if pver >? BIP0031Version then plen + 8 else plen.

#[export] Instance MsgPong_Msg : Msg MsgPong := {|
  Command := CmdPong; MaxPayloadLength := MsgPong_MaxPayloadLength;
  Bsvdecode := MsgPong_Bsvdecode; BsvEncode := MsgPong_BsvEncode |}.

(** ** msg_verack.go, msg_get_addr.go: empty messages *)

Record MsgVerAck := mkMsgVerAck {}.
Definition MsgVerAck_Bsvdecode (pver : Z) : Dec MsgVerAck := mret mkMsgVerAck.
Definition MsgVerAck_BsvEncode (pver : Z) (msg : MsgVerAck) : Enc := edone.
Definition MsgVerAck_MaxPayloadLength (pver : Z) : Z := 0.

#[export] Instance MsgVerAck_Msg : Msg MsgVerAck := {|
  Command := CmdVerAck; MaxPayloadLength := MsgVerAck_MaxPayloadLength;
  Bsvdecode := MsgVerAck_Bsvdecode; BsvEncode := MsgVerAck_BsvEncode |}.

Record MsgGetAddr := mkMsgGetAddr {}.
Definition MsgGetAddr_Bsvdecode (pver : Z) : Dec MsgGetAddr := mret mkMsgGetAddr.
Definition MsgGetAddr_BsvEncode (pver : Z) (msg : MsgGetAddr) : Enc := edone.
Definition MsgGetAddr_MaxPayloadLength (pver : Z) : Z := 0.

#[export] Instance MsgGetAddr_Msg : Msg MsgGetAddr := {|
  Command := CmdGetAddr; MaxPayloadLength := MsgGetAddr_MaxPayloadLength;
  Bsvdecode := MsgGetAddr_Bsvdecode; BsvEncode := MsgGetAddr_BsvEncode |}.

(** ** msg_mempool.go, msg_send_headers.go: empty, from some version on *)

Record MsgMemPool := mkMsgMemPool {}.

Definition MsgMemPool_Bsvdecode (pver : Z) : Dec MsgMemPool :=
  if pver <? BIP0035Version then DFail (invalidPver "MsgMemPool.Bsvdecode" "mempool" pver)
  else mret mkMsgMemPool.

Definition MsgMemPool_BsvEncode (pver : Z) (msg : MsgMemPool) : Enc :=
  if pver <? BIP0035Version then efail (invalidPver "MsgMemPool.BsvEncode" "mempool" pver)
  else edone.

Definition MsgMemPool_MaxPayloadLength (pver : Z) : Z := 0.

#[export] Instance MsgMemPool_Msg : Msg MsgMemPool := {|
  Command := CmdMemPool; MaxPayloadLength := MsgMemPool_MaxPayloadLength;
  Bsvdecode := MsgMemPool_Bsvdecode; BsvEncode := MsgMemPool_BsvEncode |}.

Record MsgSendHeaders := mkMsgSendHeaders {}.

Definition MsgSendHeaders_Bsvdecode (pver : Z) : Dec MsgSendHeaders :=
  if pver <? SendHeadersVersion
  then DFail (invalidPver "MsgSendHeaders.Bsvdecode" "sendheaders" pver)
  else mret mkMsgSendHeaders.

Definition MsgSendHeaders_BsvEncode (pver : Z) (msg : MsgSendHeaders) : Enc :=
  if pver <? SendHeadersVersion
  then efail (invalidPver "MsgSendHeaders.BsvEncode" "sendheaders" pver)
  else edone.

Definition MsgSendHeaders_MaxPayloadLength (pver : Z) : Z := 0.

#[export] Instance MsgSendHeaders_Msg : Msg MsgSendHeaders := {|
  Command := CmdSendHeaders; MaxPayloadLength := MsgSendHeaders_MaxPayloadLength;
  Bsvdecode := MsgSendHeaders_Bsvdecode; BsvEncode := MsgSendHeaders_BsvEncode |}.

(** ** msg_fee_filter.go *)

Record MsgFeeFilter := mkMsgFeeFilter { ff_MinFee : Z }.

Definition MsgFeeFilter_Bsvdecode (pver : Z) : Dec MsgFeeFilter :=
  if pver <? FeeFilterVersion then DFail (invalidPver "MsgFeeFilter.Bsvdecode" "feefilter" pver)
  else minFee ← readElement Tint64; mret (mkMsgFeeFilter minFee).

Definition MsgFeeFilter_BsvEncode (pver : Z) (msg : MsgFeeFilter) : Enc :=
  if pver <? FeeFilterVersion then efail (invalidPver "MsgFeeFilter.BsvEncode" "feefilter" pver)
  else writeElement (Wint64 (ff_MinFee msg)).

Definition MsgFeeFilter_MaxPayloadLength (pver : Z) : Z := 8.

#[export] Instance MsgFeeFilter_Msg : Msg MsgFeeFilter := {|
  Command := CmdFeeFilter; MaxPayloadLength := MsgFeeFilter_MaxPayloadLength;
  Bsvdecode := MsgFeeFilter_Bsvdecode; BsvEncode := MsgFeeFilter_BsvEncode |}.

(** ** msg_send_cmpct.go *)

Record MsgSendcmpct := mkMsgSendcmpct { sc_SendCmpct : bool; sc_Version : Z }.

Definition NewMsgSendcmpct (sendcmpct : bool) : MsgSendcmpct := mkMsgSendcmpct sendcmpct 1.

Definition MsgSendcmpct_Bsvdecode (pver : Z) : Dec MsgSendcmpct :=
  sendCmpct ← readElement Tbool;
  version ← readElement Tuint64;
  mret (mkMsgSendcmpct sendCmpct version).

Definition MsgSendcmpct_BsvEncode (pver : Z) (msg : MsgSendcmpct) : Enc :=
  writeElements [Wbool (sc_SendCmpct msg); Wuint64 (sc_Version msg)].

Definition MsgSendcmpct_MaxPayloadLength (pver : Z) : Z := 1 + 8.

#[export] Instance MsgSendcmpct_Msg : Msg MsgSendcmpct := {|
  Command := CmdSendcmpct; MaxPayloadLength := MsgSendcmpct_MaxPayloadLength;
  Bsvdecode := MsgSendcmpct_Bsvdecode; BsvEncode := MsgSendcmpct_BsvEncode |}.

(** ** msg_reject.go *)

Record MsgReject := mkMsgReject {
  rj_Cmd : bytes; rj_Code : Z; rj_Reason : bytes; rj_Hash : bytes }.

Definition NewMsgReject (command : bytes) (code : Z) (reason : bytes) : MsgReject :=
  mkMsgReject command code reason (zeros 32).

(** [RejectCode.String]. *)
Definition rejectCodeStrings : gmap Z bytes :=
  list_to_map [(0x01, str "REJECT_MALFORMED"); (0x10, str "REJECT_INVALID");
    (0x11, str "REJECT_OBSOLETE"); (0x12, str "REJECT_DUPLICATE");
    (0x40, str "REJECT_NONSTANDARD"); (0x41, str "REJECT_DUST");
    (0x42, str "REJECT_INSUFFICIENTFEE"); (0x43, str "REJECT_CHECKPOINT")].

Definition RejectCode_String (code : Z) : bytes + Sprintf :=
  match rejectCodeStrings !! code with
  | Some s => inl s
  | None => inr (mkSprintf "Unknown RejectCode (%d)" [AInt code])
  end.

(** The rejected commands that come with a hash. *)
Definition hasHash (cmd : bytes) : bool :=
  bool_decide (cmd = CmdBlock) || bool_decide (cmd = CmdTx) || bool_decide (cmd = CmdExtendedTx).

Definition MsgReject_Bsvdecode `{Limits} (pver : Z) : Dec MsgReject :=
  if pver <? RejectVersion then DFail (invalidPver "MsgReject.Bsvdecode" "reject" pver)
  else
    cmd ← ReadVarString;
    code ← readElement TRejectCode;
    reason ← ReadVarString;
    hash ← (if hasHash cmd then readElement Thash else mret (zeros 32));
    mret (mkMsgReject cmd code reason hash).

Definition MsgReject_BsvEncode (pver : Z) (msg : MsgReject) : Enc :=
  if pver <? RejectVersion then efail (invalidPver "MsgReject.BsvEncode" "reject" pver)
  else
    WriteVarString (rj_Cmd msg) >>>
    writeElement (WRejectCode (rj_Code msg)) >>>
    WriteVarString (rj_Reason msg) >>>
    (if hasHash (rj_Cmd msg) then writeElement (Whash (rj_Hash msg)) else edone).

Definition MsgReject_MaxPayloadLength `{Limits} (pver : Z) : Z :=
  let plen := 0 in if pver >=? RejectVersion then maxMessagePayload else plen.

#[export] Instance MsgReject_Msg `{Limits} : Msg MsgReject := {|
  Command := CmdReject; MaxPayloadLength := MsgReject_MaxPayloadLength;
  Bsvdecode := MsgReject_Bsvdecode; BsvEncode := MsgReject_BsvEncode |}.

(** ** stream_type.go, msg_stream_ack.go, msg_create_stream.go *)

Definition MaxAssociationIDLen : Z := 129.
Definition MaxUserAgentLen : Z := 256.

Record MsgStreamAck := mkMsgStreamAck { sa_AssociationID : bytes; sa_StreamType : Z }.

Definition MsgStreamAck_Bsvdecode (pver : Z) : Dec MsgStreamAck :=
  associationID ← ReadVarBytes MaxAssociationIDLen "AssociationID";
  streamType ← readElement Tuint8;
  mret (mkMsgStreamAck associationID streamType).

Definition MsgStreamAck_BsvEncode (pver : Z) (msg : MsgStreamAck) : Enc :=
  WriteVarBytes (sa_AssociationID msg) >>> writeElement (Wuint8 (sa_StreamType msg)).

Definition MsgStreamAck_MaxPayloadLength (pver : Z) : Z :=
  MaxVarIntPayload + MaxAssociationIDLen + 1.

#[export] Instance MsgStreamAck_Msg : Msg MsgStreamAck := {|
  Command := CmdStreamAck; MaxPayloadLength := MsgStreamAck_MaxPayloadLength;
  Bsvdecode := MsgStreamAck_Bsvdecode; BsvEncode := MsgStreamAck_BsvEncode |}.

Record MsgCreateStream := mkMsgCreateStream {
  cs_AssociationID : bytes; cs_StreamType : Z; cs_StreamPolicyName : bytes }.

Definition MsgCreateStream_Bsvdecode `{Limits} (pver : Z) : Dec MsgCreateStream :=
  associationID ← ReadVarBytes MaxAssociationIDLen "AssociationID";
  if len associationID =? 0
  then DFail (messageError "MsgCreateStream.Bsvdecode" "association ID must not be empty" [])
  else
    streamType ← readElement Tuint8;
    policyName ← ReadVarString;
    mret (mkMsgCreateStream associationID streamType policyName).

Definition MsgCreateStream_BsvEncode (pver : Z) (msg : MsgCreateStream) : Enc :=
  if len (cs_AssociationID msg) =? 0
  then efail (messageError "MsgCreateStream.BsvEncode" "association ID must not be empty" [])
  else if len (cs_AssociationID msg) >? MaxAssociationIDLen
  then efail (messageError "MsgCreateStream.BsvEncode" "association ID too long [len %v, max %v]"
                [AInt (len (cs_AssociationID msg)); AInt MaxAssociationIDLen])
  else
    WriteVarBytes (cs_AssociationID msg) >>>
    writeElement (Wuint8 (cs_StreamType msg)) >>>
    WriteVarString (cs_StreamPolicyName msg).

Definition MsgCreateStream_MaxPayloadLength (pver : Z) : Z :=
  MaxVarIntPayload + MaxAssociationIDLen + 1 + MaxVarIntPayload + MaxUserAgentLen.

#[export] Instance MsgCreateStream_Msg `{Limits} : Msg MsgCreateStream := {|
  Command := CmdCreateStream; MaxPayloadLength := MsgCreateStream_MaxPayloadLength;
  Bsvdecode := MsgCreateStream_Bsvdecode; BsvEncode := MsgCreateStream_BsvEncode |}.

(** ** msg_auth_ch.go, msg_auth_resp.go *)

Record MsgAuthch := mkMsgAuthch { ac_Version : Z; ac_Length : Z; ac_Challenge : bytes }.

Definition NewMsgAuthch (message : bytes) : MsgAuthch :=
  mkMsgAuthch 1 (to_u32 (len message)) message.

Definition MsgAuthch_MaxPayloadLength (pver : Z) : Z := 40.

Definition MsgAuthch_Bsvdecode (pver : Z) : Dec MsgAuthch :=
  version ← readElement Tint32;
  challenge ← ReadVarBytes (MsgAuthch_MaxPayloadLength pver) "challenge";
  mret (mkMsgAuthch version (to_u32 (len challenge)) challenge).

Definition MsgAuthch_BsvEncode (pver : Z) (msg : MsgAuthch) : Enc :=
  writeElements [Wint32 (ac_Version msg); Wuint32 (ac_Length msg); Wslice (ac_Challenge msg)].

#[export] Instance MsgAuthch_Msg : Msg MsgAuthch := {|
  Command := CmdAuthch; MaxPayloadLength := MsgAuthch_MaxPayloadLength;
  Bsvdecode := MsgAuthch_Bsvdecode; BsvEncode := MsgAuthch_BsvEncode |}.

(** Variables of the Go package that nothing assigns to. *)
Definition SECP256K1_COMP_PUB_KEY_SIZE_IN_BYTES : Z := 0x21.
Definition SECP256K1_DER_SIGN_MAX_SIZE_IN_BYTES : Z := 0x48.

Record MsgAuthresp := mkMsgAuthresp {
  ar_PublicKeyLength : Z; ar_PublicKey : bytes; ar_ClientNonce : Z;
  ar_SignatureLength : Z; ar_Signature : bytes }.

(** [nonce] is what [RandomUint64] returned. *)
Definition NewMsgAuthresp (nonce : Z) (publickKey signature : bytes) : MsgAuthresp :=
  mkMsgAuthresp (to_u32 (len publickKey)) publickKey nonce (to_u32 (len signature)) signature.

Definition MsgAuthresp_MaxPayloadLength (pver : Z) : Z :=
  4 + SECP256K1_COMP_PUB_KEY_SIZE_IN_BYTES + 8 + 4 + SECP256K1_DER_SIGN_MAX_SIZE_IN_BYTES.

Definition MsgAuthresp_Bsvdecode (pver : Z) : Dec MsgAuthresp :=
  publicKey ← ReadVarBytes (MsgAuthresp_MaxPayloadLength pver) "challenge";
  nonce ← readElement Tuint64;
  signature ← ReadVarBytes (MsgAuthresp_MaxPayloadLength pver) "challenge";
  mret (mkMsgAuthresp (to_u32 (len publicKey)) publicKey nonce (to_u32 (len signature)) signature).

Definition MsgAuthresp_BsvEncode (pver : Z) (msg : MsgAuthresp) : Enc :=
  writeElements [Wuint32 (ar_PublicKeyLength msg); Wslice (ar_PublicKey msg);
    Wuint64 (ar_ClientNonce msg); Wuint32 (ar_SignatureLength msg); Wslice (ar_Signature msg)].

#[export] Instance MsgAuthresp_Msg : Msg MsgAuthresp := {|
  Command := CmdAuthresp; MaxPayloadLength := MsgAuthresp_MaxPayloadLength;
  Bsvdecode := MsgAuthresp_Bsvdecode; BsvEncode := MsgAuthresp_BsvEncode |}.

(** ** msg_ext_msg.go: [Command] returns the command of protoconf *)

Definition MaxProtoconfPayload : Z := 1024 * 1024.

Record MsgExtMsg := mkMsgExtMsg { em_NumberOfFields : Z; em_MaxRecvPayloadLength : Z }.

Definition NewMsgExtMsg (maxRecvPayloadLength : Z) : MsgExtMsg :=
  mkMsgExtMsg 1 maxRecvPayloadLength.

Definition MsgExtMsg_Bsvdecode (pver : Z) : Dec MsgExtMsg :=
  if pver <? ProtoconfVersion then DFail (invalidPver "MsgExtMsg.Bsvdecode" "protoconf" pver)
  else mret (mkMsgExtMsg 0 0).

Definition MsgExtMsg_BsvEncode (pver : Z) (msg : MsgExtMsg) : Enc :=
  if pver <? ProtoconfVersion then efail (invalidPver "MsgExtMsg.BsvEncode" "protoconf" pver)
  else writeElements [Wuint64 (em_NumberOfFields msg); Wuint64 (em_MaxRecvPayloadLength msg)].

Definition MsgExtMsg_MaxPayloadLength (pver : Z) : Z := MaxProtoconfPayload.

#[export] Instance MsgExtMsg_Msg : Msg MsgExtMsg := {|
  Command := CmdProtoconf; MaxPayloadLength := MsgExtMsg_MaxPayloadLength;
  Bsvdecode := MsgExtMsg_Bsvdecode; BsvEncode := MsgExtMsg_BsvEncode |}.

(** ** msg_proto_conf.go *)

Definition DefaultMaxRecvPayloadLength : Z := 2 * 1024 * 1024.

Definition DefaultStreamPolicy : bytes := str "Default".
Definition BlockPriorityStreamPolicy : bytes := str "BlockPriority".

Record MsgProtoconf := mkMsgProtoconf {
  pc_NumberOfFields : Z; pc_MaxRecvPayloadLength : Z; pc_StreamPolicies : list bytes }.

Definition NewMsgProtoconf (maxRecvPayloadLength : Z) (allowBlockPriority : bool) : MsgProtoconf :=
  mkMsgProtoconf 2
    (if maxRecvPayloadLength >? 0 then maxRecvPayloadLength else DefaultMaxRecvPayloadLength)
    ((if allowBlockPriority then [BlockPriorityStreamPolicy] else []) ++ [DefaultStreamPolicy]).

(** [strings.Split(s, ",")] and [strings.Join(l, ",")]. *)
Definition comma : byte := Byte.x2c.

Fixpoint split_comma (s : bytes) : list bytes :=
  match s with
  | [] => [[]]
  | c :: s =>
      match split_comma s with
      | [] => [[c]]
      | w :: ws => if decide (c = comma) then [] :: w :: ws else (c :: w) :: ws
      end
  end.

Fixpoint join_comma (l : list bytes) : bytes :=
  match l with
  | [] => []
  | [w] => w
  | w :: l => w ++ comma :: join_comma l
  end.

Definition MsgProtoconf_Bsvdecode `{Limits} `{Externals} (pver : Z) : Dec MsgProtoconf :=
  if pver <? ProtoconfVersion then DFail (invalidPver "MsgProtoconf.Bsvdecode" "protoconf" pver)
  else
    numberOfFields ← bt_VarInt_ReadFrom;
    maxRecv ← (if numberOfFields >? 0 then Uint32 littleEndian else mret 0);
    policies ← (if numberOfFields >? 1 then
      vi ← bt_VarInt_ReadFrom;
      if vi >? maxMessagePayload then
        DFail (messageError "MsgProtoconf.Bsvdecode"
                 "stream policies length too long [count %d, max %d]"
                 [AInt vi; AInt maxMessagePayload])
      else b ← readFull vi; mret (split_comma b)
    else mret []);
    mret (mkMsgProtoconf numberOfFields maxRecv policies).

Definition MsgProtoconf_BsvEncode `{Externals} (pver : Z) (msg : MsgProtoconf) : Enc :=
  if pver <? ProtoconfVersion then efail (invalidPver "MsgProtoconf.BsvEncode" "protoconf" pver)
  else
    ewrite (bt_VarInt_Bytes (pc_NumberOfFields msg)) >>>
    PutUint32 littleEndian (pc_MaxRecvPayloadLength msg) >>>
    (let s := join_comma (pc_StreamPolicies msg) in
     ewrite (bt_VarInt_Bytes (len s)) >>> ewrite s).

Definition MsgProtoconf_MaxPayloadLength (pver : Z) : Z := MaxProtoconfPayload.

#[export] Instance MsgProtoconf_Msg `{Limits} `{Externals} : Msg MsgProtoconf := {|
  Command := CmdProtoconf; MaxPayloadLength := MsgProtoconf_MaxPayloadLength;
  Bsvdecode := MsgProtoconf_Bsvdecode; BsvEncode := MsgProtoconf_BsvEncode |}.

(** ** The laws *)

#[export] Instance MsgPing_streamable : Streamable MsgPing.
Proof. intros pver. change (streamable (MsgPing_Bsvdecode pver)). unfold MsgPing_Bsvdecode. solve_streamable. Qed.
#[export] Instance MsgPong_streamable : Streamable MsgPong.
Proof. intros pver. change (streamable (MsgPong_Bsvdecode pver)). unfold MsgPong_Bsvdecode. solve_streamable. Qed.
#[export] Instance MsgVerAck_streamable : Streamable MsgVerAck.
Proof. intros pver. change (streamable (MsgVerAck_Bsvdecode pver)). unfold MsgVerAck_Bsvdecode. solve_streamable. Qed.
#[export] Instance MsgGetAddr_streamable : Streamable MsgGetAddr.
Proof. intros pver. change (streamable (MsgGetAddr_Bsvdecode pver)). unfold MsgGetAddr_Bsvdecode. solve_streamable. Qed.
#[export] Instance MsgMemPool_streamable : Streamable MsgMemPool.
Proof. intros pver. change (streamable (MsgMemPool_Bsvdecode pver)). unfold MsgMemPool_Bsvdecode. solve_streamable. Qed.
#[export] Instance MsgSendHeaders_streamable : Streamable MsgSendHeaders.
Proof. intros pver. change (streamable (MsgSendHeaders_Bsvdecode pver)). unfold MsgSendHeaders_Bsvdecode. solve_streamable. Qed.
#[export] Instance MsgFeeFilter_streamable : Streamable MsgFeeFilter.
Proof. intros pver. change (streamable (MsgFeeFilter_Bsvdecode pver)). unfold MsgFeeFilter_Bsvdecode. solve_streamable. Qed.
#[export] Instance MsgSendcmpct_streamable : Streamable MsgSendcmpct.
Proof. intros pver. change (streamable (MsgSendcmpct_Bsvdecode pver)). unfold MsgSendcmpct_Bsvdecode. solve_streamable. Qed.
#[export] Instance MsgReject_streamable `{Limits} : Streamable MsgReject.
Proof. intros pver. change (streamable (MsgReject_Bsvdecode pver)). unfold MsgReject_Bsvdecode. solve_streamable. Qed.
#[export] Instance MsgStreamAck_streamable : Streamable MsgStreamAck.
Proof. intros pver. change (streamable (MsgStreamAck_Bsvdecode pver)). unfold MsgStreamAck_Bsvdecode. solve_streamable. Qed.
#[export] Instance MsgCreateStream_streamable `{Limits} : Streamable MsgCreateStream.
Proof. intros pver. change (streamable (MsgCreateStream_Bsvdecode pver)). unfold MsgCreateStream_Bsvdecode. solve_streamable. Qed.
#[export] Instance MsgAuthch_streamable : Streamable MsgAuthch.
Proof. intros pver. change (streamable (MsgAuthch_Bsvdecode pver)). unfold MsgAuthch_Bsvdecode. solve_streamable. Qed.
#[export] Instance MsgAuthresp_streamable : Streamable MsgAuthresp.
Proof. intros pver. change (streamable (MsgAuthresp_Bsvdecode pver)). unfold MsgAuthresp_Bsvdecode. solve_streamable. Qed.
#[export] Instance MsgExtMsg_streamable : Streamable MsgExtMsg.
Proof. intros pver. change (streamable (MsgExtMsg_Bsvdecode pver)). unfold MsgExtMsg_Bsvdecode. solve_streamable. Qed.
#[export] Instance MsgProtoconf_streamable `{Limits} `{ExternalsSpec} : Streamable MsgProtoconf.
Proof. intros pver. change (streamable (MsgProtoconf_Bsvdecode pver)). unfold MsgProtoconf_Bsvdecode. solve_streamable. Qed.

(** A message that is the conversion of one element. *)
Ltac one_elem t := eapply decodes_bind_last; [by apply (decodes_elem t)|apply decodes_ret].

#[export] Instance MsgPing_spec : MsgSpec MsgPing.
Proof.
  refine (mkMsgSpec (fun pver m => if pver >? BIP0031Version
                                   then elem_bytes Tuint64 (ping_Nonce m) else [])
            (fun pver m => if pver >? BIP0031Version then is_u64 (ping_Nonce m)
                           else ping_Nonce m = 0) _ _ _ _).
  - intros pver [n]. cbn [Bsvdecode BsvEncode MaxPayloadLength MsgPing_Msg]. unfold MsgPing_Bsvdecode.
    destruct (pver >? BIP0031Version); intros Hn; [one_elem Tuint64|]. simpl in Hn; subst. apply decodes_ret.
  - intros pver [n] _. cbn [Bsvdecode BsvEncode MaxPayloadLength MsgPing_Msg]. unfold MsgPing_BsvEncode.
    destruct (pver >? BIP0031Version); auto with encodes.
  - intros pver [n] _. cbn [Bsvdecode BsvEncode MaxPayloadLength MsgPing_Msg]. unfold MsgPing_MaxPayloadLength.
    destruct (pver >? BIP0031Version); [|done]. cbn [elem_bytes]. by rewrite len_put_uint.
Defined.

#[export] Instance MsgPong_spec : MsgSpec MsgPong.
Proof.
  refine (mkMsgSpec (fun _ m => elem_bytes Tuint64 (pong_Nonce m))
            (fun pver m => BIP0031Version < pver /\ is_u64 (pong_Nonce m)) _ _ _ _);
    intros pver [n] [Hp Hn].
  - cbn [Bsvdecode BsvEncode MaxPayloadLength MsgPong_Msg]. unfold MsgPong_Bsvdecode.
    rewrite (proj2 (Z.leb_gt _ _)) by done. one_elem Tuint64.
  - cbn [Bsvdecode BsvEncode MaxPayloadLength MsgPong_Msg]. unfold MsgPong_BsvEncode.
    rewrite (proj2 (Z.leb_gt _ _)) by done. apply (encodes_writeElement (Wuint64 n)).
  - cbn [Bsvdecode BsvEncode MaxPayloadLength MsgPong_Msg]. unfold MsgPong_MaxPayloadLength.
    rewrite Z.gtb_ltb, (proj2 (Z.ltb_lt _ _)) by done. cbn [elem_bytes]. by rewrite len_put_uint.
Defined.

#[export] Instance MsgVerAck_spec : MsgSpec MsgVerAck.
Proof.
  refine (mkMsgSpec (fun _ _ => []) (fun _ _ => True) _ _ _ _); by intros pver [] _.
Defined.

#[export] Instance MsgGetAddr_spec : MsgSpec MsgGetAddr.
Proof.
  refine (mkMsgSpec (fun _ _ => []) (fun _ _ => True) _ _ _ _); by intros pver [] _.
Defined.

#[export] Instance MsgMemPool_spec : MsgSpec MsgMemPool.
Proof.
  refine (mkMsgSpec (fun _ _ => []) (fun pver _ => BIP0035Version <= pver) _ _ _ _);
    intros pver [] Hp; cbn [Bsvdecode BsvEncode MaxPayloadLength MsgMemPool_Msg]; unfold MsgMemPool_Bsvdecode, MsgMemPool_BsvEncode;
    rewrite ?(proj2 (Z.ltb_ge _ _)) by done; [apply decodes_ret|done|done].
Defined.

#[export] Instance MsgSendHeaders_spec : MsgSpec MsgSendHeaders.
Proof.
  refine (mkMsgSpec (fun _ _ => []) (fun pver _ => SendHeadersVersion <= pver) _ _ _ _);
    intros pver [] Hp; cbn [Bsvdecode BsvEncode MaxPayloadLength MsgSendHeaders_Msg]; unfold MsgSendHeaders_Bsvdecode, MsgSendHeaders_BsvEncode;
    rewrite ?(proj2 (Z.ltb_ge _ _)) by done; [apply decodes_ret|done|done].
Defined.

#[export] Instance MsgFeeFilter_spec : MsgSpec MsgFeeFilter.
Proof.
  refine (mkMsgSpec (fun _ m => elem_bytes Tint64 (ff_MinFee m))
            (fun pver m => FeeFilterVersion <= pver /\ is_i64 (ff_MinFee m)) _ _ _ _);
    intros pver [n] [Hp Hn]; cbn [Bsvdecode BsvEncode MaxPayloadLength MsgFeeFilter_Msg];
    unfold MsgFeeFilter_Bsvdecode, MsgFeeFilter_BsvEncode;
    rewrite ?(proj2 (Z.ltb_ge _ _)) by done.
  - one_elem Tint64.
  - apply (encodes_writeElement (Wint64 n)).
  - cbn [elem_bytes]. by rewrite len_put_uint.
Defined.

#[export] Instance MsgSendcmpct_spec : MsgSpec MsgSendcmpct.
Proof.
  refine (mkMsgSpec (fun _ m => elems_bytes [Tbool; Tuint64] (sc_SendCmpct m, (sc_Version m, tt)))
            (fun _ m => is_u64 (sc_Version m)) _ _ _ _); intros pver [c v] Hv.
  - eapply decodes_bind; [by apply (decodes_elem Tbool)|]. cbn [elems_bytes fst snd].
    rewrite app_nil_r. one_elem Tuint64.
  - apply (encodes_writeElements [Wbool c; Wuint64 v]).
  - by rewrite len_elems_bytes.
Defined.

Definition MsgReject_bytes (m : MsgReject) : bytes :=
  var_bytes (rj_Cmd m) ++ elem_bytes TRejectCode (rj_Code m) ++ var_bytes (rj_Reason m) ++
  (if hasHash (rj_Cmd m) then rj_Hash m else []).

Definition MsgReject_ok `{Limits} (m : MsgReject) : Prop :=
  var_ok maxMessagePayload (rj_Cmd m) /\ is_u8 (rj_Code m) /\
  var_ok maxMessagePayload (rj_Reason m) /\
  (if hasHash (rj_Cmd m) then sized HashSize (rj_Hash m) else rj_Hash m = zeros 32).

Lemma encodes_MsgReject `{Limits} pver m :
  RejectVersion <= pver -> encodes (MsgReject_BsvEncode pver m) (MsgReject_bytes m).
Proof.
  intros Hp. unfold MsgReject_BsvEncode, MsgReject_bytes. rewrite (proj2 (Z.ltb_ge _ _)) by done.
  repeat apply encodes_seq; auto with encodes. case_match; auto with encodes.
Qed.

#[export] Instance MsgReject_spec `{Limits} : MsgSpec MsgReject.
Proof.
  refine (mkMsgSpec (fun _ => MsgReject_bytes)
            (fun pver m => RejectVersion <= pver /\ MsgReject_ok m /\
                           len (MsgReject_bytes m) <= maxMessagePayload) _ _ _ _);
    intros pver [c k r h] (Hp & (Hc & Hk & Hr & Hh) & Hl).
  - cbn [Bsvdecode BsvEncode MaxPayloadLength MsgReject_Msg]. unfold MsgReject_Bsvdecode. rewrite (proj2 (Z.ltb_ge _ _)) by done.
    unfold MsgReject_bytes. cbn [rj_Cmd rj_Code rj_Reason rj_Hash] in *.
    eapply decodes_bind; [by apply codec_decodes|].
    eapply decodes_bind; [by apply (decodes_elem TRejectCode)|].
    eapply decodes_bind; [by apply codec_decodes|]. destruct (hasHash c).
    + one_elem Thash.
    + subst h. apply decodes_bind_last with (a := zeros 32); apply decodes_ret.
  - by apply encodes_MsgReject.
  - cbn [Bsvdecode BsvEncode MaxPayloadLength MsgReject_Msg]. unfold MsgReject_MaxPayloadLength.
    rewrite Z.geb_leb, (proj2 (Z.leb_le _ _)) by done. done.
Defined.

#[export] Instance MsgStreamAck_spec : MsgSpec MsgStreamAck.
Proof.
  refine (mkMsgSpec (fun _ m => var_bytes (sa_AssociationID m) ++ elem_bytes Tuint8 (sa_StreamType m))
            (fun _ m => var_ok MaxAssociationIDLen (sa_AssociationID m) /\ is_u8 (sa_StreamType m))
            _ _ _ _); intros pver [a t] [Ha Ht].
  - eapply decodes_bind; [by apply codec_decodes|]. one_elem Tuint8.
  - apply encodes_seq; auto with encodes.
  - cbn [sa_AssociationID sa_StreamType] in *. rewrite len_app, len_var_bytes.
    pose proof (VarIntSerializeSize_bound (len a)). destruct Ha as [Ha _].
    cbn [elem_bytes]. rewrite len_put_uint. cbn [Bsvdecode BsvEncode MaxPayloadLength MsgStreamAck_Msg]. unfold MsgStreamAck_MaxPayloadLength. lia.
Defined.

Definition MsgCreateStream_bytes (m : MsgCreateStream) : bytes :=
  var_bytes (cs_AssociationID m) ++ elem_bytes Tuint8 (cs_StreamType m) ++
  var_bytes (cs_StreamPolicyName m).

(** The policy name is bounded by what the payload has room for. *)
Definition MsgCreateStream_ok `{Limits} (m : MsgCreateStream) : Prop :=
  var_ok MaxAssociationIDLen (cs_AssociationID m) /\
  0 < len (cs_AssociationID m) /\ is_u8 (cs_StreamType m) /\
  var_ok maxMessagePayload (cs_StreamPolicyName m) /\
  len (MsgCreateStream_bytes m) <= MsgCreateStream_MaxPayloadLength 0.

#[export] Instance MsgCreateStream_spec `{Limits} : MsgSpec MsgCreateStream.
Proof.
  refine (mkMsgSpec (fun _ => MsgCreateStream_bytes) (fun _ => MsgCreateStream_ok) _ _ _ _);
    intros pver [a t n] (Ha & Hne & Ht & Hn & Hb); [| |exact Hb];
    cbn [cs_AssociationID cs_StreamType cs_StreamPolicyName] in *;
    cbn [Bsvdecode BsvEncode MsgCreateStream_Msg];
    unfold MsgCreateStream_Bsvdecode, MsgCreateStream_BsvEncode, MsgCreateStream_bytes.
  - eapply decodes_bind; [by apply codec_decodes|].
    rewrite (proj2 (Z.eqb_neq _ _)) by (cbn; lia).
    eapply decodes_bind; [by apply (decodes_elem Tuint8)|].
    eapply decodes_bind_last; [by apply codec_decodes|apply decodes_ret].
  - cbn [cs_AssociationID cs_StreamType cs_StreamPolicyName].
    rewrite (proj2 (Z.eqb_neq _ _)), gtb_false by (apply Ha || lia).
    repeat apply encodes_seq; auto with encodes.
Defined.

(** *** Protoconf *)

Definition no_comma (w : bytes) : Prop := comma ∉ w.

Lemma split_no_comma w : no_comma w -> split_comma w = [w].
Proof.
  induction w as [|c w IH]; intros Hn; [done|]. simpl.
  rewrite IH by (unfold no_comma in *; set_solver). rewrite decide_False; [done|].
  intros ->. apply Hn. set_solver.
Qed.

Lemma split_app w s : no_comma w -> split_comma (w ++ comma :: s) = w :: split_comma s.
Proof.
  induction w as [|c w IH]; intros Hn; simpl.
  - destruct (split_comma s) eqn:E; [|done].
    destruct s as [|c s]; [done|]. simpl in E. destruct (split_comma s); [done|].
    by destruct (decide (c = comma)).
  - rewrite IH by (unfold no_comma in *; set_solver).
    destruct (split_comma s) eqn:E; rewrite decide_False; try done;
      intros ->; apply Hn; set_solver.
Qed.

(** [Split] inverts [Join] on a non-empty list of words without comma. *)
Lemma split_join l : l <> [] -> Forall no_comma l -> split_comma (join_comma l) = l.
Proof.
  intros Hne Hl. destruct l as [|w l]; [done|]. clear Hne.
  revert w Hl. induction l as [|w' l IH]; intros w Hl; inversion Hl; subst.
  - by apply split_no_comma.
  - change (join_comma (w :: w' :: l)) with (w ++ comma :: join_comma (w' :: l)).
    rewrite split_app, IH; done.
Qed.

Definition MsgProtoconf_bytes `{Externals} (m : MsgProtoconf) : bytes :=
  let s := join_comma (pc_StreamPolicies m) in
  bt_VarInt_Bytes (pc_NumberOfFields m) ++ put_uint littleEndian 4 (pc_MaxRecvPayloadLength m) ++
  bt_VarInt_Bytes (len s) ++ s.

(** Both fields are always written, so the count must say so. *)
Definition MsgProtoconf_ok `{Limits} `{Externals} (pver : Z) (m : MsgProtoconf) : Prop :=
  ProtoconfVersion <= pver /\ (1 < pc_NumberOfFields m /\ is_u64 (pc_NumberOfFields m)) /\
  is_u32 (pc_MaxRecvPayloadLength m) /\
  (pc_StreamPolicies m <> [] /\ Forall no_comma (pc_StreamPolicies m)) /\
  var_ok maxMessagePayload (join_comma (pc_StreamPolicies m)) /\
  len (MsgProtoconf_bytes m) <= MaxProtoconfPayload.

Lemma encodes_MsgProtoconf `{Externals} pver m :
  ProtoconfVersion <= pver -> encodes (MsgProtoconf_BsvEncode pver m) (MsgProtoconf_bytes m).
Proof.
  intros Hp. unfold MsgProtoconf_BsvEncode, MsgProtoconf_bytes. rewrite (proj2 (Z.ltb_ge _ _)) by done.
  repeat apply encodes_seq; auto with encodes.
Qed.

#[export] Instance MsgProtoconf_spec `{Limits} `{ExternalsSpec} : MsgSpec MsgProtoconf.
Proof.
  refine (mkMsgSpec (fun _ => MsgProtoconf_bytes) MsgProtoconf_ok _ _ _ _);
    intros pver [n r ps] (Hp & [Hn1 Hn2] & Hr & [Hne Hc] & [Hs1 Hs2] & Hl);
    cbn [pc_NumberOfFields pc_MaxRecvPayloadLength pc_StreamPolicies] in *; [| |done].
  - cbn [Bsvdecode BsvEncode MaxPayloadLength MsgProtoconf_Msg]. unfold MsgProtoconf_Bsvdecode.
    rewrite (proj2 (Z.ltb_ge _ _)) by done.
    eapply decodes_bind; [by apply VarInt_decodes|]. cbn [pc_NumberOfFields].
    replace (n >? 0) with true by (symmetry; rewrite Z.gtb_ltb; apply Z.ltb_lt; lia).
    replace (n >? 1) with true by (symmetry; rewrite Z.gtb_ltb; apply Z.ltb_lt; lia).
    eapply decodes_bind; [by apply codec_decodes|].
    eapply decodes_bind_last; [|apply decodes_ret].
    eapply decodes_bind; [by apply VarInt_decodes|]. rewrite gtb_false by done.
    apply decodes_bind_last with (a := join_comma ps); [by apply decodes_readFull|].
    rewrite split_join by done. apply decodes_ret.
  - by apply encodes_MsgProtoconf.
Defined.

(** ** Theorems *)

(** A [protoconf] message of two fields whose policy names are not empty
    as a list and contain no comma is encoded without error and decoded back:
    the names are joined with commas and split again. *)
Theorem MsgProtoconf_roundtrip `{Limits} `{ExternalsSpec} pver m :
  MsgProtoconf_ok pver m ->
  outcome (MsgProtoconf_BsvEncode pver m) = None /\
  len (written (MsgProtoconf_BsvEncode pver m)) <= MsgProtoconf_MaxPayloadLength pver /\
  run (MsgProtoconf_Bsvdecode pver) (mkBuffer (written (MsgProtoconf_BsvEncode pver m))) =
  (Ok m, mkBuffer []).
Proof.
  intros Hm. destruct (@msg_encodes _ _ MsgProtoconf_spec pver m Hm : encodes (MsgProtoconf_BsvEncode pver m) _)
    as [-> ->].
  split_and!; [done|by apply (@msg_bounded _ _ MsgProtoconf_spec)
              |by apply (@msg_decodes _ _ MsgProtoconf_spec)].
Qed.

Lemma MsgProtoconf_roundtrip_witness :
  let m := NewMsgProtoconf 0 true in
  run (@MsgProtoconf_Bsvdecode defaultLimits refExternals 70016)
    (mkBuffer (written (@MsgProtoconf_BsvEncode refExternals 70016 m))) = (Ok m, mkBuffer []).
Proof.
  intros m. apply (@MsgProtoconf_roundtrip defaultLimits refExternals refExternals_spec 70016 m).
  unfold MsgProtoconf_ok. split_and!; try (by vm_compute).
  repeat constructor; unfold no_comma; apply (bool_decide_unpack _); by vm_compute.
Defined.

Lemma put_uint_small n z :
  0 <= z < 256 -> put_uint littleEndian (S n) z = z2b z :: zeros n.
Proof.
  intros Hz. unfold put_uint. change (le_split (S n) z) with (z2b z :: le_split n (Z.shiftr z 8)).
  f_equal. rewrite Z.shiftr_div_pow2, Z.div_small by lia. clear z Hz.
  induction n as [|n IH]; [done|].
  change (le_split (S n) 0) with (z2b 0 :: le_split n (Z.shiftr 0 8)). by rewrite Z.shiftr_0_l, IH.
Qed.

(** [authch] is not read as it is written: the encoder writes the length
    of the challenge as 4 bytes, the decoder reads it as a variable length
    integer.  The peer gets three zero bytes and the challenge cut by three
    bytes, which stay in the stream. *)
Theorem MsgAuthch_corrupted pver c rest e :
  3 <= len c <= 40 ->
  run (MsgAuthch_Bsvdecode pver)
    (mkStream (written (MsgAuthch_BsvEncode pver (NewMsgAuthch c)) ++ rest) e) =
  (Ok (mkMsgAuthch 1 (len c) (zeros 3 ++ take (length c - 3) c)),
   mkStream (drop (length c - 3) c ++ rest) e).
Proof.
  intros Hc. unfold MsgAuthch_BsvEncode, NewMsgAuthch.
  cbn [ac_Version ac_Length ac_Challenge]. rewrite to_u32_id by zlia.
  destruct (encodes_writeElements [Wint32 1; Wuint32 (len c); Wslice c]) as [_ ->].
  cbn [map concat Elem_bytes]. rewrite app_nil_r, <- !app_assoc. unfold MsgAuthch_Bsvdecode.
  erewrite run_bind_step by (by apply (decodes_elem Tint32)).
  cbn [elem_bytes]. rewrite put_uint_small by lia.
  set (c1 := zeros 3 ++ take (length c - 3) c).
  assert (len c1 = len c) as Hl1.
  { unfold c1, zeros. rewrite len_app, len_replicate. rewrite len_take; zlia. }
  replace ((z2b (len c) :: zeros 3) ++ c ++ rest)
    with (var_bytes c1 ++ (drop (length c - 3) c ++ rest)).
  2: { unfold var_bytes, c1 at 2. rewrite Hl1. unfold varint_bytes.
       rewrite (proj2 (Z.ltb_lt _ _)) by lia. rewrite to_u8_id by zlia. rewrite put_uint_1.
       rewrite <- !app_assoc, (app_assoc (take _ c)), take_drop. done. }
  erewrite run_bind_step.
  2: { apply (codec_decodes (Codec:=Codec_ReadVarBytes _ _)). split; rewrite Hl1; unfold MsgAuthch_MaxPayloadLength; zlia. }
  cbn [run mret Dec_ret]. by rewrite Hl1, to_u32_id by zlia.
Qed.

Lemma MsgAuthch_corrupted_witness :
  let c := map (fun n => z2b (Z.of_nat n)) (seq 1 32) in
  run (MsgAuthch_Bsvdecode 70016)
    (mkStream (written (MsgAuthch_BsvEncode 70016 (NewMsgAuthch c)) ++ []) EOF) =
  (Ok (mkMsgAuthch 1 (len c) (zeros 3 ++ take 29 c)), mkStream (drop 29 c ++ []) EOF).
Proof.
  intros c. apply (MsgAuthch_corrupted 70016 c [] EOF). split; vm_compute; discriminate.
Defined.
