(* ===== verification/MsgFilter.v ===== *)
(** * Filter messages: filteradd, filterclear, filterload, merkleblock,
      cfilter, cfheaders, cfcheckpt, getcfilters, getcfheaders, getcfcheckpt
      (one source file each) *)

From S2P Require Import Prelude Io Common Sha256 Externals BlockHeader Protocol Tx Block MsgIface.
From S2P Require Import MsgInventory.

(** ** msg_filter_add.go *)

Definition MaxFilterAddDataSize : Z := 520.

Record MsgFilterAdd := mkMsgFilterAdd { fa_Data : bytes }.

Definition MsgFilterAdd_Bsvdecode (pver : Z) : Dec MsgFilterAdd :=
  if pver <? BIP0037Version then DFail (invalidPver "MsgFilterAdd.Bsvdecode" "filteradd" pver)
  else data ← ReadVarBytes MaxFilterAddDataSize "filteradd data"; mret (mkMsgFilterAdd data).

Definition MsgFilterAdd_BsvEncode (pver : Z) (msg : MsgFilterAdd) : Enc :=
  if pver <? BIP0037Version then efail (invalidPver "MsgFilterAdd.BsvEncode" "filteradd" pver)
  else
    let size := len (fa_Data msg) in
    if size >? MaxFilterAddDataSize then
      efail (messageError "MsgFilterAdd.BsvEncode"
               "filteradd size too large for message [size %v, max %v]"
               [AInt size; AInt MaxFilterAddDataSize])
    else WriteVarBytes (fa_Data msg).

Definition MsgFilterAdd_MaxPayloadLength (pver : Z) : Z :=
  VarIntSerializeSize MaxFilterAddDataSize + MaxFilterAddDataSize.

#[export] Instance MsgFilterAdd_Msg : Msg MsgFilterAdd := {|
  Command := CmdFilterAdd; MaxPayloadLength := MsgFilterAdd_MaxPayloadLength;
  Bsvdecode := MsgFilterAdd_Bsvdecode; BsvEncode := MsgFilterAdd_BsvEncode |}.

(** ** msg_filter_clear.go *)

Record MsgFilterClear := mkMsgFilterClear {}.

Definition MsgFilterClear_Bsvdecode (pver : Z) : Dec MsgFilterClear :=
  if pver <? BIP0037Version then DFail (invalidPver "MsgFilterClear.Bsvdecode" "filterclear" pver)
  else mret mkMsgFilterClear.

Definition MsgFilterClear_BsvEncode (pver : Z) (msg : MsgFilterClear) : Enc :=
  if pver <? BIP0037Version then efail (invalidPver "MsgFilterClear.BsvEncode" "filterclear" pver)
  else edone.

Definition MsgFilterClear_MaxPayloadLength (pver : Z) : Z := 0.

#[export] Instance MsgFilterClear_Msg : Msg MsgFilterClear := {|
  Command := CmdFilterClear; MaxPayloadLength := MsgFilterClear_MaxPayloadLength;
  Bsvdecode := MsgFilterClear_Bsvdecode; BsvEncode := MsgFilterClear_BsvEncode |}.

(** ** msg_filter_load.go *)

Definition MaxFilterLoadHashFuncs : Z := 50.
Definition MaxFilterLoadFilterSize : Z := 36000.

Record MsgFilterLoad := mkMsgFilterLoad {
  fl_Filter : bytes; fl_HashFuncs : Z; fl_Tweak : Z; fl_Flags : Z }.

Definition tooManyHashFuncs (f : string) (n : Z) : error :=
  messageError f "too many filter hash functions for message [count %v, max %v]"
    [AInt n; AInt MaxFilterLoadHashFuncs].

Definition MsgFilterLoad_Bsvdecode (pver : Z) : Dec MsgFilterLoad :=
  if pver <? BIP0037Version then DFail (invalidPver "MsgFilterLoad.Bsvdecode" "filterload" pver)
  else
    filter ← ReadVarBytes MaxFilterLoadFilterSize "filterload filter size";
    '(hashFuncs, (tweak, (flags, _))) ← readElements [Tuint32; Tuint32; TBloomUpdateType];
    if hashFuncs >? MaxFilterLoadHashFuncs
    then DFail (tooManyHashFuncs "MsgFilterLoad.Bsvdecode" hashFuncs)
    else mret (mkMsgFilterLoad filter hashFuncs tweak flags).

Definition MsgFilterLoad_BsvEncode (pver : Z) (msg : MsgFilterLoad) : Enc :=
  if pver <? BIP0037Version then efail (invalidPver "MsgFilterLoad.BsvEncode" "filterload" pver)
  else
    let size := len (fl_Filter msg) in
    if size >? MaxFilterLoadFilterSize then
      efail (messageError "MsgFilterLoad.BsvEncode"
               "filterload filter size too large for message [size %v, max %v]"
               [AInt size; AInt MaxFilterLoadFilterSize])
    else if fl_HashFuncs msg >? MaxFilterLoadHashFuncs
    then efail (tooManyHashFuncs "MsgFilterLoad.BsvEncode" (fl_HashFuncs msg))
    else
      WriteVarBytes (fl_Filter msg) >>>
      writeElements [Wuint32 (fl_HashFuncs msg); Wuint32 (fl_Tweak msg);
        WBloomUpdateType (fl_Flags msg)].

Definition MsgFilterLoad_MaxPayloadLength (pver : Z) : Z :=
  VarIntSerializeSize MaxFilterLoadFilterSize + MaxFilterLoadFilterSize + 9.

#[export] Instance MsgFilterLoad_Msg : Msg MsgFilterLoad := {|
  Command := CmdFilterLoad; MaxPayloadLength := MsgFilterLoad_MaxPayloadLength;
  Bsvdecode := MsgFilterLoad_Bsvdecode; BsvEncode := MsgFilterLoad_BsvEncode |}.

(** ** msg_merkle_block.go *)

Definition maxFlagsPerMerkleBlock `{Limits} : Z := maxTxPerBlock / 8.

Record MsgMerkleBlock := mkMsgMerkleBlock {
  mb_Header : BlockHeader; mb_Transactions : Z; mb_Hashes : list bytes; mb_Flags : bytes }.

Definition NewMsgMerkleBlock (bh : BlockHeader) : MsgMerkleBlock := mkMsgMerkleBlock bh 0 [] [].

Definition AddTxHash `{Limits} : list bytes -> bytes -> result (list bytes) :=
  addBelow maxTxPerBlock
    (messageError "MsgMerkleBlock.AddTxHash" "too many tx hashes for message [max %v]"
       [AInt maxTxPerBlock]).

Definition merkleCountTooLarge `{Limits} (count : Z) : error :=
  messageError "MsgMerkleBlock.Bsvdecode"
    "too many transaction hashes for message [count %v, max %v]" [AInt count; AInt maxTxPerBlock].

Definition MsgMerkleBlock_readList `{Limits} : Dec (list bytes) :=
  count ← ReadVarInt;
  if count >? maxTxPerBlock then DFail (merkleCountTooLarge count)
  else dloop (Z.to_nat count) (addStrict (readElement Thash : Dec bytes) AddTxHash) [].

Definition MsgMerkleBlock_Bsvdecode `{Limits} (pver : Z) : Dec MsgMerkleBlock :=
  if pver <? BIP0037Version then DFail (invalidPver "MsgMerkleBlock.Bsvdecode" "merkleblock" pver)
  else
    header ← readBlockHeader;
    transactions ← readElement Tuint32;
    hashes ← MsgMerkleBlock_readList;
    flags ← ReadVarBytes maxFlagsPerMerkleBlock "merkle block flags size";
    mret (mkMsgMerkleBlock header transactions hashes flags).

Definition MsgMerkleBlock_BsvEncode `{Limits} (pver : Z) (msg : MsgMerkleBlock) : Enc :=
  if pver <? BIP0037Version then efail (invalidPver "MsgMerkleBlock.BsvEncode" "merkleblock" pver)
  else
    let numHashes := len (mb_Hashes msg) in
    if numHashes >? to_i64 maxTxPerBlock then efail (merkleCountTooLarge numHashes)
    else
      let numFlagBytes := len (mb_Flags msg) in
      if numFlagBytes >? to_i64 maxFlagsPerMerkleBlock then
        efail (messageError "MsgMerkleBlock.Bsvdecode"
                 "too many flag bytes for message [count %v, max %v]"
                 [AInt numFlagBytes; AInt maxFlagsPerMerkleBlock])
      else
        writeBlockHeader (mb_Header msg) >>>
        writeElement (Wuint32 (mb_Transactions msg)) >>>
        WriteVarInt numHashes >>>
        efor (fun hash => writeElement (Whash hash)) (mb_Hashes msg) >>>
        WriteVarBytes (mb_Flags msg).

Definition MsgMerkleBlock_MaxPayloadLength `{Limits} (pver : Z) : Z := MaxBlockPayload.

#[export] Instance MsgMerkleBlock_Msg `{Limits} : Msg MsgMerkleBlock := {|
  Command := CmdMerkleBlock; MaxPayloadLength := MsgMerkleBlock_MaxPayloadLength;
  Bsvdecode := MsgMerkleBlock_Bsvdecode; BsvEncode := MsgMerkleBlock_BsvEncode |}.

(** ** msg_cfilter.go *)

Definition MaxCFilterDataSize : Z := 256 * 1024.

Record MsgCFilter := mkMsgCFilter { cf_FilterType : Z; cf_BlockHash : bytes; cf_Data : bytes }.

Definition MsgCFilter_Bsvdecode (pver : Z) : Dec MsgCFilter :=
  filterType ← readElement Tuint8;
  blockHash ← readElement Thash;
  data ← ReadVarBytes MaxCFilterDataSize "cfilter data";
  mret (mkMsgCFilter filterType blockHash data).

Definition MsgCFilter_Deserialize : Dec MsgCFilter := MsgCFilter_Bsvdecode 0.

Definition MsgCFilter_BsvEncode (pver : Z) (msg : MsgCFilter) : Enc :=
  let size := len (cf_Data msg) in
  if size >? MaxCFilterDataSize then
    efail (messageError "MsgCFilter.BsvEncode"
             "cfilter size too large for message [size %v, max %v]"
             [AInt size; AInt MaxCFilterDataSize])
  else
    writeElement (Wuint8 (cf_FilterType msg)) >>>
    writeElement (WhashVal (cf_BlockHash msg)) >>>
    WriteVarBytes (cf_Data msg).

Definition MsgCFilter_MaxPayloadLength (pver : Z) : Z :=
  VarIntSerializeSize MaxCFilterDataSize + MaxCFilterDataSize + HashSize + 1.

#[export] Instance MsgCFilter_Msg : Msg MsgCFilter := {|
  Command := CmdCFilter; MaxPayloadLength := MsgCFilter_MaxPayloadLength;
  Bsvdecode := MsgCFilter_Bsvdecode; BsvEncode := MsgCFilter_BsvEncode |}.

(** ** msg_cf_headers.go: the errors quote [MaxBlockHeadersPerMsg] *)

Definition MaxCFHeaderPayload : Z := HashSize.
Definition MaxCFHeadersPerMsg : Z := 2000.

Record MsgCFHeaders := mkMsgCFHeaders {
  ch_FilterType : Z; ch_StopHash : bytes; ch_PrevFilterHeader : bytes;
  ch_FilterHashes : list bytes }.

Definition AddCFHash : list bytes -> bytes -> result (list bytes) :=
  addBelow MaxCFHeadersPerMsg
    (messageError "MsgCFHeaders.AddCFHash" "too many block headers in message [max %v]"
       [AInt MaxBlockHeadersPerMsg]).

Definition cfHeadersTooMany (f : string) (count : Z) : error :=
  messageError f "too many committed filter headers for message [count %v, max %v]"
    [AInt count; AInt MaxBlockHeadersPerMsg].

Definition MsgCFHeaders_readList : Dec (list bytes) :=
  count ← ReadVarInt;
  if count >? MaxCFHeadersPerMsg then DFail (cfHeadersTooMany "MsgCFHeaders.Bsvdecode" count)
  else dloop (Z.to_nat count) (addLax (readElement Thash : Dec bytes) AddCFHash) [].

Definition MsgCFHeaders_Bsvdecode (pver : Z) : Dec MsgCFHeaders :=
  filterType ← readElement Tuint8;
  stopHash ← readElement Thash;
  prev ← readElement Thash;
  hashes ← MsgCFHeaders_readList;
  mret (mkMsgCFHeaders filterType stopHash prev hashes).

Definition MsgCFHeaders_Deserialize : Dec MsgCFHeaders := MsgCFHeaders_Bsvdecode 0.

(** The count is checked after the first fields have been written. *)
Definition MsgCFHeaders_BsvEncode (pver : Z) (msg : MsgCFHeaders) : Enc :=
  writeElement (Wuint8 (ch_FilterType msg)) >>>
  writeElement (WhashVal (ch_StopHash msg)) >>>
  writeElement (WhashVal (ch_PrevFilterHeader msg)) >>>
  (let count := len (ch_FilterHashes msg) in
   if count >? MaxCFHeadersPerMsg then efail (cfHeadersTooMany "MsgCFHeaders.BsvEncode" count)
   else WriteVarInt count >>>
        efor (fun cfh => writeElement (Whash cfh)) (ch_FilterHashes msg)).

Definition MsgCFHeaders_MaxPayloadLength (pver : Z) : Z :=
  1 + HashSize + HashSize + MaxVarIntPayload + MaxCFHeaderPayload * MaxCFHeadersPerMsg.

#[export] Instance MsgCFHeaders_Msg : Msg MsgCFHeaders := {|
  Command := CmdCFHeaders; MaxPayloadLength := MsgCFHeaders_MaxPayloadLength;
  Bsvdecode := MsgCFHeaders_Bsvdecode; BsvEncode := MsgCFHeaders_BsvEncode |}.

(** ** msg_cfcheckpoint.go: the encoder does not check the count *)

Definition maxCFHeadersLen : Z := 100000.

Definition ErrInsaneCFHeaderCount : error :=
  ErrText (mkSprintf "refusing to decode unreasonable number of filter headers" []).

Record MsgCFCheckpt := mkMsgCFCheckpt {
  cc_FilterType : Z; cc_StopHash : bytes; cc_FilterHeaders : list bytes }.

Definition NewMsgCFCheckpt (filterType : Z) (stopHash : bytes) : MsgCFCheckpt :=
  mkMsgCFCheckpt filterType stopHash [].

(** [AddCFHeader]; [cap] is [cap(msg.FilterHeaders)]. *)
Definition AddCFHeader (cap : Z) (msg : MsgCFCheckpt) (header : bytes) : result MsgCFCheckpt :=
  if len (cc_FilterHeaders msg) =? cap
  then Err (messageError "MsgCFCheckpt.AddCFHeader"
              "FilterHeaders has insufficient capacity for additional header: len = %d"
              [AInt (len (cc_FilterHeaders msg))])
  else Ok (mkMsgCFCheckpt (cc_FilterType msg) (cc_StopHash msg) (cc_FilterHeaders msg ++ [header])).

Definition MsgCFCheckpt_readList : Dec (list bytes) :=
  count ← ReadVarInt;
  if count >? maxCFHeadersLen then DFail ErrInsaneCFHeaderCount
  else dlist (Z.to_nat count) (readElement Thash : Dec bytes).

Definition MsgCFCheckpt_Bsvdecode (pver : Z) : Dec MsgCFCheckpt :=
  filterType ← readElement Tuint8;
  stopHash ← readElement Thash;
  headers ← MsgCFCheckpt_readList;
  mret (mkMsgCFCheckpt filterType stopHash headers).

Definition MsgCFCheckpt_Deserialize : Dec MsgCFCheckpt := MsgCFCheckpt_Bsvdecode 0.

Definition MsgCFCheckpt_BsvEncode (pver : Z) (msg : MsgCFCheckpt) : Enc :=
  writeElement (Wuint8 (cc_FilterType msg)) >>>
  writeElement (WhashVal (cc_StopHash msg)) >>>
  WriteVarInt (len (cc_FilterHeaders msg)) >>>
  efor (fun cfh => writeElement (Whash cfh)) (cc_FilterHeaders msg).

Definition MsgCFCheckpt_MaxPayloadLength `{Limits} (pver : Z) : Z := maxMessagePayload.

#[export] Instance MsgCFCheckpt_Msg `{Limits} : Msg MsgCFCheckpt := {|
  Command := CmdCFCheckpt; MaxPayloadLength := MsgCFCheckpt_MaxPayloadLength;
  Bsvdecode := MsgCFCheckpt_Bsvdecode; BsvEncode := MsgCFCheckpt_BsvEncode |}.

(** ** msg_get_cfilters.go, msg_get_cfheaders.go, msg_get_cfcheckpoint.go *)

Record MsgGetCFilters := mkMsgGetCFilters {
  gcf_FilterType : Z; gcf_StartHeight : Z; gcf_StopHash : bytes }.

Definition MsgGetCFilters_Bsvdecode (pver : Z) : Dec MsgGetCFilters :=
  filterType ← readElement Tuint8;
  startHeight ← readElement Tuint32;
  stopHash ← readElement Thash;
  mret (mkMsgGetCFilters filterType startHeight stopHash).

Definition MsgGetCFilters_BsvEncode (pver : Z) (msg : MsgGetCFilters) : Enc :=
  writeElement (Wuint8 (gcf_FilterType msg)) >>>
  writeElement (Wuint32Ptr (gcf_StartHeight msg)) >>>
  writeElement (Whash (gcf_StopHash msg)).

Definition MsgGetCFilters_MaxPayloadLength (pver : Z) : Z := 1 + 4 + HashSize.

#[export] Instance MsgGetCFilters_Msg : Msg MsgGetCFilters := {|
  Command := CmdGetCFilters; MaxPayloadLength := MsgGetCFilters_MaxPayloadLength;
  Bsvdecode := MsgGetCFilters_Bsvdecode; BsvEncode := MsgGetCFilters_BsvEncode |}.

Record MsgGetCFHeaders := mkMsgGetCFHeaders {
  gch_FilterType : Z; gch_StartHeight : Z; gch_StopHash : bytes }.

Definition MsgGetCFHeaders_Bsvdecode (pver : Z) : Dec MsgGetCFHeaders :=
  filterType ← readElement Tuint8;
  startHeight ← readElement Tuint32;
  stopHash ← readElement Thash;
  mret (mkMsgGetCFHeaders filterType startHeight stopHash).

Definition MsgGetCFHeaders_BsvEncode (pver : Z) (msg : MsgGetCFHeaders) : Enc :=
  writeElement (Wuint8 (gch_FilterType msg)) >>>
  writeElement (Wuint32Ptr (gch_StartHeight msg)) >>>
  writeElement (Whash (gch_StopHash msg)).

Definition MsgGetCFHeaders_MaxPayloadLength (pver : Z) : Z := 1 + 4 + HashSize.

#[export] Instance MsgGetCFHeaders_Msg : Msg MsgGetCFHeaders := {|
  Command := CmdGetCFHeaders; MaxPayloadLength := MsgGetCFHeaders_MaxPayloadLength;
  Bsvdecode := MsgGetCFHeaders_Bsvdecode; BsvEncode := MsgGetCFHeaders_BsvEncode |}.

Record MsgGetCFCheckpt := mkMsgGetCFCheckpt { gcc_FilterType : Z; gcc_StopHash : bytes }.

Definition MsgGetCFCheckpt_Bsvdecode (pver : Z) : Dec MsgGetCFCheckpt :=
  filterType ← readElement Tuint8;
  stopHash ← readElement Thash;
  mret (mkMsgGetCFCheckpt filterType stopHash).

Definition MsgGetCFCheckpt_BsvEncode (pver : Z) (msg : MsgGetCFCheckpt) : Enc :=
  writeElement (Wuint8 (gcc_FilterType msg)) >>> writeElement (Whash (gcc_StopHash msg)).

Definition MsgGetCFCheckpt_MaxPayloadLength (pver : Z) : Z := 1 + HashSize.

#[export] Instance MsgGetCFCheckpt_Msg : Msg MsgGetCFCheckpt := {|
  Command := CmdGetCFCheckpt; MaxPayloadLength := MsgGetCFCheckpt_MaxPayloadLength;
  Bsvdecode := MsgGetCFCheckpt_Bsvdecode; BsvEncode := MsgGetCFCheckpt_BsvEncode |}.

(** ** The laws *)

#[export] Instance MsgFilterAdd_streamable : Streamable MsgFilterAdd.
Proof. intros pver. change (streamable (MsgFilterAdd_Bsvdecode pver)). unfold MsgFilterAdd_Bsvdecode. solve_streamable. Qed.
#[export] Instance MsgFilterClear_streamable : Streamable MsgFilterClear.
Proof. intros pver. change (streamable (MsgFilterClear_Bsvdecode pver)). unfold MsgFilterClear_Bsvdecode. solve_streamable. Qed.
#[export] Instance MsgFilterLoad_streamable : Streamable MsgFilterLoad.
Proof. intros pver. change (streamable (MsgFilterLoad_Bsvdecode pver)). unfold MsgFilterLoad_Bsvdecode. solve_streamable. Qed.
#[export] Instance MsgMerkleBlock_streamable `{Limits} : Streamable MsgMerkleBlock.
Proof. intros pver. change (streamable (MsgMerkleBlock_Bsvdecode pver)). unfold MsgMerkleBlock_Bsvdecode, MsgMerkleBlock_readList. solve_streamable. Qed.
#[export] Instance MsgCFilter_streamable : Streamable MsgCFilter.
Proof. intros pver. change (streamable (MsgCFilter_Bsvdecode pver)). unfold MsgCFilter_Bsvdecode. solve_streamable. Qed.
#[export] Instance MsgCFHeaders_streamable : Streamable MsgCFHeaders.
Proof. intros pver. change (streamable (MsgCFHeaders_Bsvdecode pver)). unfold MsgCFHeaders_Bsvdecode, MsgCFHeaders_readList. solve_streamable. Qed.
#[export] Instance MsgCFCheckpt_streamable `{Limits} : Streamable MsgCFCheckpt.
Proof. intros pver. change (streamable (MsgCFCheckpt_Bsvdecode pver)). unfold MsgCFCheckpt_Bsvdecode, MsgCFCheckpt_readList. solve_streamable. Qed.
#[export] Instance MsgGetCFilters_streamable : Streamable MsgGetCFilters.
Proof. intros pver. change (streamable (MsgGetCFilters_Bsvdecode pver)). unfold MsgGetCFilters_Bsvdecode. solve_streamable. Qed.
#[export] Instance MsgGetCFHeaders_streamable : Streamable MsgGetCFHeaders.
Proof. intros pver. change (streamable (MsgGetCFHeaders_Bsvdecode pver)). unfold MsgGetCFHeaders_Bsvdecode. solve_streamable. Qed.
#[export] Instance MsgGetCFCheckpt_streamable : Streamable MsgGetCFCheckpt.
Proof. intros pver. change (streamable (MsgGetCFCheckpt_Bsvdecode pver)). unfold MsgGetCFCheckpt_Bsvdecode. solve_streamable. Qed.

(** Steps of a decoder on the encoding of its message. *)
Ltac el t := eapply decodes_bind; [by apply (decodes_elem t)|].
Ltac last_el t := eapply decodes_bind_last; [by apply (decodes_elem t)|apply decodes_ret].
Ltac var := eapply decodes_bind; [by apply codec_decodes|].
Ltac last_var := eapply decodes_bind_last; [by apply codec_decodes|apply decodes_ret].

#[export] Instance MsgFilterAdd_spec : MsgSpec MsgFilterAdd.
Proof.
  refine (mkMsgSpec (fun _ m => var_bytes (fa_Data m))
            (fun pver m => BIP0037Version <= pver /\ var_ok MaxFilterAddDataSize (fa_Data m))
            _ _ _ _); intros pver [d] [Hp Hd]; cbn [fa_Data] in *;
    cbn [Bsvdecode BsvEncode MaxPayloadLength MsgFilterAdd_Msg];
    unfold MsgFilterAdd_Bsvdecode, MsgFilterAdd_BsvEncode;
    rewrite ?(proj2 (Z.ltb_ge _ _)) by done.
  - last_var.
  - cbn [fa_Data]. rewrite gtb_false by apply Hd. auto with encodes.
  - rewrite len_var_bytes. destruct Hd as [Hd _]. unfold MsgFilterAdd_MaxPayloadLength.
    pose proof (VarIntSerializeSize_mono (len d) MaxFilterAddDataSize Hd). lia.
Defined.

#[export] Instance MsgFilterClear_spec : MsgSpec MsgFilterClear.
Proof.
  refine (mkMsgSpec (fun _ _ => []) (fun pver _ => BIP0037Version <= pver) _ _ _ _);
    intros pver [] Hp; cbn [Bsvdecode BsvEncode MaxPayloadLength MsgFilterClear_Msg];
    unfold MsgFilterClear_Bsvdecode, MsgFilterClear_BsvEncode;
    rewrite ?(proj2 (Z.ltb_ge _ _)) by done; [apply decodes_ret|done|done].
Defined.

Definition MsgFilterLoad_bytes (m : MsgFilterLoad) : bytes :=
  var_bytes (fl_Filter m) ++
  elems_bytes [Tuint32; Tuint32; TBloomUpdateType] (fl_HashFuncs m, (fl_Tweak m, (fl_Flags m, tt))).

Definition MsgFilterLoad_ok (pver : Z) (m : MsgFilterLoad) : Prop :=
  BIP0037Version <= pver /\ var_ok MaxFilterLoadFilterSize (fl_Filter m) /\
  0 <= fl_HashFuncs m <= MaxFilterLoadHashFuncs /\ is_u32 (fl_Tweak m) /\ is_u8 (fl_Flags m).

Lemma MsgFilterLoad_elems pver m :
  MsgFilterLoad_ok pver m ->
  elems_ok [Tuint32; Tuint32; TBloomUpdateType] (fl_HashFuncs m, (fl_Tweak m, (fl_Flags m, tt))).
Proof. intros (_ & _ & Hn & Ht & Hu). unfold MaxFilterLoadHashFuncs in Hn. cbn. split_and!; zlia. Qed.

#[export] Instance Codec_MsgFilterLoad pver :
  Codec (MsgFilterLoad_Bsvdecode pver) MsgFilterLoad_bytes (MsgFilterLoad_ok pver).
Proof.
  unfold MsgFilterLoad_Bsvdecode. split.
  - intros [f n t u] Hm. pose proof (MsgFilterLoad_elems _ _ Hm) as Hel.
    destruct Hm as (Hp & Hf & Hn & _). rewrite (proj2 (Z.ltb_ge _ _)) by done. var.
    eapply decodes_bind_last; [by apply (decodes_elems [Tuint32; Tuint32; TBloomUpdateType])|].
    cbv beta iota. cbn [fl_HashFuncs] in *. rewrite gtb_false by lia. apply decodes_ret.
  - intros s m s' Hr. destruct (Z.ltb_spec pver BIP0037Version); [done|]. run_exact.
    destruct Hok as (H1 & H2 & H3 & _). rewrite Z.gtb_ltb, Z.ltb_ge in Ec.
    unfold MsgFilterLoad_bytes, MsgFilterLoad_ok. cbn [fl_Filter fl_HashFuncs fl_Tweak fl_Flags].
    cbn [elem_ok] in *. rewrite <- app_assoc. split_and!; try done. apply H1.
Qed.

#[export] Instance MsgFilterLoad_spec : MsgSpec MsgFilterLoad.
Proof.
  refine (mkMsgSpec (fun _ => MsgFilterLoad_bytes) MsgFilterLoad_ok _ _ _ _);
    intros pver m Hm; [by apply (Codec_MsgFilterLoad pver)| |];
    pose proof (MsgFilterLoad_elems _ _ Hm) as Hel; destruct Hm as (Hp & Hf & Hn & _);
    cbn [Bsvdecode BsvEncode MaxPayloadLength MsgFilterLoad_Msg].
  - unfold MsgFilterLoad_BsvEncode. rewrite (proj2 (Z.ltb_ge _ _)) by done.
    rewrite !gtb_false by (apply Hf || lia). apply encodes_seq; auto with encodes.
  - unfold MsgFilterLoad_bytes. rewrite len_app, len_var_bytes, len_elems_bytes by done.
    destruct Hf as [Hf _]. unfold MsgFilterLoad_MaxPayloadLength.
    pose proof (VarIntSerializeSize_mono (len (fl_Filter m)) MaxFilterLoadFilterSize Hf).
    change (zsum _) with 9. lia.
Defined.

(** *** merkleblock *)

#[export] Instance Codec_MerkleBlock_list `{Limits} :
  Codec MsgMerkleBlock_readList (list_bytes (fun h => h)) (list_ok (sized HashSize) maxTxPerBlock).
Proof.
  apply (Codec_counted_strict (readElement Thash) _ _ AddTxHash _ merkleCountTooLarge), addBelow_Ok.
Qed.

Definition MsgMerkleBlock_bytes (m : MsgMerkleBlock) : bytes :=
  BlockHeader_bytes (mb_Header m) ++ elem_bytes Tuint32 (mb_Transactions m) ++
  list_bytes (fun h => h) (mb_Hashes m) ++ var_bytes (mb_Flags m).

(** What the decoder returns. *)
Definition MsgMerkleBlock_fields `{Limits} (pver : Z) (m : MsgMerkleBlock) : Prop :=
  BIP0037Version <= pver /\ BlockHeader_ok (mb_Header m) /\ is_u32 (mb_Transactions m) /\
  list_ok (sized HashSize) maxTxPerBlock (mb_Hashes m) /\
  var_ok maxFlagsPerMerkleBlock (mb_Flags m).

Definition MsgMerkleBlock_ok `{Limits} (pver : Z) (m : MsgMerkleBlock) : Prop :=
  MsgMerkleBlock_fields pver m /\
  maxTxPerBlock < 2 ^ 63 /\ len (MsgMerkleBlock_bytes m) <= MaxBlockPayload.

#[export] Instance Codec_MsgMerkleBlock `{Limits} pver :
  Codec (MsgMerkleBlock_Bsvdecode pver) MsgMerkleBlock_bytes (MsgMerkleBlock_fields pver).
Proof.
  unfold MsgMerkleBlock_Bsvdecode. split.
  - intros [h t l f] (Hp & Hh & Ht & Hl & Hf).
    cbn [mb_Header mb_Transactions mb_Hashes mb_Flags] in *.
    rewrite (proj2 (Z.ltb_ge _ _)) by done. var. el Tuint32. var. last_var.
  - intros s m s' Hr. destruct (Z.ltb_spec pver BIP0037Version); [done|]. run_exact.
    unfold MsgMerkleBlock_bytes, MsgMerkleBlock_fields.
    cbn [mb_Header mb_Transactions mb_Hashes mb_Flags]. by rewrite <- !app_assoc.
Qed.

(** The limits of the encoder are [int] conversions of those of the decoder. *)
Lemma encodes_MsgMerkleBlock `{Limits} pver m :
  maxTxPerBlock < 2 ^ 63 -> MsgMerkleBlock_fields pver m ->
  encodes (MsgMerkleBlock_BsvEncode pver m) (MsgMerkleBlock_bytes m).
Proof.
  intros Hmax (Hp & Hh & Ht & Hl & Hf). unfold MsgMerkleBlock_BsvEncode.
  rewrite (proj2 (Z.ltb_ge _ _)) by done. assert (0 <= maxTxPerBlock) by apply to_u64_range.
  assert (0 <= maxFlagsPerMerkleBlock <= maxTxPerBlock).
  { unfold maxFlagsPerMerkleBlock. split; [by apply Z.div_pos|]. apply Z.div_le_upper_bound; lia. }
  assert (forall z, 0 <= z < 2 ^ 63 -> to_i64 z = z) as Hi
    by (intros z Hz; unfold to_i64; rewrite Z.mod_small; lia).
  rewrite !Hi, !gtb_false by (apply Hl || apply Hf || lia).
  unfold MsgMerkleBlock_bytes, list_bytes. rewrite <- app_assoc.
  repeat apply encodes_seq; auto with encodes.
Qed.

#[export] Instance MsgMerkleBlock_spec `{Limits} : MsgSpec MsgMerkleBlock.
Proof.
  refine (mkMsgSpec (fun _ => MsgMerkleBlock_bytes) MsgMerkleBlock_ok _ _ _ _);
    intros pver m (Hm & Hmax & Hlen); [by apply (Codec_MsgMerkleBlock pver)| |done].
  by apply encodes_MsgMerkleBlock.
Defined.

(** *** Committed filters *)

#[export] Instance MsgCFilter_spec : MsgSpec MsgCFilter.
Proof.
  refine (mkMsgSpec (fun _ m => elem_bytes Tuint8 (cf_FilterType m) ++ cf_BlockHash m ++
                                var_bytes (cf_Data m))
            (fun _ m => is_u8 (cf_FilterType m) /\ sized HashSize (cf_BlockHash m) /\
                        var_ok MaxCFilterDataSize (cf_Data m)) _ _ _ _);
    intros pver [t h d] (Ht & Hh & Hd); cbn [cf_FilterType cf_BlockHash cf_Data] in *;
    cbn [Bsvdecode BsvEncode MaxPayloadLength MsgCFilter_Msg];
    unfold MsgCFilter_Bsvdecode, MsgCFilter_BsvEncode.
  - el Tuint8. el Thash. last_var.
  - cbn [cf_FilterType cf_BlockHash cf_Data]. rewrite gtb_false by apply Hd.
    repeat apply encodes_seq; auto with encodes.
  - rewrite !len_app, len_var_bytes. cbn [elem_bytes]. rewrite len_put_uint.
    destruct Hd as [Hd _]. unfold MsgCFilter_MaxPayloadLength. unfold sized in Hh.
    pose proof (VarIntSerializeSize_mono (len d) MaxCFilterDataSize Hd). lia.
Defined.

#[export] Instance Codec_CFHeaders_list :
  Codec MsgCFHeaders_readList (list_bytes (fun h => h)) (list_ok (sized HashSize) MaxCFHeadersPerMsg).
Proof.
  apply (Codec_counted_lax (readElement Thash) _ _ AddCFHash _ (cfHeadersTooMany _)), addBelow_Ok.
Qed.

Definition MsgCFHeaders_bytes (m : MsgCFHeaders) : bytes :=
  elem_bytes Tuint8 (ch_FilterType m) ++ ch_StopHash m ++ ch_PrevFilterHeader m ++
  list_bytes (fun h => h) (ch_FilterHashes m).

Definition MsgCFHeaders_ok (m : MsgCFHeaders) : Prop :=
  is_u8 (ch_FilterType m) /\ sized HashSize (ch_StopHash m) /\
  sized HashSize (ch_PrevFilterHeader m) /\
  list_ok (sized HashSize) MaxCFHeadersPerMsg (ch_FilterHashes m).

#[export] Instance Codec_MsgCFHeaders pver :
  Codec (MsgCFHeaders_Bsvdecode pver) MsgCFHeaders_bytes MsgCFHeaders_ok.
Proof.
  unfold MsgCFHeaders_Bsvdecode. split.
  - intros [t h p l] (Ht & Hh & Hp & Hl).
    cbn [ch_FilterType ch_StopHash ch_PrevFilterHeader ch_FilterHashes] in *.
    el Tuint8. el Thash. el Thash. last_var.
  - intros s m s' Hr. run_exact. unfold MsgCFHeaders_bytes, MsgCFHeaders_ok.
    cbn [ch_FilterType ch_StopHash ch_PrevFilterHeader ch_FilterHashes].
    by rewrite <- !app_assoc.
Qed.

#[export] Instance MsgCFHeaders_spec : MsgSpec MsgCFHeaders.
Proof.
  refine (mkMsgSpec (fun _ => MsgCFHeaders_bytes) (fun _ => MsgCFHeaders_ok) _ _ _ _);
    intros pver m Hm; [by apply (Codec_MsgCFHeaders pver)| |];
    destruct Hm as (Ht & Hh & Hp & Hl); unfold MsgCFHeaders_bytes;
    cbn [Bsvdecode BsvEncode MaxPayloadLength MsgCFHeaders_Msg].
  - unfold MsgCFHeaders_BsvEncode.
    rewrite gtb_false by apply Hl. unfold list_bytes. repeat apply encodes_seq; auto with encodes.
  - rewrite !len_app. cbn [elem_bytes]. rewrite len_put_uint.
    assert (len (list_bytes (fun h => h) (ch_FilterHashes m)) <=
            MaxVarIntPayload + MaxCFHeadersPerMsg * HashSize).
    { eapply len_list_bound; [done|done|]. intros x Hx. unfold sized in Hx. lia. }
    unfold MsgCFHeaders_MaxPayloadLength, MaxCFHeaderPayload. unfold sized in *. lia.
Defined.

#[export] Instance Codec_CFCheckpt_list :
  Codec MsgCFCheckpt_readList (list_bytes (fun h => h)) (list_ok (sized HashSize) maxCFHeadersLen).
Proof. apply (Codec_counted_list (readElement Thash) _ _ _ (fun _ => ErrInsaneCFHeaderCount)). Qed.

Definition MsgCFCheckpt_bytes (m : MsgCFCheckpt) : bytes :=
  elem_bytes Tuint8 (cc_FilterType m) ++ cc_StopHash m ++ list_bytes (fun h => h) (cc_FilterHeaders m).

Lemma encodes_MsgCFCheckpt pver m : encodes (MsgCFCheckpt_BsvEncode pver m) (MsgCFCheckpt_bytes m).
Proof.
  unfold MsgCFCheckpt_BsvEncode, MsgCFCheckpt_bytes, list_bytes.
  repeat apply encodes_seq; auto with encodes.
Qed.

#[export] Instance MsgCFCheckpt_spec `{Limits} : MsgSpec MsgCFCheckpt.
Proof.
  refine (mkMsgSpec (fun _ => MsgCFCheckpt_bytes)
            (fun _ m => is_u8 (cc_FilterType m) /\ sized HashSize (cc_StopHash m) /\
                        list_ok (sized HashSize) maxCFHeadersLen (cc_FilterHeaders m) /\
                        len (MsgCFCheckpt_bytes m) <= maxMessagePayload) _ _ _ _);
    intros pver [t h l] (Ht & Hh & Hl & Hlen); cbn [cc_FilterType cc_StopHash cc_FilterHeaders] in *;
    [|apply encodes_MsgCFCheckpt|done]; cbn [Bsvdecode BsvEncode MaxPayloadLength MsgCFCheckpt_Msg];
    unfold MsgCFCheckpt_Bsvdecode.
  el Tuint8. el Thash. last_var.
Defined.

#[export] Instance MsgGetCFilters_spec : MsgSpec MsgGetCFilters.
Proof.
  refine (mkMsgSpec (fun _ m => elem_bytes Tuint8 (gcf_FilterType m) ++
                                elem_bytes Tuint32 (gcf_StartHeight m) ++ gcf_StopHash m)
            (fun _ m => is_u8 (gcf_FilterType m) /\ is_u32 (gcf_StartHeight m) /\
                        sized HashSize (gcf_StopHash m)) _ _ _ _);
    intros pver [t n h] (Ht & Hn & Hh); cbn [gcf_FilterType gcf_StartHeight gcf_StopHash] in *.
  - el Tuint8. el Tuint32. last_el Thash.
  - repeat apply encodes_seq; auto with encodes.
  - rewrite !len_app. cbn [elem_bytes]. rewrite !len_put_uint. unfold sized in Hh. by rewrite Hh.
Defined.

#[export] Instance MsgGetCFHeaders_spec : MsgSpec MsgGetCFHeaders.
Proof.
  refine (mkMsgSpec (fun _ m => elem_bytes Tuint8 (gch_FilterType m) ++
                                elem_bytes Tuint32 (gch_StartHeight m) ++ gch_StopHash m)
            (fun _ m => is_u8 (gch_FilterType m) /\ is_u32 (gch_StartHeight m) /\
                        sized HashSize (gch_StopHash m)) _ _ _ _);
    intros pver [t n h] (Ht & Hn & Hh); cbn [gch_FilterType gch_StartHeight gch_StopHash] in *.
  - el Tuint8. el Tuint32. last_el Thash.
  - repeat apply encodes_seq; auto with encodes.
  - rewrite !len_app. cbn [elem_bytes]. rewrite !len_put_uint. unfold sized in Hh. by rewrite Hh.
Defined.

#[export] Instance MsgGetCFCheckpt_spec : MsgSpec MsgGetCFCheckpt.
Proof.
  refine (mkMsgSpec (fun _ m => elem_bytes Tuint8 (gcc_FilterType m) ++ gcc_StopHash m)
            (fun _ m => is_u8 (gcc_FilterType m) /\ sized HashSize (gcc_StopHash m)) _ _ _ _);
    intros pver [t h] (Ht & Hh); cbn [gcc_FilterType gcc_StopHash] in *.
  - el Tuint8. last_el Thash.
  - repeat apply encodes_seq; auto with encodes.
  - rewrite !len_app. cbn [elem_bytes]. rewrite !len_put_uint. unfold sized in Hh. by rewrite Hh.
Defined.

(** ** Theorems *)

(** A [filterload] message is returned on precisely the streams that begin
    with its encoding: from BIP0037 on, a filter of at most 36000 bytes and at
    most 50 hash functions. *)
Theorem MsgFilterLoad_exact pver (s : stream) m s' :
  run (MsgFilterLoad_Bsvdecode pver) s = (Ok m, s') <->
  (BIP0037Version <= pver /\ var_ok MaxFilterLoadFilterSize (fl_Filter m) /\
   0 <= fl_HashFuncs m <= MaxFilterLoadHashFuncs /\ is_u32 (fl_Tweak m) /\ is_u8 (fl_Flags m)) /\
  outcome (MsgFilterLoad_BsvEncode pver m) = None /\
  s = mkStream (written (MsgFilterLoad_BsvEncode pver m) ++ s_data s') (s_err s').
Proof. apply (codec_msg_iff (HS:=MsgFilterLoad_spec) pver (Codec_MsgFilterLoad pver)). Qed.

(** A [merkleblock] message is returned on precisely the streams that
    begin with its encoding: from BIP0037 on, a header, a count, at most
    [maxTxPerBlock] hashes and at most an eighth as many flag bytes (for block
    size limits below 2^63). *)
Theorem MsgMerkleBlock_exact `{Limits} pver (s : stream) m s' :
  maxTxPerBlock < 2 ^ 63 ->
  run (MsgMerkleBlock_Bsvdecode pver) s = (Ok m, s') <->
  (BIP0037Version <= pver /\ BlockHeader_ok (mb_Header m) /\ is_u32 (mb_Transactions m) /\
   list_ok (sized HashSize) maxTxPerBlock (mb_Hashes m) /\
   var_ok (maxTxPerBlock / 8) (mb_Flags m)) /\
  outcome (MsgMerkleBlock_BsvEncode pver m) = None /\
  s = mkStream (written (MsgMerkleBlock_BsvEncode pver m) ++ s_data s') (s_err s').
Proof.
  intros Hmax. split.
  - intros Hr. apply codec_exact in Hr as [-> Hm].
    by destruct (encodes_MsgMerkleBlock pver m Hmax Hm) as [-> ->].
  - intros (Hm & _ & ->). destruct (encodes_MsgMerkleBlock pver m Hmax Hm) as [_ ->].
    destruct s' as [d e]. by apply (codec_decodes (Codec:=Codec_MsgMerkleBlock pver)).
Qed.

Lemma MsgMerkleBlock_exact_witness :
  let m := mkMsgMerkleBlock (mkBlockHeader 1 (zeros 32) (zeros 32) (mkTime 0 0) 0 0) 1
             [zeros 32] [Byte.x01] in
  run (@MsgMerkleBlock_Bsvdecode defaultLimits 70016)
    (mkStream (written (@MsgMerkleBlock_BsvEncode defaultLimits 70016 m)) EOF) =
  (Ok m, mkStream [] EOF).
Proof.
  intros m. apply (@MsgMerkleBlock_exact defaultLimits 70016 _ m (mkStream [] EOF)).
  - vm_compute. reflexivity.
  - split_and!; try (by vm_compute); repeat split; try (by vm_compute).
    by repeat constructor.
Defined.

(** A [cfheaders] message is returned on precisely the streams that begin
    with its encoding, of at most 2000 filter hashes; the decoder ignores the
    error of [AddCFHash] and loses no hash by it. *)
Theorem MsgCFHeaders_exact pver (s : stream) m s' :
  run (MsgCFHeaders_Bsvdecode pver) s = (Ok m, s') <->
  (is_u8 (ch_FilterType m) /\ sized HashSize (ch_StopHash m) /\
   sized HashSize (ch_PrevFilterHeader m) /\
   list_ok (sized HashSize) MaxCFHeadersPerMsg (ch_FilterHashes m)) /\
  outcome (MsgCFHeaders_BsvEncode pver m) = None /\
  s = mkStream (written (MsgCFHeaders_BsvEncode pver m) ++ s_data s') (s_err s').
Proof. apply (codec_msg_iff (HS:=MsgCFHeaders_spec) pver (Codec_MsgCFHeaders pver)). Qed.
