(* ===== verification/ExtendedTx.v ===== *)
(** * msg_extended_tx.go: transactions in the extended format

    An input also carries the value and the script of the output it spends.
    Scripts are values here, as in [Tx.v]. *)

From S2P Require Import Prelude Io Common Sha256 Tx Block MsgIface.

Record ExtendedTxIn := mkExtendedTxIn {
  ei_PreviousOutPoint : OutPoint;
  ei_PreviousTxSatoshis : Z;
  ei_PreviousTxScript : bytes;
  ei_SignatureScript : bytes;
  ei_Sequence : Z;
}.

Record MsgExtendedTx := mkMsgExtendedTx {
  ex_Version : Z; ex_TxIn : list ExtendedTxIn; ex_TxOut : list TxOut; ex_LockTime : Z }.

#[export] Instance extendedtxin_eq_dec : EqDecision ExtendedTxIn.
Proof. solve_decision. Defined.
#[export] Instance msgextendedtx_eq_dec : EqDecision MsgExtendedTx.
Proof. solve_decision. Defined.

Definition NewExtendedTxIn (prevOut : OutPoint) (signatureScript : bytes)
    (previousTxSatoshis : Z) (previousTxScript : bytes) : ExtendedTxIn :=
  mkExtendedTxIn prevOut previousTxSatoshis previousTxScript signatureScript MaxTxInSequenceNum.

Definition ExtendedTxIn_SerializeSize (t : ExtendedTxIn) : Z :=
  40 + VarIntSerializeSize (len (ei_SignatureScript t)) + len (ei_SignatureScript t) +
  8 + VarIntSerializeSize (len (ei_PreviousTxScript t)) + len (ei_PreviousTxScript t).

Definition readExtendedTxIn `{Limits} : Dec ExtendedTxIn :=
  op ← readOutPoint;
  sig ← readScript maxTxInPerMessage "transaction input signature script";
  sequence ← readElement Tuint32;
  satoshis ← readElement Tuint64;
  script ← readScript maxTxInPerMessage "transaction previous tx script";
  mret (mkExtendedTxIn op satoshis script sig sequence).

Definition writeExtendedTxIn (ti : ExtendedTxIn) : Enc :=
  writeOutPoint (ei_PreviousOutPoint ti) >>>
  WriteVarBytes (ei_SignatureScript ti) >>>
  PutUint32 littleEndian (ei_Sequence ti) >>>
  PutUint64 littleEndian (ei_PreviousTxSatoshis ti) >>>
  WriteVarBytes (ei_PreviousTxScript ti).

Definition efHeader : bytes := [Byte.x00; Byte.x00; Byte.x00; Byte.x00; Byte.xef].

Definition readExtendedTxIns `{Limits} : Dec (list ExtendedTxIn) :=
  count ← ReadVarInt;
  if count >? maxTxInPerMessage then DFail (tooManyIn count)
  else dlist (Z.to_nat count) readExtendedTxIn.

Definition MsgExtendedTx_Bsvdecode `{Limits} (pver : Z) : Dec MsgExtendedTx :=
  version ← Uint32 littleEndian;
  count ← ReadVarInt;
  header ← readFull 5;
  if negb (count =? 0) || negb (bool_decide (header = efHeader))
  then DFail (ErrText (mkSprintf "invalid extended tx EF header" []))
  else
    ins ← readExtendedTxIns;
    outs ← readTxOuts;
    lockTime ← Uint32 littleEndian;
    mret (mkMsgExtendedTx (to_i32 version) ins outs lockTime).

Definition MsgExtendedTx_BsvEncode (pver : Z) (msg : MsgExtendedTx) : Enc :=
  PutUint32 littleEndian (to_u32 (ex_Version msg)) >>>
  ewrite (Byte.x00 :: efHeader) >>>
  WriteVarInt (len (ex_TxIn msg)) >>>
  efor writeExtendedTxIn (ex_TxIn msg) >>>
  WriteVarInt (len (ex_TxOut msg)) >>>
  efor WriteTxOut (ex_TxOut msg) >>>
  PutUint32 littleEndian (ex_LockTime msg).

Definition MsgExtendedTx_Serialize (msg : MsgExtendedTx) : Enc := MsgExtendedTx_BsvEncode 0 msg.
Definition MsgExtendedTx_Deserialize `{Limits} : Dec MsgExtendedTx := MsgExtendedTx_Bsvdecode 0.

Definition MsgExtendedTx_TxHash (msg : MsgExtendedTx) : bytes :=
  let '(_, h) := runE (MsgExtendedTx_Serialize msg) (mkHasher []) in Sum256 (hasher_Sum h).

Definition MsgExtendedTx_baseSize (msg : MsgExtendedTx) : Z :=
  let n := 8 + VarIntSerializeSize (len (ex_TxIn msg)) +
           VarIntSerializeSize (len (ex_TxOut msg)) in
  let n := fold_left (fun n txIn => n + ExtendedTxIn_SerializeSize txIn) (ex_TxIn msg) n in
  fold_left (fun n txOut => n + TxOut_SerializeSize txOut) (ex_TxOut msg) n.

Definition MsgExtendedTx_SerializeSize (msg : MsgExtendedTx) : Z := MsgExtendedTx_baseSize msg.

Definition MsgExtendedTx_PkScriptLocs (msg : MsgExtendedTx) : list Z :=
  let numTxOut := len (ex_TxOut msg) in
  if numTxOut =? 0 then []
  else
    let n := 4 + VarIntSerializeSize (len (ex_TxIn msg)) + VarIntSerializeSize numTxOut in
    let n := fold_left (fun n txIn => n + ExtendedTxIn_SerializeSize txIn) (ex_TxIn msg) n in
    pkScriptLocs n (ex_TxOut msg).

(** [Copy] returns a plain transaction: the extra fields are dropped. *)
Definition MsgExtendedTx_Copy (msg : MsgExtendedTx) : MsgTx :=
  mkMsgTx (ex_Version msg)
    (map (fun old => mkTxIn
            (mkOutPoint (op_Hash (ei_PreviousOutPoint old)) (op_Index (ei_PreviousOutPoint old)))
            (copyScript (ei_SignatureScript old)) (ei_Sequence old)) (ex_TxIn msg))
    (map (fun old => mkTxOut (to_Value old) (copyScript (to_PkScript old))) (ex_TxOut msg))
    (ex_LockTime msg).

Definition MsgExtendedTx_MaxPayloadLength `{Limits} (pver : Z) : Z := MaxBlockPayload.

#[export] Instance MsgExtendedTx_Msg `{Limits} : Msg MsgExtendedTx := {|
  Command := CmdExtendedTx; MaxPayloadLength := MsgExtendedTx_MaxPayloadLength;
  Bsvdecode := MsgExtendedTx_Bsvdecode; BsvEncode := MsgExtendedTx_BsvEncode |}.

(** ** The encoding *)

Definition ExtendedTxIn_bytes (ti : ExtendedTxIn) : bytes :=
  OutPoint_bytes (ei_PreviousOutPoint ti) ++ var_bytes (ei_SignatureScript ti) ++
  put_uint littleEndian 4 (ei_Sequence ti) ++ put_uint littleEndian 8 (ei_PreviousTxSatoshis ti) ++
  var_bytes (ei_PreviousTxScript ti).

Definition ExtendedTxIn_ok `{Limits} (ti : ExtendedTxIn) : Prop :=
  OutPoint_ok (ei_PreviousOutPoint ti) /\ var_ok maxTxInPerMessage (ei_SignatureScript ti) /\
  is_u32 (ei_Sequence ti) /\ is_u64 (ei_PreviousTxSatoshis ti) /\
  var_ok maxTxInPerMessage (ei_PreviousTxScript ti).

Definition MsgExtendedTx_bytes (tx : MsgExtendedTx) : bytes :=
  put_uint littleEndian 4 (to_u32 (ex_Version tx)) ++ varint_bytes 0 ++ efHeader ++
  list_bytes ExtendedTxIn_bytes (ex_TxIn tx) ++ list_bytes TxOut_bytes (ex_TxOut tx) ++
  put_uint littleEndian 4 (ex_LockTime tx).

Definition MsgExtendedTx_ok `{Limits} (tx : MsgExtendedTx) : Prop :=
  is_i32 (ex_Version tx) /\ list_ok ExtendedTxIn_ok maxTxInPerMessage (ex_TxIn tx) /\
  list_ok TxOut_ok maxTxOutPerMessage (ex_TxOut tx) /\ is_u32 (ex_LockTime tx).

Lemma encodes_writeExtendedTxIn ti : encodes (writeExtendedTxIn ti) (ExtendedTxIn_bytes ti).
Proof. unfold writeExtendedTxIn, ExtendedTxIn_bytes. auto 10 with encodes. Qed.
#[export] Hint Resolve encodes_writeExtendedTxIn : encodes.

Lemma encodes_MsgExtendedTx pver tx :
  encodes (MsgExtendedTx_BsvEncode pver tx) (MsgExtendedTx_bytes tx).
Proof.
  unfold MsgExtendedTx_BsvEncode, MsgExtendedTx_bytes, list_bytes. rewrite <- !app_assoc.
  apply encodes_seq; [auto with encodes|].
  apply (encodes_seq _ _ (Byte.x00 :: efHeader)); [apply encodes_write|].
  repeat apply encodes_seq; auto with encodes.
Qed.
#[export] Hint Resolve encodes_MsgExtendedTx : encodes.

Section WithLimits.
Context `{Limits}.

#[export] Instance Codec_readExtendedTxIn :
  Codec readExtendedTxIn ExtendedTxIn_bytes ExtendedTxIn_ok.
Proof.
  split.
  - intros [op sat sc sig sq] (Ho & Hsig & Hq & Hsat & Hsc).
    eapply decodes_bind; [by apply codec_decodes|].
    eapply decodes_bind; [by apply codec_decodes|].
    eapply decodes_bind; [by apply (decodes_elem Tuint32)|].
    eapply decodes_bind; [by apply (decodes_elem Tuint64)|].
    eapply decodes_bind_last; [by apply codec_decodes|apply decodes_ret].
  - intros s ti s' Hr. unfold readExtendedTxIn in Hr. run_exact.
    unfold ExtendedTxIn_bytes. by rewrite <- !app_assoc.
Qed.

#[export] Instance Codec_readExtendedTxIns :
  Codec readExtendedTxIns (list_bytes ExtendedTxIn_bytes)
    (list_ok ExtendedTxIn_ok maxTxInPerMessage).
Proof. apply (Codec_counted_list readExtendedTxIn _ _ _ tooManyIn). Qed.

#[export] Instance Codec_MsgExtendedTx pver :
  Codec (MsgExtendedTx_Bsvdecode pver) MsgExtendedTx_bytes MsgExtendedTx_ok.
Proof.
  pose proof (Codec_readFull 5 ltac:(done)) as H5. split.
  - intros [v ins outs lt] (Hv & Hi & Ho & Hl).
    eapply decodes_bind; [apply codec_decodes, to_u32_range|].
    eapply decodes_bind; [by apply codec_decodes|].
    eapply decodes_bind; [by apply decodes_readFull|].
    rewrite bool_decide_true by done. cbn [negb orb Z.eqb].
    do 2 (eapply decodes_bind; [by apply codec_decodes|]).
    eapply decodes_bind_last; [by apply codec_decodes|].
    rewrite to_i32_u32 by done. apply decodes_ret.
  - intros s tx s' Hr. unfold MsgExtendedTx_Bsvdecode in Hr. run_exact.
    apply orb_false_iff in Ec as [Ec1 Ec2]. apply negb_false_iff in Ec1, Ec2.
    apply Z.eqb_eq in Ec1. apply bool_decide_eq_true in Ec2. subst.
    unfold MsgExtendedTx_bytes, MsgExtendedTx_ok. cbn [ex_Version ex_TxIn ex_TxOut ex_LockTime].
    rewrite to_u32_i32, <- !app_assoc by done. auto with wire.
Qed.

Lemma streamable_readExtendedTxIn : streamable readExtendedTxIn.
Proof. unfold readExtendedTxIn, readOutPoint. solve_streamable. Qed.
Hint Resolve streamable_readExtendedTxIn : streamable.

#[export] Instance MsgExtendedTx_streamable : Streamable MsgExtendedTx.
Proof.
  intros pver. change (streamable (MsgExtendedTx_Bsvdecode pver)).
  unfold MsgExtendedTx_Bsvdecode, readExtendedTxIns, readTxOuts. solve_streamable.
Qed.

#[export] Instance MsgExtendedTx_spec : MsgSpec MsgExtendedTx.
Proof.
  refine (mkMsgSpec (fun _ => MsgExtendedTx_bytes)
            (fun _ m => MsgExtendedTx_ok m /\ len (MsgExtendedTx_bytes m) <= MaxBlockPayload)
            _ _ _ _); intros pver m [Hm Hl]; [|auto with encodes|done].
  by apply (Codec_MsgExtendedTx pver).
Defined.

(** *** The other two messages that carry transactions *)

Definition MsgTx_MaxPayloadLength (pver : Z) : Z := MaxBlockPayload.
Definition MsgBlock_MaxPayloadLength (pver : Z) : Z := MaxBlockPayload.

#[export] Instance MsgTx_Msg : Msg MsgTx := {|
  Command := CmdTx; MaxPayloadLength := MsgTx_MaxPayloadLength;
  Bsvdecode _ := MsgTx_Bsvdecode; BsvEncode _ := MsgTx_BsvEncode |}.

#[export] Instance MsgBlock_Msg : Msg MsgBlock := {|
  Command := CmdBlock; MaxPayloadLength := MsgBlock_MaxPayloadLength;
  Bsvdecode _ := MsgBlock_Bsvdecode; BsvEncode _ := MsgBlock_BsvEncode |}.

#[export] Instance MsgTx_streamable : Streamable MsgTx := fun _ => streamable_MsgTx.
#[export] Instance MsgBlock_streamable : Streamable MsgBlock := fun _ => streamable_MsgBlock.

#[export] Instance MsgTx_spec : MsgSpec MsgTx.
Proof.
  refine (mkMsgSpec (fun _ => MsgTx_bytes)
            (fun _ m => MsgTx_ok m /\ len (MsgTx_bytes m) <= MaxBlockPayload) _ _ _ _);
    intros pver m [Hm Hl]; [by apply Codec_MsgTx|apply encodes_MsgTx|done].
Defined.

#[export] Instance MsgBlock_spec : MsgSpec MsgBlock.
Proof.
  refine (mkMsgSpec (fun _ => MsgBlock_bytes)
            (fun _ m => MsgBlock_ok m /\ len (MsgBlock_bytes m) <= MaxBlockPayload) _ _ _ _);
    intros pver m [Hm Hl]; [by apply Codec_MsgBlock|apply encodes_MsgBlock|done].
Defined.
End WithLimits.

(** ** Sizes *)

Definition ext_hashes_sized (tx : MsgExtendedTx) : Prop :=
  Forall (fun ti => sized HashSize (op_Hash (ei_PreviousOutPoint ti))) (ex_TxIn tx).

Lemma len_ExtendedTxIn_bytes ti :
  sized HashSize (op_Hash (ei_PreviousOutPoint ti)) ->
  len (ExtendedTxIn_bytes ti) = ExtendedTxIn_SerializeSize ti.
Proof.
  intros Hs. unfold ExtendedTxIn_bytes, OutPoint_bytes, ExtendedTxIn_SerializeSize.
  autorewrite with len. unfold sized, HashSize in Hs. lia.
Qed.

Lemma len_ExtendedTxIns ins :
  Forall (fun ti => sized HashSize (op_Hash (ei_PreviousOutPoint ti))) ins ->
  len (list_bytes ExtendedTxIn_bytes ins) =
  VarIntSerializeSize (len ins) + zsum (map ExtendedTxIn_SerializeSize ins).
Proof.
  intros Hs. rewrite len_list_bytes. do 2 f_equal. apply map_ext_in. intros ti Hti.
  apply len_ExtendedTxIn_bytes. rewrite Forall_forall in Hs. by apply Hs.
Qed.

(** ** The properties *)

(** An extended transaction is encoded without error and decoded
    back to itself, and a successful decoding read exactly the encoding of
    the (well-formed) transaction it returned. *)
Theorem MsgExtendedTx_roundtrip `{Limits} (pver : Z) :
  (forall tx rest e, MsgExtendedTx_ok tx ->
     outcome (MsgExtendedTx_BsvEncode pver tx) = None /\
     run (MsgExtendedTx_Bsvdecode pver)
       (mkStream (written (MsgExtendedTx_BsvEncode pver tx) ++ rest) e) = (Ok tx, mkStream rest e)) /\
  (forall (s : stream) tx s', run (MsgExtendedTx_Bsvdecode pver) s = (Ok tx, s') ->
     s_data s = written (MsgExtendedTx_BsvEncode pver tx) ++ s_data s' /\ MsgExtendedTx_ok tx).
Proof.
  split.
  - intros tx rest e Hok. destruct (encodes_MsgExtendedTx pver tx) as [Ho Hw]. rewrite Hw.
    split; [done|]. by apply (Codec_MsgExtendedTx pver).
  - intros s tx s' Hr. rewrite (proj2 (encodes_MsgExtendedTx pver tx)).
    by apply (Codec_MsgExtendedTx pver) in Hr as [-> Hok].
Qed.

(** C40: [SerializeSize] and [PkScriptLocs] of an extended transaction
    leave out the six bytes of the EF marker: the serialization is six bytes
    longer than [SerializeSize], and each script starts six bytes after the
    offset returned for it. *)
Theorem MsgExtendedTx_size_off_by_six (tx : MsgExtendedTx) :
  ext_hashes_sized tx ->
  len (written (MsgExtendedTx_Serialize tx)) = MsgExtendedTx_SerializeSize tx + 6 /\
  Forall2 (fun loc to => script_at (written (MsgExtendedTx_Serialize tx)) (loc + 6) (to_PkScript to))
    (MsgExtendedTx_PkScriptLocs tx) (ex_TxOut tx).
Proof.
  intros Hs. unfold MsgExtendedTx_Serialize. rewrite (proj2 (encodes_MsgExtendedTx 0 tx)). split.
  - unfold MsgExtendedTx_bytes, MsgExtendedTx_SerializeSize, MsgExtendedTx_baseSize.
    rewrite !len_app, !len_put_uint, len_ExtendedTxIns, len_TxOuts_bytes by done.
    rewrite !fold_left_add_zsum. change (len (varint_bytes 0)) with 1.
    change (len efHeader) with 5. lia.
  - unfold MsgExtendedTx_PkScriptLocs. destruct (Z.eqb_spec (len (ex_TxOut tx)) 0) as [E|_].
    { apply len_0_inv in E. by rewrite E. }
    replace (MsgExtendedTx_bytes tx) with
      ((put_uint littleEndian 4 (to_u32 (ex_Version tx)) ++ varint_bytes 0 ++ efHeader ++
        list_bytes ExtendedTxIn_bytes (ex_TxIn tx) ++ varint_bytes (len (ex_TxOut tx))) ++
       concat (map TxOut_bytes (ex_TxOut tx)) ++ put_uint littleEndian 4 (ex_LockTime tx))
      by (unfold MsgExtendedTx_bytes, list_bytes; by rewrite <- !app_assoc).
    set (n := fold_left _ _ _).
    apply (Forall2_fmap_l (fun loc => loc + 6) (fun loc to => script_at _ loc (to_PkScript to))).
    change (fmap ?f ?l) with (map f l). rewrite <- pkScriptLocs_shift. apply pkScriptLocs_at.
    subst n. rewrite !len_app, len_put_uint, len_ExtendedTxIns, !len_varint_bytes by done.
    change (VarIntSerializeSize 0) with 1. change (len efHeader) with 5.
    rewrite fold_left_add_zsum. lia.
Qed.

Definition exampleExtTx : MsgExtendedTx :=
  mkMsgExtendedTx 1
    [mkExtendedTxIn (mkOutPoint (zeros 32) 7) 5000 [Byte.x76] [Byte.x51; Byte.x52] 9]
    [mkTxOut 4000 [Byte.x76; Byte.xa9; Byte.x14]] 0.

Lemma MsgExtendedTx_size_off_by_six_witness :
  MsgExtendedTx_SerializeSize exampleExtTx = 75 /\
  len (written (MsgExtendedTx_Serialize exampleExtTx)) = MsgExtendedTx_SerializeSize exampleExtTx + 6 /\
  Forall2 (fun loc to => script_at (written (MsgExtendedTx_Serialize exampleExtTx)) (loc + 6)
                           (to_PkScript to))
    (MsgExtendedTx_PkScriptLocs exampleExtTx) (ex_TxOut exampleExtTx).
Proof.
  split; [vm_compute; reflexivity|]. apply (MsgExtendedTx_size_off_by_six exampleExtTx).
  repeat constructor.
Defined.

