(* ===== verification/Decoders.v ===== *)
(** * The transaction decoders as goroutines

    [MsgTx.bsvdecode] (msg_tx.go, without an arena) and
    [MsgExtendedTx.Bsvdecode] (msg_extended_tx.go) as programs over the shared
    script pool, step by step.  Both have the same body after the version and
    the extended-format marker; it is written once, for any type of input
    ([decodeBody]).  The theorems: every interleaving of any number of
    decoders gives each of them what the decoders without memory return,
    nobody panics, and every run ends. *)

From S2P Require Import Prelude Io Common Tx Mem TxMem ExtendedTx Goroutine.

(** [x, err := d(r); if err != nil { onerr }] *)
Definition ptry {A X} (d : Dec A) (onerr : error -> Prog X) (k : A -> Prog X) : Prog X :=
  x ← pdec d; match x with Ok a => k a | Err e => onerr e end.

Definition readScriptP (maxAllowed : Z) (fieldName : string) : Prog (result Slice) :=
  ptry ReadVarInt (fun e => mret (Err e)) (fun count =>
  if count >? maxAllowed then
    mret (Err (messageError "readScript" "%s is larger than the max allowed size [count %d, max %d]"
                 [ABytes (str fieldName); AInt count; AInt maxAllowed]))
  else
    PBorrow count (fun b =>
    PRead (sl_len b) (fun '(bs, e) =>
    PStore b bs
      match e with
      | Some e => PReturn b (mret (Err e))
      | None => mret (Ok b)
      end))).

(** The elements as far as they have been filled in, and the error if any. *)
Definition readTxInP `{Limits} : Prog (TxInM * option error) :=
  ptry readOutPoint (fun e => mret (mkTxInM zeroOutPoint nilSlice 0, Some e)) (fun op =>
  x ← readScriptP maxTxInPerMessage "transaction input signature script";
  match x with
  | Err e => mret (mkTxInM op nilSlice 0, Some e)
  | Ok script =>
      ptry (readElement Tuint32) (fun e => mret (mkTxInM op script 0, Some e)) (fun sequence =>
      mret (mkTxInM op script sequence, None))
  end).

Definition readTxOutP `{Limits} : Prog (TxOutM * option error) :=
  ptry (readElement Tint64) (fun e => mret (mkTxOutM 0 nilSlice, Some e)) (fun value =>
  x ← readScriptP maxMessagePayload "transaction output public key script";
  match x with
  | Err e => mret (mkTxOutM value nilSlice, Some e)
  | Ok script => mret (mkTxOutM value script, None)
  end).

(** Inputs of extended transactions: the script of the spent output stays in
    the buffer it was read into. *)
Record ExtendedTxInM := mkExtendedTxInM {
  eim_op : OutPoint; eim_satoshis : Z; eim_prev : Slice; eim_script : Slice; eim_seq : Z }.

Definition readExtendedTxInP `{Limits} : Prog (ExtendedTxInM * option error) :=
  ptry readOutPoint
    (fun e => mret (mkExtendedTxInM zeroOutPoint 0 nilSlice nilSlice 0, Some e)) (fun op =>
  x ← readScriptP maxTxInPerMessage "transaction input signature script";
  match x with
  | Err e => mret (mkExtendedTxInM op 0 nilSlice nilSlice 0, Some e)
  | Ok sig =>
  ptry (readElement Tuint32)
    (fun e => mret (mkExtendedTxInM op 0 nilSlice sig 0, Some e)) (fun sequence =>
  ptry (readElement Tuint64)
    (fun e => mret (mkExtendedTxInM op 0 nilSlice sig sequence, Some e)) (fun satoshis =>
  x ← readScriptP maxTxInPerMessage "transaction previous tx script";
  match x with
  | Err e => mret (mkExtendedTxInM op satoshis nilSlice sig sequence, Some e)
  | Ok prev => mret (mkExtendedTxInM op satoshis prev sig sequence, None)
  end))
  end).

(** [for i := 0; i < n; i++]: the elements read so far, also on error. *)
Fixpoint readListP {A} (read : Prog (A * option error)) (n : nat) (acc : list A) :
    Prog (list A * option error) :=
  match n with
  | O => mret (acc, None)
  | S n =>
      '(x, e) ← read;
      match e with
      | Some e => mret (acc ++ [x], Some e)
      | None => readListP read n (acc ++ [x])
      end
  end.

(** [script == nil]: a borrowed buffer is never nil. *)
Definition isNil (s : Slice) : bool := sl_cap s =? 0.

Fixpoint returnAllP (l : list Slice) : Prog unit :=
  match l with
  | [] => mret tt
  | s :: l => if isNil s then returnAllP l else PReturn s (returnAllP l)
  end.

(** Copy each script to [scripts[offset:]], keep its window, return its buffer. *)
Fixpoint gatherP (scripts : Slice) (offset : Z) (l : list Slice) : Prog (list Slice * Z) :=
  match l with
  | [] => mret ([], offset)
  | sc :: l =>
      PSlice scripts offset (sl_len scripts) (sl_cap scripts) (fun room =>
      PLoad sc (fun bs =>
      PStore room (take (Z.to_nat (sl_len room)) bs)
      (let endo := offset + sl_len sc in
      PSlice scripts offset endo endo (fun win =>
      PReturn sc (
      '(ws, o) ← gatherP scripts endo l;
      mret (win :: ws, o))))))
  end.

(** ** The common body *)

Section Body.
Context `{Limits} {I V : Type}.
Context (readIn : Prog (I * option error)) (script : I -> Slice) (setScript : I -> Slice -> I).

Definition returnScriptBuffersP (ins : list I) (outs : list TxOutM) : Prog unit :=
  _ ← returnAllP (map script ins); returnAllP (map tom_script outs).

(** One array for all scripts. *)
Definition finishP (ins : list I) (outs : list TxOutM) : Prog (list I * list TxOutM) :=
  let total := zsum (map (fun t => sl_len (script t)) ins) +
               zsum (map (fun t => sl_len (tom_script t)) outs) in
  PMake total (fun scripts =>
  '(wi, offset) ← gatherP scripts 0 (map script ins);
  '(wo, _) ← gatherP scripts offset (map tom_script outs);
  mret (zip_with setScript ins wi, zip_with setOutScript outs wo)).

(** From the number of inputs to the end; [oldOuts] is [msg.TxOut] before. *)
Definition decodeBody (oldOuts : list TxOutM) : Prog (result (list I * list TxOutM * Z)) :=
  ptry ReadVarInt (fun e => mret (Err e)) (fun count =>
  if count >? maxTxInPerMessage then mret (Err (tooManyIn count)) else
  '(ins, e) ← readListP readIn (Z.to_nat count) [];
  match e with
  | Some e => _ ← returnScriptBuffersP ins oldOuts; mret (Err e)
  | None =>
  ptry ReadVarInt (fun e => _ ← returnScriptBuffersP ins oldOuts; mret (Err e)) (fun count =>
  if count >? maxTxOutPerMessage then
    _ ← returnScriptBuffersP ins oldOuts; mret (Err (tooManyOut "MsgTx.Bsvdecode" count))
  else
  '(outs, e) ← readListP readTxOutP (Z.to_nat count) [];
  match e with
  | Some e => _ ← returnScriptBuffersP ins outs; mret (Err e)
  | None =>
  ptry (Uint32 littleEndian)
    (fun e => _ ← returnScriptBuffersP ins outs; mret (Err e)) (fun lockTime =>
  '(ins, outs) ← finishP ins outs;
  mret (Ok (ins, outs, lockTime)))
  end)
  end).
End Body.

(** ** The two decoders *)

Definition bsvdecodeP `{Limits} (oldOuts : list TxOutM) : Prog (result MsgTxM) :=
  ptry (Uint32 littleEndian) (fun e => mret (Err e)) (fun version =>
  x ← decodeBody readTxInP tim_script setInScript oldOuts;
  match x with
  | Err e => mret (Err e)
  | Ok (ins, outs, lockTime) => mret (Ok (mkMsgTxM (to_i32 version) ins outs lockTime))
  end).

Record MsgExtendedTxM := mkMsgExtendedTxM {
  exm_Version : Z; exm_TxIn : list ExtendedTxInM; exm_TxOut : list TxOutM; exm_LockTime : Z }.

Definition setExtScript (t : ExtendedTxInM) (s : Slice) : ExtendedTxInM :=
  mkExtendedTxInM (eim_op t) (eim_satoshis t) (eim_prev t) s (eim_seq t).

Definition MsgExtendedTx_BsvdecodeP `{Limits} (oldOuts : list TxOutM) :
    Prog (result MsgExtendedTxM) :=
  ptry (Uint32 littleEndian) (fun e => mret (Err e)) (fun version =>
  ptry ReadVarInt (fun e => mret (Err e)) (fun count =>
  ptry (readFull 5) (fun e => mret (Err e)) (fun header =>
  if negb (count =? 0) || negb (bool_decide (header = efHeader))
  then mret (Err (ErrText (mkSprintf "invalid extended tx EF header" [])))
  else
  x ← decodeBody readExtendedTxInP eim_script setExtScript oldOuts;
  match x with
  | Err e => mret (Err e)
  | Ok (ins, outs, lockTime) => mret (Ok (mkMsgExtendedTxM (to_i32 version) ins outs lockTime))
  end))).

(** ** One decoder on its own *)

Lemma wp_ptry {A X} (d : Dec A) onerr (k : A -> Prog X) s own Q :
  (match fst (run d s) with
   | Ok a => wp (k a) (snd (run d s)) own Q
   | Err e => wp (onerr e) (snd (run d s)) own Q
   end) -> wp (ptry d onerr k) s own Q.
Proof. intros Hw. apply wp_bind, wp_pdec. by destruct (fst (run d s)). Qed.

Section Script.
Context (own0 : owned).

Lemma readScriptP_spec max name s l own :
  Owns own0 l own ->
  wp (readScriptP max name) s own (fun x s' own' =>
    s' = snd (run (readScript max name) s) /\ OKeeps l own own' /\
    match fst (run (readScript max name) s) with
    | Ok bs => exists b, x = Ok b /\ ocontents own' b = bs /\ Owns own0 (b :: l) own' /\ 0 < sl_cap b
    | Err e => x = Err e /\ Owns own0 l own'
    end).
Proof.
  intros HO. unfold readScript. apply wp_ptry. rewrite run_bind.
  destruct (run ReadVarInt s) as [[count|e] s1] eqn:Ec; cbn [fst snd]; [|by simpl; auto with wire].
  apply codec_exact in Ec as [-> Hc].
  destruct (count >? max); [by simpl; auto with wire|].
  cbn [wp]. intros a arr Ha Hl. set (b := mkSlice a 0 count (Z.max count freeListMaxScriptSize)).
  assert (is_buf b arr) as Hb by (split_and!; cbn [sl_off sl_len sl_cap b]; zlia).
  destruct (Owns_acquire own0 l own b arr HO Ha Hb) as [HO1 Hk1].
  unfold readFull. cbn [run sl_len b].
  destruct (ReadFull count s1) as [[bs e] s2] eqn:Er.
  apply stream_ReadFull_len in Er as [Hle Heq]; [|zlia].
  change (wp ?p ?s (<[a := arr]> own) ?Q) with (wp p s (<[sl_arr b := arr]> own) Q).
  set (own1 := <[sl_arr b := arr]> own) in *.
  assert (owns_slice own1 b) as Hob by (eapply (Owns_slice own0); [done|set_solver]).
  destruct (Owns_store own0 l own1 b b bs HO1 eq_refl Hob Hle) as [HO2 Hk2].
  cbn [wp]. split; [done|]. split; [done|]. pose proof (OKeeps_trans _ _ _ _ Hk1 Hk2) as Hk.
  destruct e as [e|]; cbn [run].
  - cbn [wp]. destruct (Owns_lookup own0 _ _ b HO2 ltac:(set_solver)) as (arr' & ? & ?).
    exists arr'. split; [done|]. split; [done|]. cbn [mret Prog_ret wp].
    apply Owns_release in HO2 as [HO3 Hk3]. split; [done|]. split; [|done].
    by eapply OKeeps_trans.
  - cbn [mret Prog_ret wp]. split; [done|]. split; [done|]. exists b. split; [done|].
    split; [|split; [done|]]; [|cbn; unfold freeListMaxScriptSize; lia].
    apply ocontents_store_full; [done|]. by apply Heq.
Qed.

(** The buffers of an element that are there. *)
Definition elem_specP {A B} (bufs : A -> list Slice) (vw : (Slice -> bytes) -> A -> B)
    (read : Prog (A * option error)) (d : Dec B) : Prop :=
  forall s l own, Owns own0 l own ->
  wp read s own (fun '(a, e) s' own' =>
    s' = snd (run d s) /\ OKeeps l own own' /\ Owns own0 (reals (bufs a) ++ l) own' /\
    match fst (run d s) with
    | Ok b => e = None /\ vw (ocontents own') a = b /\ reals (bufs a) = bufs a
    | Err e' => e = Some e'
    end).

Lemma reals_real b l : 0 < sl_cap b -> reals (b :: l) = b :: reals l.
Proof. intros Hc. unfold reals. by rewrite filter_cons, decide_True by lia. Qed.
Lemma reals_nil l : reals (nilSlice :: l) = reals l.
Proof. done. Qed.
End Script.

(** Views through any way to look at slices. *)
Definition TxIn_cview (c : Slice -> bytes) (t : TxInM) : TxIn :=
  mkTxIn (tim_op t) (c (tim_script t)) (tim_seq t).
Definition TxOut_cview (c : Slice -> bytes) (t : TxOutM) : TxOut :=
  mkTxOut (tom_value t) (c (tom_script t)).
Definition ExtendedTxIn_cview (c : Slice -> bytes) (t : ExtendedTxInM) : ExtendedTxIn :=
  mkExtendedTxIn (eim_op t) (eim_satoshis t) (c (eim_prev t)) (c (eim_script t)) (eim_seq t).

Section Elements.
Context `{Limits} (own0 : owned).

Ltac script_step Hx :=
  eapply wp_mono; [|apply readScriptP_spec; eassumption]; cbn beta;
  let x := fresh "x" in let s' := fresh "s'" in let own' := fresh "own'" in
  intros x s' own' Hx.

Lemma readTxInP_spec : elem_specP own0 (fun t => [tim_script t]) TxIn_cview readTxInP readTxIn.
Proof.
  intros s l own HO. unfold readTxInP, readTxIn. apply wp_ptry. rewrite run_bind.
  destruct (run readOutPoint s) as [[op|e] s1]; cbn [fst snd]; [|by simpl; auto with wire].
  apply wp_bind. script_step Hx. destruct Hx as (-> & Hk & Hx). rewrite !run_bind.
  destruct (run (readScript _ _) s1) as [[bs|e] s2]; cbn [fst snd] in *.
  2: { destruct Hx as [-> HO']. by simpl. }
  destruct Hx as (b & -> & Hc & HO' & Hp). apply wp_ptry. rewrite run_bind. cbn [readElement elem_val].
  destruct (run (Uint32 littleEndian) s2) as [[sq|e] s3]; cbn [fst snd mret Prog_ret wp run Dec_ret tim_script];
    rewrite (reals_real b []) by done; split_and!; try done.
  by unfold TxIn_cview; cbn [tim_op tim_script tim_seq]; rewrite Hc.
Qed.

Lemma readTxOutP_spec : elem_specP own0 (fun t => [tom_script t]) TxOut_cview readTxOutP readTxOut.
Proof.
  intros s l own HO. unfold readTxOutP, readTxOut. apply wp_ptry. rewrite run_bind.
  change (elem_val Tint64) with Z.
  destruct (run (readElement Tint64 : Dec Z) s) as [[v|e] s1]; cbn [fst snd]; [|by simpl; auto with wire].
  apply wp_bind. script_step Hx. destruct Hx as (-> & Hk & Hx). rewrite !run_bind.
  destruct (run (readScript _ _) s1) as [[bs|e] s2]; cbn [fst snd] in *.
  2: { destruct Hx as [-> HO']. by simpl. }
  destruct Hx as (b & -> & Hc & HO' & Hp). cbn [fst snd mret Prog_ret wp run Dec_ret tom_script].
  rewrite (reals_real b []) by done. split_and!; try done.
  by unfold TxOut_cview; cbn [tom_value tom_script]; rewrite Hc.
Qed.

Lemma readExtendedTxInP_spec :
  elem_specP own0 (fun t => [eim_script t; eim_prev t]) ExtendedTxIn_cview
    readExtendedTxInP readExtendedTxIn.
Proof.
  intros s l own HO. unfold readExtendedTxInP, readExtendedTxIn. apply wp_ptry. rewrite run_bind.
  destruct (run readOutPoint s) as [[op|e] s1]; cbn [fst snd]; [|by simpl; auto with wire].
  apply wp_bind. script_step Hx. destruct Hx as (-> & Hk & Hx). rewrite !run_bind.
  destruct (run (readScript _ _) s1) as [[sig|e] s2]; cbn [fst snd] in *.
  2: { destruct Hx as [-> HO']. by simpl. }
  destruct Hx as (b & -> & Hc & HO' & Hp).
  apply wp_ptry. rewrite run_bind. cbn [readElement elem_val].
  destruct (run (Uint32 littleEndian) s2) as [[sq|e] s3]; cbn [fst snd];
    [|cbn [mret Prog_ret wp eim_script eim_prev]; rewrite (reals_real b) by done; by split_and!].
  apply wp_ptry. rewrite run_bind.
  destruct (run (Uint64 littleEndian) s3) as [[sat|e] s4]; cbn [fst snd];
    [|cbn [mret Prog_ret wp eim_script eim_prev]; rewrite (reals_real b) by done; by split_and!].
  apply wp_bind. script_step Hy. destruct Hy as (-> & Hk' & Hy). rewrite run_bind.
  assert (OKeeps l own own'0) as Hkk.
  { eapply OKeeps_trans; [done|]. eapply OKeeps_sub; [|done]. set_solver. }
  destruct (run (readScript _ _) s4) as [[prev|e] s5]; cbn [fst snd] in *.
  2: { destruct Hy as [-> HO2]. cbn [mret Prog_ret wp eim_script eim_prev]. rewrite (reals_real b) by done.
       by split_and!. }
  destruct Hy as (b' & -> & Hc' & HO2 & Hp'). cbn [mret Prog_ret wp run Dec_ret eim_script eim_prev].
  rewrite (reals_real b), (reals_real b') by done. split_and!; try done.
  - eapply Owns_perm; [|done]. apply Permutation_swap.
  - unfold ExtendedTxIn_cview. cbn. by rewrite Hc', (Hk' b), Hc by set_solver.
Qed.
End Elements.

(** *** Loops *)

Section Loops.
Context (own0 : owned).

Section List.
Context {A B : Type} (bufs : A -> list Slice) (vw : (Slice -> bytes) -> A -> B)
  (read : Prog (A * option error)) (d : Dec B)
  (Hread : elem_specP own0 bufs vw read d)
  (Hvw : forall c c' a, (forall t, t ∈ bufs a -> c t = c' t) -> vw c a = vw c' a).

Lemma OKeeps_views l own own' :
  OKeeps (flat_map bufs l) own own' -> map (vw (ocontents own')) l = map (vw (ocontents own)) l.
Proof.
  intros Hk. apply map_ext_in. intros a Ha. apply Hvw. intros t Ht. apply Hk.
  apply list_elem_of_In, in_flat_map. exists a. split; [done|]. by apply list_elem_of_In.
Qed.

Lemma readListP_spec n acc s l own :
  Owns own0 (flat_map bufs acc ++ l) own -> reals (flat_map bufs acc) = flat_map bufs acc ->
  let r := run (dloop n (fun l => x ← d; mret (l ++ [x])) (map (vw (ocontents own)) acc)) s in
  wp (readListP read n acc) s own (fun '(xs, e) s' own' =>
    s' = snd r /\ OKeeps l own own' /\ Owns own0 (reals (flat_map bufs xs) ++ l) own' /\
    match fst r with
    | Ok bs => e = None /\ map (vw (ocontents own')) xs = bs /\
               reals (flat_map bufs xs) = flat_map bufs xs
    | Err e' => e = Some e'
    end).
Proof.
  revert acc s own. induction n as [|n IH]; intros acc s own HO Hr; cbn zeta.
  { cbn. rewrite Hr. split_and!; auto with wire. }
  cbn [readListP dloop]. rewrite !run_bind. apply wp_bind.
  eapply wp_mono; [|apply (Hread s _ _ HO)]; cbn beta.
  intros [a e] s' own' (-> & Hk & HO' & Hres).
  assert (OKeeps l own own') as Hkl by (eapply OKeeps_sub; [|exact Hk]; set_solver).
  destruct (run d s) as [[b|e'] s1]; cbn [fst snd] in *.
  - destruct Hres as (-> & Hb & Hra). rewrite Hra in HO'.
    assert (map (vw (ocontents own)) acc ++ [b] = map (vw (ocontents own')) (acc ++ [a])) as Eacc.
    { rewrite map_app. cbn [map]. rewrite Hb, (OKeeps_views acc own own'); [done|].
      eapply OKeeps_sub; [|exact Hk]. set_solver. }
    cbn [run mret Dec_ret]. rewrite Eacc. eapply wp_mono; [|apply IH].
    + cbn beta. intros [xs e] s'' own'' (? & Hk2 & ?). split; [done|]. split; [|done].
      by eapply OKeeps_trans.
    + eapply Owns_perm; [|exact HO']. rewrite flat_map_app. cbn [flat_map].
      rewrite app_nil_r, <- app_assoc. apply Permutation_app_swap_app.
    + rewrite flat_map_app, reals_app, Hr. cbn [flat_map]. by rewrite app_nil_r, Hra.
  - subst e. cbn [mret Prog_ret wp]. split; [done|]. split; [done|]. split; [|done].
    eapply Owns_perm; [|exact HO']. rewrite flat_map_app, reals_app, Hr. cbn [flat_map].
    rewrite app_nil_r, <- app_assoc. apply Permutation_app_swap_app.
Qed.
End List.

Lemma returnAllP_spec sl s l own :
  Owns own0 (reals sl ++ l) own ->
  wp (returnAllP sl) s own (fun _ s' own' => s' = s /\ Owns own0 l own' /\ OKeeps l own own').
Proof.
  revert own. induction sl as [|b sl IH]; intros own HO; [by cbn; auto with wire|].
  cbn [returnAllP]. unfold isNil. unfold reals in HO. rewrite filter_cons in HO.
  fold (reals sl) in HO. destruct (Z.eqb_spec (sl_cap b) 0) as [E|E]; case_decide; try done; [by apply IH|].
  cbn [wp]. destruct (Owns_lookup own0 _ _ b HO ltac:(set_solver)) as (arr & ? & ?).
  exists arr. split; [done|]. split; [done|]. apply Owns_release in HO as [HO Hk].
  eapply wp_mono; [|by apply IH]. cbn beta. intros _ s' own' (-> & ? & ?). split; [done|]. split; [done|].
  eapply OKeeps_trans; [|done]. eapply OKeeps_sub; [|exact Hk]. set_solver.
Qed.

(** [w] is the window from [lo] to at most [hi] of the array of [scripts]. *)
Definition window (scripts : Slice) (lo hi : Z) (w : Slice) : Prop :=
  sl_arr w = sl_arr scripts /\ lo <= sl_off w /\ 0 <= sl_len w /\ sl_cap w = sl_len w /\
  sl_off w + sl_len w <= hi.

Lemma window_weaken scripts lo hi lo' hi' w :
  window scripts lo hi w -> lo' <= lo -> hi <= hi' -> window scripts lo' hi' w.
Proof. unfold window. intuition lia. Qed.

Lemma len_ocontents_buf l own t : Owns own0 l own -> t ∈ l -> len (ocontents own t) = sl_len t.
Proof.
  intros HO Ht. destruct (Owns_lookup _ _ _ _ HO Ht) as (arr & Ha & Ho & Hl & Hc).
  unfold ocontents. rewrite Ha, Ho. cbn. unfold len. rewrite length_take, drop_0. zlia.
Qed.

Lemma Owns_zsum l rest own :
  Owns own0 (l ++ rest) own -> 0 <= zsum (map sl_len l).
Proof.
  intros HO. apply zsum_nonneg. intros t Ht.
  destruct (Owns_lookup _ _ _ t HO ltac:(set_solver)) as (? & _ & _ & ? & _). lia.
Qed.

Lemma gatherP_spec scripts l offset rest s own :
  Owns own0 (scripts :: l ++ rest) own -> sl_cap scripts = sl_len scripts ->
  0 <= offset -> offset + zsum (map sl_len l) <= sl_len scripts ->
  wp (gatherP scripts offset l) s own (fun '(ws, o) s' own' =>
    s' = s /\ o = offset + zsum (map sl_len l) /\ Owns own0 (scripts :: rest) own' /\
    OKeeps rest own own' /\ map (ocontents own') ws = map (ocontents own) l /\
    Forall (window scripts offset o) ws /\
    (forall lo t, window scripts lo offset t -> 0 <= lo -> ocontents own' t = ocontents own t)).
Proof.
  revert offset own. induction l as [|sc l IH]; intros offset own HO Hcap Hof Hsum.
  { cbn. split_and!; auto with wire lia. }
  cbn [map zsum foldr] in Hsum. fold (zsum (map sl_len l)) in Hsum.
  assert (0 <= zsum (map sl_len l)) as Hz.
  { apply (Owns_zsum l (scripts :: sc :: rest) own). eapply Owns_perm; [|exact HO].
    by rewrite <- !Permutation_middle. }
  destruct (Owns_lookup _ _ _ sc HO ltac:(clear; set_solver)) as (? & _ & _ & Hsc & _).
  destruct (Owns_lookup _ _ _ scripts HO ltac:(clear; set_solver)) as (arr & Harr & Ho0 & Hl0 & Hc0).
  cbn [gatherP wp]. split; [unfold s3_ok; lia|].
  set (room := s3 scripts offset (sl_len scripts) (sl_cap scripts)).
  split; [eapply Owns_slice; [done|clear; set_solver]|]. set (bs := ocontents own sc).
  assert (len bs = sl_len sc) as Hbs by (eapply len_ocontents_buf; [exact HO|clear; set_solver]).
  assert (owns_slice own room) as Hroom.
  { exists arr. subst room. unfold s3. cbn. split_and!; try done; lia. }
  rewrite firstn_all2 by (subst room; unfold s3; cbn; zlia).
  assert (len bs <= sl_len room) as Hfit by (subst room; unfold s3; cbn; lia).
  split; [done|]. split; [done|].
  split; [unfold s3_ok; lia|]. set (win := s3 scripts offset _ _).
  destruct (Owns_store own0 _ own scripts room bs HO eq_refl Hroom Hfit) as [HO1 Hk1].
  assert (Owns own0 (sc :: scripts :: l ++ rest) (ostore own room bs)) as HO1'
    by (eapply Owns_perm; [|exact HO1]; apply Permutation_swap).
  destruct (Owns_lookup _ _ _ sc HO1' ltac:(clear; set_solver)) as (asc & ? & ?).
  exists asc. split; [done|]. split; [done|].
  apply Owns_release in HO1' as [HO2 Hk2]. set (own2 := delete _ _) in *.
  assert (forall t, sl_arr t = sl_arr scripts -> ocontents own2 t = ocontents (ostore own room bs) t) as Hk2'.
  { intros t Et. apply ocontents_ne. unfold own2. apply lookup_delete_ne. rewrite Et.
    intros E. by eapply (Owns_notin own0 _ _ scripts sc HO1); [clear; set_solver|]. }
  apply wp_bind. eapply wp_mono; [|by apply (IH (offset + sl_len sc)); [exact HO2|..]; lia].
  cbn beta. intros [ws o] s' own' (-> & -> & HO3 & Hk3 & Hws & Hwin & Hold).
  cbn [mret Prog_ret wp]. split; [done|]. split; [cbn [map zsum foldr]; fold (zsum (map sl_len l)); lia|].
  split; [done|].
  assert (window scripts offset (offset + sl_len sc) win) as Hww.
  { subst win. unfold s3, window. cbn. split_and!; try done; lia. }
  split_and!.
  - intros t Ht. rewrite Hk3 by done. rewrite Hk2, Hk1 by (clear -Ht; set_solver). done.
  - cbn [map]. f_equal.
    + rewrite (Hold offset win) by (done || lia). rewrite Hk2' by done.
      replace win with (mkSlice (sl_arr room) (sl_off room) (len bs) (len bs))
        by (subst win room; unfold s3; cbn; f_equal; lia).
      by apply ocontents_store.
    + rewrite Hws. apply map_ext_in. intros t Ht%list_elem_of_In.
      rewrite Hk2, Hk1 by (clear -Ht; set_solver). done.
  - constructor.
    + eapply window_weaken; [exact Hww|done|cbn [map zsum foldr]; fold (zsum (map sl_len l)); lia].
    + eapply list.Forall_impl; [exact Hwin|]. intros t Ht. eapply window_weaken; [exact Ht|lia..].
  - intros lo t (Et & Hlo & Hlen & Hct & Hhi) Hlo0.
    rewrite (Hold lo t) by (done || (unfold window; intuition lia)). rewrite Hk2' by done.
    apply ocontents_store_before; try done; [lia|]. subst room. unfold s3. cbn. lia.
Qed.
End Loops.

(** *** The common body *)

Lemma map_zip_view_in {A B C} (f : A -> Slice -> A) (scr : A -> Slice) (vw vw' : A -> C)
    (c c' : Slice -> B) l k :
  map c' k = map c (map scr l) ->
  (forall a s, a ∈ l -> c' s = c (scr a) -> vw' (f a s) = vw a) ->
  map vw' (zip_with f l k) = map vw l.
Proof.
  revert k. induction l as [|a l IH]; intros [|s k] Hc Hf; simplify_eq/=; [done|].
  f_equal; [apply Hf; [set_solver|done]|]. apply IH; [done|]. intros; apply Hf; [set_solver|done].
Qed.

Section BodySpec.
Context `{Limits} {I V : Type} (own0 : owned).
Context (readIn : Prog (I * option error)) (script : I -> Slice) (setScript : I -> Slice -> I)
  (kept : I -> list Slice) (vw : (Slice -> bytes) -> I -> V) (d : Dec V).
Context (Hread : elem_specP own0 (fun a => script a :: kept a) vw readIn d)
  (Hvw : forall c c' a, (forall t, t ∈ script a :: kept a -> c t = c' t) -> vw c a = vw c' a)
  (Hset : forall a t, script (setScript a t) = t /\ kept (setScript a t) = kept a)
  (Hvset : forall c c' a t, c' t = c (script a) -> (forall u, u ∈ kept a -> c' u = c u) ->
     vw c' (setScript a t) = vw c a).

Definition bodyDec : Dec (list V * list TxOut * Z) :=
  ins ← (count ← ReadVarInt;
         if count >? maxTxInPerMessage then DFail (tooManyIn count) else dlist (Z.to_nat count) d);
  outs ← readTxOuts;
  lockTime ← Uint32 littleEndian;
  mret (ins, outs, lockTime).

(** The scripts of a result: windows that end where their bytes end, and the
    buffers that are kept. *)
Definition results (own : owned) (ins : list I) (outs : list TxOutM) : Prop :=
  Forall (owns_slice own) (flat_map kept ins) /\
  Forall (fun w => owns_slice own w /\ sl_cap w = sl_len w) (map script ins ++ map tom_script outs) /\
  (forall t, t ∈ flat_map kept ins ++ map script ins ++ map tom_script outs ->
     own0 !! sl_arr t = None).

Lemma flat_map_split (l : list I) :
  flat_map (fun a => script a :: kept a) l ≡ₚ map script l ++ flat_map kept l.
Proof.
  induction l as [|a l IH]; [done|]. cbn [flat_map map app]. apply perm_skip. rewrite IH.
  apply Permutation_app_swap_app.
Qed.

Lemma reals_split (l : list I) :
  reals (flat_map (fun a => script a :: kept a) l) ≡ₚ
  reals (map script l) ++ reals (flat_map kept l).
Proof. unfold reals. by rewrite flat_map_split, list.filter_app. Qed.

Lemma window_owned own scripts rest lo hi w :
  Owns own0 (scripts :: rest) own -> window scripts lo hi w -> 0 <= lo -> hi <= sl_len scripts ->
  (owns_slice own w /\ sl_cap w = sl_len w) /\ own0 !! sl_arr w = None.
Proof.
  intros HO (Ea & Hlo & Hln & Hc & Hhi) H0 Hle.
  destruct (Owns_lookup _ _ _ scripts HO ltac:(set_solver)) as (arr & Ha & Ho & Hl & Hca).
  split; [split; [|done]|].
  - exists arr. rewrite Ea. split_and!; try done; lia.
  - rewrite Ea. destruct HO as (_ & HO & _). by apply HO; set_solver.
Qed.

Lemma kept_setScript ins wi :
  length wi = length ins -> flat_map kept (zip_with setScript ins wi) = flat_map kept ins.
Proof.
  revert wi. induction ins as [|x l IH]; intros [|w wi] Li; simplify_eq/=; [done|].
  by rewrite (proj2 (Hset _ _)), IH.
Qed.

Lemma window_results own scripts ins outs o n :
  Owns own0 (scripts :: flat_map kept ins) own ->
  Forall (window scripts 0 o) (map script ins) -> Forall (window scripts o n) (map tom_script outs) ->
  0 <= o <= n -> n <= sl_len scripts -> results own ins outs.
Proof.
  intros HO Hwi Hwo Ho Hn. rewrite list.Forall_forall in Hwi, Hwo.
  assert (forall w, w ∈ map script ins ++ map tom_script outs ->
      (owns_slice own w /\ sl_cap w = sl_len w) /\ own0 !! sl_arr w = None) as Hw.
  { intros w [Hw|Hw]%elem_of_app.
    - eapply (window_owned own scripts); [exact HO|by apply Hwi|lia|lia].
    - eapply (window_owned own scripts); [exact HO|by apply Hwo|lia|lia]. }
  split_and!.
  - apply list.Forall_forall. intros t Ht. eapply Owns_slice; [exact HO|set_solver].
  - apply list.Forall_forall. intros w Hin. by apply Hw.
  - intros t [Ht|Ht]%elem_of_app; [|by apply Hw]. destruct HO as (_ & HO & _). by apply HO; set_solver.
Qed.

Lemma finishP_spec ins outs s own :
  Owns own0 (map script ins ++ map tom_script outs ++ flat_map kept ins) own ->
  wp (finishP script setScript ins outs) s own (fun '(ins', outs') s' own' =>
    s' = s /\ own0 ⊆ own' /\ map (vw (ocontents own')) ins' = map (vw (ocontents own)) ins /\
    map (TxOut_cview (ocontents own')) outs' = map (TxOut_cview (ocontents own)) outs /\
    results own' ins' outs').
Proof.
  intros HO. unfold finishP.
  rewrite <- (map_map script sl_len), <- (map_map tom_script sl_len).
  assert (Forall (fun t => 0 <= sl_len t) (map script ins ++ map tom_script outs)) as Hnn.
  { apply list.Forall_forall. intros t Ht.
    destruct (Owns_lookup _ _ _ t HO ltac:(set_solver)) as (? & _ & _ & [? _] & _). done. }
  apply Forall_app in Hnn as [Hni Hno]. rewrite list.Forall_forall in Hni, Hno.
  pose proof (zsum_nonneg sl_len (map script ins) Hni) as Hzi.
  pose proof (zsum_nonneg sl_len (map tom_script outs) Hno) as Hzo.
  set (total := _ + _). cbn [wp]. split; [lia|]. intros a Ha. set (scripts := mkSlice a 0 total total).
  destruct (Owns_acquire own0 _ own scripts (zeros (Z.to_nat total)) HO Ha) as [HO1 Hk1].
  { unfold is_buf, zeros. cbn. rewrite len_replicate. lia. }
  set (ownS := <[sl_arr scripts := _]> own) in HO1, Hk1.
  change (<[a := zeros (Z.to_nat total)]> own) with ownS. apply wp_bind.
  eapply wp_mono; [|by apply (gatherP_spec own0 scripts (map script ins) 0); [exact HO1|..]; cbn; lia].
  cbn beta. intros [wi o1] s' own1 (-> & -> & HO2 & Hk2 & Hci & Hwi & _).
  apply wp_bind. eapply wp_mono; [|by apply (gatherP_spec own0 scripts (map tom_script outs)); [exact HO2|..]; cbn; lia].
  cbn beta. intros [wo o2] s' own2 (-> & -> & HO3 & Hk3 & Hco & Hwo & Hold). cbn [mret Prog_ret wp].
  assert (map (ocontents own2) wi = map (ocontents own) (map script ins)) as Hci'.
  { transitivity (map (ocontents own1) wi).
    - apply map_ext_in. intros w Hw%list_elem_of_In. rewrite list.Forall_forall in Hwi.
      apply (Hold 0 w); [by apply Hwi|done].
    - rewrite Hci. apply OKeeps_map. eapply OKeeps_sub; [|exact Hk1]. set_solver. }
  assert (map (ocontents own2) wo = map (ocontents own) (map tom_script outs)) as Hco'.
  { rewrite Hco. apply map_ext_in. intros t Ht%list_elem_of_In.
    rewrite (Hk2 t), (Hk1 t) by set_solver. done. }
  assert (OKeeps (flat_map kept ins) own own2) as Hkk.
  { intros t Ht. rewrite (Hk3 t), (Hk2 t), (Hk1 t) by set_solver. done. }
  pose proof (f_equal length Hci') as Li. pose proof (f_equal length Hco') as Lo.
  rewrite !length_map in Li, Lo.
  assert (map script (zip_with setScript ins wi) = wi) as Ewi
    by (apply map_zip_with_1; [done|apply Hset]).
  assert (map tom_script (zip_with setOutScript outs wo) = wo) as Ewo by (by apply map_zip_with_1).
  split; [done|]. split; [by eapply Owns_sub|]. split_and!.
  - eapply (map_zip_view_in setScript script); [exact Hci'|]. intros x t Hx Et. apply Hvset; [done|].
    intros u Hu. apply Hkk. apply list_elem_of_In, in_flat_map. exists x. by rewrite <- !list_elem_of_In.
  - eapply (map_zip_view_in setOutScript tom_script); [exact Hco'|]. intros x t Hx Et.
    unfold TxOut_cview. cbn. by rewrite Et.
  - eapply (window_results own2 scripts); rewrite ?Ewi, ?Ewo, ?kept_setScript by done;
      [done..|cbn; lia|cbn; lia].
Qed.

Lemma returnScriptBuffersP_spec ins outs rest s own (X : Type) (x : X) :
  Owns own0 (reals (map script ins) ++ reals (map tom_script outs) ++ rest) own ->
  wp (_ ← returnScriptBuffersP script ins outs; mret x) s own (fun y s' own' =>
    y = x /\ s' = s /\ Owns own0 rest own').
Proof.
  intros HO. apply wp_bind. unfold returnScriptBuffersP. apply wp_bind.
  eapply wp_mono; [|apply returnAllP_spec; exact HO]. cbn beta. intros _ s' own1 (-> & HO1 & _).
  eapply wp_mono; [|apply returnAllP_spec; exact HO1]. cbn beta. by intros _ s' own2 (-> & HO2 & _).
Qed.

(** What the body does, for a receiver without outputs. *)
Definition body_post (s : stream) (x : result (list I * list TxOutM * Z)) (s' : stream) (own' : owned) :
    Prop :=
  s' = snd (run bodyDec s) /\ own0 ⊆ own' /\
  match fst (run bodyDec s) with
  | Ok (vi, vo, lt) => exists ins outs, x = Ok (ins, outs, lt) /\
      map (vw (ocontents own')) ins = vi /\ map (TxOut_cview (ocontents own')) outs = vo /\
      results own' ins outs
  | Err e => x = Err e /\ exists ins, Owns own0 (reals (flat_map kept ins)) own'
  end.

Lemma wp_body_err ins outs s s0 own e :
  Owns own0 (reals (map script ins) ++ reals (map tom_script outs) ++ reals (flat_map kept ins)) own ->
  run bodyDec s0 = (Err e, s) ->
  wp (_ ← returnScriptBuffersP script ins outs; mret (Err e)) s own (body_post s0).
Proof.
  intros HO Hr. eapply wp_mono; [|apply returnScriptBuffersP_spec; exact HO].
  cbn beta. intros x s' own' (-> & -> & HO'). unfold body_post. rewrite Hr. cbn [fst snd].
  split; [done|]. split; [by eapply Owns_sub|]. eauto.
Qed.

Lemma flat_map_tom_script (outs : list TxOutM) :
  flat_map (fun t => [tom_script t]) outs = map tom_script outs.
Proof. induction outs; cbn; by f_equal. Qed.

Lemma decodeBody_spec s :
  wp (decodeBody readIn script setScript []) s own0 (body_post s).
Proof.
  unfold decodeBody. remember (run bodyDec s) as r eqn:Er. symmetry in Er.
  pose proof Er as Er'. unfold bodyDec, readTxOuts in Er'. rewrite !run_bind in Er'. apply wp_ptry.
  assert (forall e s', r = (Err e, s') -> wp (mret (Err e)) s' own0 (body_post s)) as Hstart.
  { intros e s' ->. unfold body_post. cbn [mret Prog_ret wp]. rewrite Er. cbn [fst snd]. split_and!; try done.
    exists []. apply Owns_refl. }
  destruct (run ReadVarInt s) as [[count|e] s1]; cbn [fst snd] in *; [|by apply Hstart].
  destruct (count >? maxTxInPerMessage) eqn:Ecount; cbn [run] in Er'; [by apply Hstart|].
  clear Hstart. apply wp_bind. unfold dlist in Er'.
  eapply wp_mono; [|apply (readListP_spec own0 _ vw readIn d Hread Hvw _ [] s1 []);
                      [rewrite app_nil_r; apply Owns_refl|done]].
  cbn [map]. cbn beta. intros [ins e] s' own1 (-> & _ & HO1 & Hres). rewrite app_nil_r in HO1.
  destruct (run (dloop _ _ []) s1) as [[vi|e'] s2]; cbn [fst snd] in *.
  2: { subst e. apply wp_body_err; [|by rewrite Er, <- Er']. eapply Owns_perm; [|exact HO1].
       apply reals_split. }
  destruct Hres as (-> & <- & Hri).
  assert (Owns own0 (reals (map script ins) ++ reals (map tom_script []) ++ reals (flat_map kept ins)) own1)
    as HO1' by (eapply Owns_perm; [|exact HO1]; apply reals_split).
  rewrite !run_bind in Er'. apply wp_ptry.
  destruct (run ReadVarInt s2) as [[count'|e] s3]; cbn [fst snd] in *;
    [|apply wp_body_err; [done|by rewrite Er, <- Er']].
  destruct (count' >? maxTxOutPerMessage) eqn:Ecount'; cbn [run] in Er';
    [apply wp_body_err; [done|by rewrite Er, <- Er']|].
  apply wp_bind.
  eapply wp_mono; [|apply (readListP_spec own0 _ TxOut_cview readTxOutP readTxOut
                             (readTxOutP_spec own0)
                             ltac:(intros c c' x Hx; unfold TxOut_cview; by rewrite Hx by set_solver)
                             _ [] s3); [exact HO1|done]].
  cbn [map]. cbn beta. intros [outs e] s' own2 (-> & Hk & HO2 & Hres).
  assert (Owns own0 (reals (map script ins) ++ reals (map tom_script outs) ++ reals (flat_map kept ins)) own2)
    as HO2'.
  { eapply Owns_perm; [|exact HO2].
    by rewrite reals_split, Permutation_app_swap_app, flat_map_tom_script. }
  unfold dlist in Er'. destruct (run (dloop _ _ []) s3) as [[vo|e'] s4]; cbn [fst snd] in *.
  2: { subst e. apply wp_body_err; [done|by rewrite Er, <- Er']. }
  destruct Hres as (-> & <- & Hro). rewrite run_bind in Er'. apply wp_ptry.
  destruct (run (Uint32 littleEndian) s4) as [[lt|e] s5]; cbn [fst snd] in *;
    [|apply wp_body_err; [done|by rewrite Er, <- Er']].
  apply wp_bind. eapply wp_mono; [|apply finishP_spec].
  - cbn beta. intros [ins' outs'] s' own3 (-> & Hsub & Hvi & Hvo & Hr). cbn [mret Prog_ret wp].
    unfold body_post. rewrite Er, <- Er'. cbn [run mret Dec_ret fst snd]. split; [done|]. split; [done|].
    exists ins', outs'. split_and!; try done. rewrite Hvi. apply (OKeeps_views _ vw Hvw).
    by rewrite Hri in Hk.
  - eapply Owns_perm; [|exact HO2]. rewrite Hri, Hro, flat_map_split, flat_map_tom_script.
    apply Permutation_app_swap_app.
Qed.
End BodySpec.

(** *** The two decoders *)

Definition MsgTx_cview (c : Slice -> bytes) (t : MsgTxM) : MsgTx :=
  mkMsgTx (txm_Version t) (map (TxIn_cview c) (txm_TxIn t)) (map (TxOut_cview c) (txm_TxOut t))
    (txm_LockTime t).

Definition MsgExtendedTx_cview (c : Slice -> bytes) (t : MsgExtendedTxM) : MsgExtendedTx :=
  mkMsgExtendedTx (exm_Version t) (map (ExtendedTxIn_cview c) (exm_TxIn t))
    (map (TxOut_cview c) (exm_TxOut t)) (exm_LockTime t).

(** All slices of a message. *)
Definition ext_scripts (t : MsgExtendedTxM) : list Slice :=
  map eim_prev (exm_TxIn t) ++ map eim_script (exm_TxIn t) ++ map tom_script (exm_TxOut t).

(** What a decoder holds at its end: the message, in arrays of its own. *)
Definition delivers {T V} (vw : (Slice -> bytes) -> T -> V) (scr : T -> list Slice) (d : Dec V)
    (s : stream) (own0 : owned) (x : result T) (s' : stream) (own' : owned) : Prop :=
  s' = snd (run d s) /\ own0 ⊆ own' /\
  match fst (run d s) with
  | Ok v => exists t, x = Ok t /\ vw (ocontents own') t = v /\ Forall (owns_slice own') (scr t) /\
      (forall u, u ∈ scr t -> own0 !! sl_arr u = None)
  | Err e => x = Err e
  end.

Lemma flat_map_nil {A B} (l : list A) : flat_map (fun _ => @nil B) l = [].
Proof. by induction l. Qed.
Lemma flat_map_single {A B} (f : A -> B) (l : list A) : flat_map (fun x => [f x]) l = map f l.
Proof. by induction l; [|cbn; f_equal]. Qed.

Lemma run_bind_body {V T} `{Limits} (ins : Dec (list V)) (g : list V -> list TxOut -> Z -> T) (s : stream) :
  run (vi ← ins; vo ← readTxOuts; lt ← Uint32 littleEndian; mret (g vi vo lt)) s =
  (let '(x, s') := run (vi ← ins; vo ← readTxOuts; lt ← Uint32 littleEndian; mret (vi, vo, lt)) s in
   (match x with Ok (vi, vo, lt) => Ok (g vi vo lt) | Err e => Err e end, s')).
Proof.
  rewrite !run_bind. destruct (run ins s) as [[vi|e] s1]; [|done].
  rewrite !run_bind. destruct (run readTxOuts s1) as [[vo|e] s2]; [|done].
  rewrite !run_bind. by destruct (run (Uint32 littleEndian) s2) as [[lt|e] s3].
Qed.

Section Decoders.
Context `{Limits}.

(** A decoder of transactions gives everything back when it fails. *)
Lemma bsvdecodeP_spec s own0 :
  wp (bsvdecodeP []) s own0 (fun x s' own' =>
    delivers MsgTx_cview tx_scripts MsgTx_Bsvdecode s own0 x s' own' /\
    (forall t, x = Ok t -> Forall (fun u => sl_cap u = sl_len u) (tx_scripts t)) /\
    (forall e, x = Err e -> own' = own0)).
Proof.
  unfold bsvdecodeP, delivers, MsgTx_Bsvdecode. apply wp_ptry. rewrite run_bind.
  destruct (run (Uint32 littleEndian) s) as [[version|e] s1]; cbn [fst snd]; [|by cbn].
  apply wp_bind. eapply wp_mono; [|apply (decodeBody_spec own0 readTxInP tim_script setInScript
    (fun _ => []) TxIn_cview readTxIn (readTxInP_spec own0))].
  - cbn beta. intros x s' own' (-> & Hsub & Hres).
    rewrite (run_bind_body readTxIns (fun vi vo lt => mkMsgTx (to_i32 version) vi vo lt)).
    unfold bodyDec in *. fold readTxIns in Hres |- *.
    destruct (run _ s1) as [[[[vi vo] lt]|e] s2]; cbn [fst snd] in *.
    + destruct Hres as (ins & outs & -> & <- & <- & _ & Hr & Hfr). rewrite flat_map_nil in Hfr.
      apply list.Forall_and in Hr as [Hr1 Hr2].
      cbn [mret Prog_ret wp]. split_and!; [done|done| |naive_solver|done].
      by exists (mkMsgTxM (to_i32 version) ins outs lt).
    + destruct Hres as (-> & ins & HO). rewrite flat_map_nil in HO. cbn [mret Prog_ret wp].
      split_and!; try done. intros ? _. by apply Owns_nil.
  - intros c c' a Hc. unfold TxIn_cview. by rewrite Hc by set_solver.
  - done.
  - intros c c' a t Et _. unfold TxIn_cview. cbn. by rewrite Et.
Qed.

Lemma MsgExtendedTx_BsvdecodeP_spec s pver own0 :
  wp (MsgExtendedTx_BsvdecodeP []) s own0
    (delivers MsgExtendedTx_cview ext_scripts (MsgExtendedTx_Bsvdecode pver) s own0).
Proof.
  unfold MsgExtendedTx_BsvdecodeP, delivers, MsgExtendedTx_Bsvdecode. apply wp_ptry. rewrite run_bind.
  destruct (run (Uint32 littleEndian) s) as [[version|e] s1]; cbn [fst snd]; [|by cbn].
  apply wp_ptry. rewrite run_bind. destruct (run ReadVarInt s1) as [[count|e] s2]; cbn [fst snd]; [|by cbn].
  apply wp_ptry. rewrite run_bind. destruct (run (readFull 5) s2) as [[header|e] s3]; cbn [fst snd]; [|by cbn].
  destruct (negb _ || negb _); [by cbn|].
  apply wp_bind. eapply wp_mono; [|apply (decodeBody_spec own0 readExtendedTxInP eim_script setExtScript
    (fun t => [eim_prev t]) ExtendedTxIn_cview readExtendedTxIn (readExtendedTxInP_spec own0))].
  - cbn beta. intros x s' own' (-> & Hsub & Hres).
    rewrite (run_bind_body readExtendedTxIns (fun vi vo lt => mkMsgExtendedTx (to_i32 version) vi vo lt)).
    unfold bodyDec in *. fold readExtendedTxIns in Hres |- *.
    destruct (run _ s3) as [[[[vi vo] lt]|e] s4]; cbn [fst snd] in *.
    + destruct Hres as (ins & outs & -> & <- & <- & Hk & Hr & Hfr). rewrite flat_map_single in Hk, Hfr.
      apply list.Forall_and in Hr as [Hr1 Hr2].
      cbn [mret Prog_ret wp]. split_and!; [done|done|].
      exists (mkMsgExtendedTxM (to_i32 version) ins outs lt). split_and!; try done.
      apply list.Forall_app. done.
    + by destruct Hres as (-> & ins & HO).
  - intros c c' a Hc. unfold ExtendedTxIn_cview. by rewrite !Hc by set_solver.
  - done.
  - intros c c' a t Et Hk. unfold ExtendedTxIn_cview. cbn. by rewrite Et, Hk by set_solver.
Qed.
End Decoders.
