(* ===== verification/Concurrency.v ===== *)
(** * Any number of transaction decoders at once

    The properties of the decoders of [Decoders.v]: alone (the refinement of
    [MsgExtendedTx.Bsvdecode], the agreement with [bsvdecodeM]), and together,
    in any interleaving of their steps. *)

From S2P Require Import Prelude Io Common Tx Mem TxMem ExtendedTx Goroutine Decoders.

(** ** Goroutines that decode *)

Inductive job := JTx (s : stream) | JExt (s : stream).
Inductive jobResult := RTx (x : result MsgTxM) | RExt (x : result MsgExtendedTxM).

(** Each goroutine decodes from its own connection into a new message. *)
Definition jobThread `{Limits} (j : job) : Prog jobResult * stream :=
  match j with
  | JTx s => (x ← bsvdecodeP []; mret (RTx x), s)
  | JExt s => (x ← MsgExtendedTx_BsvdecodeP []; mret (RExt x), s)
  end.

Definition startJobs `{Limits} (m : mem) (jobs : list job) : gworld jobResult :=
  mkGWorld m (map jobThread jobs).

Definition job_scripts (x : jobResult) : list Slice :=
  match x with
  | RTx (Ok t) => tx_scripts t
  | RExt (Ok t) => ext_scripts t
  | RTx (Err _) | RExt (Err _) => []
  end.

(** In the heap [h], [x] is what the decoder without memory returns for the
    connection of [j], and the connection is where it leaves it. *)
Definition job_done `{Limits} (h : heap) (j : job) (x : jobResult) (s' : stream) : Prop :=
  match j, x with
  | JTx s, RTx x =>
      agrees (fun t tx => MsgTx_view h t = tx) x (fst (run MsgTx_Bsvdecode s)) /\
      s' = snd (run MsgTx_Bsvdecode s)
  | JExt s, RExt x =>
      agrees (fun t tx => MsgExtendedTx_cview (contents h) t = tx) x
        (fst (run (MsgExtendedTx_Bsvdecode 0) s)) /\
      s' = snd (run (MsgExtendedTx_Bsvdecode 0) s)
  | _, _ => False
  end.

(** ** The rest of the program

    The arrays that are not in the pool when the decoders start belong to the
    rest of the program: one owner more, which does nothing. *)

Definition outside (m : mem) : owned :=
  filter (fun '(a, _) => a ∉ arrays (m_pool m)) (map_seq 0 (m_heap m)).

Lemma lookup_outside m a arr :
  outside m !! a = Some arr <-> m_heap m !! a = Some arr /\ a ∉ arrays (m_pool m).
Proof. unfold outside. rewrite map_lookup_filter_Some, lookup_map_seq_0. done. Qed.

Lemma MemInv_outside m k : PoolOk m -> MemInv m (outside m :: replicate k ∅).
Proof.
  intros HI. pose proof (PoolOk_MemInv m HI) as [Hnd Hp Hs _ _ _].
  assert (forall i own a, (outside m :: replicate k ∅) !! i = Some own -> is_Some (own !! a) ->
            i = 0%nat /\ own = outside m) as Hc.
  { intros [|i] own a Hi Ha; [naive_solver|]. cbn in Hi. apply lookup_replicate in Hi as [-> _].
    rewrite lookup_empty in Ha. by destruct Ha. }
  split; try done.
  - intros i own a arr Hi Ha. destruct (Hc i own a Hi ltac:(eauto)) as [-> ->].
    by apply lookup_outside in Ha as [? _].
  - intros i own a Hi Ha. destruct (Hc i own a Hi Ha) as [-> ->]. destruct Ha as [arr Ha].
    by apply lookup_outside in Ha as [_ ?].
  - intros i j o1 o2 a Hi Hj H1 H2. destruct (Hc i o1 a Hi H1) as [-> _].
    by destruct (Hc j o2 a Hj H2) as [-> _].
Qed.

(** A goroutine that has ended does not disturb the others. *)
Lemma gstep_cons {A} (w w' : gworld A) x :
  gstep w w' ->
  gstep (mkGWorld (gw_mem w) (x :: gw_threads w)) (mkGWorld (gw_mem w') (x :: gw_threads w')).
Proof.
  intros [m ts i p s m' p' s' Hi Hp]. cbn [gw_mem gw_threads].
  change (x :: <[i := (p', s')]> ts) with (<[S i := (p', s')]> (x :: ts)). by econstructor.
Qed.

Section Jobs.
Context `{Limits} (m : mem) (jobs : list job) (HI : PoolOk m).

(** What each goroutine holds at its end; number 0 is the rest of the program. *)
Definition job_post (i : nat) (x : jobResult) (s' : stream) (own : owned) : Prop :=
  match i with
  | O => own = outside m
  | S i =>
      match jobs !! i with
      | Some (JTx s) => exists r, x = RTx r /\
          delivers MsgTx_cview tx_scripts MsgTx_Bsvdecode s ∅ r s' own
      | Some (JExt s) => exists r, x = RExt r /\
          delivers MsgExtendedTx_cview ext_scripts (MsgExtendedTx_Bsvdecode 0) s ∅ r s' own
      | None => False
      end
  end.

Definition rest : Prog jobResult * stream := (PRet (RTx (Err EOF)), mkStream [] EOF).

Lemma jobs_start : WorldInv job_post (mkGWorld m (rest :: map jobThread jobs)).
Proof.
  exists (outside m :: replicate (length jobs) ∅). cbn [gw_mem gw_threads].
  split; [by apply MemInv_outside|].
  intros [|i] p s Hi; [injection Hi as <- <-; by exists (outside m)|].
  change ((jobThread <$> jobs) !! i = Some (p, s)) in Hi. rewrite list_lookup_fmap in Hi.
  destruct (jobs !! i) as [j|] eqn:Ej; [|done].
  assert (jobThread j = (p, s)) as Hj by exact (Some_inj _ _ Hi). clear Hi.
  pose proof (f_equal fst Hj) as Hp. pose proof (f_equal snd Hj) as Hs.
  cbn [fst snd] in Hp, Hs. subst p s. exists ∅. split.
  { cbn. apply lookup_replicate_2. by eapply lookup_lt_Some. }
  unfold job_post. rewrite Ej. destruct j as [s0|s0]; cbn [jobThread fst snd]; apply wp_bind.
  - eapply wp_mono; [|apply bsvdecodeP_spec]. cbn beta. intros x s' own (Hd & _). cbn. eauto.
  - eapply wp_mono; [|apply (MsgExtendedTx_BsvdecodeP_spec _ 0)]. cbn beta. intros x s' own Hd. cbn. eauto.
Qed.

Lemma jobs_reach w :
  rtc gstep (startJobs m jobs) w ->
  WorldInv job_post (mkGWorld (gw_mem w) (rest :: gw_threads w)).
Proof.
  intros Hr. eapply WorldInv_steps; [|apply jobs_start].
  change m with (gw_mem (startJobs m jobs)) at 1.
  change (map jobThread jobs) with (gw_threads (startJobs m jobs)).
  induction Hr; [done|]. eapply rtc_l; [by apply gstep_cons|done].
Qed.

End Jobs.

Lemma ocontents_view (h : heap) own t :
  (forall a arr, own !! a = Some arr -> h !! a = Some arr) -> owns_slice own t ->
  contents h t = ocontents own t.
Proof.
  intros Hh (arr & Ha & _). unfold contents, ocontents. rewrite Ha. cbn.
  by rewrite (array_lookup _ _ arr) by auto.
Qed.

Lemma map_view_ext {T V} (vw : (Slice -> bytes) -> T -> V) (scr : T -> list Slice) c c' l :
  (forall a, (forall u, u ∈ scr a -> c u = c' u) -> vw c a = vw c' a) ->
  (forall u, u ∈ flat_map scr l -> c u = c' u) -> map (vw c) l = map (vw c') l.
Proof.
  intros Hv Hc. apply map_ext_in. intros a Ha. apply Hv. intros u Hu. apply Hc.
  apply list_elem_of_In, in_flat_map. exists a. split; [done|]. by apply list_elem_of_In.
Qed.

Lemma MsgTx_cview_ext c c' t :
  (forall u, u ∈ tx_scripts t -> c u = c' u) -> MsgTx_cview c t = MsgTx_cview c' t.
Proof.
  intros Hc. unfold tx_scripts in Hc. unfold MsgTx_cview. f_equal.
  - apply (map_view_ext _ (fun a => [tim_script a])); [|rewrite flat_map_single; set_solver].
    intros a Ha. unfold TxIn_cview. by rewrite Ha by set_solver.
  - apply (map_view_ext _ (fun a => [tom_script a])); [|rewrite flat_map_single; set_solver].
    intros a Ha. unfold TxOut_cview. by rewrite Ha by set_solver.
Qed.

Lemma MsgExtendedTx_cview_ext c c' t :
  (forall u, u ∈ ext_scripts t -> c u = c' u) -> MsgExtendedTx_cview c t = MsgExtendedTx_cview c' t.
Proof.
  intros Hc. unfold ext_scripts in Hc. unfold MsgExtendedTx_cview. f_equal.
  - apply map_ext_in. intros a Ha%list_elem_of_In. unfold ExtendedTxIn_cview.
    rewrite !Hc; [done|..]; rewrite !elem_of_app, !list_elem_of_fmap; eauto.
  - apply (map_view_ext _ (fun a => [tom_script a])); [|rewrite flat_map_single; set_solver].
    intros a Ha. unfold TxOut_cview. by rewrite Ha by set_solver.
Qed.

(** A message delivered is a message in the heap. *)
Lemma delivers_agrees {T V} (vw : (Slice -> bytes) -> T -> V) scr d s x s' own0 own (h : heap) :
  (forall c c' t, (forall u, u ∈ scr t -> c u = c' u) -> vw c t = vw c' t) ->
  (forall a arr, own !! a = Some arr -> h !! a = Some arr) ->
  delivers vw scr d s own0 x s' own ->
  agrees (fun t v => vw (contents h) t = v) x (fst (run d s)) /\ s' = snd (run d s).
Proof.
  intros Hext Hh (-> & _ & Hd). split; [|done].
  destruct (fst (run d s)) as [v|e]; [|by subst x].
  destruct Hd as (t & -> & <- & Ho & _). cbn. apply Hext. intros u Hu.
  apply ocontents_view; [done|]. rewrite list.Forall_forall in Ho. auto.
Qed.

Lemma gstep_length {A} (w w' : gworld A) :
  rtc gstep w w' -> length (gw_threads w') = length (gw_threads w).
Proof.
  induction 1 as [|w1 w2 w3 [m ts i p s m' p' s' Hi Hp] _ IH]; [done|].
  rewrite IH. cbn [gw_threads]. apply length_insert.
Qed.

Lemma job_post_done `{Limits} m jobs i j x s own (h : heap) :
  jobs !! i = Some j -> job_post m jobs (S i) x s own ->
  (forall a arr, own !! a = Some arr -> h !! a = Some arr) ->
  job_done h j x s /\ (forall t, t ∈ job_scripts x -> is_Some (own !! sl_arr t)).
Proof.
  intros Hj. cbn [job_post]. rewrite Hj. intros Hp Hh. destruct j as [s0|s0].
  - destruct Hp as (r & -> & Hd). split.
    + change (MsgTx_view h) with (MsgTx_cview (contents h)).
      by eapply (delivers_agrees MsgTx_cview); [apply MsgTx_cview_ext| |exact Hd].
    + destruct Hd as (_ & _ & Hd). destruct (fst _); [|subst r; cbn; set_solver].
      destruct Hd as (t & -> & _ & Ho & _). intros u Hu. rewrite list.Forall_forall in Ho.
      destruct (Ho u Hu) as (arr & -> & _). eauto.
  - destruct Hp as (r & -> & Hd). split.
    + by eapply (delivers_agrees MsgExtendedTx_cview); [apply MsgExtendedTx_cview_ext| |exact Hd].
    + destruct Hd as (_ & _ & Hd). destruct (fst _); [|subst r; cbn; set_solver].
      destruct Hd as (t & -> & _ & Ho & _). intros u Hu. rewrite list.Forall_forall in Ho.
      destruct (Ho u Hu) as (arr & -> & _). eauto.
Qed.

(** ** The properties *)

(** C10: any number of goroutines may decode transactions and extended
    transactions at once.  In every state of every interleaving of their
    accesses to the shared script pool and to memory: the pool is well formed;
    the memory of the rest of the program is as it was; a decoder that has
    ended returned what the decoder without memory returns for its connection
    (message or error), and its message still reads that way; no script of it
    is in the pool or in memory that another message uses. *)
Theorem Decoders_interleaved `{Limits} (m : mem) (jobs : list job) (w : gworld jobResult) :
  PoolOk m -> rtc gstep (startJobs m jobs) w ->
  PoolOk (gw_mem w) /\
  (forall a arr, m_heap m !! a = Some arr -> a ∉ arrays (m_pool m) ->
     m_heap (gw_mem w) !! a = Some arr) /\
  (forall i j x s, jobs !! i = Some j -> gw_threads w !! i = Some (PRet x, s) ->
     job_done (m_heap (gw_mem w)) j x s /\
     (forall t, t ∈ job_scripts x -> sl_arr t ∉ arrays (m_pool (gw_mem w))) /\
     (forall i' j' x' s' t t', i' <> i -> jobs !! i' = Some j' ->
        gw_threads w !! i' = Some (PRet x', s') ->
        t ∈ job_scripts x -> t' ∈ job_scripts x' -> sl_arr t <> sl_arr t')).
Proof.
  intros HI Hr. destruct (jobs_reach m jobs HI w Hr) as (owns & HM & Hw). cbn [gw_mem gw_threads] in *.
  split; [by eapply MemInv_PoolOk|]. split.
  { intros a arr Ha Hna. destruct (Hw 0%nat _ _ eq_refl) as (own & Hown & Ho). cbn in Ho. subst own.
    eapply (mi_heap _ _ HM); [exact Hown|]. by apply lookup_outside. }
  assert (forall i j x s, jobs !! i = Some j -> gw_threads w !! i = Some (PRet x, s) ->
            exists own, owns !! S i = Some own /\ job_post m jobs (S i) x s own) as Hpost.
  { intros i j x s _ Hx. destruct (Hw (S i) (PRet x) s Hx) as (own & ? & ?). eauto. }
  intros i j x s Hj Hx. destruct (Hpost i j x s Hj Hx) as (own & Ho & Hp).
  destruct (job_post_done m jobs i j x s own _ Hj Hp
              (fun a arr Ha => mi_heap _ _ HM _ _ a arr Ho Ha)) as [Hd Hs].
  split; [done|]. split.
  - intros t Ht. by eapply (mi_unpooled _ _ HM); [exact Ho|apply Hs].
  - intros i' j' x' s' t t' Hi Hj' Hx' Ht Ht' E.
    destruct (Hpost i' j' x' s' Hj' Hx') as (own' & Ho' & Hp').
    destruct (job_post_done m jobs i' j' x' s' own' _ Hj' Hp'
                (fun a arr Ha => mi_heap _ _ HM _ _ a arr Ho' Ha)) as [_ Hs'].
    apply Hi. assert (S i' = S i) as E'; [|by injection E'].
    eapply (mi_disjoint _ _ HM); [exact Ho'|exact Ho|by apply Hs'|]. rewrite <- E. by apply Hs.
Qed.

(** C11: decoding always ends.  Whatever the schedule, there is no infinite
    run; in every reachable state each decoder that has not returned can take
    its next step, so none panics on an index out of range or waits for
    another one; and where no step is left, every decoder has returned its
    result. *)
Theorem Decoders_finish `{Limits} (m : mem) (jobs : list job) :
  PoolOk m ->
  sn gstep (startJobs m jobs) /\
  forall w, rtc gstep (startJobs m jobs) w ->
    (forall i p s, gw_threads w !! i = Some (p, s) -> finished p = false ->
       is_Some (pstep (gw_mem w) p s)) /\
    (nf gstep w -> forall i j, jobs !! i = Some j ->
       exists x s, gw_threads w !! i = Some (PRet x, s) /\ job_done (m_heap (gw_mem w)) j x s).
Proof.
  intros HI. split; [apply gstep_sn|]. intros w Hr.
  pose proof (jobs_reach m jobs HI w Hr) as HW. pose proof HW as (owns & HM & Hw).
  cbn [gw_mem gw_threads] in *.
  assert (forall i p s, gw_threads w !! i = Some (p, s) -> finished p = false ->
            is_Some (pstep (gw_mem w) p s)) as Hprog.
  { intros i p s Hi Hf. destruct (Hw (S i) p s Hi) as (own & Ho & Hwp).
    destruct (pstep_sound _ _ _ _ HM Ho p s _ Hwp Hf) as (m' & p' & s' & own' & -> & _). eauto. }
  split; [done|]. intros Hnf i j Hj.
  assert (is_Some (gw_threads w !! i)) as [[p s] Hi].
  { apply lookup_lt_is_Some. rewrite (gstep_length _ _ Hr). unfold startJobs. cbn.
    rewrite length_map. by eapply lookup_lt_Some. }
  destruct (finished p) eqn:Hf.
  - destruct p as [x| | | | | | | |]; try done. exists x, s. split; [done|].
    destruct (Hw (S i) _ s Hi) as (own & Ho & Hp).
    by eapply (job_post_done m jobs i j x s own); [|exact Hp|by intros; eapply (mi_heap _ _ HM)].
  - destruct (Hprog i p s Hi Hf) as [[[m' p'] s'] E]. destruct Hnf. destruct w as [mw ts].
    eexists. by econstructor.
Qed.

(** Two transactions, one of them cut short, and an extended transaction,
    decoded in turns. *)
Definition sampleJobs : list job :=
  [JTx (mkStream (MsgTx_bytes sampleTx) EOF); JExt (mkStream (MsgExtendedTx_bytes exampleExtTx) EOF);
   JTx (mkStream (take 60 (MsgTx_bytes sampleTx)) EOF)].

Lemma finished_nf {A} (w : gworld A) :
  forallb (fun t => finished (fst t)) (gw_threads w) = true -> nf gstep w.
Proof.
  intros Hf [w' Hs]. rewrite forallb_forall in Hf. revert Hf.
  destruct Hs as [m ts i p s m' p' s' Hi Hp]. intros Hf.
  assert (finished p = true) as E.
  { apply (Hf (p, s)), list_elem_of_In. exact (list_elem_of_lookup_2 ts i (p, s) Hi). }
  by destruct p.
Qed.

Definition sampleSched : list nat := concat (replicate 60 [0; 1; 2]%nat).

Definition sampleWorld : gworld jobResult :=
  runSched sampleSched (@startJobs defaultLimits emptyMem sampleJobs).

Lemma Decoders_interleaved_witness :
  forallb (fun t => finished (fst t)) (gw_threads sampleWorld) = true /\
  PoolOk (gw_mem sampleWorld) /\
  (forall i j x s, sampleJobs !! i = Some j -> gw_threads sampleWorld !! i = Some (PRet x, s) ->
     @job_done defaultLimits (m_heap (gw_mem sampleWorld)) j x s).
Proof.
  split; [vm_compute; reflexivity|].
  destruct (@Decoders_interleaved defaultLimits emptyMem sampleJobs sampleWorld emptyMem_ok
              (runSched_steps _ _)) as (HP & _ & Hd).
  split; [exact HP|]. intros i j x s Hj Hx. exact (proj1 (Hd i j x s Hj Hx)).
Defined.

Lemma Decoders_finish_witness :
  sn gstep (@startJobs defaultLimits emptyMem sampleJobs) /\
  exists x s, gw_threads sampleWorld !! 1%nat = Some (PRet x, s) /\
    @job_done defaultLimits (m_heap (gw_mem sampleWorld))
      (JExt (mkStream (MsgExtendedTx_bytes exampleExtTx) EOF)) x s.
Proof.
  destruct (@Decoders_finish defaultLimits emptyMem sampleJobs emptyMem_ok) as [Hsn Hw].
  split; [exact Hsn|]. destruct (Hw sampleWorld (runSched_steps _ _)) as [_ Hn].
  refine (Hn _ 1%nat _ eq_refl). apply finished_nf. vm_compute. reflexivity.
Defined.

(** ** One decoder alone *)

(** The message in memory reads as [tx], and the pool holds none of its
    scripts. *)
Definition ext_in_memory (m : mem) (t : MsgExtendedTxM) (tx : MsgExtendedTx) : Prop :=
  MsgExtendedTx_cview (contents (m_heap m)) t = tx /\
  forall u, u ∈ ext_scripts t -> sl_arr u ∉ arrays (m_pool m).

(** C17: [MsgExtendedTx.Bsvdecode] through the script pool returns what the
    decoder without memory returns (value, error and rest of the stream); the
    scripts are found through their slices, in memory that is not in the pool;
    the memory outside the pool has not changed; and the pool is well formed
    again, also on every error path. *)
Theorem MsgExtendedTx_Bsvdecode_refines `{Limits} (pver : Z) (m : mem) (s : stream) :
  PoolOk m ->
  exists x m', exec (MsgExtendedTx_BsvdecodeP []) m s =
      Some (x, m', snd (run (MsgExtendedTx_Bsvdecode pver) s)) /\
    agrees (ext_in_memory m') x (fst (run (MsgExtendedTx_Bsvdecode pver) s)) /\
    (forall a arr, m_heap m !! a = Some arr -> a ∉ arrays (m_pool m) -> m_heap m' !! a = Some arr) /\
    PoolOk m'.
Proof.
  intros HI.
  destruct (exec_sound (MsgExtendedTx_BsvdecodeP []) m (outside m :: replicate 1 ∅) 1 ∅ s
              _ (MemInv_outside m 1 HI) eq_refl (MsgExtendedTx_BsvdecodeP_spec s pver ∅))
    as (x & m' & s' & own & He & HM & Hd).
  assert (forall a arr, own !! a = Some arr -> m_heap m' !! a = Some arr) as Hh
    by (intros a arr; by apply (mi_heap _ _ HM 1%nat)).
  destruct (delivers_agrees MsgExtendedTx_cview _ _ _ _ _ _ _ _ MsgExtendedTx_cview_ext Hh Hd)
    as [Ha ->].
  exists x, m'. split; [exact He|]. split_and!.
  - destruct Hd as (_ & _ & Hd). destruct (fst (run _ s)) as [v|e]; [|by destruct x].
    destruct Hd as (t & -> & _ & Ho & _). split; [exact Ha|]. intros u Hu.
    rewrite list.Forall_forall in Ho. destruct (Ho u Hu) as (arr & Hu' & _).
    apply (mi_unpooled _ _ HM 1%nat own); [done|]. by rewrite Hu'.
  - intros a arr Ha' Hna. apply (mi_heap _ _ HM 0%nat (outside m)); [done|]. by apply lookup_outside.
  - by eapply MemInv_PoolOk.
Qed.

Lemma MsgExtendedTx_Bsvdecode_refines_witness :
  let s := mkStream (MsgExtendedTx_bytes exampleExtTx) EOF in
  exists x m', exec (@MsgExtendedTx_BsvdecodeP defaultLimits []) emptyMem s =
      Some (x, m', snd (run (@MsgExtendedTx_Bsvdecode defaultLimits 0) s)) /\
    agrees (fun t tx => MsgExtendedTx_cview (contents (m_heap m')) t = tx)
      x (fst (run (@MsgExtendedTx_Bsvdecode defaultLimits 0) s)) /\ PoolOk m'.
Proof.
  intros s. destruct (@MsgExtendedTx_Bsvdecode_refines defaultLimits 0 emptyMem s emptyMem_ok)
    as (x & m' & He & Ha & _ & HP).
  exists x, m'. split; [exact He|]. split; [|exact HP].
  destruct x, (fst (run _ s)); cbn in Ha |- *; try exact Ha. exact (proj1 Ha).
Defined.

Section Agreement.
Context `{Limits}.

Lemma exec_bind {A B} (p : Prog A) (f : A -> Prog B) m s :
  exec (p ≫= f) m s =
  match exec p m s with Some (a, m', s') => exec (f a) m' s' | None => None end.
Proof.
  unfold mbind, Prog_bind. revert m s.
  induction p as [a|n k IH|k IH|n k IH|b p IH|n k IH|b lo hi max k IH|b k IH|b bs p IH];
    intros m s; cbn; auto.
  - destruct (ReadFull n s) as [[bs e] s']. apply IH.
  - destruct (Borrow n m) as [b m']. apply IH.
  - destruct (n <? 0); [done|]. apply IH.
  - destruct (s3_ok b lo hi max); [|done]. apply IH.
Qed.

Lemma exec_ptry {A X} (d : Dec A) onerr (k : A -> Prog X) m s :
  exec (ptry d onerr k) m s =
  (let '(x, s') := run d s in
   match x with Ok a => exec (k a) m s' | Err e => exec (onerr e) m s' end).
Proof.
  unfold ptry. rewrite exec_bind.
  assert (exec (pdec d) m s = Some (fst (run d s), m, snd (run d s))) as ->.
  { revert s. induction d as [a|e|n k' IH|k' IH]; intros s; cbn; try done.
    destruct (ReadFull n s) as [[bs e] s']. apply IH. }
  by destruct (run d s) as [[a|e] s'].
Qed.

(** The coarse model [pm] does what the program [p] does when it does not panic. *)
Definition coarse {X} (p : Prog X) (pm : mem -> Dec (X * mem)) : Prop :=
  forall m s x m' s', exec p m s = Some (x, m', s') -> run (pm m) s = (Ok (x, m'), s').

Lemma coarse_readScript max name : coarse (readScriptP max name) (readScriptM max name).
Proof.
  intros m s x m' s'. unfold readScriptP, readScriptM. rewrite exec_ptry, run_tryret.
  destruct (run ReadVarInt s) as [[count|e] s1]; [|by intros [= <- <- <-]].
  destruct (count >? max); [by intros [= <- <- <-]|]. cbn [exec].
  destruct (Borrow count m) as [b m1]. unfold readInto. rewrite run_bind. cbn [run exec].
  destruct (ReadFull (sl_len b) s1) as [[bs [e|]] s2]; by intros [= <- <- <-].
Qed.

Lemma coarse_readTxIn : coarse readTxInP readTxInM.
Proof.
  intros m s x m' s'. unfold readTxInP, readTxInM. rewrite exec_ptry, run_tryret.
  destruct (run readOutPoint s) as [[op|e] s1]; [|by intros [= <- <- <-]].
  rewrite exec_bind, run_bind. destruct (exec (readScriptP _ _) m s1) as [[[y m1] s2]|] eqn:E; [|done].
  apply coarse_readScript in E. rewrite E. destruct y as [b|e]; [|by intros [= <- <- <-]].
  rewrite exec_ptry, run_tryret. change (elem_val Tuint32) with Z.
  destruct (run (readElement Tuint32 : Dec Z) s2) as [[sq|e] s3]; by intros [= <- <- <-].
Qed.

Lemma coarse_readTxOut : coarse readTxOutP readTxOutM.
Proof.
  intros m s x m' s'. unfold readTxOutP, readTxOutM. rewrite exec_ptry, run_tryret.
  change (elem_val Tint64) with Z.
  destruct (run (readElement Tint64 : Dec Z) s) as [[v|e] s1]; [|by intros [= <- <- <-]].
  rewrite exec_bind, run_bind. destruct (exec (readScriptP _ _) m s1) as [[[y m1] s2]|] eqn:E; [|done].
  apply coarse_readScript in E. rewrite E. destruct y as [b|e]; by intros [= <- <- <-].
Qed.

Lemma coarse_readList {A} (read : Prog (A * option error)) readM n acc :
  coarse read readM -> coarse (readListP read n acc) (readListM readM n acc).
Proof.
  intros Hr. revert acc. induction n as [|n IH]; intros acc m s x m' s'; [by intros [= <- <- <-]|].
  cbn [readListP readListM]. rewrite exec_bind, run_bind.
  destruct (exec read m s) as [[[[y e] m1] s1]|] eqn:E; [|done]. apply Hr in E. rewrite E.
  destruct e as [e|]; [by intros [= <- <- <-]|]. apply IH.
Qed.

Lemma exec_returnAll l m s : exec (returnAllP l) m s = Some (tt, returnAll l m, s).
Proof.
  revert m. induction l as [|b l IH]; intros m; [done|]. cbn [returnAllP returnAll fold_left].
  unfold isNil. destruct (Z.eqb_spec (sl_cap b) 0) as [E|E]; [|apply IH]. rewrite IH.
  unfold Return at 2. by rewrite E.
Qed.

Lemma exec_returnScriptBuffers {X} ins outs m s (x : X) :
  exec (_ ← returnScriptBuffersP tim_script ins outs; mret x) m s =
  Some (x, returnScriptBuffers ins outs m, s).
Proof.
  unfold returnScriptBuffersP, returnScriptBuffers. rewrite exec_bind, exec_bind, exec_returnAll.
  cbv beta iota. by rewrite exec_returnAll.
Qed.

Lemma coarse_gather scripts offset l m s ws o m' s' :
  sl_cap scripts = sl_len scripts ->
  exec (gatherP scripts offset l) m s = Some (ws, o, m', s') ->
  gather scripts offset l m = (ws, o, m') /\ s' = s.
Proof.
  intros Hc. revert offset m ws o m' s'.
  induction l as [|sc l IH]; intros offset m ws o m' s'; [by intros [= <- <- <- <-]|].
  cbn [gatherP exec gather]. destruct (s3_ok _ _ _ _); [|done]. cbn [exec].
  destruct (s3_ok _ _ _ _); [|done]. cbn [exec]. rewrite exec_bind.
  replace (subslice scripts offset (sl_len scripts)) with
    (s3 scripts offset (sl_len scripts) (sl_cap scripts)) by (unfold s3, subslice; by rewrite Hc).
  destruct (exec (gatherP scripts _ l) _ _) as [[[[ws' o'] m1] s1]|] eqn:E; [|done].
  apply IH in E as [-> ->]. by intros [= <- <- <- <-].
Qed.

Lemma coarse_finish version lt ins outs m s ins' outs' m' s' :
  exec (finishP tim_script setInScript ins outs) m s = Some (ins', outs', m', s') ->
  finish version ins outs lt m = (mkMsgTxM (to_i32 version) ins' outs' lt, m') /\ s' = s.
Proof.
  unfold finishP, finish. cbn [exec]. destruct (_ <? 0); [done|].
  destruct (make _ (m_heap m)) as [scripts h] eqn:Em.
  assert (sl_cap scripts = sl_len scripts) as Hc by (by injection Em as <- _).
  rewrite exec_bind. destruct (exec (gatherP scripts 0 _) _ _) as [[[[wi o] m1] s1]|] eqn:E1; [|done].
  apply coarse_gather in E1 as [-> ->]; [|done].
  rewrite exec_bind. destruct (exec (gatherP scripts o _) _ _) as [[[[wo o2] m2] s2]|] eqn:E2; [|done].
  apply coarse_gather in E2 as [-> ->]; [|done]. by intros [= <- <- <- <-].
Qed.

Lemma coarse_bsvdecode oldOuts : coarse (bsvdecodeP oldOuts) (bsvdecodeM oldOuts).
Proof.
  intros m s x m' s'. unfold bsvdecodeP, bsvdecodeM, decodeBody. rewrite exec_ptry, run_tryret.
  destruct (run (Uint32 littleEndian) s) as [[version|e] s1]; [|by intros [= <- <- <-]].
  rewrite exec_bind, exec_ptry, run_tryret.
  destruct (run ReadVarInt s1) as [[count|e] s2]; [|by intros [= <- <- <-]].
  destruct (count >? maxTxInPerMessage); [by intros [= <- <- <-]|].
  rewrite exec_bind, run_bind.
  destruct (exec (readListP readTxInP _ _) m s2) as [[[[ins e] m1] s3]|] eqn:E1; [|done].
  apply (coarse_readList _ _ _ _ coarse_readTxIn) in E1. rewrite E1.
  destruct e as [e|]; [rewrite exec_returnScriptBuffers; by intros [= <- <- <-]|].
  rewrite exec_ptry, run_tryret.
  destruct (run ReadVarInt s3) as [[count'|e] s4];
    [|rewrite exec_returnScriptBuffers; by intros [= <- <- <-]].
  destruct (count' >? maxTxOutPerMessage); [rewrite exec_returnScriptBuffers; by intros [= <- <- <-]|].
  rewrite exec_bind, run_bind.
  destruct (exec (readListP readTxOutP _ _) m1 s4) as [[[[outs e] m2] s5]|] eqn:E2; [|done].
  apply (coarse_readList _ _ _ _ coarse_readTxOut) in E2. rewrite E2.
  destruct e as [e|]; [rewrite exec_returnScriptBuffers; by intros [= <- <- <-]|].
  rewrite exec_ptry, run_tryret.
  destruct (run (Uint32 littleEndian) s5) as [[lt|e] s6];
    [|rewrite exec_returnScriptBuffers; by intros [= <- <- <-]].
  rewrite exec_bind. destruct (exec (finishP _ _ _ _) m2 s6) as [[[[ins' outs'] m3] s7]|] eqn:E3; [|done].
  apply (coarse_finish version lt) in E3 as [-> ->]. by intros [= <- <- <-].
Qed.
End Agreement.

(** Run alone, the step-by-step program of [bsvdecode] does exactly what
    the model of [TxMem.v] does, memory included: the two models of the code
    agree, and the results about each hold for the other. *)
Theorem bsvdecode_models_agree `{Limits} (m : mem) (s : stream) :
  PoolOk m ->
  exists x m' s', exec (bsvdecodeP []) m s = Some (x, m', s') /\
    run (bsvdecodeM [] m) s = (Ok (x, m'), s').
Proof.
  intros HI. destruct (exec_alone _ m s _ HI (bsvdecodeP_spec s ∅)) as (x & m' & s' & own & He & _).
  exists x, m', s'. split; [done|]. by apply coarse_bsvdecode.
Qed.

Lemma bsvdecode_models_agree_witness :
  exists x m' s', exec (@bsvdecodeP defaultLimits []) emptyMem (mkStream (MsgTx_bytes sampleTx) EOF) =
      Some (x, m', s') /\
    run (@bsvdecodeM defaultLimits [] emptyMem) (mkStream (MsgTx_bytes sampleTx) EOF) = (Ok (x, m'), s').
Proof. apply (@bsvdecode_models_agree defaultLimits emptyMem). exact emptyMem_ok. Defined.
