(* ===== verification/TxCopy.v ===== *)
(** * [MsgTx.Copy] and [MsgExtendedTx.Copy] in memory

    A deep copy: the new transaction holds the same bytes in arrays of its
    own, so that writing through the scripts of one of the two does not change
    the other. *)

From S2P Require Import Prelude Io Common Tx Mem TxMem ExtendedTx Goroutine Decoders Concurrency.

Definition copyScriptP (oldScript : Slice) : Prog Slice :=
  let oldScriptLen := sl_len oldScript in
  if oldScriptLen >? 0 then
    PMake oldScriptLen (fun newScript =>
    PSlice oldScript 0 oldScriptLen (sl_cap oldScript) (fun src =>
    PLoad src (fun bs =>
    PStore newScript (take (Z.to_nat (sl_len newScript)) bs) (mret newScript))))
  else mret nilSlice.

(** [for _, x := range l { r = append(r, f(x)) }] *)
Fixpoint pmap {A B} (f : A -> Prog B) (l : list A) : Prog (list B) :=
  match l with
  | [] => mret []
  | a :: l => b ← f a; bs ← pmap f l; mret (b :: bs)
  end.

Definition copyOutPoint (op : OutPoint) : OutPoint := mkOutPoint (op_Hash op) (op_Index op).

Definition copyTxOutP (old : TxOutM) : Prog TxOutM :=
  newScript ← copyScriptP (tom_script old); mret (mkTxOutM (tom_value old) newScript).

Definition MsgTx_CopyP (msg : MsgTxM) : Prog MsgTxM :=
  ins ← pmap (fun old => newScript ← copyScriptP (tim_script old);
                mret (mkTxInM (copyOutPoint (tim_op old)) newScript (tim_seq old))) (txm_TxIn msg);
  outs ← pmap copyTxOutP (txm_TxOut msg);
  mret (mkMsgTxM (txm_Version msg) ins outs (txm_LockTime msg)).

(** The copy of an extended transaction is a plain one. *)
Definition MsgExtendedTx_CopyP (msg : MsgExtendedTxM) : Prog MsgTxM :=
  ins ← pmap (fun old => newScript ← copyScriptP (eim_script old);
                mret (mkTxInM (copyOutPoint (eim_op old)) newScript (eim_seq old))) (exm_TxIn msg);
  outs ← pmap copyTxOutP (exm_TxOut msg);
  mret (mkMsgTxM (exm_Version msg) ins outs (exm_LockTime msg)).

(** ** Facts *)

Section Copy.
Context (own0 : owned).

(** [new] shows what [old] showed, in an array that was not there. *)
Definition copied (own : owned) (old new : Slice) : Prop :=
  ocontents own new = copyScript (ocontents own0 old) /\
  (new = nilSlice \/ (own0 !! sl_arr new = None /\ owns_slice own new)).

Lemma ocontents_mono own own' t : own ⊆ own' -> is_Some (own !! sl_arr t) ->
  ocontents own' t = ocontents own t.
Proof.
  intros Hs [arr Ha]. apply ocontents_ne. rewrite Ha. by eapply lookup_weaken.
Qed.

Lemma owns_slice_mono own own' t : own ⊆ own' -> owns_slice own t -> owns_slice own' t.
Proof. intros Hs (arr & Ha & ?). exists arr. split; [by eapply lookup_weaken|done]. Qed.

Lemma ocontents_nil own : ocontents own nilSlice = [].
Proof. done. Qed.

Lemma copied_mono own own' old new : own ⊆ own' -> copied own old new -> copied own' old new.
Proof.
  intros Hs [Hc [->|[Hn Ho]]]; (split; [|auto]).
  - by rewrite ocontents_nil in *.
  - rewrite (ocontents_mono own) by (done || (destruct Ho as (? & -> & _); eauto)). done.
  - right. eauto using owns_slice_mono.
Qed.

Lemma len_ocontents own t : owns_slice own t -> len (ocontents own t) = sl_len t.
Proof.
  intros (arr & Ha & Ho & Hl & Hc). unfold ocontents. rewrite Ha. cbn.
  unfold len. rewrite length_take, length_drop. zlia.
Qed.

Lemma copyScriptP_spec old s own :
  own0 ⊆ own -> owns_slice own0 old ->
  wp (copyScriptP old) s own (fun new s' own' => s' = s /\ own ⊆ own' /\ copied own' old new).
Proof.
  intros Hsub Ho. pose proof (len_ocontents own0 old Ho) as Hlen. pose proof Ho as (arr & Ha & H0 & H1 & H2).
  unfold copyScriptP, copied, copyScript. rewrite Hlen, firstn_all.
  destruct (Z.gtb_spec (sl_len old) 0) as [Hp|Hp].
  2: { cbn. split_and!; auto. }
  cbn [wp]. split; [lia|]. intros a Hna. set (new := mkSlice a 0 (sl_len old) (sl_len old)).
  split; [unfold s3_ok; lia|]. set (own1 := <[a := _]> own).
  assert (own ⊆ own1) as Hsub1 by (by apply insert_subseteq).
  assert (s3 old 0 (sl_len old) (sl_cap old) = old) as -> by (destruct old; unfold s3; cbn; f_equal; lia).
  assert (owns_slice own1 old) as Ho1.
  { eapply owns_slice_mono; [|exact Ho]. by transitivity own. }
  split; [done|].
  assert (ocontents own1 old = ocontents own0 old) as ->.
  { apply ocontents_mono; [by transitivity own|eauto]. }
  assert (owns_slice own1 new) as Hon.
  { exists (zeros (Z.to_nat (sl_len old))). unfold own1. cbn. rewrite lookup_insert_eq.
    unfold zeros. rewrite len_replicate. split_and!; try done; lia. }
  rewrite firstn_all2 by (cbn; zlia).
  split; [done|]. split; [cbn; lia|]. cbn [mret Prog_ret wp]. split; [done|].
  assert (own ⊆ ostore own1 new (ocontents own0 old)) as Hs2.
  { apply map_subseteq_spec. intros b arr' Hb. unfold ostore. cbn.
    rewrite lookup_alter_ne by (intros <-; congruence). unfold own1.
    by rewrite lookup_insert_ne by (intros <-; congruence). }
  split; [done|]. split; [by apply ocontents_store_full|]. right. cbn. split.
  - apply eq_None_not_Some. intros [? Hx]. eapply lookup_weaken in Hx; [|exact Hsub]. congruence.
  - unfold ostore, own1. exists (overwrite 0 (ocontents own0 old) (zeros (Z.to_nat (sl_len old)))).
    cbn. rewrite lookup_alter_eq, lookup_insert_eq. split; [done|].
    rewrite len_overwrite by (unfold zeros; rewrite length_replicate; zlia).
    unfold zeros. rewrite len_replicate. lia.
Qed.

(** A loop that only takes new arrays. *)
Lemma pmap_spec {A B} (f : A -> Prog B) (P : owned -> A -> B -> Prop) l s own :
  (forall own own' a b, own ⊆ own' -> P own a b -> P own' a b) ->
  (forall a s own, a ∈ l -> own0 ⊆ own ->
     wp (f a) s own (fun b s' own' => s' = s /\ own ⊆ own' /\ P own' a b)) ->
  own0 ⊆ own ->
  wp (pmap f l) s own (fun bs s' own' => s' = s /\ own ⊆ own' /\ Forall2 (P own') l bs).
Proof.
  intros Hm. revert s own. induction l as [|a l IH]; intros s own Hf Hsub; [by cbn|].
  cbn [pmap]. apply wp_bind. eapply wp_mono; [|apply Hf; [set_solver|done]].
  cbn beta. intros b s1 own1 (-> & Hs1 & Hb). apply wp_bind. eapply wp_mono; [|apply IH].
  - cbn beta. intros bs s2 own2 (-> & Hs2 & Hbs). cbn. split; [done|].
    split; [by transitivity own1|]. constructor; eauto.
  - intros x t o Hx. apply Hf. set_solver.
  - by transitivity own.
Qed.

Lemma copyTxOuts_spec outs s own :
  own0 ⊆ own -> Forall (owns_slice own0) (map tom_script outs) ->
  wp (pmap copyTxOutP outs) s own (fun outs' s' own' => s' = s /\ own ⊆ own' /\
    Forall2 (fun old new => tom_value new = tom_value old /\
               copied own' (tom_script old) (tom_script new)) outs outs').
Proof.
  intros Hsub Ho. rewrite list.Forall_forall in Ho. apply pmap_spec; [|intros|done].
  - intros o1 o2 a b Hs [? ?]. eauto using copied_mono.
  - unfold copyTxOutP. apply wp_bind. eapply wp_mono; [|apply copyScriptP_spec; [done|]].
    + cbn beta. intros new s' own' (-> & ? & ?). cbn. auto.
    + apply Ho, list_elem_of_fmap. eauto.
Qed.

Lemma copyIns_spec {A} (ins : list A) (op : A -> OutPoint) (scr : A -> Slice) (sq : A -> Z) s own :
  own0 ⊆ own -> Forall (owns_slice own0) (map scr ins) ->
  wp (pmap (fun old => newScript ← copyScriptP (scr old);
              mret (mkTxInM (copyOutPoint (op old)) newScript (sq old))) ins) s own
    (fun ins' s' own' => s' = s /\ own ⊆ own' /\
       Forall2 (fun old new => (tim_op new = copyOutPoint (op old) /\ tim_seq new = sq old) /\
                  copied own' (scr old) (tim_script new)) ins ins').
Proof.
  intros Hsub Ho. rewrite list.Forall_forall in Ho. apply pmap_spec; [|intros|done].
  - intros o1 o2 a b Hs [? ?]. eauto using copied_mono.
  - apply wp_bind. eapply wp_mono; [|apply copyScriptP_spec; [done|]].
    + cbn beta. intros new s' own' (-> & ? & ?). cbn. auto.
    + apply Ho, list_elem_of_fmap. eauto.
Qed.

(** What a copy is, at the end. *)
Definition deep_copy (tx : MsgTx) (t' : MsgTxM) (own : owned) : Prop :=
  MsgTx_cview (ocontents own) t' = MsgTx_Copy tx /\
  (forall u, u ∈ tx_scripts t' -> u = nilSlice \/ (own0 !! sl_arr u = None /\ owns_slice own u)).

Lemma Forall2_map {A B C} (f : A -> C) (g : B -> C) (P : A -> B -> Prop) l k :
  Forall2 P l k -> (forall a b, P a b -> g b = f a) -> map g k = map f l.
Proof. intros HF Hp. induction HF; [done|]. cbn. f_equal; auto. Qed.

Lemma copied_all {A B} (P : A -> B -> Prop) own (scr : A -> Slice) (scr' : B -> Slice) l k u :
  Forall2 (fun a b => P a b /\ copied own (scr a) (scr' b)) l k -> u ∈ map scr' k ->
  u = nilSlice \/ (own0 !! sl_arr u = None /\ owns_slice own u).
Proof.
  intros HF (b & -> & Hb)%list_elem_of_fmap. apply list_elem_of_lookup_1 in Hb as [i Hi].
  destruct (Forall2_lookup_r _ _ _ _ _ HF Hi) as (a & _ & _ & _ & ?). done.
Qed.

Lemma deep_copy_intro {A} (ins : list A) (op : A -> OutPoint) (scr : A -> Slice) (sq : A -> Z)
    outs ins' outs' v lt own1 own2 :
  own1 ⊆ own2 ->
  Forall2 (fun old new => (tim_op new = copyOutPoint (op old) /\ tim_seq new = sq old) /\
             copied own1 (scr old) (tim_script new)) ins ins' ->
  Forall2 (fun old new => tom_value new = tom_value old /\
             copied own2 (tom_script old) (tom_script new)) outs outs' ->
  deep_copy (mkMsgTx v (map (fun a => mkTxIn (op a) (ocontents own0 (scr a)) (sq a)) ins)
               (map (TxOut_cview (ocontents own0)) outs) lt)
    (mkMsgTxM v ins' outs' lt) own2.
Proof.
  intros Hs Hi Ho.
  assert (Forall2 (fun old new => (tim_op new = copyOutPoint (op old) /\ tim_seq new = sq old) /\
            copied own2 (scr old) (tim_script new)) ins ins') as Hi2.
  { eapply list.Forall2_impl; [exact Hi|]. intros a b [? ?]. eauto using copied_mono. }
  split.
  - unfold MsgTx_cview, MsgTx_Copy. cbn. rewrite !map_map. f_equal.
    + eapply Forall2_map; [exact Hi2|]. intros a b ((Eo & Es) & Hc & _). unfold TxIn_cview. cbn.
      by rewrite Eo, Es, Hc.
    + eapply Forall2_map; [exact Ho|]. intros a b (Ev & Hc & _). unfold TxOut_cview. cbn. by rewrite Ev, Hc.
  - unfold tx_scripts. cbn. intros u [Hu|Hu]%elem_of_app;
      (eapply copied_all; [|exact Hu]; first [exact Hi2|exact Ho]).
Qed.

Lemma MsgTx_CopyP_spec t s :
  Forall (owns_slice own0) (tx_scripts t) ->
  wp (MsgTx_CopyP t) s own0 (fun t' s' own' => s' = s /\ own0 ⊆ own' /\
    deep_copy (MsgTx_cview (ocontents own0) t) t' own').
Proof.
  intros [Hi Ho]%list.Forall_app. unfold MsgTx_CopyP. apply wp_bind.
  eapply wp_mono; [|apply (copyIns_spec _ tim_op tim_script tim_seq); [done|exact Hi]].
  cbn beta. intros ins' s1 own1 (-> & Hs1 & Hi'). apply wp_bind.
  eapply wp_mono; [|by apply copyTxOuts_spec]. cbn beta. intros outs' s2 own2 (-> & Hs2 & Ho').
  cbn [mret Prog_ret wp]. split; [done|]. split; [by transitivity own1|].
  by eapply (deep_copy_intro _ tim_op tim_script tim_seq).
Qed.

Lemma MsgExtendedTx_CopyP_spec t s :
  Forall (owns_slice own0) (map eim_script (exm_TxIn t) ++ map tom_script (exm_TxOut t)) ->
  wp (MsgExtendedTx_CopyP t) s own0 (fun t' s' own' => s' = s /\ own0 ⊆ own' /\
    MsgTx_cview (ocontents own') t' = MsgExtendedTx_Copy (MsgExtendedTx_cview (ocontents own0) t) /\
    (forall u, u ∈ tx_scripts t' -> u = nilSlice \/ (own0 !! sl_arr u = None /\ owns_slice own' u))).
Proof.
  intros [Hi Ho]%list.Forall_app. unfold MsgExtendedTx_CopyP. apply wp_bind.
  eapply wp_mono; [|apply (copyIns_spec _ eim_op eim_script eim_seq); [done|exact Hi]].
  cbn beta. intros ins' s1 own1 (-> & Hs1 & Hi'). apply wp_bind.
  eapply wp_mono; [|by apply copyTxOuts_spec]. cbn beta. intros outs' s2 own2 (-> & Hs2 & Ho').
  cbn [mret Prog_ret wp]. split; [done|]. split; [by transitivity own1|].
  destruct (deep_copy_intro _ eim_op eim_script eim_seq _ _ _ (exm_Version t) (exm_LockTime t) _ _ Hs2 Hi' Ho')
    as [Hv Hf]. split; [|done]. rewrite Hv. unfold MsgTx_Copy, MsgExtendedTx_Copy. cbn.
  by rewrite !map_map.
Qed.
End Copy.

(** ** In the heap *)

(** [u] is a window in memory that is not in the pool. *)
Definition in_memory (m : mem) (u : Slice) : Prop :=
  wf_slice (m_heap m) u /\ (sl_arr u < length (m_heap m))%nat /\ sl_arr u ∉ arrays (m_pool m).

Lemma in_memory_owned m u : in_memory m u -> owns_slice (outside m) u.
Proof.
  intros ((Ho & Hl & Hc) & [arr Ha]%lookup_lt_is_Some & Hn). exists arr.
  split; [by apply lookup_outside|]. rewrite (array_lookup _ _ _ Ha) in Hc. done.
Qed.

Lemma MsgTx_view_ext h h' t :
  (forall u, u ∈ tx_scripts t -> contents h u = contents h' u) -> MsgTx_view h t = MsgTx_view h' t.
Proof. apply MsgTx_cview_ext. Qed.

(** A store through one of two slices in different arrays. *)
Lemma contents_store_other h u bs t : sl_arr t <> sl_arr u -> contents (store u bs h) t = contents h t.
Proof. intros Hne. unfold contents. by rewrite array_store, decide_False. Qed.

Lemma store_nothing h u : store u [] h = h.
Proof.
  unfold store. apply list_eq. intros i. destruct (decide (i = sl_arr u)) as [->|Hi].
  - rewrite list_lookup_alter_eq. destruct (h !! sl_arr u) as [a|]; [|done]. cbn. f_equal.
    unfold overwrite. cbn. by rewrite Nat.add_0_r, take_drop.
  - by rewrite list_lookup_alter_ne.
Qed.

(** [new] is independent of [old] in the heap [h]: a write through a script of
    one does not change a script of the other. *)
Definition independent (h : heap) (old new : list Slice) : Prop :=
  forall u v bs, u ∈ old -> v ∈ new ->
    (len bs <= sl_len u -> contents (store u bs h) v = contents h v) /\
    (len bs <= sl_len v -> contents (store v bs h) u = contents h u).

Lemma copy_in_heap {A} (p : Prog A) m s (scr : A -> list Slice) (P : A -> owned -> Prop) old :
  PoolOk m -> (forall u, u ∈ old -> in_memory m u) ->
  wp p s (outside m) (fun x s' own => s' = s /\ outside m ⊆ own /\ P x own /\
    (forall u, u ∈ scr x -> u = nilSlice \/ (outside m !! sl_arr u = None /\ owns_slice own u))) ->
  exists x m' own, exec p m s = Some (x, m', s) /\ PoolOk m' /\ P x own /\
    (forall u, u ∈ scr x -> contents (m_heap m') u = ocontents own u) /\
    (forall u, u ∈ old -> contents (m_heap m') u = contents (m_heap m) u) /\
    independent (m_heap m') old (scr x).
Proof.
  intros HI Hold Hw.
  destruct (exec_sound p m [outside m] 0 (outside m) s _ (MemInv_outside m 0 HI) eq_refl Hw)
    as (x & m' & s' & own & He & HM & -> & Hsub & HP & Hf).
  assert (forall a arr, own !! a = Some arr -> m_heap m' !! a = Some arr) as Hh
    by (intros a arr; by apply (mi_heap _ _ HM 0%nat)).
  exists x, m', own. split; [done|]. split; [by eapply MemInv_PoolOk|]. split; [done|]. split_and!.
  - intros u Hu. destruct (Hf u Hu) as [->|[_ Ho]]; [done|]. by apply ocontents_view.
  - intros u Hu. destruct (in_memory_owned m u (Hold u Hu)) as (arr & Ha & _).
    pose proof (lookup_weaken _ _ _ _ Ha Hsub) as Ha'. apply lookup_outside in Ha as [Ha _].
    unfold contents. by rewrite (array_lookup _ _ _ Ha), (array_lookup _ _ _ (Hh _ _ Ha')).
  - intros u v bs Hu Hv. destruct (Hf v Hv) as [->|[Hn _]].
    + split; intros Hl; [done|]. unfold len in Hl. destruct bs; [|cbn in Hl; lia].
      by rewrite store_nothing.
    + destruct (in_memory_owned m u (Hold u Hu)) as (arr & Ha & _).
      assert (sl_arr u <> sl_arr v) as Hne by (intros E; rewrite E in Ha; congruence).
      split; intros _; apply contents_store_other; congruence.
Qed.

Lemma ocontents_outside m u : in_memory m u -> ocontents (outside m) u = contents (m_heap m) u.
Proof.
  intros Hu. symmetry. apply ocontents_view; [|by apply in_memory_owned].
  intros a arr Ha. by apply lookup_outside in Ha as [? _].
Qed.

(** ** The properties *)

(** Every field is copied. *)
Lemma copyScript_id bs : copyScript bs = bs.
Proof.
  unfold copyScript. rewrite Z.gtb_ltb. destruct (Z.ltb_spec 0 (len bs)) as [|Hl]; [apply firstn_all|].
  symmetry. apply len_0_inv. pose proof (len_nonneg bs). lia.
Qed.

Lemma MsgTx_Copy_id tx : MsgTx_Copy tx = tx.
Proof.
  destruct tx as [v ins outs lt]. unfold MsgTx_Copy. cbn [tx_Version tx_TxIn tx_TxOut tx_LockTime].
  f_equal; (etransitivity; [|apply map_id]); apply map_ext.
  - intros [[h i] sc sq]. cbn. by rewrite copyScript_id.
  - intros [val sc]. cbn. by rewrite copyScript_id.
Qed.

(** C18: [MsgTx.Copy] is a deep copy.  The copy is equal to the original, in
    every field and with the same bytes in its scripts; the original is
    unchanged; and afterwards no write through a script of one of them changes
    a script of the other. *)
Theorem MsgTx_Copy_deep (t : MsgTxM) (m : mem) (s : stream) :
  PoolOk m -> (forall u, u ∈ tx_scripts t -> in_memory m u) ->
  exists t' m', exec (MsgTx_CopyP t) m s = Some (t', m', s) /\ PoolOk m' /\
    MsgTx_view (m_heap m') t' = MsgTx_view (m_heap m) t /\
    MsgTx_view (m_heap m') t = MsgTx_view (m_heap m) t /\
    independent (m_heap m') (tx_scripts t) (tx_scripts t').
Proof.
  intros HI Ht.
  destruct (copy_in_heap (MsgTx_CopyP t) m s tx_scripts
              (fun t' own => MsgTx_cview (ocontents own) t' =
                 MsgTx_Copy (MsgTx_cview (ocontents (outside m)) t)) (tx_scripts t) HI Ht)
    as (t' & m' & own & He & HP & Hv & Hc & Hk & Hi).
  - eapply wp_mono; [|apply MsgTx_CopyP_spec, list.Forall_forall].
    + cbn beta. intros t' s' own (-> & ? & ? & ?). done.
    + intros u Hu. by apply in_memory_owned, Ht.
  - exists t', m'. split; [done|]. split; [done|]. split_and!; [|by apply MsgTx_view_ext|done].
    transitivity (MsgTx_cview (ocontents own) t'); [by apply MsgTx_cview_ext|].
    rewrite Hv, MsgTx_Copy_id. apply MsgTx_cview_ext. intros u Hu. by apply ocontents_outside, Ht.
Qed.

(** The sample transaction, as decoded: its scripts are two windows of one array. *)
Definition sampleTxM : MsgTxM :=
  mkMsgTxM 1 [mkTxInM (mkOutPoint (zeros 32) 7) (mkSlice 0 0 2 2) 9]
    [mkTxOutM 5000 (mkSlice 0 2 3 3)] 0.
Definition sampleMem : mem := mkMem [[Byte.x51; Byte.x52; Byte.x76; Byte.xa9; Byte.x14]] [].

Lemma sampleMem_ok : PoolOk sampleMem.
Proof. split; try constructor; intros; cbn in *; try done; lia. Qed.

Lemma MsgTx_Copy_deep_witness :
  exists t' m', exec (MsgTx_CopyP sampleTxM) sampleMem (mkStream [] EOF) =
      Some (t', m', mkStream [] EOF) /\ PoolOk m' /\
    MsgTx_view (m_heap m') t' = sampleTx /\
    MsgTx_view (m_heap m') sampleTxM = sampleTx /\
    independent (m_heap m') (tx_scripts sampleTxM) (tx_scripts t').
Proof.
  apply (MsgTx_Copy_deep sampleTxM sampleMem (mkStream [] EOF)).
  - exact sampleMem_ok.
  - intros u Hu. cbn in Hu. repeat (apply elem_of_cons in Hu as [->|Hu]);
      [..|by apply elem_of_nil in Hu]; (split; [unfold wf_slice, len; cbn; lia|split; [cbn; lia|set_solver]]).
Defined.

(** The same for extended transactions, whose copy is a plain transaction. *)
Theorem MsgExtendedTx_Copy_deep (t : MsgExtendedTxM) (m : mem) (s : stream) :
  PoolOk m -> (forall u, u ∈ ext_scripts t -> in_memory m u) ->
  exists t' m', exec (MsgExtendedTx_CopyP t) m s = Some (t', m', s) /\ PoolOk m' /\
    MsgTx_view (m_heap m') t' = MsgExtendedTx_Copy (MsgExtendedTx_cview (contents (m_heap m)) t) /\
    MsgExtendedTx_cview (contents (m_heap m')) t = MsgExtendedTx_cview (contents (m_heap m)) t /\
    independent (m_heap m') (ext_scripts t) (tx_scripts t').
Proof.
  intros HI Ht.
  destruct (copy_in_heap (MsgExtendedTx_CopyP t) m s tx_scripts
              (fun t' own => MsgTx_cview (ocontents own) t' =
                 MsgExtendedTx_Copy (MsgExtendedTx_cview (ocontents (outside m)) t)) (ext_scripts t) HI Ht)
    as (t' & m' & own & He & HP & Hv & Hc & Hk & Hi).
  - eapply wp_mono; [|apply MsgExtendedTx_CopyP_spec, list.Forall_forall].
    + cbn beta. intros t' s' own (-> & ? & ? & ?). done.
    + intros u Hu. apply in_memory_owned, Ht. unfold ext_scripts. set_solver.
  - exists t', m'. split; [done|]. split; [done|]. split_and!; [|by apply MsgExtendedTx_cview_ext|done].
    transitivity (MsgTx_cview (ocontents own) t'); [by apply MsgTx_cview_ext|]. rewrite Hv. f_equal.
    apply MsgExtendedTx_cview_ext. intros u Hu. by apply ocontents_outside, Ht.
Qed.
