(* ===== verification/Version.v ===== *)
(** * msg_version.go: the version message

    Its decoder needs a [*bytes.Buffer]: the fields after the first address
    are optional and are read while bytes are left. *)

From S2P Require Import Prelude Io Common Protocol NetAddress Mem Block MsgIface MsgControl.

Record MsgVersion := mkMsgVersion {
  ver_ProtocolVersion : Z;
  ver_Services : Z;
  ver_Timestamp : Time;
  ver_AddrYou : NetAddress;
  ver_AddrMe : NetAddress;
  ver_Nonce : Z;
  ver_UserAgent : bytes;
  ver_LastBlock : Z;
  ver_DisableRelayTx : bool;
  ver_AssociationID : bytes;
}.

Definition DefaultUserAgent : bytes := str "/bsvwire:0.5.0/".

Definition MsgVersion_HasService (msg : MsgVersion) (service : Z) : bool :=
  hasService (ver_Services msg) service.

Definition MsgVersion_AddService (msg : MsgVersion) (service : Z) : MsgVersion :=
  mkMsgVersion (ver_ProtocolVersion msg) (addService (ver_Services msg) service)
    (ver_Timestamp msg) (ver_AddrYou msg) (ver_AddrMe msg) (ver_Nonce msg) (ver_UserAgent msg)
    (ver_LastBlock msg) (ver_DisableRelayTx msg) (ver_AssociationID msg).

Definition NewMsgVersion (now : Time) (me you : NetAddress) (nonce lastBlock : Z) : MsgVersion :=
  mkMsgVersion (to_i32 ProtocolVersion) 0 (time_Unix (t_sec now) 0) you me nonce DefaultUserAgent
    lastBlock false [].

(** [validateUserAgent]: an error or nothing. *)
Definition validateUserAgent (userAgent : bytes) : option error :=
  if len userAgent >? MaxUserAgentLen
  then Some (messageError "MsgVersion" "user agent too long [len %v, max %v]"
               [AInt (len userAgent); AInt MaxUserAgentLen])
  else None.

Lemma validateUserAgent_Err u e : validateUserAgent u = Some e -> exists m, e = ErrMessage m.
Proof. unfold validateUserAgent. case_match; [|done]. intros [= <-]. by eexists. Qed.

(** [strings.Join(comments, "; ")]. *)
Fixpoint join_comments (l : list bytes) : bytes :=
  match l with
  | [] => []
  | [w] => w
  | w :: l => w ++ str "; " ++ join_comments l
  end.

Definition setUserAgent (msg : MsgVersion) (ua : bytes) : MsgVersion :=
  mkMsgVersion (ver_ProtocolVersion msg) (ver_Services msg) (ver_Timestamp msg) (ver_AddrYou msg)
    (ver_AddrMe msg) (ver_Nonce msg) ua (ver_LastBlock msg) (ver_DisableRelayTx msg)
    (ver_AssociationID msg).

(** The message after the call, and the error. *)
Definition AddUserAgent (msg : MsgVersion) (name version : bytes) (comments : list bytes) :
    MsgVersion * option error :=
  let newUserAgent := name ++ str ":" ++ version in
  let newUserAgent :=
    if negb (len comments =? 0)
    then newUserAgent ++ str "(" ++ join_comments comments ++ str ")" else newUserAgent in
  let newUserAgent := newUserAgent ++ str "/" in
  match validateUserAgent newUserAgent with
  | Some err => (msg, Some err)
  | None => (setUserAgent msg newUserAgent, None)
  end.

(** [if buf.Len() > 0 { x = d(buf) }] *)
Definition whenMore {A} (d : Dec A) (x : A) : Dec A :=
  l ← bufferLen; if l >? 0 then d else mret x.

Definition readUserAgent `{Limits} : Dec bytes :=
  userAgent ← ReadVarString;
  match validateUserAgent userAgent with Some e => DFail e | None => mret userAgent end.

(** [_ = readElement(r, &relayTx)]: the error is ignored. *)
Definition readRelay : Dec bool :=
  x ← dtry (readElement Tbool); mret (match x with Ok relayTx => relayTx | Err _ => false end).

Definition MsgVersion_Bsvdecode `{Limits} (pver : Z) : Dec MsgVersion :=
  DLen (fun o =>
  match o with
  | None => DFail (ErrText (mkSprintf "MsgVersion.Bsvdecode reader is not a *bytes.Buffer" []))
  | Some _ =>
    '(v, (services, (timestamp, _))) ← readElements [Tint32; TServiceFlag; Tint64Time];
    you ← readNetAddress pver zeroNetAddress false;
    me ← whenMore (readNetAddress pver zeroNetAddress false) zeroNetAddress;
    nonce ← whenMore (readElement Tuint64 : Dec Z) 0;
    userAgent ← whenMore readUserAgent [];
    lastBlock ← whenMore (readElement Tint32 : Dec Z) 0;
    disableRelayTx ← whenMore (relayTx ← readRelay; mret (negb relayTx)) false;
    associationID ← whenMore (ReadVarBytes MaxAssociationIDLen "AssociationID") [];
    mret (mkMsgVersion v services timestamp you me nonce userAgent lastBlock disableRelayTx
            associationID)
  end).

Definition MsgVersion_BsvEncode (pver : Z) (msg : MsgVersion) : Enc :=
  match validateUserAgent (ver_UserAgent msg) with
  | Some e => efail e
  | None =>
    writeElements [Wint32 (ver_ProtocolVersion msg); WServiceFlag (ver_Services msg);
      Wint64 (t_sec (ver_Timestamp msg))] >>>
    writeNetAddress pver (ver_AddrYou msg) false >>>
    writeNetAddress pver (ver_AddrMe msg) false >>>
    writeElement (Wuint64 (ver_Nonce msg)) >>>
    WriteVarString (ver_UserAgent msg) >>>
    writeElement (Wint32 (ver_LastBlock msg)) >>>
    (if pver >=? BIP0037Version then writeElement (Wbool (negb (ver_DisableRelayTx msg)))
     else edone) >>>
    (if len (ver_AssociationID msg) >? 0 then WriteVarBytes (ver_AssociationID msg) else edone)
  end.

Definition MsgVersion_MaxPayloadLength (pver : Z) : Z :=
  33 + maxNetAddressPayload pver * 2 + MaxVarIntPayload + MaxUserAgentLen + MaxVarIntPayload +
  MaxAssociationIDLen.

#[export] Instance MsgVersion_Msg `{Limits} : Msg MsgVersion := {|
  Command := CmdVersion; MaxPayloadLength := MsgVersion_MaxPayloadLength;
  Bsvdecode := MsgVersion_Bsvdecode; BsvEncode := MsgVersion_BsvEncode |}.

(** ** The encoding *)

Definition version_head (m : MsgVersion) : bytes :=
  elems_bytes [Tint32; TServiceFlag; Tint64Time]
    (ver_ProtocolVersion m, (ver_Services m, (ver_Timestamp m, tt))).

Definition relay_bytes (pver : Z) (m : MsgVersion) : bytes :=
  if pver >=? BIP0037Version then elem_bytes Tbool (negb (ver_DisableRelayTx m)) else [].

Definition assoc_bytes (m : MsgVersion) : bytes :=
  if len (ver_AssociationID m) >? 0 then var_bytes (ver_AssociationID m) else [].

Definition MsgVersion_bytes (pver : Z) (m : MsgVersion) : bytes :=
  version_head m ++ NetAddress_bytes pver false (ver_AddrYou m) ++
  NetAddress_bytes pver false (ver_AddrMe m) ++ elem_bytes Tuint64 (ver_Nonce m) ++
  var_bytes (ver_UserAgent m) ++ elem_bytes Tint32 (ver_LastBlock m) ++
  relay_bytes pver m ++ assoc_bytes m.

(** The messages the decoder returns.  Without the relay flag (before
    BIP0037) nothing can follow the block number. *)
Definition MsgVersion_ok `{Limits} (pver : Z) (m : MsgVersion) : Prop :=
  is_i32 (ver_ProtocolVersion m) /\ is_u64 (ver_Services m) /\
  (is_i64 (t_sec (ver_Timestamp m)) /\ t_nsec (ver_Timestamp m) = 0) /\
  NetAddress_ok pver zeroNetAddress false (ver_AddrYou m) /\
  NetAddress_ok pver zeroNetAddress false (ver_AddrMe m) /\
  is_u64 (ver_Nonce m) /\
  (len (ver_UserAgent m) <= MaxUserAgentLen /\ var_ok maxMessagePayload (ver_UserAgent m)) /\
  is_i32 (ver_LastBlock m) /\ var_ok MaxAssociationIDLen (ver_AssociationID m) /\
  (pver < BIP0037Version -> ver_DisableRelayTx m = false /\ ver_AssociationID m = []).

Lemma encodes_MsgVersion pver m :
  len (ver_UserAgent m) <= MaxUserAgentLen ->
  encodes (MsgVersion_BsvEncode pver m) (MsgVersion_bytes pver m).
Proof.
  intros Hu. unfold MsgVersion_BsvEncode, validateUserAgent. rewrite gtb_false by done.
  unfold MsgVersion_bytes, relay_bytes, assoc_bytes. apply encodes_seq.
  { apply (encodes_writeElements [Wint32 _; WServiceFlag _; Wint64 _]). }
  repeat apply encodes_seq; auto with encodes; case_match; auto with encodes.
Qed.

(** ** Decoding from a buffer *)

Lemma run_whenMore {A} (d : Dec A) x data :
  run (whenMore d x) (mkBuffer data) =
  if len data >? 0 then run d (mkBuffer data) else (Ok x, mkBuffer data).
Proof.
  unfold whenMore. rewrite run_bind. cbn [run bufferLen AsBuffer buffer_reader b_data default].
  unfold id. by destruct (len data >? 0).
Qed.

(** An optional field that is present. *)
Lemma run_whenMore_some {A} (d : Dec A) x bs a rest :
  streamable d -> decodes d bs a -> 0 < len bs ->
  run (whenMore d x) (mkBuffer (bs ++ rest)) = (Ok a, mkBuffer rest).
Proof.
  intros Hs Hd Hl. rewrite run_whenMore.
  replace (len (bs ++ rest) >? 0) with true by (symmetry; rewrite Z.gtb_ltb; apply Z.ltb_lt; len_lia).
  by apply decodes_buffer.
Qed.

Lemma run_whenMore_none {A} (d : Dec A) x :
  run (whenMore d x) (mkBuffer []) = (Ok x, mkBuffer []).
Proof. by rewrite run_whenMore. Qed.

Lemma decodes_readUserAgent `{Limits} ua :
  len ua <= MaxUserAgentLen -> var_ok maxMessagePayload ua ->
  decodes readUserAgent (var_bytes ua) ua.
Proof.
  intros Hl Hok. eapply decodes_bind_last; [by apply codec_decodes|].
  unfold validateUserAgent. rewrite gtb_false by done. apply decodes_ret.
Qed.

Lemma decodes_dtry {A} (d : Dec A) bs a : decodes d bs a -> decodes (dtry d) bs (Ok a).
Proof. intros Hd rest e. by rewrite run_dtry, Hd. Qed.

Lemma decodes_readRelay v : decodes readRelay (elem_bytes Tbool v) v.
Proof.
  eapply decodes_bind_last; [apply decodes_dtry; by apply (decodes_elem Tbool)|apply decodes_ret].
Qed.

Lemma streamable_dtry {A} (d : Dec A) : streamable d -> streamable (dtry d).
Proof. induction d as [a|e|n k IH|k IH]; simpl; auto. Qed.

Lemma streamable_readRelay : streamable (relayTx ← readRelay; mret (negb relayTx)).
Proof.
  unfold readRelay. apply streamable_bind; [|by intros]. apply streamable_bind; [|by intros].
  apply streamable_dtry. apply (streamable_readElement Tbool).
Qed.

Lemma streamable_readUserAgent `{Limits} : streamable readUserAgent.
Proof. unfold readUserAgent. solve_streamable. Qed.
#[export] Hint Resolve streamable_readRelay streamable_readUserAgent : streamable.

Lemma len_elem_pos t v : elem_ok t v -> 0 < len (elem_bytes t v).
Proof. intros Hok. rewrite len_elem_bytes by done. by destruct t. Qed.

Lemma len_var_pos s : 0 < len (var_bytes s).
Proof.
  rewrite len_var_bytes. pose proof (VarIntSerializeSize_bound (len s)).
  pose proof (len_nonneg s). lia.
Qed.

Lemma len_netaddr_pos pver na : 0 < len (NetAddress_bytes pver false na).
Proof. rewrite len_NetAddress_bytes. by case_match. Qed.

(** The first two fields of the message, which must be present. *)
Definition optional_rest `{Limits} (pver : Z) (v services : Z) (timestamp : Time)
    (you : NetAddress) : Dec MsgVersion :=
  me ← whenMore (readNetAddress pver zeroNetAddress false) zeroNetAddress;
  nonce ← whenMore (readElement Tuint64 : Dec Z) 0;
  userAgent ← whenMore readUserAgent [];
  lastBlock ← whenMore (readElement Tint32 : Dec Z) 0;
  disableRelayTx ← whenMore (relayTx ← readRelay; mret (negb relayTx)) false;
  associationID ← whenMore (ReadVarBytes MaxAssociationIDLen "AssociationID") [];
  mret (mkMsgVersion v services timestamp you me nonce userAgent lastBlock disableRelayTx
          associationID).

Lemma run_MsgVersion_head `{Limits} pver m rest :
  is_i32 (ver_ProtocolVersion m) -> is_u64 (ver_Services m) ->
  elem_ok Tint64Time (ver_Timestamp m) ->
  NetAddress_ok pver zeroNetAddress false (ver_AddrYou m) ->
  run (MsgVersion_Bsvdecode pver)
    (mkBuffer (version_head m ++ NetAddress_bytes pver false (ver_AddrYou m) ++ rest)) =
  run (optional_rest pver (ver_ProtocolVersion m) (ver_Services m) (ver_Timestamp m)
         (ver_AddrYou m)) (mkBuffer rest).
Proof.
  intros Hv Hs Ht Hy. unfold MsgVersion_Bsvdecode. cbn [run AsBuffer buffer_reader].
  rewrite run_bind, (decodes_buffer (readElements [Tint32; TServiceFlag; Tint64Time])
    _ (ver_ProtocolVersion m, (ver_Services m, (ver_Timestamp m, tt)))).
  2: apply streamable_readElements.
  2: by apply (decodes_elems [Tint32; TServiceFlag; Tint64Time]).
  rewrite run_bind, (codec_decodes_buffer (readNetAddress pver zeroNetAddress false)
    (NetAddress_bytes pver false) (NetAddress_ok pver zeroNetAddress false)); auto with streamable.
Qed.

Lemma MsgVersion_decodes `{Limits} pver m :
  MsgVersion_ok pver m ->
  run (MsgVersion_Bsvdecode pver) (mkBuffer (MsgVersion_bytes pver m)) = (Ok m, mkBuffer []).
Proof.
  destruct m as [v sv t y me n ua lb dr a].
  intros (Hv & Hs & Ht & Hy & Hme & Hn & [Hu1 Hu2] & Hlb & Ha & Hold).
  unfold MsgVersion_bytes. rewrite run_MsgVersion_head by done. unfold optional_rest.
  cbn [ver_ProtocolVersion ver_Services ver_Timestamp ver_AddrYou ver_AddrMe ver_Nonce
       ver_UserAgent ver_LastBlock ver_DisableRelayTx ver_AssociationID] in *.
  rewrite run_bind, (run_whenMore_some _ _ _ me); auto using len_netaddr_pos with streamable;
    [|by apply Codec_readNetAddress].
  rewrite run_bind, (run_whenMore_some _ _ _ n);
    [|apply (streamable_readElement Tuint64)|by apply (decodes_elem Tuint64)|by apply len_elem_pos].
  rewrite run_bind, (run_whenMore_some _ _ _ ua);
    auto using decodes_readUserAgent, len_var_pos with streamable.
  rewrite run_bind, (run_whenMore_some _ _ _ lb);
    [|apply (streamable_readElement Tint32)|by apply (decodes_elem Tint32)|by apply len_elem_pos].
  unfold relay_bytes, assoc_bytes. cbn [ver_DisableRelayTx ver_AssociationID].
  destruct (Z.leb_spec BIP0037Version pver) as [Hp|Hp];
    rewrite Z.geb_leb, ?(proj2 (Z.leb_le _ _)), ?(proj2 (Z.leb_gt _ _)) by done.
  - rewrite run_bind, (run_whenMore_some _ _ _ dr); auto with streamable; [|..|by apply len_elem_pos].
    2: { eapply decodes_bind_last; [apply decodes_readRelay|]. rewrite negb_involutive.
         apply decodes_ret. }
    rewrite run_bind, Z.gtb_ltb. destruct (Z.ltb_spec 0 (len a)) as [Hpos|Hz].
    + rewrite <- (app_nil_r (var_bytes a)), (run_whenMore_some _ _ _ a);
        auto using len_var_pos with streamable. by apply codec_decodes.
    + rewrite run_whenMore_none. rewrite (len_0_inv a) by (pose proof (len_nonneg a); lia). done.
  - destruct (Hold Hp) as [-> ->]. cbn [app len length]. rewrite run_bind, run_whenMore_none.
    by rewrite run_bind, run_whenMore_none.
Qed.

Lemma MsgVersion_bounded `{Limits} pver m :
  MsgVersion_ok pver m -> len (MsgVersion_bytes pver m) <= MsgVersion_MaxPayloadLength pver.
Proof.
  intros (Hv & Hs & Ht & Hy & Hme & Hn & [Hu1 Hu2] & Hlb & [Ha _] & _).
  unfold MsgVersion_bytes, version_head. rewrite !len_app, len_elems_bytes by done.
  rewrite len_var_bytes, !len_elem_bytes by done.
  pose proof (len_NetAddress_bound pver false (ver_AddrYou m)).
  pose proof (len_NetAddress_bound pver false (ver_AddrMe m)).
  pose proof (VarIntSerializeSize_bound (len (ver_UserAgent m))).
  pose proof (VarIntSerializeSize_bound (len (ver_AssociationID m))).
  assert (len (relay_bytes pver m) <= 1).
  { unfold relay_bytes. case_match; [by rewrite len_elem_bytes|done]. }
  assert (len (assoc_bytes m) <= MaxVarIntPayload + MaxAssociationIDLen).
  { unfold assoc_bytes. case_match; [rewrite len_var_bytes; lia|done]. }
  unfold MsgVersion_MaxPayloadLength. change (zsum _) with 20. cbn [elem_size]. lia.
Qed.

#[export] Instance MsgVersion_spec `{Limits} : MsgSpec MsgVersion.
Proof.
  refine {| msg_bytes := MsgVersion_bytes; msg_ok := MsgVersion_ok |}.
  - intros pver m (_ & _ & _ & _ & _ & _ & [Hu _] & _). by apply encodes_MsgVersion.
  - apply MsgVersion_decodes.
  - apply MsgVersion_bounded.
Defined.

(** ** The properties *)

(** A version message is encoded without error, to at most
    [MaxPayloadLength] bytes, and decoded back to itself from a buffer that
    holds its payload; from any reader that is not a [*bytes.Buffer] it is
    refused without reading a byte. *)
Theorem MsgVersion_roundtrip `{Limits} (pver : Z) (m : MsgVersion) (s : stream) :
  MsgVersion_ok pver m ->
  outcome (MsgVersion_BsvEncode pver m) = None /\
  len (written (MsgVersion_BsvEncode pver m)) <= MsgVersion_MaxPayloadLength pver /\
  run (MsgVersion_Bsvdecode pver) (mkBuffer (written (MsgVersion_BsvEncode pver m))) =
    (Ok m, mkBuffer []) /\
  run (MsgVersion_Bsvdecode pver) s =
    (Err (ErrText (mkSprintf "MsgVersion.Bsvdecode reader is not a *bytes.Buffer" [])), s).
Proof.
  intros Hok. destruct (encodes_MsgVersion pver m) as [Ho Hw]; [apply Hok|]. rewrite Hw.
  split_and!; [done|by apply MsgVersion_bounded|by apply MsgVersion_decodes|done].
Qed.

Definition exampleAddr : NetAddress := mkNetAddress zeroTime 1 (ip16 (take 4 (str "abcd"))) 8333.
Definition exampleVersion : MsgVersion :=
  mkMsgVersion 70016 1 (mkTime 1700000000 0) exampleAddr exampleAddr 42 DefaultUserAgent (-1) true
    [Byte.x00; Byte.x01].


Lemma exampleVersion_ok : @MsgVersion_ok defaultLimits 70016 exampleVersion.
Proof. repeat split; vm_compute; try (reflexivity || discriminate). Qed.

Lemma MsgVersion_roundtrip_witness :
  outcome (MsgVersion_BsvEncode 70016 exampleVersion) = None /\
  len (written (MsgVersion_BsvEncode 70016 exampleVersion)) <= MsgVersion_MaxPayloadLength 70016 /\
  run (@MsgVersion_Bsvdecode defaultLimits 70016)
    (mkBuffer (written (MsgVersion_BsvEncode 70016 exampleVersion))) =
    (Ok exampleVersion, mkBuffer []) /\
  run (@MsgVersion_Bsvdecode defaultLimits 70016) (mkStream [] EOF) =
    (Err (ErrText (mkSprintf "MsgVersion.Bsvdecode reader is not a *bytes.Buffer" [])),
     mkStream [] EOF).
Proof.
  apply (@MsgVersion_roundtrip defaultLimits 70016 exampleVersion (mkStream [] EOF)).
  exact exampleVersion_ok.
Defined.

(** Before BIP0037 the relay flag is not written, but an
    association ID is: the message is encoded without error and its own
    decoder takes the length of the ID for the flag and fails. *)
Theorem MsgVersion_association_before_bip37 :
  let m := mkMsgVersion 70000 1 (mkTime 1700000000 0) exampleAddr exampleAddr 42 DefaultUserAgent
             (-1) false [Byte.x05] in
  outcome (MsgVersion_BsvEncode 70000 m) = None /\
  run (@MsgVersion_Bsvdecode defaultLimits 70000) (mkBuffer (written (MsgVersion_BsvEncode 70000 m))) =
    (Err EOF, mkBuffer []).
Proof. split; vm_compute; reflexivity. Qed.

(** [AddUserAgent] changes nothing but the user agent, refuses one of more
    than 256 bytes without a change, and on success the message holds
    "name:version(comments)/".  The user agent that was there before is
    replaced, not extended. *)
Theorem AddUserAgent_replaces msg name version comments :
  let ua := name ++ str ":" ++ version ++
    (if len comments =? 0 then [] else str "(" ++ join_comments comments ++ str ")") ++ str "/" in
  (len ua <= MaxUserAgentLen ->
   AddUserAgent msg name version comments = (setUserAgent msg ua, None)) /\
  (MaxUserAgentLen < len ua ->
   AddUserAgent msg name version comments =
   (msg, Some (messageError "MsgVersion" "user agent too long [len %v, max %v]"
                 [AInt (len ua); AInt MaxUserAgentLen]))).
Proof.
  intros ua. assert (AddUserAgent msg name version comments =
    match validateUserAgent ua with
    | Some err => (msg, Some err) | None => (setUserAgent msg ua, None) end) as ->.
  { unfold AddUserAgent, ua. destruct (len comments =? 0); cbn [negb];
      rewrite ?app_nil_l, <- ?app_assoc; done. }
  unfold validateUserAgent. split; intros Hl; [by rewrite gtb_false|].
  by rewrite Z.gtb_ltb, (proj2 (Z.ltb_lt _ _)).
Qed.
