(* ===== verification/Receivers.v ===== *)
(** * Decoding into a receiver

    A [Bsvdecode] method writes into the message it is called on, field by
    field, and leaves alone what the payload does not contain; on an error the
    fields read so far have been overwritten.  The decoders of the other files
    return a new message.  Here the four methods that read a field only on a
    condition (ping, reject, protoconf and version) are modelled
    with the receiver as state that survives an error.  On the zero receivers
    [makeEmptyMessage] makes they are the decoders of the other files
    ([Receiver_fresh]); on a receiver that was used before, the fields the
    payload leaves out keep their old values ([Receiver_keeps],
    [MsgVersion_legacy]). *)

From S2P Require Import Prelude Io Common Externals Protocol NetAddress Mem Block.
From S2P Require Import MsgIface MsgControl Version.

(** ** Methods with a receiver *)

(** The receiver before; a result and the receiver after. *)
Definition Rec (T A : Type) : Type := T -> Dec (result A * T).

Definition rret {T A} (a : A) : Rec T A := fun m => mret (Ok a, m).
Definition rfail {T A} (e : error) : Rec T A := fun m => mret (Err e, m).

(** [if err != nil { return err }] *)
Definition rbind {T A B} (x : Rec T A) (f : A -> Rec T B) : Rec T B := fun m =>
  '(a, m) ← x m; match a with Ok a => f a m | Err e => mret (Err e, m) end.

(** A call that does not touch the receiver; its result as a value. *)
Definition rcall {T A} (d : Dec A) : Rec T A := fun m => x ← dtry d; mret (x, m).
Definition rtry {T A} (d : Dec A) : Rec T (result A) := fun m => x ← dtry d; mret (Ok x, m).
Definition rset {T} (f : T -> T) : Rec T unit := fun m => mret (Ok tt, f m).
Definition rget {T A} (f : T -> A) : Rec T A := fun m => mret (Ok (f m), m).

Declare Scope rec_scope.
Delimit Scope rec_scope with rec.
Notation "x <- d ; k" := (rbind d (fun x => k)) (at level 100, d at next level, right associativity) : rec_scope.
Notation "d ;; k" := (rbind d (fun _ => k)) (at level 100, right associativity) : rec_scope.
Open Scope rec_scope.

(** [err := readElement(r, &msg.f)] for a field that is assigned on success. *)
Definition rread {T A} (d : Dec A) (set : A -> T -> T) : Rec T unit := v <- rcall d; rset (set v).

(** [msg.f, err = d(r)]: assigned in any case, with the zero value on error. *)
Definition rassign {T A} (d : Dec A) (zero : A) (set : A -> T -> T) : Rec T unit :=
  x <- rtry d;
  rset (set (match x with Ok a => a | Err _ => zero end));;
  match x with Ok _ => rret tt | Err e => rfail e end.

(** [io.ReadFull(r, msg.f[:])] into an array of [n] bytes: what was read stays
    in it on error. *)
Definition rreadArray {T} (n : Z) (get : T -> bytes) (set : bytes -> T -> T) : Rec T unit := fun m =>
  DRead n (fun '(bs, e) =>
    mret (match e with None => Ok tt | Some e => Err e end,
          set (bs ++ drop (length bs) (get m)) m)).

(** [if buf.Len() > 0 { ... }] *)
Definition rwhenMore {T} (x : Rec T unit) : Rec T unit :=
  l <- rcall bufferLen; if l >? 0 then x else rret tt.

(** ** The methods *)

Definition MsgPing_into (pver : Z) : Rec MsgPing unit :=
  if pver >? BIP0031Version then rread (readElement Tuint64) (fun v _ => mkMsgPing v) else rret tt.

Definition setCmd (v : bytes) (m : MsgReject) := mkMsgReject v (rj_Code m) (rj_Reason m) (rj_Hash m).
Definition setCode (v : Z) (m : MsgReject) := mkMsgReject (rj_Cmd m) v (rj_Reason m) (rj_Hash m).
Definition setReason (v : bytes) (m : MsgReject) := mkMsgReject (rj_Cmd m) (rj_Code m) v (rj_Hash m).
Definition setHash (v : bytes) (m : MsgReject) := mkMsgReject (rj_Cmd m) (rj_Code m) (rj_Reason m) v.

Definition MsgReject_into `{Limits} (pver : Z) : Rec MsgReject unit :=
  if pver <? RejectVersion then rfail (invalidPver "MsgReject.Bsvdecode" "reject" pver)
  else
    rread ReadVarString setCmd;;
    rread (readElement TRejectCode) setCode;;
    rread ReadVarString setReason;;
    cmd <- rget rj_Cmd;
    if hasHash cmd then rreadArray HashSize rj_Hash setHash else rret tt.

Definition setNumberOfFields (v : Z) (m : MsgProtoconf) :=
  mkMsgProtoconf v (pc_MaxRecvPayloadLength m) (pc_StreamPolicies m).
Definition setMaxRecv (v : Z) (m : MsgProtoconf) :=
  mkMsgProtoconf (pc_NumberOfFields m) v (pc_StreamPolicies m).
Definition setPolicies (v : list bytes) (m : MsgProtoconf) :=
  mkMsgProtoconf (pc_NumberOfFields m) (pc_MaxRecvPayloadLength m) v.

Definition MsgProtoconf_into `{Limits} `{Externals} (pver : Z) : Rec MsgProtoconf unit :=
  if pver <? ProtoconfVersion then rfail (invalidPver "MsgProtoconf.Bsvdecode" "protoconf" pver)
  else
    rread bt_VarInt_ReadFrom setNumberOfFields;;
    n <- rget pc_NumberOfFields;
    (if n >? 0 then rassign (Uint32 littleEndian) 0 setMaxRecv else rret tt);;
    (if n >? 1 then
       vi <- rcall bt_VarInt_ReadFrom;
       if vi >? maxMessagePayload then
         rfail (messageError "MsgProtoconf.Bsvdecode"
                  "stream policies length too long [count %d, max %d]"
                  [AInt vi; AInt maxMessagePayload])
       else rread (readFull vi) (fun b => setPolicies (split_comma b))
     else rret tt).

(** [readNetAddress(r, pver, na, ts)]; a field of a larger receiver is reached
    with [get] and [set]. *)
Definition readNetAddress_into {T} (pver : Z) (ts : bool) (get : T -> NetAddress)
    (set : NetAddress -> T -> T) : Rec T unit :=
  (if ts && (pver >=? NetAddressTimeVersion)
   then rread (readElement Tuint32Time) (fun t m =>
          let na := get m in set (mkNetAddress t (na_Services na) (na_IP na) (na_Port na)) m)
   else rret tt);;
  rread (readElement TServiceFlag) (fun s m =>
    let na := get m in set (mkNetAddress (na_Timestamp na) s (na_IP na) (na_Port na)) m);;
  ip <- rcall (readElement Tip);
  port <- rcall (Uint16 bigEndian);
  rset (fun m => let na := get m in
                 set (mkNetAddress (na_Timestamp na) (na_Services na) ip port) m).

Definition setVersion (v : Z) (m : MsgVersion) :=
  mkMsgVersion v (ver_Services m) (ver_Timestamp m) (ver_AddrYou m) (ver_AddrMe m) (ver_Nonce m)
    (ver_UserAgent m) (ver_LastBlock m) (ver_DisableRelayTx m) (ver_AssociationID m).
Definition setServices (v : Z) (m : MsgVersion) :=
  mkMsgVersion (ver_ProtocolVersion m) v (ver_Timestamp m) (ver_AddrYou m) (ver_AddrMe m)
    (ver_Nonce m) (ver_UserAgent m) (ver_LastBlock m) (ver_DisableRelayTx m) (ver_AssociationID m).
Definition setTimestamp (v : Time) (m : MsgVersion) :=
  mkMsgVersion (ver_ProtocolVersion m) (ver_Services m) v (ver_AddrYou m) (ver_AddrMe m)
    (ver_Nonce m) (ver_UserAgent m) (ver_LastBlock m) (ver_DisableRelayTx m) (ver_AssociationID m).
Definition setAddrYou (v : NetAddress) (m : MsgVersion) :=
  mkMsgVersion (ver_ProtocolVersion m) (ver_Services m) (ver_Timestamp m) v (ver_AddrMe m)
    (ver_Nonce m) (ver_UserAgent m) (ver_LastBlock m) (ver_DisableRelayTx m) (ver_AssociationID m).
Definition setAddrMe (v : NetAddress) (m : MsgVersion) :=
  mkMsgVersion (ver_ProtocolVersion m) (ver_Services m) (ver_Timestamp m) (ver_AddrYou m) v
    (ver_Nonce m) (ver_UserAgent m) (ver_LastBlock m) (ver_DisableRelayTx m) (ver_AssociationID m).
Definition setNonce (v : Z) (m : MsgVersion) :=
  mkMsgVersion (ver_ProtocolVersion m) (ver_Services m) (ver_Timestamp m) (ver_AddrYou m)
    (ver_AddrMe m) v (ver_UserAgent m) (ver_LastBlock m) (ver_DisableRelayTx m) (ver_AssociationID m).
Definition setLastBlock (v : Z) (m : MsgVersion) :=
  mkMsgVersion (ver_ProtocolVersion m) (ver_Services m) (ver_Timestamp m) (ver_AddrYou m)
    (ver_AddrMe m) (ver_Nonce m) (ver_UserAgent m) v (ver_DisableRelayTx m) (ver_AssociationID m).
Definition setDisableRelayTx (v : bool) (m : MsgVersion) :=
  mkMsgVersion (ver_ProtocolVersion m) (ver_Services m) (ver_Timestamp m) (ver_AddrYou m)
    (ver_AddrMe m) (ver_Nonce m) (ver_UserAgent m) (ver_LastBlock m) v (ver_AssociationID m).
Definition setAssociationID (v : bytes) (m : MsgVersion) :=
  mkMsgVersion (ver_ProtocolVersion m) (ver_Services m) (ver_Timestamp m) (ver_AddrYou m)
    (ver_AddrMe m) (ver_Nonce m) (ver_UserAgent m) (ver_LastBlock m) (ver_DisableRelayTx m) v.

(** [readElements(buf, &msg.ProtocolVersion, &msg.Services, &msg.Timestamp)] *)
Definition version_front : Rec MsgVersion unit :=
  rread (readElement Tint32) setVersion;;
  rread (readElement TServiceFlag) setServices;;
  rread (readElement Tint64Time) setTimestamp.

Definition MsgVersion_fields `{Limits} (pver : Z) : Rec MsgVersion unit :=
  version_front;;
  readNetAddress_into pver false ver_AddrYou setAddrYou;;
  rwhenMore (readNetAddress_into pver false ver_AddrMe setAddrMe);;
  rwhenMore (rread (readElement Tuint64) setNonce);;
  rwhenMore (userAgent <- rcall ReadVarString;
             match validateUserAgent userAgent with
             | Some e => rfail e
             | None => rset (fun m => setUserAgent m userAgent)
             end);;
  rwhenMore (rread (readElement Tint32) setLastBlock);;
  rwhenMore (x <- rtry (readElement Tbool);
             rset (setDisableRelayTx (negb (match x with Ok relayTx => relayTx | Err _ => false end))));;
  rwhenMore (rassign (ReadVarBytes MaxAssociationIDLen "AssociationID") [] setAssociationID).

Definition MsgVersion_into `{Limits} (pver : Z) : Rec MsgVersion unit := fun msg =>
  DLen (fun o =>
  match o with
  | None => rfail (ErrText (mkSprintf "MsgVersion.Bsvdecode reader is not a *bytes.Buffer" [])) msg
  | Some _ => MsgVersion_fields pver msg
  end).

(** ** Following a decoder that returns a new value *)

(** One read, of the method and of the decoder at once. *)
Ltac run_norm := repeat (rewrite ?run_bind, ?run_dtry; cbn [run mret Dec_ret]).
Ltac lockstep d r :=
  run_norm; destruct (run d r) as [[?|?] ?]; run_norm; [|eexists _, _, _; split; reflexivity].

Section Follows.
Context {R : Type} {HR : Reader R}.

(** [x], called on the receiver [m], reads what [d] reads and fails when and as
    [d] fails; otherwise its result and the receiver are related to [d]'s
    value. *)
Definition follows {T A B} (x : Rec T A) (m : T) (d : Dec B) (Q : A -> T -> B -> Prop) : Prop :=
  forall r : R, exists a m' r', run (x m) r = (Ok (a, m'), r') /\
    match a with
    | Ok a => exists b, run d r = (Ok b, r') /\ Q a m' b
    | Err e => run d r = (Err e, r')
    end.

Lemma follows_bind {T A B C D} (x : Rec T A) m (d : Dec B) Q (f : A -> Rec T C) (g : B -> Dec D) Q' :
  follows x m d Q -> (forall a m' b, Q a m' b -> follows (f a) m' (g b) Q') ->
  follows (rbind x f) m (d ≫= g) Q'.
Proof.
  intros Hx Hf r. destruct (Hx r) as (a & m1 & r1 & E & Ha). unfold rbind. rewrite !run_bind, E.
  destruct a as [a|e]; [|rewrite Ha; by eexists (Err e), m1, r1].
  destruct Ha as (b & -> & Hq). exact (Hf _ _ _ Hq r1).
Qed.

(** A step of the method that is none of the decoder. *)
Lemma follows_then {T A B C} (x : Rec T A) m (d : Dec B) Q (f : A -> Rec T C) Q' :
  follows x m d Q -> (forall a m' b, Q a m' b -> follows (f a) m' (mret b) Q') ->
  follows (rbind x f) m d Q'.
Proof.
  intros Hx Hf r. destruct (follows_bind x m d Q f mret Q' Hx Hf r) as (a & m1 & r1 & E & Ha).
  exists a, m1, r1. split; [done|]. revert Ha. rewrite run_bind.
  by destruct a, (run d r) as [[]].
Qed.

Lemma follows_mono {T A B} (x : Rec T A) m (d : Dec B) (Q Q' : A -> T -> B -> Prop) :
  follows x m d Q -> (forall a m' b, Q a m' b -> Q' a m' b) -> follows x m d Q'.
Proof.
  intros Hx HQ r. destruct (Hx r) as (a & m1 & r1 & E & Ha). exists a, m1, r1. split; [done|].
  destruct a; [|done]. destruct Ha as (b & ? & ?). eauto.
Qed.

Lemma follows_ret {T A B} (a : A) (m : T) (b : B) (Q : A -> T -> B -> Prop) :
  Q a m b -> follows (rret a) m (mret b) Q.
Proof. intros HQ r. exists (Ok a), m, r. eauto. Qed.

Lemma follows_set {T B} (f : T -> T) (m : T) (b : B) (Q : unit -> T -> B -> Prop) :
  Q tt (f m) b -> follows (rset f) m (mret b) Q.
Proof. intros HQ r. exists (Ok tt), (f m), r. eauto. Qed.

Lemma follows_fail {T A B} (m : T) e (Q : A -> T -> B -> Prop) : follows (rfail e) m (DFail e) Q.
Proof. intros r. by exists (Err e), m, r. Qed.

Lemma follows_call {T A} (d : Dec A) (m : T) : follows (rcall d) m d (fun a m' b => a = b /\ m' = m).
Proof.
  intros r. unfold rcall. rewrite run_bind, run_dtry. destruct (run d r) as [[a|e] r1].
  - exists (Ok a), m, r1. eauto.
  - by exists (Err e), m, r1.
Qed.

Lemma follows_get {T A B C} (g : T -> A) (f : A -> Rec T B) m (d : Dec C) Q :
  follows (f (g m)) m d Q -> follows (rbind (rget g) f) m d Q.
Proof. intros Hf. exact Hf. Qed.

Lemma follows_read {T A} (d : Dec A) (set : A -> T -> T) m :
  follows (rread d set) m d (fun _ m' v => m' = set v m).
Proof.
  eapply follows_then; [apply follows_call|]. intros a m' b [-> ->]. by apply follows_set.
Qed.

Lemma follows_assign {T A} (d : Dec A) zero (set : A -> T -> T) m :
  follows (rassign d zero set) m d (fun _ m' v => m' = set v m).
Proof.
  intros r. unfold rassign, rbind, rtry. rewrite !run_bind, run_dtry.
  destruct (run d r) as [[a|e] r1]; cbn [run mret Dec_ret]; rewrite run_bind; cbn.
  - exists (Ok tt), (set a m), r1. eauto.
  - by exists (Err e), (set zero m), r1.
Qed.

Lemma follows_whenMore {T A} (x : Rec T unit) m (d : Dec A) x0 (Q : unit -> T -> A -> Prop) :
  follows x m d Q -> Q tt m x0 -> follows (rwhenMore x) m (whenMore d x0) Q.
Proof.
  intros Hx H0. eapply follows_bind; [apply follows_call|]. intros l m' b [-> ->].
  destruct (b >? 0); [done|]. by apply follows_ret.
Qed.

(** A whole array overwrites the one that was there. *)
Lemma ReadFull_len n (r : R) bs r' `{!ReaderSpec R} : ReadFull n r = (bs, None, r') -> 0 <= n -> len bs = n.
Proof.
  intros Hr Hn. pose proof (view_ReadFull n r) as Hv. rewrite Hr in Hv. unfold ReadFull in Hv.
  cbn [Pull stream_reader] in Hv. unfold stream_pull in Hv.
  destruct (Z.leb_spec n (len (s_data (view r)))); injection Hv as <- Hv; [|done].
  by apply len_take_le.
Qed.

Lemma follows_array {T} `{!ReaderSpec R} n (get : T -> bytes) set m :
  0 <= n -> len (get m) = n ->
  follows (rreadArray n get set) m (readFull n) (fun _ m' v => m' = set v m).
Proof.
  intros Hn Hg r. unfold rreadArray, readFull. cbn [run].
  destruct (ReadFull n r) as [[bs [e|]] r1] eqn:Er; cbn [run mret Dec_ret].
  - by eexists (Err e), _, r1.
  - eexists (Ok tt), _, r1. split; [done|]. exists bs. split; [done|].
    apply ReadFull_len in Er; [|done..]. rewrite drop_ge by zlia. by rewrite app_nil_r.
Qed.

(** The address of a version message has no time stamp: the one in the
    receiver stays. *)
Definition stamp (old na : NetAddress) : NetAddress :=
  mkNetAddress (na_Timestamp old) (na_Services na) (na_IP na) (na_Port na).

Lemma follows_NetAddress {T} pver na0 (get : T -> NetAddress) (set : NetAddress -> T -> T) m :
  (forall a m, get (set a m) = a) -> (forall a b m, set a (set b m) = set a m) ->
  follows (readNetAddress_into pver false get set) m (readNetAddress pver na0 false)
    (fun _ m' na => m' = set (stamp (get m) na) m /\ na_Timestamp na = na_Timestamp na0).
Proof.
  intros Hgs Hss r. unfold readNetAddress_into, readNetAddress, rread, rbind, rcall, rset, rret.
  cbn [andb readElements].
  lockstep (readElement TServiceFlag) r. lockstep (readElement Tip) r0.
  lockstep (Uint16 bigEndian) r1.
  eexists (Ok tt), _, _. split; [done|]. eexists. split; [done|].
  by rewrite !Hgs, Hss.
Qed.

(** ** The four methods *)

(** The zero values, which [makeEmptyMessage] decodes into. *)
Definition zeroPing : MsgPing := mkMsgPing 0.
Definition zeroReject : MsgReject := mkMsgReject [] 0 [] (zeros 32).
Definition zeroProtoconf : MsgProtoconf := mkMsgProtoconf 0 0 [].
Definition zeroVersion : MsgVersion :=
  mkMsgVersion 0 0 zeroTime zeroNetAddress zeroNetAddress 0 [] 0 false [].

Lemma follows_map {T A B C} (x : Rec T A) m (d : Dec B) Q (k : B -> C) :
  follows x m d Q ->
  follows x m (b ← d; mret (k b)) (fun a m' c => exists b, c = k b /\ Q a m' b).
Proof.
  intros Hx r. destruct (Hx r) as (a & m1 & r1 & E & Ha). exists a, m1, r1. split; [done|].
  rewrite run_bind. destruct a; [|by rewrite Ha]. destruct Ha as (b & -> & HQ). eexists. eauto.
Qed.

(** What the receiver [m0] holds after [b] was decoded into it. *)
Definition keepPing (pver : Z) (m0 b : MsgPing) : MsgPing :=
  if pver >? BIP0031Version then b else m0.

Lemma follows_MsgPing pver m0 :
  follows (MsgPing_into pver) m0 (MsgPing_Bsvdecode pver)
    (fun _ m b => m = keepPing pver m0 b /\ b = keepPing pver zeroPing b).
Proof.
  unfold MsgPing_into, MsgPing_Bsvdecode, keepPing.
  destruct (pver >? BIP0031Version); [|by apply follows_ret].
  eapply follows_mono; [apply follows_map, follows_read|]. by intros _ m b (v & -> & ->).
Qed.

Definition keepHash (m0 b : MsgReject) : MsgReject :=
  setHash (if hasHash (rj_Cmd b) then rj_Hash b else rj_Hash m0) b.

Lemma follows_MsgReject `{Limits} `{!ReaderSpec R} pver m0 :
  len (rj_Hash m0) = HashSize ->
  follows (MsgReject_into pver) m0 (MsgReject_Bsvdecode pver)
    (fun _ m b => m = keepHash m0 b /\ b = keepHash zeroReject b).
Proof.
  intros Hl. unfold MsgReject_into, MsgReject_Bsvdecode.
  destruct (pver <? RejectVersion); [apply follows_fail|].
  eapply follows_bind; [apply follows_read|]. intros _ m1 cmd ->.
  eapply follows_bind; [apply follows_read|]. intros _ m2 code ->.
  eapply follows_bind; [apply follows_read|]. intros _ m3 reason ->.
  apply follows_get. cbn [rj_Cmd setReason setCode setCmd].
  unfold keepHash. eapply follows_mono; [apply follows_map with (Q := fun _ m v =>
    m = setHash (if hasHash cmd then v else rj_Hash m0) (mkMsgReject cmd code reason (rj_Hash m0)) /\
    (hasHash cmd = false -> v = zeros 32))|].
  - destruct (hasHash cmd); [|by apply follows_ret].
    eapply follows_mono; [by apply (follows_array HashSize)|]. by intros _ m v ->.
  - intros _ m b (v & -> & -> & Hv). cbn [rj_Cmd rj_Hash]. split; [done|].
    destruct (hasHash cmd); [done|]. by rewrite Hv.
Qed.

Definition keepProtoconf (m0 b : MsgProtoconf) : MsgProtoconf :=
  let n := pc_NumberOfFields b in
  mkMsgProtoconf n
    (if n >? 0 then pc_MaxRecvPayloadLength b else pc_MaxRecvPayloadLength m0)
    (if n >? 1 then pc_StreamPolicies b else pc_StreamPolicies m0).

Lemma follows_MsgProtoconf `{Limits} `{Externals} pver m0 :
  follows (MsgProtoconf_into pver) m0 (MsgProtoconf_Bsvdecode pver)
    (fun _ m b => m = keepProtoconf m0 b /\ b = keepProtoconf zeroProtoconf b).
Proof.
  unfold MsgProtoconf_into, MsgProtoconf_Bsvdecode.
  destruct (pver <? ProtoconfVersion); [apply follows_fail|].
  eapply follows_bind; [apply follows_read|]. intros _ m1 n ->. apply follows_get.
  cbn [pc_NumberOfFields setNumberOfFields].
  eapply follows_bind with (Q := fun _ m v =>
    m = mkMsgProtoconf n (if n >? 0 then v else pc_MaxRecvPayloadLength m0) (pc_StreamPolicies m0) /\
    v = if n >? 0 then v else 0).
  { destruct (n >? 0); [|by apply follows_ret].
    eapply follows_mono; [apply follows_assign|]. by intros _ m v ->. }
  intros _ m2 maxRecv [-> Hm].
  eapply follows_mono; [apply follows_map with (Q := fun _ m v =>
    m = keepProtoconf m0 (mkMsgProtoconf n maxRecv v) /\ v = if n >? 1 then v else [])|].
  2: { intros _ m b (v & -> & -> & Hv). split; [done|]. unfold keepProtoconf. cbn in *. congruence. }
  unfold keepProtoconf. cbn [pc_NumberOfFields pc_MaxRecvPayloadLength pc_StreamPolicies].
  destruct (n >? 1); [|by apply follows_ret].
  eapply follows_bind; [apply follows_call|]. intros ? ? vi [-> ->].
  destruct (vi >? maxMessagePayload); [apply follows_fail|].
  eapply follows_mono; [apply follows_map, follows_read|]. by intros _ m b (v & -> & ->).
Qed.
Lemma follows_front m :
  follows version_front m (readElements [Tint32; TServiceFlag; Tint64Time])
    (fun _ m' vs => m' = let '(v, (s, (t, _))) := vs in setTimestamp t (setServices s (setVersion v m))).
Proof.
  intros r. unfold version_front, rread, rbind, rcall, rset. cbn [readElements].
  lockstep (readElement Tint32) r. lockstep (readElement TServiceFlag) r0.
  lockstep (readElement Tint64Time) r1. eexists (Ok tt), _, _. eauto.
Qed.

(** [if buf.Len() > 0 { readElement(buf, &msg.f) }] on a zero field. *)
Lemma follows_optional {T A} (d : Dec A) (x0 : A) (set : A -> T -> T) m :
  set x0 m = m ->
  follows (rwhenMore (rread d set)) m (whenMore d x0) (fun _ m' v => m' = set v m).
Proof. intros Hz. by apply follows_whenMore; [apply follows_read|]. Qed.

Lemma follows_userAgent `{Limits} m :
  follows (rbind (rcall ReadVarString) (fun userAgent =>
    match validateUserAgent userAgent with
    | Some e => rfail e
    | None => rset (fun m => setUserAgent m userAgent)
    end)) m readUserAgent (fun _ m' v => m' = setUserAgent m v).
Proof.
  eapply follows_bind; [apply follows_call|]. intros ? ? ua [-> ->].
  destruct (validateUserAgent ua); [apply follows_fail|by apply follows_set].
Qed.

Lemma follows_relay m :
  follows (rbind (rtry (readElement Tbool)) (fun x =>
    rset (setDisableRelayTx (negb (match x with Ok relayTx => relayTx | Err _ => false end)))))
    m (relayTx ← readRelay; mret (negb relayTx)) (fun _ m' v => m' = setDisableRelayTx v m).
Proof.
  intros r. unfold readRelay, rbind, rtry, rset. run_norm.
  change (elem_val Tbool) with bool.
  destruct (@run R HR bool (readElement Tbool) r) as [[v|e] r1]; run_norm;
    (eexists (Ok tt), _, r1; split; [reflexivity|]; eexists; split; reflexivity).
Qed.

Lemma follows_MsgVersion `{Limits} pver :
  follows (MsgVersion_into pver) zeroVersion (MsgVersion_Bsvdecode pver) (fun _ m b => m = b).
Proof.
  intros r. unfold MsgVersion_into, MsgVersion_Bsvdecode. cbn [run]. destruct (AsBuffer r);
    [|by eexists (Err _), _, _].
  revert r. unfold MsgVersion_fields.
  eapply follows_bind; [apply follows_front|]. intros _ m1 (v & s & t & []) ->.
  eapply follows_bind; [by apply follows_NetAddress|]. intros _ m2 you [-> Hyou].
  eapply follows_bind; [apply follows_whenMore; [by apply follows_NetAddress|done]|].
  intros _ m3 me [-> Hme].
  eapply follows_bind; [by apply follows_optional|]. intros _ m4 nonce ->.
  eapply follows_bind; [apply follows_whenMore; [apply follows_userAgent|done]|]. intros _ m5 ua ->.
  eapply follows_bind; [by apply follows_optional|]. intros _ m6 lb ->.
  eapply follows_bind; [apply follows_whenMore; [apply follows_relay|done]|]. intros _ m7 relay ->.
  eapply follows_mono; [apply follows_map, follows_whenMore; [apply follows_assign|done]|].
  intros _ m b (a & -> & ->). destruct you, me. cbn in Hyou, Hme. by subst.
Qed.
End Follows.

(** ** A payload that ends at a field boundary *)

Section Stages.
Context {T : Type}.

Lemma run_rbind {R} `{Reader R} {A B} (x : Rec T A) (f : A -> Rec T B) m (r : R) a m' r' :
  run (x m) r = (Ok (Ok a, m'), r') -> run (rbind x f m) r = run (f a m') r'.
Proof. intros Hx. unfold rbind. by rewrite run_bind, Hx. Qed.

Lemma run_rwhenMore (x : Rec T unit) m data :
  run (rwhenMore x m) (mkBuffer data) =
  if len data >? 0 then run (x m) (mkBuffer data) else (Ok (Ok tt, m), mkBuffer data).
Proof.
  unfold rwhenMore. rewrite (run_rbind _ _ _ _ (len data) m (mkBuffer data)); [|done].
  by destruct (len data >? 0).
Qed.

(** An optional field: the code that reads it, its encoding, and the
    change it makes. *)
Record stage := mkStage { st_read : Rec T unit; st_bytes : bytes; st_set : T -> T }.

Definition stage_ok (s : stage) : Prop := forall m rest,
  run (st_read s m) (mkBuffer (st_bytes s ++ rest)) = (Ok (Ok tt, st_set s m), mkBuffer rest).

Fixpoint rseq (l : list (Rec T unit)) : Rec T unit :=
  match l with
  | [] => rret tt
  | [x] => x
  | x :: l => rbind x (fun _ => rseq l)
  end.

Definition stages (l : list stage) : Rec T unit := rseq (map (fun s => rwhenMore (st_read s)) l).

Lemma stages_cons s l m (data rest : bytes) m' :
  run (rwhenMore (st_read s) m) (mkBuffer data) = (Ok (Ok tt, m'), mkBuffer rest) ->
  run (stages (s :: l) m) (mkBuffer data) = run (stages l m') (mkBuffer rest).
Proof.
  intros Hs. destruct l as [|s' l]; [exact Hs|].
  unfold stages. cbn [map rseq]. exact (run_rbind _ _ _ _ _ _ _ Hs).
Qed.

Lemma run_stages l n m :
  Forall (fun s => stage_ok s /\ 0 < len (st_bytes s)) (take n l) ->
  run (stages l m) (mkBuffer (concat (map st_bytes (take n l)))) =
  (Ok (Ok tt, foldl (fun m s => st_set s m) m (take n l)), mkBuffer []).
Proof.
  revert n m. induction l as [|s l IH]; intros n m Hl; [by destruct n|].
  destruct n as [|n]; cbn [take map concat foldl] in *.
  - rewrite (stages_cons s l m [] [] m); 
      [exact (IH 0%nat m (Forall_nil_2 _))|by rewrite run_rwhenMore].
  - apply Forall_cons_1 in Hl as [[Hs Hp] Hl].
    rewrite (stages_cons s l m _ (concat (map st_bytes (take n l))) (st_set s m)); [by apply IH|].
    rewrite run_rwhenMore, Z.gtb_ltb, (proj2 (Z.ltb_lt _ _)) by len_lia. apply Hs.
Qed.

(** A method that follows a decoder is a stage. *)
Lemma stage_follows {A} (x : Rec T unit) (d : Dec A) (set : A -> T -> T) bs a :
  (forall m, follows (R:=buffer) x m d (fun _ m' v => m' = set v m)) ->
  streamable d -> decodes d bs a -> stage_ok (mkStage x bs (set a)).
Proof.
  intros Hx Hs Hd m rest. cbn [st_read st_bytes st_set].
  destruct (Hx m (mkBuffer (bs ++ rest))) as (u & m' & r' & -> & Hu).
  rewrite (decodes_buffer d bs a rest) in Hu by done.
  destruct u as [[]|e]; [|done]. by destruct Hu as (b & [= <- <-] & ->).
Qed.
End Stages.
Arguments stage : clear implicits.

Lemma stage_NetAddress {T} pver na (get : T -> NetAddress) (set : NetAddress -> T -> T) :
  (forall a m, get (set a m) = a) -> (forall a b m, set a (set b m) = set a m) ->
  NetAddress_ok pver zeroNetAddress false na ->
  stage_ok (mkStage (readNetAddress_into pver false get set) (NetAddress_bytes pver false na)
              (fun m => set (stamp (get m) na) m)).
Proof.
  intros Hgs Hss Hna.
  apply (stage_follows _ (readNetAddress pver zeroNetAddress false) (fun na m => set (stamp (get m) na) m));
    [|auto with streamable|by apply codec_decodes].
  intros m. eapply follows_mono; [by apply (follows_NetAddress pver zeroNetAddress get set)|].
  by intros _ m' b [-> _].
Qed.

Lemma stage_front m :
  is_i32 (ver_ProtocolVersion m) -> is_u64 (ver_Services m) ->
  elem_ok Tint64Time (ver_Timestamp m) ->
  stage_ok (mkStage version_front (version_head m) (fun m0 =>
    setTimestamp (ver_Timestamp m) (setServices (ver_Services m) (setVersion (ver_ProtocolVersion m) m0)))).
Proof.
  intros Hv Hs Ht.
  apply (stage_follows version_front (readElements [Tint32; TServiceFlag; Tint64Time])
    (fun vs m0 => let '(v, (s, (t, _))) := vs in setTimestamp t (setServices s (setVersion v m0)))
    _ (ver_ProtocolVersion m, (ver_Services m, (ver_Timestamp m, tt)))).
  - intros m0. apply follows_front.
  - apply (streamable_readElements [Tint32; TServiceFlag; Tint64Time]).
  - by apply (decodes_elems [Tint32; TServiceFlag; Tint64Time]).
Qed.

Section VersionStages.
Context `{Limits} (pver : Z) (m : MsgVersion) (Hok : MsgVersion_ok pver m).

Definition version_stages : list (stage MsgVersion) :=
  [mkStage (readNetAddress_into pver false ver_AddrMe setAddrMe)
     (NetAddress_bytes pver false (ver_AddrMe m))
     (fun m0 => setAddrMe (stamp (ver_AddrMe m0) (ver_AddrMe m)) m0);
   mkStage (rread (readElement Tuint64) setNonce) (elem_bytes Tuint64 (ver_Nonce m))
     (setNonce (ver_Nonce m));
   mkStage (rbind (rcall ReadVarString) (fun userAgent =>
              match validateUserAgent userAgent with
              | Some e => rfail e
              | None => rset (fun m => setUserAgent m userAgent)
              end)) (var_bytes (ver_UserAgent m)) (fun m0 => setUserAgent m0 (ver_UserAgent m));
   mkStage (rread (readElement Tint32) setLastBlock) (elem_bytes Tint32 (ver_LastBlock m))
     (setLastBlock (ver_LastBlock m));
   mkStage (rbind (rtry (readElement Tbool)) (fun x =>
              rset (setDisableRelayTx (negb (match x with Ok relayTx => relayTx | Err _ => false end)))))
     (relay_bytes pver m) (setDisableRelayTx (ver_DisableRelayTx m));
   mkStage (rassign (ReadVarBytes MaxAssociationIDLen "AssociationID") [] setAssociationID)
     (assoc_bytes m) (setAssociationID (ver_AssociationID m))].

(** How many optional fields the encoder writes. *)
Definition version_count : nat :=
  if pver >=? BIP0037Version then if len (ver_AssociationID m) >? 0 then 6 else 5 else 4.

Lemma version_stages_ok :
  Forall (fun s => stage_ok s /\ 0 < len (st_bytes s)) (take version_count version_stages).
Proof.
  destruct Hok as (Hv & Hs & Ht & Hy & Hme & Hn & [Hu1 Hu2] & Hlb & Ha & Hold).
  assert (Forall (fun s => stage_ok s /\ 0 < len (st_bytes s)) (take 4 version_stages)) as H4.
  { repeat constructor; cbn [st_bytes]; auto using len_netaddr_pos, len_var_pos; try by apply len_elem_pos.
    - by apply stage_NetAddress.
    - apply stage_follows with (d := readElement Tuint64 : Dec Z); [intros; apply follows_read|
        apply (streamable_readElement Tuint64)|by apply (decodes_elem Tuint64)].
    - apply (stage_follows _ readUserAgent (fun v m => setUserAgent m v));
        [intros; apply follows_userAgent|auto with streamable|by apply decodes_readUserAgent].
    - apply stage_follows with (d := readElement Tint32 : Dec Z); [intros; apply follows_read|
        apply (streamable_readElement Tint32)|by apply (decodes_elem Tint32)]. }
  unfold version_count. destruct (pver >=? BIP0037Version) eqn:Ep; [|done].
  assert (Forall (fun s => stage_ok s /\ 0 < len (st_bytes s)) (take 5 version_stages)) as H5.
  { change (take 5 version_stages) with (take 4 version_stages ++ [nth 4 version_stages (mkStage (rret tt) [] id)]).
    apply Forall_app_2; [done|]. constructor; [|constructor]. cbn [nth version_stages st_bytes].
    unfold relay_bytes. rewrite Ep. split; [|by apply len_elem_pos].
    eapply (stage_follows _ _ setDisableRelayTx); [intros; apply follows_relay|auto with streamable|].
    eapply decodes_bind_last; [apply decodes_readRelay|]. rewrite negb_involutive. apply decodes_ret. }
  rewrite Z.gtb_ltb. destruct (Z.ltb_spec 0 (len (ver_AssociationID m))) as [Hl|]; [|done].
  change (take 6 version_stages) with (take 5 version_stages ++ [nth 5 version_stages (mkStage (rret tt) [] id)]).
  apply Forall_app_2; [done|]. constructor; [|constructor]. cbn [nth version_stages st_bytes].
  unfold assoc_bytes. rewrite Z.gtb_ltb, (proj2 (Z.ltb_lt _ _) Hl). split; [|apply len_var_pos].
  eapply stage_follows; [intros; apply follows_assign|auto with streamable|by apply codec_decodes].
Qed.

Definition version_fields : list bytes := map st_bytes version_stages.

(** The message [m] decoded into [m0] when [n] of its optional fields arrived;
    the time stamps of the addresses are not part of the message. *)
Definition version_over (n : nat) (m0 : MsgVersion) : MsgVersion :=
  let pick {A} (i : nat) (new old : A) := if decide (i < n)%nat then new else old in
  mkMsgVersion (ver_ProtocolVersion m) (ver_Services m) (ver_Timestamp m)
    (stamp (ver_AddrYou m0) (ver_AddrYou m))
    (pick 0%nat (stamp (ver_AddrMe m0) (ver_AddrMe m)) (ver_AddrMe m0))
    (pick 1%nat (ver_Nonce m) (ver_Nonce m0))
    (pick 2%nat (ver_UserAgent m) (ver_UserAgent m0))
    (pick 3%nat (ver_LastBlock m) (ver_LastBlock m0))
    (pick 4%nat (ver_DisableRelayTx m) (ver_DisableRelayTx m0))
    (pick 5%nat (ver_AssociationID m) (ver_AssociationID m0)).

(** The fields that are not written are empty. *)
Lemma version_fields_cut n :
  concat (take n version_fields) =
  concat (map st_bytes (take (Nat.min n version_count) version_stages)).
Proof.
  unfold version_fields. rewrite <- firstn_map. unfold version_count, version_stages.
  cbn [map st_bytes]. unfold relay_bytes, assoc_bytes.
  destruct (pver >=? BIP0037Version) eqn:Ep; [destruct (len (ver_AssociationID m) >? 0) eqn:Ea|].
  1,2: do 7 (destruct n as [|n]; [cbn; by rewrite ?app_nil_r|]); cbn; by rewrite ?firstn_nil, ?app_nil_r.
  destruct Hok as (_ & _ & _ & _ & _ & _ & _ & _ & _ & Hold). rewrite Z.geb_leb in Ep.
  apply Z.leb_gt, Hold in Ep as [_ ->]. cbn [len length Z.of_nat Z.gtb Z.compare].
  do 7 (destruct n as [|n]; [cbn; by rewrite ?app_nil_r|]); cbn; by rewrite ?firstn_nil, ?app_nil_r.
Qed.
End VersionStages.

(** ** The properties *)

(** The methods that decode into their receiver agree, on the zero
    receivers that [makeEmptyMessage] makes, with the decoders that return a new
    message: from any reader they leave it at the same place, fail with the
    same error, and otherwise the receiver is the message. *)
Theorem Receiver_fresh `{Limits} `{Externals} `{ReaderSpec R} pver (r : R) :
  let agree {T} (x : Rec T unit) (zero : T) (d : Dec T) : Prop :=
    exists a m r', run (x zero) r = (Ok (a, m), r') /\
      run d r = (match a with Ok _ => Ok m | Err e => Err e end, r') in
  agree (MsgPing_into pver) zeroPing (MsgPing_Bsvdecode pver) /\
  agree (MsgReject_into pver) zeroReject (MsgReject_Bsvdecode pver) /\
  agree (MsgProtoconf_into pver) zeroProtoconf (MsgProtoconf_Bsvdecode pver) /\
  agree (MsgVersion_into pver) zeroVersion (MsgVersion_Bsvdecode pver).
Proof.
  intros agree.
  assert (forall T (x : Rec T unit) zero d (Q : unit -> T -> T -> Prop),
    follows (R:=R) x zero d Q -> (forall a m b, Q a m b -> m = b) -> agree T x zero d) as Hagree.
  { intros T x zero d Q Hx HQ. destruct (Hx r) as (a & m & r' & E & Ha). exists a, m, r'.
    split; [done|]. destruct a as [a|e]; [|done]. destruct Ha as (b & -> & ->%HQ). done. }
  split_and!; eapply Hagree.
  - apply follows_MsgPing.
  - intros _ m b [-> Hb]. by rewrite Hb at 2.
  - by apply follows_MsgReject.
  - intros _ m b [-> Hb]. by rewrite Hb at 2.
  - apply follows_MsgProtoconf.
  - intros _ m b [-> Hb]. by rewrite Hb at 2.
  - apply follows_MsgVersion.
  - by intros.
Qed.

(** C35: a receiver that is used again keeps what the payload leaves out: a ping
    of an old protocol version keeps the nonce, a reject message for another
    command than block and tx keeps the hash, and a protoconf message with
    fewer than two fields keeps the payload length or the stream policies of
    the message that was decoded before. *)
Theorem Receiver_keeps `{Limits} `{Externals} `{ReaderSpec R} pver (r : R)
    (p0 : MsgPing) (j0 : MsgReject) (c0 : MsgProtoconf) :
  len (rj_Hash j0) = HashSize ->
  (forall b r', run (MsgPing_Bsvdecode pver) r = (Ok b, r') ->
   run (MsgPing_into pver p0) r = (Ok (Ok tt, keepPing pver p0 b), r')) /\
  (forall b r', run (MsgReject_Bsvdecode pver) r = (Ok b, r') ->
   run (MsgReject_into pver j0) r = (Ok (Ok tt, keepHash j0 b), r')) /\
  (forall b r', run (MsgProtoconf_Bsvdecode pver) r = (Ok b, r') ->
   run (MsgProtoconf_into pver c0) r = (Ok (Ok tt, keepProtoconf c0 b), r')).
Proof.
  intros Hj.
  assert (forall T (x : Rec T unit) m0 d (k : T -> T) (Q : T -> Prop),
    follows (R:=R) x m0 d (fun _ m b => m = k b /\ Q b) ->
    forall b r', run d r = (Ok b, r') -> run (x m0) r = (Ok (Ok tt, k b), r')) as Hk.
  { intros T x m0 d k Q Hx b r' Hd. destruct (Hx r) as (a & m & r1 & -> & Ha). rewrite Hd in Ha.
    destruct a as [[]|e]; [|done]. by destruct Ha as (b' & [= <- <-] & -> & _). }
  split_and!; eapply Hk; [apply follows_MsgPing|by apply follows_MsgReject|apply follows_MsgProtoconf].
Qed.

(** C34: the fields of a version message after the first address are optional.
    A payload that ends at any field boundary is accepted: the fields that
    arrived are those of the message, the others are zero in a new message;
    in a receiver that was used before they, and the time stamps of both
    addresses, are those of the earlier message. *)
Theorem MsgVersion_legacy `{Limits} pver (m m0 : MsgVersion) (n : nat) :
  MsgVersion_ok pver m ->
  let payload := mkBuffer (version_head m ++ NetAddress_bytes pver false (ver_AddrYou m) ++
                           concat (take n (version_fields pver m))) in
  let k := Nat.min n (version_count pver m) in
  run (MsgVersion_into pver m0) payload = (Ok (Ok tt, version_over m k m0), mkBuffer []) /\
  run (MsgVersion_Bsvdecode pver) payload = (Ok (version_over m k zeroVersion), mkBuffer []).
Proof.
  intros Hok payload k.
  assert (forall m0, run (MsgVersion_into pver m0) payload =
    (Ok (Ok tt, version_over m k m0), mkBuffer [])) as Hinto.
  2: { split; [done|]. destruct (follows_MsgVersion pver payload) as (a & m1 & r1 & E & Ha).
       rewrite Hinto in E. injection E as <- <- <-. by destruct Ha as (b & -> & <-). }
  clear m0. intros m0. unfold payload. rewrite (version_fields_cut pver m Hok). fold k.
  pose proof (version_stages_ok pver m Hok) as Hst.
  destruct Hok as (Hv & Hs & Ht & Hy & _).
  unfold MsgVersion_into. cbn [run AsBuffer buffer_reader]. unfold MsgVersion_fields.
  rewrite (run_rbind _ _ _ _ _ _ _ (stage_front m Hv Hs Ht m0 _)).
  rewrite (run_rbind _ _ _ _ _ _ _ (stage_NetAddress pver (ver_AddrYou m) ver_AddrYou setAddrYou
    ltac:(done) ltac:(done) Hy _ _)).
  etrans; [apply (run_stages (version_stages pver m) k)|].
  - unfold k. rewrite <- firstn_firstn. by apply Forall_take.
  - do 3 f_equal. unfold version_over. assert (k <= 6)%nat as Hk.
    { unfold k, version_count. repeat case_match; lia. }
    clearbody k. by do 7 (destruct k as [|k]; [done|]); lia.
Qed.

(** ** Witnesses *)

Section Examples.
#[local] Existing Instance defaultLimits.
#[local] Existing Instance refExternals.

(** A block was rejected; then a ping is. *)
Definition oldReject : MsgReject := mkMsgReject CmdBlock 16 (str "bad") (repeat Byte.xab 32).
Definition rejectedPing : stream :=
  mkStream (var_bytes CmdPing ++ elem_bytes TRejectCode 1 ++ var_bytes []) EOF.

Lemma Receiver_keeps_witness :
  run (MsgReject_into 70016 oldReject) rejectedPing =
  (Ok (Ok tt, mkMsgReject CmdPing 1 [] (repeat Byte.xab 32)), mkStream [] EOF).
Proof.
  destruct (Receiver_keeps (R:=stream) 70016 rejectedPing zeroPing oldReject zeroProtoconf)
    as (_ & Hj & _); [reflexivity|].
  apply (Hj (mkMsgReject CmdPing 1 [] (zeros 32))). vm_compute. reflexivity.
Defined.

(** An old peer's version message, of five fields, after that of a new peer. *)
Definition oldPeer : MsgVersion :=
  mkMsgVersion 60002 1 (mkTime 1600000000 0) exampleAddr exampleAddr 7 (str "/old/") 5 false [].

Lemma oldPeer_ok : MsgVersion_ok 70016 oldPeer.
Proof. repeat split; vm_compute; try (reflexivity || discriminate). Qed.

Lemma MsgVersion_legacy_witness :
  let payload := mkBuffer (version_head oldPeer ++ NetAddress_bytes 70016 false exampleAddr ++
                           NetAddress_bytes 70016 false exampleAddr) in
  run (MsgVersion_into 70016 exampleVersion) payload =
  (Ok (Ok tt, mkMsgVersion 60002 1 (mkTime 1600000000 0) exampleAddr exampleAddr 42
         DefaultUserAgent (-1) true [Byte.x00; Byte.x01]), mkBuffer []) /\
  run (MsgVersion_Bsvdecode 70016) payload =
  (Ok (mkMsgVersion 60002 1 (mkTime 1600000000 0) exampleAddr exampleAddr 0 [] 0 false []),
   mkBuffer []).
Proof.
  intros payload.
  pose proof (MsgVersion_legacy 70016 oldPeer exampleVersion 1 oldPeer_ok) as Hl.
  cbn [take version_fields version_stages map st_bytes concat] in Hl. rewrite app_nil_r in Hl. exact Hl.
Defined.
End Examples.
