(* ===== verification/Message.v ===== *)
(** * message.go: framing, reading and writing messages

    A message is 24 bytes of header (network, command, length, checksum) and
    a payload.  The reader and the writer are proved against the interface
    [Msg]/[MsgSpec] that the message files implement. *)

From S2P Require Import Prelude Io Common Sha256 Externals InvVect BlockHeader Protocol NetAddress.
From S2P Require Import Tx Block MsgIface MsgInventory MsgControl MsgFilter ExtendedTx Version.

Definition MessageHeaderSize : Z := 24.
Definition MaxUint32 : Z := 0xffffffff.

(** ** The messages: the concrete types behind the interface *)

Inductive Kind :=
| KVersion | KVerAck | KGetAddr | KAddr | KGetBlocks | KBlock | KInv | KGetData | KNotFound | KTx
| KExtendedTx | KPing | KPong | KGetHeaders | KHeaders | KMemPool | KFilterAdd | KFilterClear
| KFilterLoad | KMerkleBlock | KReject | KSendHeaders | KFeeFilter | KGetCFilters | KGetCFHeaders
| KGetCFCheckpt | KCFilter | KCFHeaders | KCFCheckpt | KProtoconf | KExtMsg | KAuthch | KAuthresp
| KSendcmpct | KCreateStream | KStreamAck.

#[export] Instance kind_eq_dec : EqDecision Kind.
Proof. solve_decision. Defined.

Definition kind_type (k : Kind) : Type :=
  match k with
  | KVersion => MsgVersion | KVerAck => MsgVerAck | KGetAddr => MsgGetAddr | KAddr => MsgAddr
  | KGetBlocks => MsgGetBlocks | KBlock => MsgBlock | KInv => MsgInv | KGetData => MsgGetData
  | KNotFound => MsgNotFound | KTx => MsgTx | KExtendedTx => MsgExtendedTx | KPing => MsgPing
  | KPong => MsgPong | KGetHeaders => MsgGetHeaders | KHeaders => MsgHeaders
  | KMemPool => MsgMemPool | KFilterAdd => MsgFilterAdd | KFilterClear => MsgFilterClear
  | KFilterLoad => MsgFilterLoad | KMerkleBlock => MsgMerkleBlock | KReject => MsgReject
  | KSendHeaders => MsgSendHeaders | KFeeFilter => MsgFeeFilter | KGetCFilters => MsgGetCFilters
  | KGetCFHeaders => MsgGetCFHeaders | KGetCFCheckpt => MsgGetCFCheckpt | KCFilter => MsgCFilter
  | KCFHeaders => MsgCFHeaders | KCFCheckpt => MsgCFCheckpt | KProtoconf => MsgProtoconf
  | KExtMsg => MsgExtMsg | KAuthch => MsgAuthch | KAuthresp => MsgAuthresp
  | KSendcmpct => MsgSendcmpct | KCreateStream => MsgCreateStream | KStreamAck => MsgStreamAck
  end.

(** A non-nil [Message]: its dynamic type and its value. *)
Record Message := mkMessage { m_kind : Kind; m_val : kind_type m_kind }.

#[export] Instance kind_Msg `{Limits} `{Externals} (k : Kind) : Msg (kind_type k) :=
  match k return Msg (kind_type k) with
  | KVersion => MsgVersion_Msg | KVerAck => MsgVerAck_Msg | KGetAddr => MsgGetAddr_Msg
  | KAddr => MsgAddr_Msg | KGetBlocks => MsgGetBlocks_Msg | KBlock => MsgBlock_Msg
  | KInv => MsgInv_Msg | KGetData => MsgGetData_Msg | KNotFound => MsgNotFound_Msg
  | KTx => MsgTx_Msg | KExtendedTx => MsgExtendedTx_Msg | KPing => MsgPing_Msg
  | KPong => MsgPong_Msg | KGetHeaders => MsgGetHeaders_Msg | KHeaders => MsgHeaders_Msg
  | KMemPool => MsgMemPool_Msg | KFilterAdd => MsgFilterAdd_Msg
  | KFilterClear => MsgFilterClear_Msg | KFilterLoad => MsgFilterLoad_Msg
  | KMerkleBlock => MsgMerkleBlock_Msg | KReject => MsgReject_Msg
  | KSendHeaders => MsgSendHeaders_Msg | KFeeFilter => MsgFeeFilter_Msg
  | KGetCFilters => MsgGetCFilters_Msg | KGetCFHeaders => MsgGetCFHeaders_Msg
  | KGetCFCheckpt => MsgGetCFCheckpt_Msg | KCFilter => MsgCFilter_Msg
  | KCFHeaders => MsgCFHeaders_Msg | KCFCheckpt => MsgCFCheckpt_Msg
  | KProtoconf => MsgProtoconf_Msg | KExtMsg => MsgExtMsg_Msg | KAuthch => MsgAuthch_Msg
  | KAuthresp => MsgAuthresp_Msg | KSendcmpct => MsgSendcmpct_Msg
  | KCreateStream => MsgCreateStream_Msg | KStreamAck => MsgStreamAck_Msg
  end.

(** [makeEmptyMessage]: the cases of its switch, in order. *)
Definition emptyMessages : list (bytes * Kind) :=
  [(CmdVersion, KVersion); (CmdVerAck, KVerAck); (CmdGetAddr, KGetAddr); (CmdAddr, KAddr);
   (CmdGetBlocks, KGetBlocks); (CmdBlock, KBlock); (CmdInv, KInv); (CmdGetData, KGetData);
   (CmdNotFound, KNotFound); (CmdTx, KTx); (CmdExtendedTx, KExtendedTx); (CmdPing, KPing);
   (CmdPong, KPong); (CmdGetHeaders, KGetHeaders); (CmdHeaders, KHeaders); (CmdMemPool, KMemPool);
   (CmdFilterAdd, KFilterAdd); (CmdFilterClear, KFilterClear); (CmdFilterLoad, KFilterLoad);
   (CmdMerkleBlock, KMerkleBlock); (CmdReject, KReject); (CmdSendHeaders, KSendHeaders);
   (CmdFeeFilter, KFeeFilter); (CmdGetCFilters, KGetCFilters); (CmdGetCFCheckpt, KGetCFCheckpt);
   (CmdCFilter, KCFilter); (CmdCFHeaders, KCFHeaders); (CmdCFCheckpt, KCFCheckpt);
   (CmdProtoconf, KProtoconf); (CmdExtMsg, KExtMsg); (CmdAuthch, KAuthch);
   (CmdAuthresp, KAuthresp); (CmdSendcmpct, KSendcmpct); (CmdCreateStream, KCreateStream);
   (CmdStreamAck, KStreamAck)].

Fixpoint lookup_cmd (command : bytes) (l : list (bytes * Kind)) : option Kind :=
  match l with
  | [] => None
  | (c, k) :: l => if decide (command = c) then Some k else lookup_cmd command l
  end.

(** The dynamic type of the empty message, or the text of the error. *)
Definition makeEmptyMessage (command : bytes) : Kind + Sprintf :=
  match lookup_cmd command emptyMessages with
  | Some k => inl k
  | None => inr (mkSprintf "unhandled command [%s]: %#v" [ABytes command; ABytes (str "<nil>")])
  end.

(** ** [utf8.ValidString] *)

Definition in_range (lo hi : Z) (b : byte) : bool := (lo <=? b2z b) && (b2z b <=? hi).
Definition cont : byte -> bool := in_range 0x80 0xbf.

Fixpoint utf8_ValidString (s : bytes) : bool :=
  match s with
  | [] => true
  | b0 :: s1 =>
      if b2z b0 <? 0x80 then utf8_ValidString s1
      else match s1 with
      | [] => false
      | b1 :: s2 =>
          if in_range 0xc2 0xdf b0 then cont b1 && utf8_ValidString s2
          else match s2 with
          | [] => false
          | b2 :: s3 =>
              if b2z b0 =? 0xe0 then in_range 0xa0 0xbf b1 && cont b2 && utf8_ValidString s3
              else if b2z b0 =? 0xed then in_range 0x80 0x9f b1 && cont b2 && utf8_ValidString s3
              else if in_range 0xe1 0xef b0 then cont b1 && cont b2 && utf8_ValidString s3
              else match s3 with
              | [] => false
              | b3 :: s4 =>
                  (if b2z b0 =? 0xf0 then in_range 0x90 0xbf b1
                   else if b2z b0 =? 0xf4 then in_range 0x80 0x8f b1
                   else in_range 0xf1 0xf3 b0 && cont b1)
                  && cont b2 && cont b3 && utf8_ValidString s4
              end
          end
      end
  end.

(** ** The header *)

Record messageHeader := mkHeader {
  h_magic : Z; h_command : bytes; h_length : Z; h_checksum : bytes; h_extLength : Z }.

(** [bytes.TrimRight(b, "\x00")]. *)
Fixpoint trimZeros (s : bytes) : bytes :=
  match s with
  | [] => []
  | b :: s =>
      match trimZeros s with
      | [] => if decide (b = Byte.x00) then [] else [b]
      | t => b :: t
      end
  end.

(** The header in the 24 bytes; [hr] is the [bytes.Reader] over them.  In the
    branch for extended messages nothing is left in [hr]: the array and the
    integer keep their zero values when [readElements] fails. *)
Definition parseHeader (headerBytes : bytes) : messageHeader :=
  let '(x, hr) := run (readElements [TBitcoinNet; Tcommand; Tuint32; Tchecksum])
                    (mkStream headerBytes EOF) in
  match x with
  | Err _ => mkHeader 0 [] 0 (zeros 4) 0
  | Ok (magic, (command, (length, (checksum, _)))) =>
      let command := trimZeros command in
      if bool_decide (command = str "extmsg") && (length =? 0xffffffff) &&
         bool_decide (checksum = zeros 4)
      then
        let '(y, hr) := run (readElement Tcommand) hr in
        let actualCmd := match y with Ok c => c | Err _ => zeros 12 end in
        let extLength :=
          match y with
          | Ok _ => match run (readElement Tuint64) hr with (Ok l, _) => l | (Err _, _) => 0 end
          | Err _ => 0
          end in
        mkHeader magic (trimZeros actualCmd) length checksum extLength
      else mkHeader magic command length checksum 0
  end.

(** ** Writing *)

(** [copy(command[:], cmd)] into a zeroed [[12]byte]. *)
Definition commandBytes (cmd : bytes) : bytes := take 12 cmd ++ drop (length cmd) (zeros 12).

Definition headerElems (magic : Z) (command : bytes) (length : Z) (checksum : bytes) : list Elem :=
  [WBitcoinNet magic; Wcommand command; Wuint32 length; Wchecksum checksum].

Section Write.
Context `{Limits} `{Externals} {W : Type} `{Writer W}.

(** The number of bytes written, the error, and the writer; the writer is not
    nil, see [WriteMessageWithEncodingN_nilable]. *)
Definition WriteMessageWithEncodingN (w : W) (msg : Message) (pver bsvnet : Z) :
    Z * option error * W :=
  let cmd := Command (kind_type (m_kind msg)) in
  if len cmd >? CommandSize then
    (0, Some (messageError "WriteMessage" "command [%s] is too long [max %v]"
                [ABytes cmd; AInt CommandSize]), w)
  else
    let command := commandBytes cmd in
    let '(err, bw) := runE (BsvEncode pver (m_val msg)) (mkBuffer []) in
    match err with
    | Some err => (0, Some err, w)
    | None =>
        let payload := b_data bw in
        let lenp := len payload in
        if lenp >? to_i64 maxMessagePayload then
          (0, Some (messageError "WriteMessage"
             "message payload is too large - encoded %d bytes, but maximum message payload is %d bytes"
             [AInt lenp; AInt maxMessagePayload]), w)
        else
          let mpl := MaxPayloadLength (kind_type (m_kind msg)) pver in
          if lenp >? mpl then
            (0, Some (messageError "WriteMessage"
               "message payload is too large - encoded %d bytes, but maximum message payload size for messages of type [%s] is %d."
               [AInt lenp; ABytes cmd; AInt mpl]), w)
          else if lenp >? MaxUint32 then (0, None, w)
          else
            let lenpUint32 := to_u32 lenp in
            let length := if lenpUint32 >=? MaxUint32 then 0xffffffff else to_u32 lenp in
            let checksum := take 4 (DoubleHashB payload) in
            let '(err, hw) := runE (writeElements (headerElems bsvnet command length checksum))
                                (mkBuffer []) in
            match err with
            | Some err => (0, Some err, w)
            | None =>
                let '(n, err, w) := Write (b_data hw ++ payload) w in (0 + n, err, w)
            end
    end.

Definition WriteMessageN (w : W) (msg : Message) (pver bsvnet : Z) : Z * option error * W :=
  WriteMessageWithEncodingN w msg pver bsvnet.

Definition WriteMessage (w : W) (msg : Message) (pver bsvnet : Z) : option error * W :=
  let '(_, err, w) := WriteMessageN w msg pver bsvnet in (err, w).

(** [if w == nil { return 0, errors.New(...) }]: an [io.Writer] is nil or a
    writer. *)
Definition errNilWriter : error := ErrText (mkSprintf "writer must not be nil" []).

Definition WriteMessageWithEncodingN_nilable (w : option W) (msg : Message) (pver bsvnet : Z) :
    Z * option error * option W :=
  match w with
  | None => (0, Some errNilWriter, None)
  | Some w => let '(n, err, w) := WriteMessageWithEncodingN w msg pver bsvnet in (n, err, Some w)
  end.
End Write.

(** ** Reading *)

(** What a reading function returns. *)
Record Read := mkRead {
  rd_n : Z; rd_msg : option Message; rd_payload : bytes; rd_err : option error }.

Definition readFail (n : Z) (e : error) : Read := mkRead n None [] (Some e).

Definition tooLarge `{Limits} (hdr : messageHeader) : error :=
  messageError "ReadMessage"
    "message payload is too large - header indicates %d bytes (%d extended bytes), but max message payload is %d bytes."
    [AInt (h_length hdr); AInt (h_extLength hdr); AInt maxMessagePayload].

Definition otherNetwork (hdr : messageHeader) : error :=
  messageError "ReadMessage" "message from other network [%v]" [AInt (h_magic hdr)].

Definition invalidCommand (hdr : messageHeader) : error :=
  messageError "ReadMessage" "invalid command %v" [ABytes (h_command hdr)].

Definition exceedsMax (hdr : messageHeader) (mpl : Z) : error :=
  messageError "ReadMessage"
    "payload exceeds max length - header indicates %v bytes (%v extended bytes), but max payload size for messages of type [%v] is %v."
    [AInt (h_length hdr); AInt (h_extLength hdr); ABytes (h_command hdr); AInt mpl].

Definition checksumFailed (hdr : messageHeader) (checksum : bytes) : error :=
  messageError "ReadMessage"
    "payload checksum failed - header indicates %v, but actual checksum is %v."
    [ABytes (h_checksum hdr); ABytes checksum].

Definition noStreamingVersion : error :=
  messageError "ReadMessage"
    "ReadMessageStreamingN does not support CmdVersion; use ReadMessageWithEncodingN for version messages"
    [].

(** The text of a formatted error as the description of another one. *)
Definition messageErrorText (f : string) (s : Sprintf) : error := ErrMessage (mkMessageError f s).

Section Read.
Context `{Limits} `{Externals} {R : Type} `{Reader R}.

(** [externalHandler]: reader, payload length, bytes read so far. *)
Definition Handlers : Type := gmap bytes (R -> Z -> Z -> Read * R).

(** [None] is a nil function.  The only use of an entry is the test
    [externalHandler[cmd] != nil], so a nil entry is no entry. *)
Definition SetExternalHandler (cmd : bytes) (handler : option (R -> Z -> Z -> Read * R))
    (hs : Handlers) : Handlers :=
  match handler with
  | Some handler => <[cmd := handler]> hs
  | None => delete cmd hs
  end.

Definition readMessageHeader (r : R) : Z * result messageHeader * R :=
  let '(bs, e, r) := ReadFull MessageHeaderSize r in
  match e with
  | Some e => (len bs, Err e, r)
  | None => (len bs, Ok (parseHeader bs), r)
  end.

Definition discardChunk : Z := 10 * 1024.

Definition discardInput (n : Z) (r : R) : R :=
  let maxSize := discardChunk in
  let numReads := n / maxSize in
  let bytesRemaining := n mod maxSize in
  let r := if n >? 0
           then Nat.iter (Z.to_nat numReads) (fun r => snd (ReadFull maxSize r)) r else r in
  if bytesRemaining >? 0 then snd (ReadFull bytesRemaining r) else r.

(** The checks both reading functions make before the payload is read, in
    order; [refuseVersion] says whether version messages are refused.  They end
    with an error, or with the type of the message and the length of its
    payload. *)
Definition checkHeader (refuseVersion : bool) (hdr : messageHeader) (pver bsvnet : Z) (r : R) :
    (error + Kind * Z) * R :=
  if (h_length hdr >? maxMessagePayload) || (h_extLength hdr >? maxMessagePayload)
  then (inl (tooLarge hdr), r)
  else if negb (h_magic hdr =? bsvnet)
  then (inl (otherNetwork hdr), discardInput (h_length hdr) r)
  else if negb (utf8_ValidString (h_command hdr))
  then (inl (invalidCommand hdr), discardInput (h_length hdr) r)
  else if refuseVersion && bool_decide (h_command hdr = CmdVersion)
  then (inl noStreamingVersion, discardInput (h_length hdr) r)
  else match makeEmptyMessage (h_command hdr) with
  | inr err => (inl (messageErrorText "ReadMessage" err), discardInput (h_length hdr) r)
  | inl k =>
      let mpl := MaxPayloadLength (kind_type k) pver in
      if (h_length hdr >? mpl) || (h_extLength hdr >? mpl)
      then (inl (exceedsMax hdr mpl), discardInput (h_length hdr) r)
      else
        let length := if h_length hdr =? 0xffffffff then h_extLength hdr else h_length hdr in
        (inr (k, length), r)
  end.

Definition ReadMessageWithEncodingN (hs : Handlers) (pver bsvnet : Z) (r : R) : Read * R :=
  let '(n, hdr, r) := readMessageHeader r in
  match hdr with
  | Err e => (readFail n e, r)
  | Ok hdr =>
    let '(c, r) := checkHeader false hdr pver bsvnet r in
    match c with
    | inl e => (readFail n e, r)
    | inr (k, length) =>
      match hs !! h_command hdr with
      | Some handler => handler r length n
      | None =>
        let '(payload, e, r) := ReadFull length r in
        let n := n + len payload in
        match e with
        | Some e => (readFail n e, r)
        | None =>
          let checksum := take 4 (DoubleHashB payload) in
          if negb (length =? 0xffffffff) && (h_extLength hdr =? 0) &&
             negb (bool_decide (checksum = h_checksum hdr))
          then (readFail n (checksumFailed hdr checksum), r)
          else
            match run (Bsvdecode (kind_type k) pver) (mkBuffer payload) with
            | (Err e, _) => (readFail n e, r)
            | (Ok m, _) => (mkRead n (Some (mkMessage k m)) payload None, r)
            end
        end
      end
    end
  end.

Definition ReadMessageN (hs : Handlers) (pver bsvnet : Z) (r : R) : Read * R :=
  ReadMessageWithEncodingN hs pver bsvnet r.

Definition ReadMessage (hs : Handlers) (pver bsvnet : Z) (r : R) :
    option Message * bytes * option error * R :=
  let '(x, r) := ReadMessageN hs pver bsvnet r in (rd_msg x, rd_payload x, rd_err x, r).

(** [io.Copy(io.Discard, src)] after a successful decoding, then the
    checksum; [src] is [limited] or the tee around it. *)
Definition ReadMessageStreamingN (hs : Handlers) (pver bsvnet : Z) (r : R) : Read * R :=
  let '(n, hdr, r) := readMessageHeader r in
  match hdr with
  | Err e => (readFail n e, r)
  | Ok hdr =>
    let '(c, r) := checkHeader true hdr pver bsvnet r in
    match c with
    | inl e => (readFail n e, r)
    | inr (k, length) =>
      match hs !! h_command hdr with
      | Some handler =>
          let '(x, r) := handler r length n in
          (mkRead (rd_n x) (rd_msg x) [] (rd_err x), r)
      | None =>
        let verifyChecksum := negb (length =? 0xffffffff) && (h_extLength hdr =? 0) in
        let limited := mkLimited r (to_i64 length) in
        (* the deferred drain of [limited], then the reader it was made from *)
        let close (l : LimitedReader R) : R := lr_R (snd (DiscardAll l)) in
        let consumed (l : LimitedReader R) : Z := to_i64 length - lr_N l in
        if verifyChecksum then
          let '(x, src) := run (Bsvdecode (kind_type k) pver) (mkTee limited []) in
          match x with
          | Err e => (readFail (n + consumed (tee_r src)) e, close (tee_r src))
          | Ok m =>
              let '(copyErr, src) := DiscardAll src in
              match copyErr with
              | Some e => (readFail (n + consumed (tee_r src)) e, close (tee_r src))
              | None =>
                  let checksum := take 4 (Sum256 (Sum256 (tee_w src))) in
                  if negb (bool_decide (checksum = h_checksum hdr))
                  then (readFail (n + length) (checksumFailed hdr checksum), close (tee_r src))
                  else (mkRead (n + length) (Some (mkMessage k m)) [] None, close (tee_r src))
              end
          end
        else
          let '(x, src) := run (Bsvdecode (kind_type k) pver) limited in
          match x with
          | Err e => (readFail (n + consumed src) e, close src)
          | Ok m =>
              let '(copyErr, src) := DiscardAll src in
              match copyErr with
              | Some e => (readFail (n + consumed src) e, close src)
              | None => (mkRead (n + length) (Some (mkMessage k m)) [] None, close src)
              end
          end
      end
    end
  end.
End Read.

(** ** Positions in a stream *)

(** The stream after [n] more bytes (or at its end). *)
Definition advance (n : Z) (s : stream) : stream :=
  mkStream (drop (Z.to_nat n) (s_data s)) (s_err s).

Lemma advance_0 s : advance 0 s = s.
Proof. by destruct s. Qed.

Lemma advance_advance n m s : 0 <= n -> 0 <= m -> advance m (advance n s) = advance (n + m) s.
Proof.
  intros Hn Hm. unfold advance. simpl. rewrite drop_drop. do 2 f_equal. lia.
Qed.

(** What is left after [ReadFull], whether it succeeds or not. *)
Lemma stream_pull_advance n s : 0 <= n ->
  stream_pull n s = (take (Z.to_nat n) (s_data s),
                     if n <=? len (s_data s) then None else Some (s_err s), advance n s).
Proof.
  intros Hn. unfold stream_pull, advance. destruct (Z.leb_spec n (len (s_data s))); [done|].
  rewrite take_ge, drop_ge by zlia. done.
Qed.

Section Discard.
Context {R : Type} {HR : Reader R} {HS : ReaderSpec R}.

Lemma view_ReadFull_snd n (r : R) : 0 <= n -> view (snd (ReadFull n r)) = advance n (view r).
Proof.
  intros Hn. unfold ReadFull. pose proof (view_Pull n r) as Hv.
  destruct (Pull n r) as [[bs e] r']. simpl. rewrite stream_pull_advance in Hv by done.
  by injection Hv.
Qed.

Lemma view_iter_ReadFull k n (r : R) :
  0 <= n ->
  view (Nat.iter k (fun r => snd (ReadFull n r)) r) = advance (Z.of_nat k * n) (view r).
Proof.
  intros Hn. induction k as [|k IH]; [by rewrite advance_0|].
  rewrite Nat.iter_succ, view_ReadFull_snd, IH, advance_advance by nia. f_equal. lia.
Qed.

(** [discardInput] skips exactly [n] bytes, or all that is left. *)
Lemma view_discardInput n (r : R) : 0 <= n -> view (discardInput n r) = advance n (view r).
Proof.
  intros Hn. unfold discardInput, discardChunk.
  pose proof (Z.div_mod n (10 * 1024) ltac:(done)) as Hdm.
  pose proof (Z.mod_pos_bound n (10 * 1024) ltac:(done)).
  pose proof (Z.div_pos n (10 * 1024) ltac:(done) ltac:(done)).
  set (q := n / (10 * 1024)) in *. set (m := n mod (10 * 1024)) in *.
  assert (view (if n >? 0 then Nat.iter (Z.to_nat q) (fun r => snd (ReadFull (10 * 1024) r)) r
                else r) = advance (q * (10 * 1024)) (view r)) as Hq.
  { rewrite Z.gtb_ltb. destruct (Z.ltb_spec 0 n).
    - rewrite view_iter_ReadFull by done. do 2 f_equal. lia.
    - replace q with 0 by lia. by rewrite advance_0. }
  rewrite Z.gtb_ltb. destruct (Z.ltb_spec 0 m).
  - rewrite view_ReadFull_snd, Hq, advance_advance by lia. f_equal. lia.
  - rewrite Hq. f_equal. lia.
Qed.

Lemma view_readMessageHeader (r : R) :
  let '(n, hdr, r') := readMessageHeader r in
  n = len (take 24 (s_data (view r))) /\ view r' = advance 24 (view r) /\
  match hdr with
  | Ok h => MessageHeaderSize <= len (s_data (view r)) /\ h = parseHeader (take 24 (s_data (view r)))
  | Err e => len (s_data (view r)) < MessageHeaderSize /\
      e = full_error (s_data (view r)) (s_err (view r))
  end.
Proof.
  unfold readMessageHeader, ReadFull. pose proof (view_Pull MessageHeaderSize r) as Hv.
  destruct (Pull MessageHeaderSize r) as [[bs e] r'].
  rewrite stream_pull_advance in Hv by done. injection Hv as <- <- Hr.
  change (Z.to_nat MessageHeaderSize) with 24%nat.
  destruct (Z.leb_spec MessageHeaderSize (len (s_data (view r)))); simpl; [done|].
  split_and!; [done|done|done|]. f_equal. rewrite take_ge; [done|]. unfold MessageHeaderSize in *. zlia.
Qed.

(** Where the checks leave the reader. *)
Lemma view_checkHeader `{Limits} `{Externals} (b : bool) hdr pver bsvnet (r : R) :
  0 <= h_length hdr -> h_extLength hdr = 0 ->
  let '(c, r') := checkHeader b hdr pver bsvnet r in
  match c with
  | inl _ => view r' = advance (if h_length hdr >? maxMessagePayload then 0 else h_length hdr) (view r)
  | inr (k, L) => r' = r /\ (h_length hdr >? maxMessagePayload) = false /\
      (h_length hdr <> 0xffffffff -> L = h_length hdr) /\
      makeEmptyMessage (h_command hdr) = inl k /\ (b = true -> h_command hdr <> CmdVersion)
  end.
Proof.
  intros Hl He. unfold checkHeader. rewrite He.
  replace (0 >? maxMessagePayload) with false.
  2: { symmetry. rewrite Z.gtb_ltb. apply Z.ltb_ge, to_u64_range. }
  rewrite orb_false_r. destruct (h_length hdr >? maxMessagePayload); [by rewrite advance_0|].
  repeat (case_match; simplify_eq; auto using view_discardInput).
  all: split_and!; try done; try (by intros ->; case_bool_decide).
  by intros ?%Z.eqb_neq; congruence.
Qed.
End Discard.

(** ** The limited reader and the tee around it *)

Section Limited.
Context {R : Type} {HR : Reader R} {HS : ReaderSpec R} (r0 : R) (N0 : Z) (HN : 0 <= N0).

(** [c] has been read from [r0] through [l]. *)
Definition LInv (l : LimitedReader R) (c : bytes) : Prop :=
  lr_N l = N0 - len c /\ len c <= N0 /\
  s_data (view r0) = c ++ s_data (view (lr_R l)) /\ s_err (view (lr_R l)) = s_err (view r0).

Lemma LInv_init : LInv (mkLimited r0 N0) [].
Proof. unfold LInv. simpl. change (len (@nil byte)) with 0. split_and!; try done; lia. Qed.

(** Reading at most what is left of the limit. *)
Lemma LInv_inner l c n bs e r' :
  LInv l c -> n <= Z.max 0 (lr_N l) -> Pull n (lr_R l) = (bs, e, r') ->
  LInv (mkLimited r' (lr_N l - len bs)) (c ++ bs).
Proof.
  intros (H1 & H2 & H3 & H4) Hn Hp. pose proof (view_Pull n (lr_R l)) as Hv. rewrite Hp in Hv.
  pose proof (stream_pull_len _ _ _ _ _ Hv) as Hl.
  assert (s_data (view (lr_R l)) = bs ++ s_data (view r') /\
          s_err (view r') = s_err (view (lr_R l))) as [Hd He].
  { destruct (Z.le_gt_cases n 0).
    - rewrite stream_pull_neg in Hv by done. by injection Hv as <- _ <-.
    - rewrite stream_pull_advance in Hv by lia. injection Hv as <- _ <-. simpl.
      by rewrite take_drop. }
  unfold LInv. simpl. rewrite len_app. split_and!; [lia|lia| |congruence].
  by rewrite H3, Hd, <- app_assoc.
Qed.

Lemma LInv_Pull l c n bs e l' :
  LInv l c -> Pull n l = (bs, e, l') -> LInv l' (c ++ bs).
Proof.
  intros HI. simpl. unfold limited_pull.
  destruct (Z.leb_spec n (Z.max 0 (lr_N l))) as [Hn|Hn].
  - destruct (Pull n (lr_R l)) as [[bs' e'] r'] eqn:Ep. intros [= <- <- <-].
    by eapply LInv_inner.
  - destruct (Pull (Z.max 0 (lr_N l)) (lr_R l)) as [[bs' e'] r'] eqn:Ep. intros [= <- <- <-].
    by eapply LInv_inner.
Qed.

(** Reading all: everything up to the limit has been read. *)
Lemma LInv_PullAll l c bs e l' :
  LInv l c -> PullAll l = (bs, e, l') ->
  LInv l' (c ++ bs) /\ c ++ bs = take (Z.to_nat N0) (s_data (view r0)) /\
  view (lr_R l') = advance N0 (view r0) /\
  e = (if N0 <=? len (s_data (view r0)) then EOF else s_err (view r0)).
Proof.
  intros HI. simpl. destruct (Pull (Z.max 0 (lr_N l)) (lr_R l)) as [[bs' e'] r'] eqn:Ep.
  intros [= <- <- <-]. pose proof (LInv_inner _ _ _ _ _ _ HI ltac:(done) Ep) as HI'.
  split; [done|]. destruct HI as (H1 & H2 & H3 & H4), HI' as (H1' & H2' & H3' & H4').
  simpl in H1', H3', H4'.
  pose proof (view_Pull (Z.max 0 (lr_N l)) (lr_R l)) as Hv. rewrite Ep in Hv.
  rewrite Z.max_r in Hv by lia. rewrite stream_pull_advance in Hv by lia.
  injection Hv as Hb He Hr.
  assert (c ++ bs' = take (Z.to_nat N0) (s_data (view r0))) as Hall.
  { rewrite H3, <- Hb, take_app. f_equal; [rewrite take_ge; [done|zlia]|]. f_equal. zlia. }
  split; [done|]. split.
  - simpl. rewrite <- Hr. unfold advance. rewrite H4. f_equal.
    rewrite H3, drop_app, (drop_ge c) by zlia. simpl. f_equal. zlia.
  - rewrite <- He. assert (len (s_data (view r0)) = len c + len (s_data (view (lr_R l)))) as Hl
      by (rewrite H3, len_app; done).
    destruct (Z.leb_spec (lr_N l) (len (s_data (view (lr_R l)))));
      destruct (Z.leb_spec N0 (len (s_data (view r0)))); try lia; done.
Qed.

Lemma run_LInv {A} (d : Dec A) l c x l' :
  LInv l c -> run d l = (x, l') -> exists c', LInv l' (c ++ c').
Proof.
  revert l c. induction d as [a|e|n k IH|k IH]; intros l c HI Hr; cbn [run] in Hr.
  1,2: injection Hr as <- <-; exists []; by rewrite app_nil_r.
  - unfold ReadFull in Hr. destruct (Pull n l) as [[bs e] l1] eqn:Ep.
    eapply LInv_Pull in Ep; [|done]. apply (IH _ _ _ Ep) in Hr as [c' Hc'].
    exists (bs ++ c'). by rewrite app_assoc.
  - by eapply IH.
Qed.

(** Through the tee, what was read is what was hashed. *)
Lemma run_TInv {A} (d : Dec A) (t : TeeReader (LimitedReader R)) x t' :
  LInv (tee_r t) (tee_w t) -> run d t = (x, t') -> LInv (tee_r t') (tee_w t').
Proof.
  revert t. induction d as [a|e|n k IH|k IH]; intros t HI Hr; cbn [run] in Hr.
  1,2: by injection Hr as <- <-.
  - unfold ReadFull in Hr. cbn [Pull tee_reader] in Hr.
    destruct (Pull n (tee_r t)) as [[bs e] l1] eqn:Ep.
    eapply LInv_Pull in Ep; [|done]. exact (IH _ (mkTee l1 (tee_w t ++ bs)) Ep Hr).
  - by eapply IH.
Qed.

(** The deferred drain: [r0] is left exactly behind the payload. *)
Lemma close_advance l c :
  LInv l c -> view (lr_R (snd (DiscardAll l))) = advance N0 (view r0).
Proof.
  intros HI. unfold DiscardAll. destruct (PullAll l) as [[bs e] l'] eqn:Ep.
  by apply (LInv_PullAll _ _ _ _ _ HI) in Ep as (_ & _ & Hv & _).
Qed.
End Limited.
