(* ===== verification/Framing.v ===== *)
(** * The correctness of message.go

    [kind_spec] collects the promises of all message types behind the Go
    interface; against it: what [WriteMessage] puts on the wire, that both
    reading functions read it back, that every call of a reading function
    ends at the next header, and that the streaming function and the
    buffering one agree. *)

From S2P Require Import Prelude Io Common Sha256 Externals InvVect BlockHeader Protocol NetAddress.
From S2P Require Import Tx Block MsgIface MsgInventory MsgControl MsgFilter ExtendedTx Version.
From S2P Require Import Message.

(** ** The promises of the message types *)

(** For [authch], [authresp] and [extmsg] nothing is promised: their decoders
    do not invert their encoders.  No message of these types is [sendable], so
    theorems about [sendable] messages do not speak of them. *)
Definition noSpec {T} {HM : Msg T} : MsgSpec T.
Proof. refine {| msg_bytes _ _ := []; msg_ok _ _ := False |}; done. Defined.

#[export] Instance kind_spec `{Limits} `{ExternalsSpec} (k : Kind) : MsgSpec (kind_type k) :=
  match k return MsgSpec (kind_type k) with
  | KVersion => MsgVersion_spec | KVerAck => MsgVerAck_spec | KGetAddr => MsgGetAddr_spec
  | KAddr => MsgAddr_spec | KGetBlocks => MsgGetBlocks_spec | KBlock => MsgBlock_spec
  | KInv => MsgInv_spec | KGetData => MsgGetData_spec | KNotFound => MsgNotFound_spec
  | KTx => MsgTx_spec | KExtendedTx => MsgExtendedTx_spec | KPing => MsgPing_spec
  | KPong => MsgPong_spec | KGetHeaders => MsgGetHeaders_spec | KHeaders => MsgHeaders_spec
  | KMemPool => MsgMemPool_spec | KFilterAdd => MsgFilterAdd_spec
  | KFilterClear => MsgFilterClear_spec | KFilterLoad => MsgFilterLoad_spec
  | KMerkleBlock => MsgMerkleBlock_spec | KReject => MsgReject_spec
  | KSendHeaders => MsgSendHeaders_spec | KFeeFilter => MsgFeeFilter_spec
  | KGetCFilters => MsgGetCFilters_spec | KGetCFHeaders => MsgGetCFHeaders_spec
  | KGetCFCheckpt => MsgGetCFCheckpt_spec | KCFilter => MsgCFilter_spec
  | KCFHeaders => MsgCFHeaders_spec | KCFCheckpt => MsgCFCheckpt_spec
  | KProtoconf => MsgProtoconf_spec | KExtMsg => noSpec | KAuthch => noSpec
  | KAuthresp => noSpec | KSendcmpct => MsgSendcmpct_spec
  | KCreateStream => MsgCreateStream_spec | KStreamAck => MsgStreamAck_spec
  end.

Lemma kind_streamable `{Limits} `{ExternalsSpec} k :
  k <> KVersion -> Streamable (kind_type k).
Proof. intros Hk. destruct k; try done; cbn [kind_type kind_Msg]; typeclasses eauto. Qed.

(** The errors encoders return themselves are of type [MessageError]. *)
Lemma kind_messageErrors `{Limits} `{Externals} k pver (m : kind_type k) :
  messageErrors (BsvEncode pver m).
Proof.
  destruct k; cbn [kind_type kind_Msg] in *;
    lazymatch goal with |- messageErrors (@BsvEncode _ ?M _ _) => unfold_head M end;
    cbn [BsvEncode]; solve_messageErrors.
  match goal with He : validateUserAgent _ = Some _ |- _ => apply validateUserAgent_Err in He as [me ->] end.
  apply messageErrors_fail.
Qed.

(** ** Commands *)

Section Commands.
Context `{Limits} `{Externals}.

Definition command (k : Kind) : bytes := Command (kind_type k).

Lemma command_len k : len (command k) <= CommandSize.
Proof. by destruct k. Qed.

Lemma command_utf8 k : utf8_ValidString (command k) = true.
Proof. by destruct k. Qed.

Lemma command_trim k : trimZeros (commandBytes (command k)) = command k.
Proof. by destruct k. Qed.

(** The types [makeEmptyMessage] makes for their own command. *)
Definition readable (k : Kind) : Prop := k <> KGetCFHeaders /\ k <> KExtMsg.

(** Of those, the types whose decoder inverts their encoder: [authch] and
    [authresp] write a length of four bytes and read one of variable length. *)
Definition symmetric (k : Kind) : Prop := readable k /\ k <> KAuthch /\ k <> KAuthresp.

Lemma makeEmptyMessage_command k : readable k -> makeEmptyMessage (command k) = inl k.
Proof. intros [H1 H2]. by destruct k. Qed.

Lemma lookup_cmd_elem c k l : lookup_cmd c l = Some k -> (c, k) ∈ l.
Proof.
  induction l as [|[c' k'] l IH]; [done|]. simpl. case_decide; [|set_solver].
  intros. simplify_eq. set_solver.
Qed.

(** The command a type is made for; for [extmsg] it is not the command the
    type itself returns. *)
Lemma makeEmptyMessage_inv c k :
  makeEmptyMessage c = inl k -> c = (if decide (k = KExtMsg) then CmdExtMsg else command k).
Proof.
  unfold makeEmptyMessage. destruct (lookup_cmd c emptyMessages) as [k'|] eqn:E; [|done].
  intros [= ->]. apply lookup_cmd_elem in E. unfold emptyMessages in E.
  repeat (apply elem_of_cons in E as [E|E]; [by injection E as -> ->|]).
  by apply elem_of_nil in E.
Qed.

Lemma command_not_version k : k <> KVersion -> command k <> CmdVersion.
Proof. intros Hk. by destruct k. Qed.
End Commands.

(** ** The header *)

Lemma len_commandBytes cmd : len (commandBytes cmd) = CommandSize.
Proof.
  unfold commandBytes, len, zeros. rewrite length_app, length_take, length_drop, length_replicate.
  unfold CommandSize. lia.
Qed.

Definition headerBytes (magic : Z) (cmd : bytes) (length : Z) (checksum : bytes) : bytes :=
  concat (map Elem_bytes (headerElems magic (commandBytes cmd) length checksum)).

Section Header.
Context (magic : Z) (cmd : bytes) (length : Z) (checksum : bytes)
  (Hm : is_u32 magic) (Hl : is_u32 length) (Hc : sized 4 checksum).

Lemma decodes_header :
  decodes (readElements [TBitcoinNet; Tcommand; Tuint32; Tchecksum])
    (headerBytes magic cmd length checksum) (magic, (commandBytes cmd, (length, (checksum, tt)))).
Proof.
  refine (decodes_elems [TBitcoinNet; Tcommand; Tuint32; Tchecksum]
    (magic, (commandBytes cmd, (length, (checksum, tt)))) _).
  cbn [elems_ok elem_ok fst snd]. split_and!; try done. apply len_commandBytes.
Qed.

Lemma len_headerBytes : len (headerBytes magic cmd length checksum) = MessageHeaderSize.
Proof.
  unfold headerBytes. cbn [headerElems map concat Elem_bytes elem_bytes].
  rewrite !len_app, !len_put_uint, len_commandBytes, len_nil.
  unfold sized in Hc. rewrite Hc. done.
Qed.

(** The header as the reader sees it, for a command without trailing zeros. *)
Lemma parseHeader_written :
  trimZeros (commandBytes cmd) = cmd -> length <> 0xffffffff ->
  parseHeader (headerBytes magic cmd length checksum) = mkHeader magic cmd length checksum 0.
Proof.
  intros Ht Hn. unfold parseHeader.
  pose proof (decodes_header [] EOF) as Hd. rewrite app_nil_r in Hd. rewrite Hd, Ht.
  rewrite (proj2 (Z.eqb_neq _ _) Hn), andb_false_r. done.
Qed.
End Header.

(** Only an extended header could have an extended length: there is nothing
    left to read it from.  All lengths are [uint32]. *)
Lemma readElement_exhausted t e :
  0 < elem_size t -> exists e' s, run (readElement t) (mkStream [] e) = (Err e', s).
Proof. intros Ht. destruct t; eexists _, _; reflexivity. Qed.

Lemma parseHeader_length bs : is_u32 (h_length (parseHeader bs)).
Proof.
  unfold parseHeader.
  destruct (run (readElements [TBitcoinNet; Tcommand; Tuint32; Tchecksum]) (mkStream bs EOF))
    as [[(magic & cmd & length & checksum & [])|e] hr] eqn:Er; [|done].
  apply codec_exact in Er as [_ (_ & _ & Hlen & _)].
  destruct (_ && _); [|done]. by destruct (run (readElement Tcommand) hr).
Qed.

Lemma parseHeader_extLength bs :
  len bs = MessageHeaderSize -> h_extLength (parseHeader bs) = 0.
Proof.
  intros Hb. unfold parseHeader.
  destruct (run (readElements [TBitcoinNet; Tcommand; Tuint32; Tchecksum]) (mkStream bs EOF))
    as [[(magic & cmd & length & checksum & [])|e] hr] eqn:Er; [|done].
  apply codec_exact in Er as [Es Hok].
  pose proof (len_elems_bytes _ _ Hok) as Hl. clear Hok.
  apply (f_equal s_data) in Es. cbn [s_data] in Es. assert (s_data hr = []) as Hd.
  { apply len_0_inv. rewrite Es, len_app, Hl in Hb. cbn [map elem_size zsum foldr] in Hb.
    unfold MessageHeaderSize, CommandSize in Hb. lia. }
  destruct hr as [d e]. cbn in Hd. subst d.
  destruct (_ && _); [|done].
  destruct (readElement_exhausted Tcommand e) as (e' & s & ->); done.
Qed.

(** ** What is written *)

Lemma to_i64_le z : is_u64 z -> to_i64 z <= z.
Proof.
  intros Hz. destruct (Z.le_gt_cases (2 ^ 63) z) as [Hb|Hb].
  - pose proof (to_i64_range z). zlia.
  - unfold to_i64. rewrite Z.mod_small; zlia.
Qed.

Lemma maxMessagePayload_u64 `{Limits} : is_u64 maxMessagePayload.
Proof. apply to_u64_range. Qed.

Section Frame.
Context `{Limits} `{ExternalsSpec}.

Definition Message_ok (pver : Z) (msg : Message) : Prop := msg_ok pver (m_val msg).
Definition payload (pver : Z) (msg : Message) : bytes := msg_bytes pver (m_val msg).
Definition checksum (p : bytes) : bytes := take 4 (DoubleHashB p).

(** A message within the limits of the writer.  The payload of 2^32 - 1
    bytes is written, but with the length that marks extended messages. *)
Record sendable (pver : Z) (msg : Message) : Prop := {
  send_ok : Message_ok pver msg;
  send_max : len (payload pver msg) <= to_i64 maxMessagePayload;
  send_u32 : len (payload pver msg) < 0xffffffff;
}.

(** The bytes on the wire. *)
Definition packet (pver bsvnet : Z) (msg : Message) : bytes :=
  headerBytes bsvnet (command (m_kind msg)) (len (payload pver msg)) (checksum (payload pver msg))
  ++ payload pver msg.

Lemma len_checksum p : sized 4 (checksum p).
Proof.
  unfold sized, checksum. rewrite DoubleHashB_spec. pose proof (len_Sum256 (Sum256 p)).
  rewrite len_take; [done|]. zlia.
Qed.

Lemma len_packet pver bsvnet msg :
  len (packet pver bsvnet msg) = MessageHeaderSize + len (payload pver msg).
Proof. unfold packet. rewrite len_app, len_headerBytes; auto using len_checksum. Qed.

Lemma WriteMessageN_writes `{Writer W} (w : W) pver bsvnet msg :
  sendable pver msg ->
  WriteMessageN w msg pver bsvnet = Write (packet pver bsvnet msg) w.
Proof.
  intros [Hok Hmax Hu]. unfold WriteMessageN, WriteMessageWithEncodingN.
  fold (command (m_kind msg)).
  rewrite (gtb_false (len (command _)) CommandSize) by apply command_len.
  rewrite runE_buffer. destruct (msg_encodes pver (m_val msg) Hok) as [-> ->].
  cbn [b_data]. rewrite app_nil_l. fold (payload pver msg).
  rewrite (gtb_false _ _ Hmax), (gtb_false _ (MaxPayloadLength _ _)) by (by apply msg_bounded).
  rewrite (gtb_false _ MaxUint32) by (unfold MaxUint32; lia).
  rewrite to_u32_id by (pose proof (len_nonneg (payload pver msg)); zlia).
  rewrite Z.geb_leb, (proj2 (Z.leb_gt _ _)) by (unfold MaxUint32; lia).
  rewrite runE_buffer. destruct (encodes_writeElements (headerElems bsvnet
    (commandBytes (command (m_kind msg))) (len (payload pver msg)) (checksum (payload pver msg))))
    as [Ho Hw].
  unfold checksum in Ho. rewrite Ho. cbn [b_data].
  fold (checksum (payload pver msg)). rewrite Hw, app_nil_l.
  unfold packet, headerBytes. by destruct (Write _ w) as [[n e] w'].
Qed.
End Frame.

(** ** A header that passes the checks *)

Section Reading.
Context `{Limits} `{ExternalsSpec} {R : Type} {HR : Reader R} {HS : ReaderSpec R}.

Lemma no_handlers cmd : (∅ : Handlers (R:=R)) !! cmd = None.
Proof. done. Qed.

Lemma checkHeader_accepts (refuseVersion : bool) k L cs pver bsvnet (r : R) :
  readable k -> (refuseVersion = true -> k <> KVersion) ->
  0 <= L <= maxMessagePayload -> L <= MaxPayloadLength (kind_type k) pver -> L <> 0xffffffff ->
  checkHeader refuseVersion (mkHeader bsvnet (command k) L cs 0) pver bsvnet r = (inr (k, L), r).
Proof.
  intros Hk Hv HL Hm Hn. unfold checkHeader.
  cbn [h_length h_extLength h_magic h_command].
  rewrite !gtb_false by lia. cbn [orb]. rewrite Z.eqb_refl, command_utf8. cbn [negb].
  rewrite makeEmptyMessage_command by done. rewrite !gtb_false by lia. cbn [orb].
  rewrite (proj2 (Z.eqb_neq _ _) Hn).
  destruct refuseVersion; [|done].
  by rewrite bool_decide_eq_false_2 by (by apply command_not_version, Hv).
Qed.

Lemma checkHeader_refuse hdr pver bsvnet (r : R) :
  h_command hdr <> CmdVersion ->
  checkHeader true hdr pver bsvnet r = checkHeader false hdr pver bsvnet r.
Proof.
  intros Hc. unfold checkHeader. rewrite (bool_decide_eq_false_2 (h_command hdr = CmdVersion)) by done.
  done.
Qed.

Lemma checkHeader_inr b hdr pver bsvnet (r r' : R) k L :
  checkHeader b hdr pver bsvnet r = (inr (k, L), r') ->
  h_magic hdr = bsvnet /\ utf8_ValidString (h_command hdr) = true /\
  makeEmptyMessage (h_command hdr) = inl k /\ h_length hdr <= maxMessagePayload /\
  h_length hdr <= MaxPayloadLength (kind_type k) pver.
Proof.
  unfold checkHeader. intros Hc.
  repeat (case_match; simplify_eq); rewrite ?orb_false_iff, ?negb_false_iff, ?Z.gtb_ltb in *;
    split_and!; try done; destruct_and?; by apply Z.ltb_ge || by apply Z.eqb_eq.
Qed.

(** The complete payload is there: both functions hand it to the decoder. *)
Section Payload.
Context (hs : Handlers (R:=R)) (pver bsvnet : Z) (r r1 : R) (hdr : messageHeader) (k : Kind) (L : Z).
Context (Hhdr : readMessageHeader r = (MessageHeaderSize, Ok hdr, r1))
  (Hhs : hs !! h_command hdr = None)
  (Hext : h_extLength hdr = 0) (HL : L <> 0xffffffff) (Hu : is_u32 L)
  (Hlen : L <= len (s_data (view r1))).

Definition body : bytes := take (Z.to_nat L) (s_data (view r1)).
Definition decoded : result (kind_type k) :=
  fst (run (Bsvdecode (kind_type k) pver) (mkBuffer body)).

(** What the decoder leaves of the payload. *)
Definition unread : bytes := b_data (snd (run (Bsvdecode (kind_type k) pver) (mkBuffer body))).

Definition sumOk : bool := bool_decide (checksum body = h_checksum hdr).

Lemma ReadMessageN_payload :
  checkHeader false hdr pver bsvnet r1 = (inr (k, L), r1) ->
  exists r',
    view r' = advance L (view r1) /\
    ReadMessageN hs pver bsvnet r =
    (if sumOk then
       match decoded with
       | Ok m => mkRead (MessageHeaderSize + L) (Some (mkMessage k m)) body None
       | Err e => readFail (MessageHeaderSize + L) e
       end
     else readFail (MessageHeaderSize + L) (checksumFailed hdr (checksum body)), r').
Proof.
  intros Hck. unfold ReadMessageN, ReadMessageWithEncodingN. rewrite Hhdr, Hck, Hhs.
  unfold ReadFull. pose proof (view_Pull L r1) as Hv. destruct (Pull L r1) as [[bs e] r'].
  rewrite stream_pull_advance in Hv by zlia. rewrite (proj2 (Z.leb_le _ _) Hlen) in Hv.
  injection Hv as Hbs <- Hr. exists r'. split; [done|]. cbn [fmap option_fmap option_map].
  assert (len bs = L) as Hl by (rewrite <- Hbs; apply len_take_le; zlia).
  rewrite Hext, (proj2 (Z.eqb_neq _ _) HL), Hl. cbn [negb andb Z.eqb].
  fold (checksum bs). unfold decoded, sumOk, body. rewrite Hbs.
  destruct (bool_decide _); cbn [negb]; [|done].
  by destruct (run _ (mkBuffer bs)) as [[m|e] ?].
Qed.

(** A payload that is cut off is an error. *)
Lemma ReadMessageN_cut L' :
  checkHeader false hdr pver bsvnet r1 = (inr (k, L'), r1) -> len (s_data (view r1)) < L' ->
  rd_msg (fst (ReadMessageN hs pver bsvnet r)) = None.
Proof.
  clear L HL Hu Hlen. intros Hck Hcut. unfold ReadMessageN, ReadMessageWithEncodingN. rewrite Hhdr, Hck, Hhs.
  unfold ReadFull. pose proof (view_Pull L' r1) as Hv. destruct (Pull L' r1) as [[bs e] r'].
  rewrite stream_pull_advance in Hv by zlia. rewrite (proj2 (Z.leb_gt _ _) Hcut) in Hv.
  by injection Hv as _ <- _.
Qed.

(** Through the limited reader and the tee the decoder sees the payload
    as it sees it in the buffer. *)
Lemma streaming_decoder {A} (d : Dec A) :
  streamable d ->
  exists t, run d (mkTee (mkLimited r1 L) []) = (fst (run d (mkBuffer body)), t) /\
    LInv r1 L (tee_r t) (tee_w t) /\
    lr_N (tee_r t) = len (b_data (snd (run d (mkBuffer body)))).
Proof.
  intros Hd. destruct (run d (mkTee (mkLimited r1 L) [])) as [x t] eqn:Er. exists t.
  assert (LInv r1 L (tee_r t) (tee_w t)) as HI.
  { eapply (run_TInv r1 L d); [|exact Er]. apply LInv_init. zlia. }
  assert (fst (run d (mkBuffer body)) = x /\ view t = view (snd (run d (mkBuffer body)))) as [Hx Ht].
  { pose proof (run_view_streamable d (mkTee (mkLimited r1 L) []) Hd) as Hv1.
    pose proof (run_view_streamable d (mkBuffer body) Hd) as Hv2. rewrite Er in Hv1.
    cbn [view tee_spec limited_spec buffer_spec tee_r lr_N lr_R] in Hv1, Hv2.
    rewrite Z.max_r in Hv1 by zlia. unfold limit_stream in Hv1.
    rewrite (proj2 (Z.leb_le _ _) Hlen) in Hv1. unfold buffer_stream in Hv2 at 1.
    cbn [b_data] in Hv2. fold body in Hv1. rewrite Hv1 in Hv2.
    destruct (run d (mkBuffer body)). by injection Hv2 as <- Ht. }
  split; [by rewrite Hx|]. split; [done|]. destruct HI as (HN & Hle & Hd0 & _).
  apply (f_equal s_data) in Ht. cbn [view tee_spec limited_spec buffer_spec buffer_stream s_data] in Ht.
  rewrite <- Ht. apply (f_equal len) in Hd0. rewrite len_app in Hd0. unfold limit_stream.
  rewrite Z.max_r by lia. rewrite (proj2 (Z.leb_le _ _)) by lia. cbn [s_data].
  rewrite len_take_le; lia.
Qed.

Lemma streaming_drain (t : TeeReader (LimitedReader R)) :
  LInv r1 L (tee_r t) (tee_w t) ->
  exists l, DiscardAll t = (None, mkTee l body) /\ LInv r1 L l body.
Proof.
  intros HI. unfold DiscardAll. cbn [PullAll tee_reader].
  destruct (PullAll (tee_r t)) as [[bs e] l] eqn:Ep.
  apply (LInv_PullAll r1 L _ _ _ _ _ HI) in Ep as (HI' & Hb & _ & He).
  rewrite (proj2 (Z.leb_le _ _) Hlen) in He. subst e. rewrite Hb in *. by exists l.
Qed.

Lemma ReadMessageStreamingN_payload :
  k <> KVersion ->
  checkHeader true hdr pver bsvnet r1 = (inr (k, L), r1) ->
  exists r',
    view r' = advance L (view r1) /\
    ReadMessageStreamingN hs pver bsvnet r =
    (match decoded with
     | Ok m =>
         if sumOk then mkRead (MessageHeaderSize + L) (Some (mkMessage k m)) [] None
         else readFail (MessageHeaderSize + L) (checksumFailed hdr (checksum body))
     | Err e => readFail (MessageHeaderSize + (L - len unread)) e
     end, r').
Proof.
  intros Hk Hck. unfold ReadMessageStreamingN. rewrite Hhdr, Hck, Hhs.
  assert (to_i64 L = L) as Hi by (unfold to_i64; rewrite Z.mod_small; zlia).
  rewrite Hext, (proj2 (Z.eqb_neq _ _) HL), Hi. cbn [negb andb Z.eqb].
  destruct (streaming_decoder (Bsvdecode (kind_type k) pver)) as (t & -> & HI & HN).
  { by apply kind_streamable. }
  fold decoded. destruct decoded as [m|e].
  - destruct (streaming_drain t HI) as (l & -> & HI'). cbn [tee_r tee_w].
    exists (lr_R (snd (DiscardAll l))).
    split; [by eapply close_advance|].
    unfold sumOk, checksum. rewrite DoubleHashB_spec. by destruct (bool_decide _).
  - eexists. split; [|by rewrite HN]. by eapply close_advance.
Qed.
End Payload.
End Reading.

(** ** Theorems *)

Section Theorems.
Context `{Limits} `{ExternalsSpec} {R : Type} {HR : Reader R} {HS : ReaderSpec R}.
Context {W : Type} {HW : Writer W} {HWS : WriterSpec W}.
Implicit Types (hs : Handlers (R:=R)) (r : R) (w : W).

(** The header at the front of what [r] has to deliver. *)
Definition nextHeader (r : R) : messageHeader := parseHeader (take 24 (s_data (view r))).

Lemma readMessageHeader_Ok r :
  MessageHeaderSize <= len (s_data (view r)) ->
  exists r1, readMessageHeader r = (MessageHeaderSize, Ok (nextHeader r), r1) /\
    view r1 = advance MessageHeaderSize (view r) /\
    is_u32 (h_length (nextHeader r)) /\ h_extLength (nextHeader r) = 0.
Proof.
  intros Hlen. pose proof (view_readMessageHeader r) as Hv.
  destruct (readMessageHeader r) as [[n x] r1]. destruct Hv as (-> & Hr & Hx).
  destruct x as [h|e]; [|lia]. destruct Hx as [_ ->].
  assert (len (take 24 (s_data (view r))) = MessageHeaderSize) as Hl
    by (apply (len_take_le 24); unfold MessageHeaderSize in Hlen; lia).
  rewrite Hl. exists r1. split_and!; [done..|apply parseHeader_length|by apply parseHeader_extLength].
Qed.

(** How many bytes a reading function takes from the stream. *)
Definition frameSize (hdr : messageHeader) : Z :=
  if h_length hdr >? maxMessagePayload then MessageHeaderSize
  else MessageHeaderSize + h_length hdr.

Lemma advance_frame hdr s :
  0 <= h_length hdr ->
  advance (if h_length hdr >? maxMessagePayload then 0 else h_length hdr)
    (advance MessageHeaderSize s) = advance (frameSize hdr) s.
Proof.
  intros Hl. unfold frameSize. destruct (_ >? _); rewrite advance_advance by (unfold MessageHeaderSize; lia);
    done.
Qed.

(** Where a reading function leaves the reader once the checks have passed. *)
Section Consumed.
Context hs (pver bsvnet : Z) r r1 (hdr : messageHeader) (k : Kind) (L : Z).
Context (Hhdr : readMessageHeader r = (MessageHeaderSize, Ok hdr, r1))
  (Hhs : hs !! h_command hdr = None) (Hext : h_extLength hdr = 0)
  (HL : L <> 0xffffffff) (Hu : is_u32 L).

Lemma consumed_buffered :
  checkHeader false hdr pver bsvnet r1 = (inr (k, L), r1) ->
  view (snd (ReadMessageN hs pver bsvnet r)) = advance L (view r1).
Proof.
  intros Hc. unfold ReadMessageN, ReadMessageWithEncodingN. rewrite Hhdr, Hc, Hhs.
  pose proof (view_ReadFull_snd L r1 (proj1 Hu)) as Hf.
  destruct (ReadFull _ r1) as [[bs [e|]] r3]; [done|].
  destruct (_ && _ && _); [done|]. by destruct (run _ (mkBuffer bs)) as [[m|e] ?].
Qed.

Lemma consumed_streaming :
  checkHeader true hdr pver bsvnet r1 = (inr (k, L), r1) ->
  view (snd (ReadMessageStreamingN hs pver bsvnet r)) = advance L (view r1).
Proof.
  intros Hc. unfold ReadMessageStreamingN.
  rewrite Hhdr, Hc, Hhs, Hext, (proj2 (Z.eqb_neq _ _) HL).
  assert (to_i64 L = L) as -> by (unfold to_i64; rewrite Z.mod_small; zlia).
  cbn [negb andb Z.eqb]. destruct (run _ (mkTee (mkLimited r1 L) [])) as [x t] eqn:Ed.
  assert (LInv r1 L (tee_r t) (tee_w t)) as HI.
  { eapply (run_TInv r1 L); [|exact Ed]. apply LInv_init, Hu. }
  destruct x as [m|e]; [|by eapply close_advance].
  destruct (DiscardAll t) as [o t'] eqn:Et.
  assert (LInv r1 L (tee_r t') (tee_w t')) as HI'.
  { unfold DiscardAll in Et. cbn [PullAll tee_reader] in Et.
    destruct (PullAll (tee_r t)) as [[bs e] l] eqn:Ep.
    apply (LInv_PullAll r1 L _ _ _ _ _ HI) in Ep as (HI' & _). by injection Et as _ <-. }
  destruct o; [by eapply close_advance|].
  destruct (negb _); by eapply close_advance.
Qed.
End Consumed.

(** The checks behind the one of the overall maximum. *)
Definition passes (refuseVersion : bool) (pver bsvnet : Z) (hdr : messageHeader) : bool :=
  (h_magic hdr =? bsvnet) && utf8_ValidString (h_command hdr) &&
  negb (refuseVersion && bool_decide (h_command hdr = CmdVersion)) &&
  match makeEmptyMessage (h_command hdr) with
  | inl k => h_length hdr <=? MaxPayloadLength (kind_type k) pver
  | inr _ => false
  end.

(** How many bytes a reading function takes from the stream, for any header. *)
Definition frameTaken (refuseVersion : bool) (pver bsvnet : Z) (hdr : messageHeader) : Z :=
  if h_length hdr >? maxMessagePayload then MessageHeaderSize
  else if (h_length hdr =? 0xffffffff) && passes refuseVersion pver bsvnet hdr
  then MessageHeaderSize
  else MessageHeaderSize + h_length hdr.

Lemma frameTaken_normal b pver bsvnet hdr :
  h_length hdr <> 0xffffffff -> frameTaken b pver bsvnet hdr = frameSize hdr.
Proof. intros Hn. unfold frameTaken, frameSize. by rewrite (proj2 (Z.eqb_neq _ _) Hn). Qed.

(** The checks, and the length they hand on. *)
Lemma checkHeader_passes b hdr pver bsvnet r :
  h_extLength hdr = 0 -> 0 <= h_length hdr ->
  checkHeader b hdr pver bsvnet r =
  if h_length hdr >? maxMessagePayload then (inl (tooLarge hdr), r)
  else if passes b pver bsvnet hdr then
    match makeEmptyMessage (h_command hdr) with
    | inl k => (inr (k, if h_length hdr =? 0xffffffff then 0 else h_length hdr), r)
    | inr _ => (inl (tooLarge hdr), r)
    end
  else (fst (checkHeader b hdr pver bsvnet r), discardInput (h_length hdr) r).
Proof.
  intros He Hl. unfold checkHeader, passes. rewrite He.
  assert ((0 >? maxMessagePayload) = false) as Hz by (apply gtb_false, maxMessagePayload_u64).
  rewrite Hz, orb_false_r. destruct (h_length hdr >? maxMessagePayload); [done|].
  destruct (h_magic hdr =? bsvnet); [|done]. destruct (utf8_ValidString _); [|done].
  destruct (b && _); [done|]. cbn [negb andb].
  destruct (makeEmptyMessage (h_command hdr)) as [k|]; [|done]. rewrite !Z.gtb_ltb.
  destruct (Z.leb_spec (h_length hdr) (MaxPayloadLength (kind_type k) pver)) as [Hm|Hm].
  - rewrite (proj2 (Z.ltb_ge _ _) Hm), (proj2 (Z.ltb_ge _ 0)) by lia. done.
  - by rewrite (proj2 (Z.ltb_lt _ _) Hm).
Qed.

(** The position a reading function stops at, if its two outcomes of the checks
    stop where they should. *)
Lemma taken_view (f : R -> Read * R) b pver bsvnet r r1 :
  let hdr := nextHeader r in
  readMessageHeader r = (MessageHeaderSize, Ok hdr, r1) ->
  view r1 = advance MessageHeaderSize (view r) -> is_u32 (h_length hdr) -> h_extLength hdr = 0 ->
  (forall e r2, checkHeader b hdr pver bsvnet r1 = (inl e, r2) -> view (snd (f r)) = view r2) ->
  (forall k L, checkHeader b hdr pver bsvnet r1 = (inr (k, L), r1) -> L <> 0xffffffff -> is_u32 L ->
     view (snd (f r)) = advance L (view r1)) ->
  view (snd (f r)) = advance (frameTaken b pver bsvnet hdr) (view r).
Proof.
  intros hdr Er Hv Hu He Herr Hok.
  pose proof (checkHeader_passes b hdr pver bsvnet r1 He (proj1 Hu)) as Hc. unfold frameTaken.
  destruct (h_length hdr >? maxMessagePayload).
  { by rewrite (Herr _ _ Hc). }
  assert (0 <= MessageHeaderSize) as H24 by done.
  destruct (passes b pver bsvnet hdr) eqn:Hp.
  2: { rewrite andb_false_r. destruct (checkHeader b hdr pver bsvnet r1) as [[e|[k L]] r2] eqn:Ec.
       - injection Hc as ->. rewrite (Herr _ _ eq_refl), view_discardInput, Hv, advance_advance
           by (done || apply Hu). done.
       - exfalso. pose proof (checkHeader_inr _ _ _ _ _ _ _ _ Ec) as (Hm & Hutf & Hk & _ & Hmp).
         unfold passes in Hp. rewrite Hm, Hutf, Hk, Z.eqb_refl, (proj2 (Z.leb_le _ _) Hmp) in Hp.
         unfold checkHeader in Ec. by repeat (case_match; simplify_eq). }
  unfold passes in Hp. destruct (makeEmptyMessage (h_command hdr)) as [k|]; [|by rewrite andb_false_r in Hp].
  rewrite andb_true_r. destruct (Z.eqb_spec (h_length hdr) 0xffffffff) as [Hl|Hl].
  - rewrite (Hok _ _ Hc), advance_0 by done. done.
  - rewrite (Hok _ _ Hc Hl Hu), Hv, advance_advance by (done || apply Hu). done.
Qed.

Lemma taken_buffered hs pver bsvnet r :
  MessageHeaderSize <= len (s_data (view r)) ->
  hs !! h_command (nextHeader r) = None ->
  view (snd (ReadMessageN hs pver bsvnet r)) =
  advance (frameTaken false pver bsvnet (nextHeader r)) (view r).
Proof.
  intros Hlen Hhs. destruct (readMessageHeader_Ok r Hlen) as (r1 & Er & Hv & Hu & He).
  apply (taken_view (ReadMessageN hs pver bsvnet) false pver bsvnet r r1); try done.
  - intros e r2 Hc. unfold ReadMessageN, ReadMessageWithEncodingN. by rewrite Er, Hc.
  - intros k L Hc HL HLu. by eapply consumed_buffered.
Qed.

Lemma taken_streaming hs pver bsvnet r :
  MessageHeaderSize <= len (s_data (view r)) ->
  hs !! h_command (nextHeader r) = None ->
  view (snd (ReadMessageStreamingN hs pver bsvnet r)) =
  advance (frameTaken true pver bsvnet (nextHeader r)) (view r).
Proof.
  intros Hlen Hhs. destruct (readMessageHeader_Ok r Hlen) as (r1 & Er & Hv & Hu & He).
  apply (taken_view (ReadMessageStreamingN hs pver bsvnet) true pver bsvnet r r1); try done.
  - intros e r2 Hc. unfold ReadMessageStreamingN. by rewrite Er, Hc.
  - intros k L Hc HL HLu. by eapply consumed_streaming.
Qed.

(** Frames of which the length is not the mark. *)
Lemma frame_aligned_buffered hs pver bsvnet r :
  MessageHeaderSize <= len (s_data (view r)) ->
  hs !! h_command (nextHeader r) = None -> h_length (nextHeader r) <> 0xffffffff ->
  view (snd (ReadMessageN hs pver bsvnet r)) = advance (frameSize (nextHeader r)) (view r).
Proof. intros Hlen Hhs Hn. rewrite taken_buffered, frameTaken_normal by done. done. Qed.

Lemma frame_aligned_streaming hs pver bsvnet r :
  MessageHeaderSize <= len (s_data (view r)) ->
  hs !! h_command (nextHeader r) = None -> h_length (nextHeader r) <> 0xffffffff ->
  view (snd (ReadMessageStreamingN hs pver bsvnet r)) =
  advance (frameSize (nextHeader r)) (view r).
Proof. intros Hlen Hhs Hn. rewrite taken_streaming, frameTaken_normal by done. done. Qed.

(** *** A written message *)

Definition packetHeader (pver bsvnet : Z) (msg : Message) : messageHeader :=
  mkHeader bsvnet (command (m_kind msg)) (len (payload pver msg)) (checksum (payload pver msg)) 0.

Definition packetFront (pver bsvnet : Z) (msg : Message) : bytes :=
  headerBytes bsvnet (command (m_kind msg)) (len (payload pver msg)) (checksum (payload pver msg)).

Lemma packet_front pver bsvnet msg : packet pver bsvnet msg = packetFront pver bsvnet msg ++ payload pver msg.
Proof. done. Qed.

Lemma length_packetFront pver bsvnet msg : length (packetFront pver bsvnet msg) = 24%nat.
Proof.
  pose proof (len_headerBytes bsvnet (command (m_kind msg)) (len (payload pver msg))
    (checksum (payload pver msg)) (len_checksum _)) as Hh.
  unfold packetFront. unfold MessageHeaderSize in Hh. zlia.
Qed.

(** The header of a message, followed by anything. *)
Section Packet.
Context (pver bsvnet : Z) (msg : Message) (r : R) (rest : bytes) (e : error)
  (Hs : sendable pver msg) (Hnet : is_u32 bsvnet)
  (Hr : view r = mkStream (packetFront pver bsvnet msg ++ rest) e).

Lemma payload_u32 : is_u32 (len (payload pver msg)).
Proof. destruct Hs. pose proof (len_nonneg (payload pver msg)). zlia. Qed.

Lemma packet_parsed :
  exists r1, readMessageHeader r = (MessageHeaderSize, Ok (packetHeader pver bsvnet msg), r1) /\
    view r1 = mkStream rest e.
Proof.
  pose proof payload_u32 as Hu. destruct Hs as [Hok Hmax Hlt].
  pose proof (length_packetFront pver bsvnet msg) as Hh.
  destruct (readMessageHeader_Ok r) as (r1 & Er & Hv & _).
  { rewrite Hr. cbn [s_data]. unfold MessageHeaderSize. len_lia. }
  exists r1. split.
  - rewrite Er. do 2 f_equal. unfold nextHeader. rewrite Hr. cbn [s_data].
    rewrite take_app_eq by done. f_equal.
    apply parseHeader_written; auto using len_checksum, command_trim. lia.
  - rewrite Hv, Hr. unfold advance. cbn [s_data s_err]. by rewrite drop_app_eq by done.
Qed.

Lemma packet_header :
  readable (m_kind msg) ->
  exists r1, readMessageHeader r = (MessageHeaderSize, Ok (packetHeader pver bsvnet msg), r1) /\
    view r1 = mkStream rest e /\
    (forall b, (b = true -> m_kind msg <> KVersion) ->
       checkHeader b (packetHeader pver bsvnet msg) pver bsvnet r1 =
       (inr (m_kind msg, len (payload pver msg)), r1)).
Proof.
  intros Hk. destruct packet_parsed as (r1 & Er & Hv). pose proof payload_u32 as Hu.
  destruct Hs as [Hok Hmax Hlt]. exists r1. split_and!; [done..|].
  intros b Hb. apply checkHeader_accepts; auto; [|by apply msg_bounded|lia].
  pose proof (to_i64_le _ maxMessagePayload_u64). zlia.
Qed.
End Packet.

Lemma packet_body pver msg r1 rest e :
  view r1 = mkStream (payload pver msg ++ rest) e ->
  len (payload pver msg) <= len (s_data (view r1)) /\
  body r1 (len (payload pver msg)) = payload pver msg /\
  advance (len (payload pver msg)) (view r1) = mkStream rest e.
Proof.
  intros Hv. unfold body, advance. rewrite Hv. cbn [s_data s_err].
  rewrite to_nat_len, take_app_length, drop_app_length. split_and!; [len_lia|done|done].
Qed.

Lemma packet_read hs pver bsvnet msg r rest e :
  sendable pver msg -> readable (m_kind msg) -> hs !! command (m_kind msg) = None ->
  is_u32 bsvnet -> view r = mkStream (packet pver bsvnet msg ++ rest) e ->
  let n := MessageHeaderSize + len (payload pver msg) in
  (exists r', ReadMessageN hs pver bsvnet r = (mkRead n (Some msg) (payload pver msg) None, r') /\
     view r' = mkStream rest e) /\
  (m_kind msg <> KVersion ->
   exists r', ReadMessageStreamingN hs pver bsvnet r = (mkRead n (Some msg) [] None, r') /\
     view r' = mkStream rest e).
Proof.
  intros Hs Hk Hhs Hnet Hr n. rewrite packet_front, <- app_assoc in Hr.
  destruct (packet_header pver bsvnet msg r _ e Hs Hnet Hr Hk) as (r1 & Er & Hv & Hc).
  destruct (packet_body pver msg r1 rest e Hv) as (Hlen & Hb & Ha).
  pose proof (payload_u32 pver msg Hs) as Hu. pose proof (send_ok _ _ Hs) as Hok.
  assert (decoded pver r1 (m_kind msg) (len (payload pver msg)) = Ok (m_val msg)) as Hd.
  { unfold decoded. rewrite Hb. unfold payload. by rewrite msg_decodes. }
  assert (sumOk r1 (packetHeader pver bsvnet msg) (len (payload pver msg)) = true) as Hsum.
  { unfold sumOk. rewrite Hb. by apply bool_decide_eq_true_2. }
  assert (len (payload pver msg) <> 0xffffffff) as Hne by (destruct Hs; lia).
  split.
  - destruct (ReadMessageN_payload hs pver bsvnet r r1 _ _ _ Er Hhs eq_refl Hne Hu Hlen
      (Hc false ltac:(done))) as (r' & Hv' & ->).
    exists r'. rewrite Hsum, Hd, Hb, Hv'. by destruct msg.
  - intros Hkv.
    destruct (ReadMessageStreamingN_payload hs pver bsvnet r r1 _ _ _ Er Hhs eq_refl Hne Hu Hlen
      Hkv (Hc true ltac:(done))) as (r' & Hv' & ->).
    exists r'. rewrite Hsum, Hd, Hv'. by destruct msg.
Qed.

(** C1: what [WriteMessageN] wrote for a well-formed message is read back, from
    any reader that delivers these bytes and then anything else, if no handler
    is registered for its command: the same message, the number of bytes
    written, and the reader left exactly behind them.  [ReadMessageN] does so
    for every type but getcfheaders and extmsg, which it does not know, and
    authch and authresp, whose decoders do not invert their encoders;
    [ReadMessageStreamingN] for the same types but version, which it refuses. *)
Theorem Message_roundtrip hs pver bsvnet msg w w' n p r rest e :
  sendable pver msg -> symmetric (m_kind msg) -> hs !! command (m_kind msg) = None ->
  is_u32 bsvnet ->
  WriteMessageN w msg pver bsvnet = (n, None, w') -> out w' = out w ++ p ->
  view r = mkStream (p ++ rest) e ->
  n = len p /\
  (exists r', ReadMessageN hs pver bsvnet r = (mkRead n (Some msg) (payload pver msg) None, r') /\
     view r' = mkStream rest e) /\
  (m_kind msg <> KVersion ->
   exists r', ReadMessageStreamingN hs pver bsvnet r = (mkRead n (Some msg) [] None, r') /\
     view r' = mkStream rest e).
Proof.
  intros Hs Hk Hhs Hnet Hw Ho Hr. rewrite WriteMessageN_writes in Hw by done.
  pose proof (out_Write (packet pver bsvnet msg) w) as Hout. rewrite Hw in Hout.
  destruct Hout as (_ & Hout & Hn). specialize (Hn eq_refl). rewrite Hn, take_len, Ho in Hout.
  apply app_inv_head in Hout. subst p. split; [done|].
  rewrite Hn, len_packet. apply packet_read; try done. apply Hk.
Qed.

(** C3: what a reading function has consumed when it returns, with a message
    or with any error and no handler for the command: exactly the header and
    the announced payload (or all there was), so that the next header follows;
    with two exceptions, in which nothing behind the header is read.  A length
    above the overall maximum is refused at once.  A length of 2^32 - 1 that is
    within the limits of a known command is taken for the mark of an extended
    message, whatever the command, and replaced by the extended length 0: the
    announced payload stays on the connection. *)
Theorem ReadMessage_aligned hs pver bsvnet r :
  MessageHeaderSize <= len (s_data (view r)) ->
  hs !! h_command (nextHeader r) = None ->
  let hdr := nextHeader r in
  view (snd (ReadMessageN hs pver bsvnet r)) =
    advance (frameTaken false pver bsvnet hdr) (view r) /\
  view (snd (ReadMessageStreamingN hs pver bsvnet r)) =
    advance (frameTaken true pver bsvnet hdr) (view r) /\
  (forall streaming, h_length hdr <> 0xffffffff ->
   frameTaken streaming pver bsvnet hdr =
   if h_length hdr >? maxMessagePayload then MessageHeaderSize
   else MessageHeaderSize + h_length hdr).
Proof.
  intros Hlen Hhs hdr. split_and!; [by apply taken_buffered|by apply taken_streaming|].
  intros b Hn. by apply frameTaken_normal.
Qed.

(** C4: on a complete message of any type but version, with no handler for
    its command and a length other than the mark 2^32 - 1, the streaming
    function behaves as the buffering one: same message, same position, an error in
    the same cases, the same byte count on success, and the same error
    unless the buffering function reports a wrong checksum (it looks at the
    checksum before it decodes, the streaming one afterwards). *)
Theorem Streaming_agrees hs pver bsvnet r :
  let hdr := nextHeader r in
  MessageHeaderSize + h_length hdr <= len (s_data (view r)) ->
  hs !! h_command hdr = None -> h_length hdr <> 0xffffffff -> h_command hdr <> CmdVersion ->
  let '(x1, r1) := ReadMessageN hs pver bsvnet r in
  let '(x2, r2) := ReadMessageStreamingN hs pver bsvnet r in
  view r2 = view r1 /\ rd_msg x2 = rd_msg x1 /\
  (rd_err x2 = None <-> rd_err x1 = None) /\ (rd_err x1 = None -> rd_n x2 = rd_n x1) /\
  (rd_err x2 = rd_err x1 \/ exists c, rd_err x1 = Some (checksumFailed hdr c)).
Proof.
  intros hdr Hlen Hhs Hn Hcmd.
  pose proof (parseHeader_length (take 24 (s_data (view r)))) as Hu. fold (nextHeader r) in Hu.
  fold hdr in Hu. destruct (readMessageHeader_Ok r) as (r1 & Er & Hv & _ & He); [zlia|].
  fold hdr in Er, He. pose proof (view_checkHeader false hdr pver bsvnet r1 (proj1 Hu) He) as Hc.
  destruct (checkHeader false hdr pver bsvnet r1) as [[e|[k L]] r2] eqn:Ec.
  - unfold ReadMessageN, ReadMessageWithEncodingN, ReadMessageStreamingN.
    rewrite Er, checkHeader_refuse, Ec by done. repeat split; auto.
  - destruct Hc as (-> & _ & HL & Hk & _). specialize (HL Hn). subst L.
    assert (k <> KVersion) as Hkv by (intros ->; by apply makeEmptyMessage_inv in Hk).
    assert (h_length hdr <= len (s_data (view r1))) as Hlen1.
    { rewrite Hv. unfold advance, len. cbn [s_data]. rewrite length_drop.
      unfold MessageHeaderSize in *. zlia. }
    destruct (ReadMessageN_payload hs pver bsvnet r r1 hdr k _ Er Hhs He Hn Hu Hlen1 Ec)
      as (r' & Hr' & ->).
    destruct (ReadMessageStreamingN_payload hs pver bsvnet r r1 hdr k _ Er Hhs He Hn Hu Hlen1 Hkv)
      as (r'' & Hr'' & ->); [by rewrite checkHeader_refuse|].
    rewrite Hr', Hr''. destruct (decoded _ _ _ _), (sumOk _ _ _);
      cbn [rd_msg rd_err rd_n readFail]; split_and!; naive_solver.
Qed.

(** What a returned message says about the bytes that were read. *)
Lemma accepted_frame hs pver bsvnet r x r' m :
  let hdr := nextHeader r in
  ReadMessageN hs pver bsvnet r = (x, r') -> rd_msg x = Some m ->
  hs !! h_command hdr = None -> h_length hdr <> 0xffffffff ->
  rd_err x = None /\ rd_n x = MessageHeaderSize + len (rd_payload x) /\
  s_data (view r) = take 24 (s_data (view r)) ++ rd_payload x ++ s_data (view r') /\
  h_magic hdr = bsvnet /\ makeEmptyMessage (h_command hdr) = inl (m_kind m) /\
  len (rd_payload x) = h_length hdr /\ h_length hdr <= maxMessagePayload /\
  h_length hdr <= MaxPayloadLength (kind_type (m_kind m)) pver /\
  h_checksum hdr = take 4 (Sum256 (Sum256 (rd_payload x))) /\
  fst (run (Bsvdecode (kind_type (m_kind m)) pver) (mkBuffer (rd_payload x))) = Ok (m_val m).
Proof.
  intros hdr Hx Hm Hhs Hn.
  destruct (Z.le_gt_cases MessageHeaderSize (len (s_data (view r)))) as [Hl|Hl].
  2: { unfold ReadMessageN, ReadMessageWithEncodingN in Hx.
       pose proof (view_readMessageHeader r) as Hv.
       destruct (readMessageHeader r) as [[n [h|e]] r1]; [lia|]. by injection Hx as <- <-. }
  destruct (readMessageHeader_Ok r Hl) as (r1 & Er & Hv & Hu & He). fold hdr in Er, Hu, He.
  pose proof (view_checkHeader false hdr pver bsvnet r1 (proj1 Hu) He) as Hc.
  destruct (checkHeader false hdr pver bsvnet r1) as [[e|[k L]] r2] eqn:Ec.
  { unfold ReadMessageN, ReadMessageWithEncodingN in Hx. rewrite Er, Ec in Hx.
    by injection Hx as <- <-. }
  destruct Hc as (-> & _ & HL & _). specialize (HL Hn). subst L.
  pose proof (checkHeader_inr _ _ _ _ _ _ _ _ Ec) as (Hmag & _ & Hk & Hmax & Hmpl).
  destruct (Z.le_gt_cases (h_length hdr) (len (s_data (view r1)))) as [Hlen|Hlen].
  2: { pose proof (ReadMessageN_cut hs pver bsvnet r r1 hdr k Er Hhs _ Ec Hlen) as Hcut.
       rewrite Hx in Hcut. cbn [fst] in Hcut. congruence. }
  destruct (ReadMessageN_payload hs pver bsvnet r r1 hdr k _ Er Hhs He Hn Hu Hlen Ec)
    as (r3 & Hr3 & Hrd). rewrite Hx in Hrd.
  destruct (sumOk r1 hdr (h_length hdr)) eqn:Hsum; [|by injection Hrd as -> ->].
  destruct (decoded pver r1 k (h_length hdr)) as [v|e] eqn:Hd; [|by injection Hrd as -> ->].
  injection Hrd as -> ->. cbn [rd_msg] in Hm. injection Hm as <-.
  cbn [rd_err rd_n rd_payload m_kind m_val].
  assert (len (body r1 (h_length hdr)) = h_length hdr) as Hb by (apply len_take_le; zlia).
  rewrite Hb. split_and!; try done.
  - rewrite Hr3, Hv. unfold body. rewrite Hv. unfold advance. cbn [s_data].
    by rewrite take_drop, take_drop.
  - apply bool_decide_eq_true in Hsum. rewrite <- Hsum. unfold checksum.
    by rewrite DoubleHashB_spec.
Qed.

(** C2: when no handler is registered for the command and the announced
    length is not the mark 2^32 - 1 of an extended message, a message is
    returned only for a frame that is correct in every respect: the network is the expected one, the command names the type,
    the announced length is within the overall and the type's limit, the
    payload returned is the bytes that follow the header and has exactly that
    length and the announced double SHA-256 checksum, and decoding it gives
    the message.  The byte count is what was consumed. *)
Theorem ReadMessageN_accepts hs pver bsvnet r x r' m :
  let hdr := nextHeader r in
  ReadMessageN hs pver bsvnet r = (x, r') -> rd_msg x = Some m ->
  hs !! h_command hdr = None -> h_length hdr <> 0xffffffff ->
  rd_err x = None /\ rd_n x = MessageHeaderSize + len (rd_payload x) /\
  s_data (view r) = take 24 (s_data (view r)) ++ rd_payload x ++ s_data (view r') /\
  h_magic hdr = bsvnet /\ makeEmptyMessage (h_command hdr) = inl (m_kind m) /\
  len (rd_payload x) = h_length hdr /\ h_length hdr <= maxMessagePayload /\
  h_length hdr <= MaxPayloadLength (kind_type (m_kind m)) pver /\
  h_checksum hdr = take 4 (Sum256 (Sum256 (rd_payload x))) /\
  fst (run (Bsvdecode (kind_type (m_kind m)) pver) (mkBuffer (rd_payload x))) = Ok (m_val m).
Proof. apply accepted_frame. Qed.

(** [WriteMessageN], once the payload has been encoded: the two limits, then one
    [Write]. *)
Lemma WriteMessageN_encoded pver bsvnet msg w :
  let p := BsvEncode pver (m_val msg) in
  let lenp := len (written p) in
  outcome p = None ->
  (to_i64 maxMessagePayload < lenp \/ MaxPayloadLength (kind_type (m_kind msg)) pver < lenp ->
   exists m, WriteMessageN w msg pver bsvnet = (0, Some (ErrMessage m), w)) /\
  (lenp <= to_i64 maxMessagePayload -> lenp <= MaxPayloadLength (kind_type (m_kind msg)) pver ->
   WriteMessageN w msg pver bsvnet =
   if lenp >? MaxUint32 then (0, None, w)
   else Write (headerBytes bsvnet (command (m_kind msg)) lenp (checksum (written p)) ++ written p) w).
Proof.
  intros p lenp Ho. unfold WriteMessageN, WriteMessageWithEncodingN. fold (command (m_kind msg)).
  rewrite (gtb_false (len (command _)) CommandSize) by apply command_len.
  rewrite runE_buffer. fold p. rewrite Ho. cbn [b_data]. rewrite app_nil_l. fold lenp. rewrite !Z.gtb_ltb.
  destruct (Z.ltb_spec (to_i64 maxMessagePayload) lenp); [split; [by eexists|lia]|].
  destruct (Z.ltb_spec (MaxPayloadLength (kind_type (m_kind msg)) pver) lenp); [split; [by eexists|lia]|].
  split; [lia|]. intros _ _. destruct (Z.ltb_spec MaxUint32 lenp); [done|].
  pose proof (len_nonneg (written p)) as Hp. fold lenp in Hp.
  unfold MaxUint32 in *. rewrite to_u32_id by zlia. rewrite Z.geb_leb.
  replace (if 4294967295 <=? lenp then 4294967295 else lenp) with lenp.
  2: { destruct (Z.leb_spec 4294967295 lenp); lia. }
  fold (checksum (written p)). rewrite runE_buffer.
  destruct (encodes_writeElements (headerElems bsvnet (commandBytes (command (m_kind msg))) lenp
    (checksum (written p)))) as [-> ->].
  cbn [b_data]. rewrite app_nil_l. unfold headerBytes. by destruct (Write _ w) as [[n e] w'].
Qed.

(** A message that does not encode is not written. *)
Lemma WriteMessageN_refused pver bsvnet msg w err :
  outcome (BsvEncode pver (m_val msg)) = Some err ->
  WriteMessageN w msg pver bsvnet = (0, Some err, w) /\ exists m, err = ErrMessage m.
Proof.
  intros Ho. split; [|by eapply kind_messageErrors].
  unfold WriteMessageN, WriteMessageWithEncodingN. fold (command (m_kind msg)).
  rewrite (gtb_false (len (command _)) CommandSize) by apply command_len. by rewrite runE_buffer, Ho.
Qed.

(** C28: [WriteMessageN] makes exactly one [Write] call, with the whole
    frame (header with the length and checksum of the encoded payload, then
    the payload, within both limits), and returns what that call returns; or
    it returns 0 and does not touch the writer: with a [MessageError], except
    that a payload of more than 2^32 - 1 bytes is dropped without an error.
    A nil writer is refused. *)
Theorem WriteMessageN_atomic pver bsvnet msg w :
  let p := BsvEncode pver (m_val msg) in
  let lenp := len (written p) in
  (outcome p = None /\ lenp <= to_i64 maxMessagePayload /\
   lenp <= MaxPayloadLength (kind_type (m_kind msg)) pver /\ lenp <= MaxUint32 /\
   WriteMessageN w msg pver bsvnet =
   Write (headerBytes bsvnet (command (m_kind msg)) lenp (checksum (written p)) ++ written p) w \/
   exists err, WriteMessageN w msg pver bsvnet = (0, err, w) /\
     match err with None => MaxUint32 < lenp | Some e => exists m, e = ErrMessage m end) /\
  WriteMessageWithEncodingN_nilable (@None W) msg pver bsvnet = (0, Some errNilWriter, None).
Proof.
  intros p lenp. split; [|done]. destruct (outcome p) as [err|] eqn:Ho.
  { right. exists (Some err). by apply WriteMessageN_refused. }
  destruct (WriteMessageN_encoded pver bsvnet msg w Ho) as [Hbig Hok]. fold p lenp in Hbig, Hok.
  destruct (Z.lt_ge_cases (to_i64 maxMessagePayload) lenp) as [Hl|Hl].
  { destruct (Hbig (or_introl Hl)) as [m ->]. right. eexists (Some _). eauto. }
  destruct (Z.lt_ge_cases (MaxPayloadLength (kind_type (m_kind msg)) pver) lenp) as [Hl'|Hl'].
  { destruct (Hbig (or_intror Hl')) as [m ->]. right. eexists (Some _). eauto. }
  rewrite (Hok Hl Hl'), Z.gtb_ltb. destruct (Z.ltb_spec MaxUint32 lenp); [right; by exists None|by left].
Qed.

(** *** A connection: many messages one after the other *)

(** A client that reads [n] messages and stops at the first error. *)
Fixpoint receive (hs : Handlers (R:=R)) (pver bsvnet : Z) (n : nat) (r : R) :
    list Message * option error * R :=
  match n with
  | O => ([], None, r)
  | S n =>
      let '(x, r) := ReadMessageN hs pver bsvnet r in
      match rd_msg x, rd_err x with
      | Some m, None => let '(l, e, r) := receive hs pver bsvnet n r in (m :: l, e, r)
      | _, e => ([], e, r)
      end
  end.

(** Framing is unambiguous: any sequence of well-formed messages, sent
    one after the other, is received as that sequence, and the reader is
    left behind the last one. *)
Theorem Conversation_roundtrip pver bsvnet msgs r rest e :
  Forall (fun m => sendable pver m /\ readable (m_kind m)) msgs -> is_u32 bsvnet ->
  view r = mkStream (concat (map (packet pver bsvnet) msgs) ++ rest) e ->
  exists r', receive ∅ pver bsvnet (length msgs) r = (msgs, None, r') /\ view r' = mkStream rest e.
Proof.
  intros Hm Hnet. revert r. induction Hm as [|m l [Hs Hk] _ IH]; intros r Hr; [by exists r|].
  cbn [map concat] in Hr. rewrite <- app_assoc in Hr.
  destruct (packet_read ∅ pver bsvnet m r _ e Hs Hk ltac:(done) Hnet Hr) as [(r1 & E1 & Hr1) _].
  destruct (IH r1 Hr1) as (r2 & E2 & Hr2). exists r2. split; [|done].
  cbn [length receive]. rewrite E1. cbn [rd_msg rd_err]. by rewrite E2.
Qed.

(** C37: an extended message is never read.  [readMessageHeader] looks for the
    12 bytes of the real command and the 8 bytes of the real length in the
    24 bytes of the header, which are used up: the command becomes empty,
    the length 0, and both reading functions fail whatever follows and
    whichever handlers are registered. *)
Theorem Extended_message_refused hs pver bsvnet r rest e :
  is_u32 bsvnet ->
  view r = mkStream (headerBytes bsvnet CmdExtMsg 0xffffffff (zeros 4) ++ rest) e ->
  nextHeader r = mkHeader bsvnet [] 0xffffffff (zeros 4) 0 /\
  rd_msg (fst (ReadMessageN hs pver bsvnet r)) = None /\
  rd_msg (fst (ReadMessageStreamingN hs pver bsvnet r)) = None.
Proof.
  intros Hnet Hr. assert (is_u32 0xffffffff) as Hu by done.
  pose proof (len_headerBytes bsvnet CmdExtMsg 0xffffffff (zeros 4) eq_refl) as Hh.
  assert (nextHeader r = mkHeader bsvnet [] 0xffffffff (zeros 4) 0) as Hnh.
  { unfold nextHeader. rewrite Hr. cbn [s_data].
    rewrite take_app_eq by (unfold MessageHeaderSize in Hh; zlia). unfold parseHeader.
    pose proof (decodes_header bsvnet CmdExtMsg 0xffffffff (zeros 4) Hnet Hu eq_refl [] EOF) as Hd.
    rewrite app_nil_r in Hd. rewrite Hd. reflexivity. }
  split; [done|]. destruct (readMessageHeader_Ok r) as (r1 & Er & _).
  { rewrite Hr. cbn [s_data]. rewrite len_app, Hh. len_lia. }
  assert (forall b, exists err r2, checkHeader b (nextHeader r) pver bsvnet r1 = (inl err, r2)) as Hc.
  { intros b. rewrite Hnh. unfold checkHeader. cbn [h_length h_extLength h_magic h_command].
    destruct (_ || _); [by eexists _, _|]. rewrite Z.eqb_refl. by destruct b; eexists _, _. }
  unfold ReadMessageN, ReadMessageWithEncodingN, ReadMessageStreamingN. rewrite Er.
  destruct (Hc false) as (e1 & r2 & ->), (Hc true) as (e2 & r3 & ->). done.
Qed.

(** A [getcfheaders] message is written and cannot be read: the switch
    in [makeEmptyMessage] has no case for its command. *)
Theorem GetCFHeaders_unreadable hs pver bsvnet msg r rest e :
  m_kind msg = KGetCFHeaders -> sendable pver msg -> is_u32 bsvnet ->
  view r = mkStream (packet pver bsvnet msg ++ rest) e ->
  rd_msg (fst (ReadMessageN hs pver bsvnet r)) = None /\
  rd_msg (fst (ReadMessageStreamingN hs pver bsvnet r)) = None.
Proof.
  intros Hk Hs Hnet Hr. rewrite packet_front, <- app_assoc in Hr.
  destruct (packet_parsed pver bsvnet msg r _ e Hs Hnet Hr) as (r1 & Er & _).
  assert (forall b, exists err r2,
    checkHeader b (packetHeader pver bsvnet msg) pver bsvnet r1 = (inl err, r2)) as Hc.
  { intros b. unfold checkHeader, packetHeader. cbn [h_length h_extLength h_magic h_command].
    destruct (_ || _); [by eexists _, _|]. rewrite Z.eqb_refl, Hk. by destruct b; eexists _, _. }
  unfold ReadMessageN, ReadMessageWithEncodingN, ReadMessageStreamingN. rewrite Er.
  destruct (Hc false) as (e1 & r2 & ->), (Hc true) as (e2 & r3 & ->). done.
Qed.
End Theorems.

(** ** Witnesses: a ping and a version message on the main network *)

Section Examples.
#[local] Existing Instance defaultLimits.
#[local] Existing Instance refExternals.
#[local] Existing Instance refExternals_spec.

Definition examplePing : Message := mkMessage KPing (mkMsgPing 0x0123456789abcdef).
Definition exampleHello : Message := mkMessage KVersion exampleVersion.
Definition exampleGetCFHeaders : Message :=
  mkMessage KGetCFHeaders (mkMsgGetCFHeaders 0 0 (zeros 32)).

Lemma examplePing_sendable : sendable 70016 examplePing.
Proof. split; vm_compute; try done. Qed.

Lemma exampleHello_sendable : sendable 70016 exampleHello.
Proof. split; [exact exampleVersion_ok|by vm_compute..]. Qed.

Lemma exampleGetCFHeaders_sendable : sendable 70016 exampleGetCFHeaders.
Proof. split; by vm_compute. Qed.

(** The frame, computed. *)
Definition pingFrame : bytes :=
  Eval vm_compute in b_data (snd (WriteMessageN (mkBuffer []) examplePing 70016 MainNet)).
Definition pingStream : stream := mkStream (pingFrame ++ [Byte.x2a]) EOF.

Lemma Message_roundtrip_witness :
  32 = len pingFrame /\
  (exists r', ReadMessageN ∅ 70016 MainNet pingStream =
     (mkRead 32 (Some examplePing) (payload 70016 examplePing) None, r') /\
     view r' = mkStream [Byte.x2a] EOF) /\
  (KPing <> KVersion ->
   exists r', ReadMessageStreamingN ∅ 70016 MainNet pingStream =
     (mkRead 32 (Some examplePing) [] None, r') /\ view r' = mkStream [Byte.x2a] EOF).
Proof.
  apply (Message_roundtrip (R:=stream) (W:=buffer) ∅ 70016 MainNet examplePing (mkBuffer [])
    (mkBuffer pingFrame) 32 pingFrame pingStream [Byte.x2a] EOF).
  - exact examplePing_sendable.
  - repeat split; discriminate.
  - reflexivity.
  - split; vm_compute; [discriminate|reflexivity].
  - vm_compute. reflexivity.
  - reflexivity.
  - reflexivity.
Defined.

(** A ping from another network is skipped; with a block size of 2100 million
    bytes, a reject message that announces 2^32 - 1 bytes is taken for one
    without a payload, and what follows is left for the next call. *)
Definition markedStream : stream :=
  mkStream (headerBytes MainNet CmdReject 0xffffffff (checksum []) ++ pingFrame) EOF.

Lemma ReadMessage_aligned_witness :
  view (snd (ReadMessageN ∅ 70016 TestNet pingStream)) = mkStream [Byte.x2a] EOF /\
  view (snd (ReadMessageStreamingN ∅ 70016 TestNet pingStream)) = mkStream [Byte.x2a] EOF /\
  view (snd (@ReadMessageN (SetLimits 2100000000) _ _ _ ∅ 70016 MainNet markedStream)) =
    mkStream pingFrame EOF /\
  view (snd (@ReadMessageStreamingN (SetLimits 2100000000) _ _ _ ∅ 70016 MainNet markedStream)) =
    mkStream pingFrame EOF.
Proof.
  destruct (ReadMessage_aligned (R:=stream) ∅ 70016 TestNet pingStream) as (H1 & H2 & _);
    [by vm_compute..|].
  destruct (ReadMessage_aligned (H:=SetLimits 2100000000) (R:=stream) ∅ 70016 MainNet markedStream)
    as (H3 & H4 & _); [by vm_compute..|].
  rewrite H1, H2, H3, H4. split_and!; vm_compute; reflexivity.
Defined.

(** On the wire the checksum is damaged: both functions refuse it. *)
Definition damagedStream : stream := mkStream (take 23 pingFrame ++ [Byte.x00] ++ drop 24 pingFrame) EOF.

Lemma Streaming_agrees_witness :
  let '(x1, r1) := ReadMessageN ∅ 70016 MainNet damagedStream in
  let '(x2, r2) := ReadMessageStreamingN ∅ 70016 MainNet damagedStream in
  view r2 = view r1 /\ rd_msg x2 = rd_msg x1 /\
  (rd_err x2 = None <-> rd_err x1 = None) /\ (rd_err x1 = None -> rd_n x2 = rd_n x1) /\
  (rd_err x2 = rd_err x1 \/
   exists c, rd_err x1 = Some (checksumFailed (nextHeader damagedStream) c)).
Proof.
  apply (Streaming_agrees (R:=stream) ∅ 70016 MainNet damagedStream); vm_compute; try done.
Defined.

Lemma ReadMessageN_accepts_witness :
  h_magic (nextHeader pingStream) = MainNet /\
  h_checksum (nextHeader pingStream) = take 4 (Sum256 (Sum256 (payload 70016 examplePing))).
Proof.
  assert (ReadMessageN ∅ 70016 MainNet pingStream =
          (mkRead 32 (Some examplePing) (payload 70016 examplePing) None, mkStream [Byte.x2a] EOF))
    as Hr by (vm_compute; reflexivity).
  pose proof (ReadMessageN_accepts (R:=stream) ∅ 70016 MainNet pingStream _ _ examplePing
    Hr eq_refl ltac:(reflexivity) ltac:(vm_compute; discriminate))
    as (_ & _ & _ & Hm & _ & _ & _ & _ & Hc & _).
  split; [exact Hm|exact Hc].
Defined.

Lemma Conversation_roundtrip_witness :
  exists r', receive ∅ 70016 MainNet 2
    (mkStream (concat (map (packet 70016 MainNet) [exampleHello; examplePing]) ++ []) EOF) =
    ([exampleHello; examplePing], None, r') /\ view r' = mkStream [] EOF.
Proof.
  apply (Conversation_roundtrip (R:=stream) 70016 MainNet [exampleHello; examplePing] _ [] EOF).
  - repeat constructor;
      first [exact exampleHello_sendable|exact examplePing_sendable|discriminate].
  - split; vm_compute; [discriminate|reflexivity].
  - reflexivity.
Defined.

Lemma Extended_message_refused_witness :
  let r := mkStream (headerBytes MainNet CmdExtMsg 0xffffffff (zeros 4) ++ CmdBlock) EOF in
  nextHeader r = mkHeader MainNet [] 0xffffffff (zeros 4) 0 /\
  rd_msg (fst (ReadMessageN ∅ 70016 MainNet r)) = None /\
  rd_msg (fst (ReadMessageStreamingN ∅ 70016 MainNet r)) = None.
Proof.
  intros r. apply (Extended_message_refused (R:=stream) ∅ 70016 MainNet r CmdBlock EOF).
  - split; vm_compute; [discriminate|reflexivity].
  - reflexivity.
Defined.

Lemma GetCFHeaders_unreadable_witness :
  let r := mkStream (packet 70016 MainNet exampleGetCFHeaders ++ []) EOF in
  rd_msg (fst (ReadMessageN ∅ 70016 MainNet r)) = None /\
  rd_msg (fst (ReadMessageStreamingN ∅ 70016 MainNet r)) = None.
Proof.
  intros r.
  apply (GetCFHeaders_unreadable (R:=stream) ∅ 70016 MainNet exampleGetCFHeaders r [] EOF).
  - reflexivity.
  - exact exampleGetCFHeaders_sendable.
  - split; vm_compute; [discriminate|reflexivity].
  - reflexivity.
Defined.
End Examples.
