(* ===== verification/Relay.v ===== *)
(** * What was read can be sent again; reading a connection ends

    Theorems about message.go that join its two directions: a message that
    [ReadMessageN] accepted is well formed, so [WriteMessageN] sends it and a
    peer reads the same message ([Relay]); and a client that keeps reading
    comes to the end of the connection, whatever bytes arrive on it
    ([ReadLoop_ends]). *)

From S2P Require Import Prelude Io Common Sha256 Externals InvVect BlockHeader Protocol NetAddress.
From S2P Require Import Tx Block MsgIface MsgInventory MsgControl MsgFilter ExtendedTx Version.
From S2P Require Import Message Framing.

(** ** Decoded messages are well formed *)

(** A decoded message is not longer than what it was decoded from, and well
    formed if it fits into a payload. *)
Definition faithful (T : Type) {HM : Msg T} {HS : MsgSpec T} : Prop :=
  forall pver (s : stream) m s', run (Bsvdecode T pver) s = (Ok m, s') ->
    len (msg_bytes pver m) + len (s_data s') <= len (s_data s) /\
    (len (msg_bytes pver m) <= MaxPayloadLength T pver -> msg_ok pver m).

(** The usual way: the decoder read exactly the encoding. *)
Lemma faithful_exact T {HM : Msg T} {HS : MsgSpec T} (fields : Z -> T -> Prop) :
  (forall pver (s : stream) m s', run (Bsvdecode T pver) s = (Ok m, s') ->
     s = mkStream (msg_bytes pver m ++ s_data s') (s_err s') /\ fields pver m) ->
  (forall pver m, fields pver m -> len (msg_bytes pver m) <= MaxPayloadLength T pver ->
     msg_ok pver m) ->
  faithful T.
Proof.
  intros Hex Hok pver s m s' Hr. destruct (Hex pver s m s' Hr) as [-> Hf].
  split; [|by auto]. cbn [s_data]. rewrite len_app. lia.
Qed.

Lemma faithful_codec T {HM : Msg T} {HS : MsgSpec T} (fields : Z -> T -> Prop) :
  (forall pver, Codec (Bsvdecode T pver) (msg_bytes pver) (fields pver)) ->
  (forall pver m, fields pver m -> len (msg_bytes pver m) <= MaxPayloadLength T pver ->
     msg_ok pver m) ->
  faithful T.
Proof. intros Hc. apply faithful_exact. intros pver s m s'. apply codec_exact. Qed.

Ltac exact_fields HS :=
  apply (faithful_exact _ (HS := HS) (fun pver m => @msg_ok _ _ HS pver m)); [|done];
  intros pver s m s' Hr.

Lemma faithful_MsgPing : faithful MsgPing.
Proof.
  exact_fields MsgPing_spec. cbn [Bsvdecode MsgPing_Msg msg_bytes msg_ok MsgPing_spec mkMsgSpec] in *.
  unfold MsgPing_Bsvdecode in Hr. destruct (pver >? BIP0031Version); run_exact; [done|].
  by destruct s.
Qed.

Lemma faithful_MsgPong : faithful MsgPong.
Proof.
  exact_fields MsgPong_spec. cbn [Bsvdecode MsgPong_Msg msg_bytes msg_ok MsgPong_spec mkMsgSpec] in *.
  unfold MsgPong_Bsvdecode in Hr. destruct (Z.leb_spec pver BIP0031Version); [done|]. by run_exact.
Qed.

Lemma faithful_empty T {HM : Msg T} {HS : MsgSpec T} (v : T) (c : Z -> bool) (e : Z -> error) :
  (forall pver, Bsvdecode T pver = if c pver then DFail (e pver) else mret v) ->
  (forall pver m, msg_bytes pver m = []) -> (forall pver m, c pver = false -> msg_ok pver m) ->
  faithful T.
Proof.
  intros Hd Hb Hok pver s m s' Hr. rewrite Hd in Hr. destruct (c pver) eqn:Hc; [done|].
  injection Hr as <- <-. rewrite Hb. split; [change (len (@nil Byte.byte)) with 0; lia|auto].
Qed.

Lemma faithful_MsgVerAck : faithful MsgVerAck.
Proof. by apply (faithful_empty _ mkMsgVerAck (fun _ => false) (fun _ => EOF)). Qed.

Lemma faithful_MsgGetAddr : faithful MsgGetAddr.
Proof. by apply (faithful_empty _ mkMsgGetAddr (fun _ => false) (fun _ => EOF)). Qed.

Lemma faithful_MsgMemPool : faithful MsgMemPool.
Proof.
  apply (faithful_empty _ mkMsgMemPool (fun pver => pver <? BIP0035Version)
           (invalidPver "MsgMemPool.Bsvdecode" "mempool")); try done.
  intros pver m. apply Z.ltb_ge.
Qed.

Lemma faithful_MsgSendHeaders : faithful MsgSendHeaders.
Proof.
  apply (faithful_empty _ mkMsgSendHeaders (fun pver => pver <? SendHeadersVersion)
           (invalidPver "MsgSendHeaders.Bsvdecode" "sendheaders")); try done.
  intros pver m. apply Z.ltb_ge.
Qed.

Lemma faithful_MsgFilterClear : faithful MsgFilterClear.
Proof.
  apply (faithful_empty _ mkMsgFilterClear (fun pver => pver <? BIP0037Version)
           (invalidPver "MsgFilterClear.Bsvdecode" "filterclear")); try done.
  intros pver m. apply Z.ltb_ge.
Qed.

Lemma faithful_MsgFeeFilter : faithful MsgFeeFilter.
Proof.
  exact_fields MsgFeeFilter_spec. cbn [Bsvdecode MsgFeeFilter_Msg] in Hr.
  unfold MsgFeeFilter_Bsvdecode in Hr. destruct (Z.ltb_spec pver FeeFilterVersion); [done|].
  by run_exact.
Qed.

Lemma faithful_MsgStreamAck : faithful MsgStreamAck.
Proof.
  exact_fields MsgStreamAck_spec. cbn [Bsvdecode MsgStreamAck_Msg] in Hr.
  unfold MsgStreamAck_Bsvdecode in Hr. run_exact. split; [|done].
  cbn [msg_bytes MsgStreamAck_spec mkMsgSpec]. by rewrite <- app_assoc.
Qed.

Lemma faithful_MsgGetCFilters : faithful MsgGetCFilters.
Proof.
  exact_fields MsgGetCFilters_spec. cbn [Bsvdecode MsgGetCFilters_Msg] in Hr.
  unfold MsgGetCFilters_Bsvdecode in Hr. run_exact. split; [|done].
  cbn [msg_bytes MsgGetCFilters_spec mkMsgSpec]. by rewrite <- !app_assoc.
Qed.

Lemma faithful_MsgGetCFCheckpt : faithful MsgGetCFCheckpt.
Proof.
  exact_fields MsgGetCFCheckpt_spec. cbn [Bsvdecode MsgGetCFCheckpt_Msg] in Hr.
  unfold MsgGetCFCheckpt_Bsvdecode in Hr. run_exact. split; [|done].
  cbn [msg_bytes MsgGetCFCheckpt_spec mkMsgSpec]. by rewrite <- !app_assoc.
Qed.

Lemma faithful_MsgFilterAdd : faithful MsgFilterAdd.
Proof.
  exact_fields MsgFilterAdd_spec. cbn [Bsvdecode MsgFilterAdd_Msg] in Hr.
  unfold MsgFilterAdd_Bsvdecode in Hr. destruct (Z.ltb_spec pver BIP0037Version); [done|].
  by run_exact.
Qed.

Lemma faithful_MsgCFilter : faithful MsgCFilter.
Proof.
  exact_fields MsgCFilter_spec. cbn [Bsvdecode MsgCFilter_Msg] in Hr.
  unfold MsgCFilter_Bsvdecode in Hr. run_exact. split; [|done].
  cbn [msg_bytes MsgCFilter_spec mkMsgSpec]. by rewrite <- !app_assoc.
Qed.

(** Any byte but zero is read as [true]. *)
Lemma faithful_MsgSendcmpct : faithful MsgSendcmpct.
Proof.
  intros pver s m s' Hr. cbn [Bsvdecode MsgSendcmpct_Msg] in Hr. unfold MsgSendcmpct_Bsvdecode in Hr.
  apply run_bind_Ok in Hr as (c & s1 & Hc & Hr). run_exact.
  cbn [readElement elem_val] in Hc. run_exact. split; [|done].
  cbn [msg_bytes MsgSendcmpct_spec mkMsgSpec]. rewrite len_elems_bytes by done.
  assert (len (elem_bytes Tuint64 v) = 8) as H8 by (cbn [elem_bytes]; by rewrite len_put_uint).
  revert H8 Hc. generalize (elem_bytes Tuint64 v). intros bs H8 [= _ ->].
  rewrite len_app, len_put_uint. cbn [s_data]. rewrite len_app.
  cbn [map zsum foldr elem_size]. lia.
Qed.

Lemma faithful_MsgReject `{Limits} : faithful MsgReject.
Proof.
  apply (faithful_exact _ (fun pver m => RejectVersion <= pver /\ MsgReject_ok m)).
  2: { intros pver m [Hp Hm]. cbn [MaxPayloadLength MsgReject_Msg]. unfold MsgReject_MaxPayloadLength.
       rewrite Z.geb_leb, (proj2 (Z.leb_le _ _)) by done. by intros Hl. }
  intros pver s m s' Hr. cbn [Bsvdecode MsgReject_Msg] in Hr. unfold MsgReject_Bsvdecode in Hr.
  destruct (Z.ltb_spec pver RejectVersion); [done|]. run_exact.
  all: cbn [msg_bytes MsgReject_spec mkMsgSpec]; unfold MsgReject_bytes, MsgReject_ok;
    cbn [rj_Cmd rj_Code rj_Reason rj_Hash].
  all: by rewrite Ec, ?app_nil_r, <- !app_assoc.
Qed.

Lemma faithful_MsgCreateStream `{Limits} : faithful MsgCreateStream.
Proof.
  apply (faithful_exact _ (fun _ m => var_ok MaxAssociationIDLen (cs_AssociationID m) /\
    0 < len (cs_AssociationID m) /\ is_u8 (cs_StreamType m) /\
    var_ok maxMessagePayload (cs_StreamPolicyName m))).
  2: { intros pver m Hm Hl. destruct_and!. by unfold msg_ok; cbn; unfold MsgCreateStream_ok. }
  intros pver s m s' Hr. cbn [Bsvdecode MsgCreateStream_Msg] in Hr.
  unfold MsgCreateStream_Bsvdecode in Hr. run_exact.
  cbn [msg_bytes MsgCreateStream_spec mkMsgSpec]. unfold MsgCreateStream_bytes.
  cbn [cs_AssociationID cs_StreamType cs_StreamPolicyName]. rewrite <- !app_assoc.
  apply Z.eqb_neq in Ec. split_and!; try done. pose proof (len_nonneg v). lia.
Qed.

Lemma faithful_MsgCFCheckpt `{Limits} : faithful MsgCFCheckpt.
Proof.
  apply (faithful_exact _ (fun _ m => is_u8 (cc_FilterType m) /\ sized HashSize (cc_StopHash m) /\
    list_ok (sized HashSize) maxCFHeadersLen (cc_FilterHeaders m))).
  2: { intros pver m Hm Hl. by destruct_and!. }
  intros pver s m s' Hr. cbn [Bsvdecode MsgCFCheckpt_Msg] in Hr.
  unfold MsgCFCheckpt_Bsvdecode in Hr. run_exact. split; [|done].
  cbn [msg_bytes MsgCFCheckpt_spec mkMsgSpec]. unfold MsgCFCheckpt_bytes.
  by rewrite <- !app_assoc.
Qed.

Lemma faithful_MsgMerkleBlock `{Limits} : maxTxPerBlock < 2 ^ 63 -> faithful MsgMerkleBlock.
Proof.
  intros Hmax. by apply (faithful_codec _ MsgMerkleBlock_fields (HM := MsgMerkleBlock_Msg));
    [apply Codec_MsgMerkleBlock|].
Qed.

Lemma faithful_MsgCFHeaders : faithful MsgCFHeaders.
Proof. by apply (faithful_codec _ (fun _ => MsgCFHeaders_ok)); [apply Codec_MsgCFHeaders|]. Qed.

Lemma faithful_MsgFilterLoad : faithful MsgFilterLoad.
Proof. by apply (faithful_codec _ MsgFilterLoad_ok); [apply Codec_MsgFilterLoad|]. Qed.

Lemma faithful_MsgTx `{Limits} : faithful MsgTx.
Proof. by apply (faithful_codec _ (fun _ => MsgTx_ok)); [intros; apply Codec_MsgTx|]. Qed.

Lemma faithful_MsgBlock `{Limits} : faithful MsgBlock.
Proof. by apply (faithful_codec _ (fun _ => MsgBlock_ok)); [intros; apply Codec_MsgBlock|]. Qed.

Lemma faithful_MsgExtendedTx `{Limits} : faithful MsgExtendedTx.
Proof. by apply (faithful_codec _ (fun _ => MsgExtendedTx_ok)); [apply Codec_MsgExtendedTx|]. Qed.

(** *** The lists *)

Lemma faithful_MsgInv : faithful MsgInv.
Proof. by eapply (faithful_codec MsgInv (fun _ => _)); [apply Codec_MsgInv|]. Qed.

Lemma faithful_MsgGetData : faithful MsgGetData.
Proof. by eapply (faithful_codec MsgGetData (fun _ => _)); [apply Codec_MsgGetData|]. Qed.

Lemma faithful_MsgNotFound : faithful MsgNotFound.
Proof. by eapply (faithful_codec MsgNotFound (fun _ => _)); [apply Codec_MsgNotFound|]. Qed.

Lemma faithful_MsgHeaders : faithful MsgHeaders.
Proof. by eapply (faithful_codec MsgHeaders (fun _ => _)); [apply Codec_MsgHeaders|]. Qed.

Lemma faithful_MsgGetHeaders : faithful MsgGetHeaders.
Proof. by eapply (faithful_codec MsgGetHeaders (fun _ => _)); [apply Codec_MsgGetHeaders|]. Qed.

Lemma faithful_MsgGetBlocks : faithful MsgGetBlocks.
Proof. by eapply (faithful_codec MsgGetBlocks (fun _ => _)); [apply Codec_MsgGetBlocks|]. Qed.

(** The decoder of [addr] does not know the limit of one address of old
    versions; the limit of the payload implies it. *)
Lemma faithful_MsgAddr : faithful MsgAddr.
Proof.
  eapply (faithful_codec MsgAddr (fun pver m => _)); [apply Codec_MsgAddr|].
  intros pver m (Hm & Hu & Hl) Hlen.
  cbn [msg_ok msg_bytes MsgAddr_spec mkMsgSpec MaxPayloadLength MsgAddr_Msg] in *.
  unfold MsgAddr_ok, MsgAddr_MaxPayloadLength in *.
  destruct (Z.ltb_spec pver MultipleAddressVersion) as [Hp|Hp]; [|done].
  split; [|done]. unfold MultipleAddressVersion in Hp. rewrite len_list_bytes in Hlen.
  assert (Z.geb pver NetAddressTimeVersion = false) as Hts
    by (rewrite Z.geb_leb; apply Z.leb_gt; unfold NetAddressTimeVersion; lia).
  unfold maxNetAddressPayload in Hlen. rewrite Hts in Hlen.
  destruct (addr_AddrList m) as [|a [|b l]]; [by vm_compute..|]. exfalso.
  cbn [map zsum foldr] in Hlen. rewrite !len_NetAddress_bytes in Hlen.
  unfold hasTimestamp in Hlen. rewrite Hts in Hlen. cbn [andb] in Hlen.
  pose proof (VarIntSerializeSize_bound (len (a :: b :: l))).
  pose proof (zsum_nonneg (fun x => len (NetAddress_bytes pver true x)) l
    ltac:(intros; apply len_nonneg)) as Hz. unfold zsum in Hz.
  unfold MaxVarIntPayload in Hlen. lia.
Qed.

(** ** All types *)

(** The types whose decoder returns only what its encoder accepts.  The
    decoders of [version] and [protoconf] leave fields out that the encoders
    write; the other three do not invert their encoders. *)
Definition relayable (k : Kind) : Prop :=
  readable k /\ k <> KVersion /\ k <> KProtoconf /\ k <> KAuthch /\ k <> KAuthresp.

Create HintDb faithful.
#[export] Hint Resolve faithful_MsgPing faithful_MsgPong faithful_MsgVerAck faithful_MsgGetAddr
  faithful_MsgMemPool faithful_MsgSendHeaders faithful_MsgFilterClear faithful_MsgFeeFilter
  faithful_MsgStreamAck faithful_MsgGetCFilters faithful_MsgGetCFCheckpt faithful_MsgFilterAdd
  faithful_MsgCFilter faithful_MsgSendcmpct faithful_MsgReject faithful_MsgCreateStream
  faithful_MsgCFCheckpt faithful_MsgMerkleBlock faithful_MsgCFHeaders faithful_MsgFilterLoad
  faithful_MsgTx faithful_MsgBlock faithful_MsgExtendedTx faithful_MsgInv faithful_MsgGetData
  faithful_MsgNotFound faithful_MsgHeaders faithful_MsgGetHeaders faithful_MsgGetBlocks
  faithful_MsgAddr : faithful.

Lemma kind_faithful `{Limits} `{ExternalsSpec} k :
  relayable k -> maxTxPerBlock < 2 ^ 63 -> faithful (kind_type k).
Proof.
  intros ((Hk1 & Hk2) & Hk3 & Hk4 & Hk5 & Hk6) Hmax.
  destruct k; try congruence; cbn [kind_type kind_Msg kind_spec]; auto with faithful.
Qed.

(** Block sizes for which the limits derived from them fit into an [int]. *)
Lemma limits_int `{Limits} :
  0 <= ebs < 2 ^ 61 -> maxTxPerBlock < 2 ^ 63 /\ to_i64 maxMessagePayload = maxMessagePayload.
Proof.
  intros Hb. assert (0 <= ebs / 1000000 < 2 ^ 42) as Hq.
  { split; [apply Z.div_pos; lia|]. apply Z.div_lt_upper_bound; lia. }
  split.
  - unfold maxTxPerBlock, MaxBlockPayload, minTxPayload.
    assert (0 <= ebs / 10 <= ebs).
    { split; [apply Z.div_pos; lia|]. apply Z.div_le_upper_bound; lia. }
    rewrite to_u64_id by zlia. lia.
  - unfold maxMessagePayload. assert (ebs / 1000000 <= 2 ^ 61 / 1000000) as Hq'
      by (apply Z.div_le_mono; lia). change (2 ^ 61 / 1000000) with 2305843009213 in Hq'.
    rewrite (to_u64_id (_ / _ * _)), (to_u64_id (_ / _ * _ * _)), to_u64_id by zlia.
    unfold to_i64. rewrite Z.mod_small; lia.
Qed.

Lemma parseHeader_magic bs : is_u32 (h_magic (parseHeader bs)).
Proof.
  unfold parseHeader.
  destruct (run (readElements [TBitcoinNet; Tcommand; Tuint32; Tchecksum]) (mkStream bs EOF))
    as [[(magic & cmd & length & checksum & [])|e] hr] eqn:Er; [|done].
  apply codec_exact in Er as [_ (Hm & _)].
  destruct (_ && _); [|done]. by destruct (run (readElement Tcommand) hr).
Qed.

Section Relay.
Context `{Limits} `{ExternalsSpec} {R : Type} {HR : Reader R} {HS : ReaderSpec R}.
Context {W : Type} {HW : Writer W}.
Implicit Types (r : R) (w : W).

(** A payload that was decoded is that of a message that can be sent. *)
Lemma decoded_sendable pver m p :
  0 <= ebs < 2 ^ 61 -> relayable (m_kind m) ->
  fst (run (Bsvdecode (kind_type (m_kind m)) pver) (mkBuffer p)) = Ok (m_val m) ->
  len p <= maxMessagePayload -> len p <= MaxPayloadLength (kind_type (m_kind m)) pver ->
  len p < 0xffffffff ->
  sendable pver m /\ len (payload pver m) <= len p.
Proof.
  intros Hb Hk Hd Hm Hp Hu. destruct (limits_int Hb) as [Htx Hi].
  destruct (run _ (mkBuffer p)) as [x b] eqn:Er. cbn [fst] in Hd. subst x.
  pose proof (run_view_streamable _ (mkBuffer p) (kind_streamable _ ltac:(apply Hk) pver)) as Hv.
  rewrite Er in Hv. destruct (kind_faithful _ Hk Htx _ _ _ _ Hv) as [Hl Hok].
  pose proof (len_nonneg (b_data b)).
  cbn [view buffer_spec buffer_stream s_data b_data] in Hl. fold (payload pver m) in *.
  split; [|lia]. split; [apply Hok; lia|rewrite Hi; lia|lia].
Qed.

(** C12: what was read can be relayed.  If [ReadMessageN] returned a message
    (of any type but version, protoconf and the three that are not
    symmetric), the message is well formed: [WriteMessageN] makes exactly one
    [Write] call with its frame, which is not longer than the one that was
    read, and a peer reads the same message from it. *)
Theorem Relay pver bsvnet r x r' m w :
  0 <= ebs < 2 ^ 61 ->
  ReadMessageN ∅ pver bsvnet r = (x, r') -> rd_msg x = Some m ->
  relayable (m_kind m) -> h_length (nextHeader r) <> 0xffffffff ->
  let f := packet pver bsvnet m in
  sendable pver m /\ len f <= rd_n x /\
  WriteMessageN w m pver bsvnet = Write f w /\
  (forall r1 rest e, view r1 = mkStream (f ++ rest) e ->
   exists r2, ReadMessageN ∅ pver bsvnet r1 = (mkRead (len f) (Some m) (payload pver m) None, r2) /\
     view r2 = mkStream rest e).
Proof.
  intros Hb Hx Hm Hk Hn f.
  destruct (accepted_frame ∅ pver bsvnet r x r' m Hx Hm ltac:(done) Hn)
    as (_ & Hrn & _ & Hnet & _ & Hl & Hmax & Hmpl & _ & Hd).
  pose proof (parseHeader_length (take 24 (s_data (view r)))) as Hu. fold (nextHeader r) in Hu.
  pose proof (parseHeader_magic (take 24 (s_data (view r)))) as Hg. fold (nextHeader r) in Hg.
  rewrite Hnet in Hg. rewrite <- Hl in *.
  destruct (decoded_sendable pver m (rd_payload x) Hb Hk Hd Hmax Hmpl) as [Hs Hlp]; [zlia|].
  unfold f. rewrite len_packet. split_and!; [done|lia|by apply WriteMessageN_writes|].
  intros r1 rest e Hv. by apply packet_read; [|apply Hk|..].
Qed.

(** ** Reading to the end of a connection *)

(** One call of a reading function, and a client that makes several. *)
Definition readNext (streaming : bool) (pver bsvnet : Z) (r : R) : Read * R :=
  if streaming then ReadMessageStreamingN ∅ pver bsvnet r else ReadMessageN ∅ pver bsvnet r.

Fixpoint readMany (calls : list (bool * Z * Z)) (r : R) : list Read * R :=
  match calls with
  | [] => ([], r)
  | (streaming, pver, bsvnet) :: calls =>
      let '(x, r) := readNext streaming pver bsvnet r in
      let '(xs, r) := readMany calls r in (x :: xs, r)
  end.

(** The length the checks return: of a frame, or none for the marker of
    extended messages. *)
Lemma checkHeader_length b hdr pver bsvnet r r' k L :
  is_u32 (h_length hdr) -> h_extLength hdr = 0 ->
  checkHeader b hdr pver bsvnet r = (inr (k, L), r') -> is_u32 L /\ L <> 0xffffffff /\ r' = r.
Proof.
  intros Hu He. unfold checkHeader. rewrite He. intros Hc.
  repeat (case_match; simplify_eq); rewrite ?Z.eqb_neq in *; done.
Qed.

(** A call makes progress: it takes the 24 bytes of a header, or all there
    is. *)
Lemma readNext_progress streaming pver bsvnet r :
  exists n, MessageHeaderSize <= n /\
    view (snd (readNext streaming pver bsvnet r)) = advance n (view r).
Proof.
  destruct (Z.le_gt_cases MessageHeaderSize (len (s_data (view r)))) as [Hl|Hl].
  2: { exists 24. split; [done|]. pose proof (view_readMessageHeader r) as Hv.
       unfold readNext, ReadMessageN, ReadMessageWithEncodingN, ReadMessageStreamingN.
       destruct (readMessageHeader r) as [[n [h|e]] r1]; destruct Hv as (_ & Hv & [? _]); [lia|].
       by destruct streaming. }
  destruct (readMessageHeader_Ok r Hl) as (r1 & Er & Hv & Hu & He).
  pose proof (view_checkHeader streaming (nextHeader r) pver bsvnet r1 (proj1 Hu) He) as Hc.
  destruct (checkHeader streaming (nextHeader r) pver bsvnet r1) as [[e|[k L]] r2] eqn:Ec.
  - exists (frameSize (nextHeader r)). rewrite <- advance_frame, <- Hv by apply Hu. split.
    + unfold frameSize. case_match; zlia.
    + rewrite <- Hc. unfold readNext, ReadMessageN, ReadMessageWithEncodingN, ReadMessageStreamingN.
      by destruct streaming; rewrite Er, Ec.
  - destruct (checkHeader_length _ _ _ _ _ _ _ _ Hu He Ec) as (HL & Hne & ->).
    exists (MessageHeaderSize + L). split; [zlia|].
    rewrite <- advance_advance, <- Hv by (unfold MessageHeaderSize; zlia).
    destruct streaming; [by eapply consumed_streaming|by eapply consumed_buffered].
Qed.

Lemma readNext_exhausted streaming pver bsvnet r :
  s_data (view r) = [] ->
  fst (readNext streaming pver bsvnet r) = readFail 0 (s_err (view r)) /\
  view (snd (readNext streaming pver bsvnet r)) = view r.
Proof.
  intros Hd. pose proof (view_readMessageHeader r) as Hv.
  unfold readNext, ReadMessageN, ReadMessageWithEncodingN, ReadMessageStreamingN.
  destruct (readMessageHeader r) as [[n [h|e]] r1]; destruct Hv as (Hn & Hr & Hx);
    rewrite Hd in Hn, Hx; destruct Hx as [Hx ->]; [by vm_compute in Hx|].
  assert (view r1 = view r) as Hr1.
  { rewrite Hr. unfold advance. rewrite Hd. destruct (view r). cbn in *. by subst. }
  rewrite Hn. destruct streaming; cbn [fst snd]; rewrite Hr1; by destruct (s_err (view r)).
Qed.

Lemma readMany_advance calls r :
  exists n, MessageHeaderSize * len calls <= n /\
    view (snd (readMany calls r)) = advance n (view r).
Proof.
  revert r. induction calls as [|[[streaming pver] bsvnet] calls IH]; intros r.
  { exists 0. split; [done|by rewrite advance_0]. }
  cbn [readMany]. destruct (readNext_progress streaming pver bsvnet r) as (n & Hn & Hv).
  destruct (readNext streaming pver bsvnet r) as [x r1]. destruct (IH r1) as (n' & Hn' & Hv').
  destruct (readMany calls r1) as [xs r2]. cbn [snd] in *. pose proof (len_nonneg calls).
  exists (n + n'). split; [unfold MessageHeaderSize in *; len_lia|].
  rewrite Hv', Hv. apply advance_advance; unfold MessageHeaderSize in *; lia.
Qed.

(** C13: a client that keeps reading, with either function, comes to the end
    of the connection, whatever bytes arrive: after one call per 24 bytes
    nothing is left, and from then on every call fails with the error of the
    connection itself. *)
Theorem ReadLoop_ends calls r :
  len (s_data (view r)) <= MessageHeaderSize * len calls ->
  let r' := snd (readMany calls r) in
  view r' = mkStream [] (s_err (view r)) /\
  forall more, fst (readMany more r') =
    map (fun _ => readFail 0 (s_err (view r))) more.
Proof.
  intros Hlen r'. destruct (readMany_advance calls r) as (n & Hn & Hv). fold r' in Hv.
  assert (view r' = mkStream [] (s_err (view r))) as Hr'.
  { rewrite Hv. unfold advance. rewrite drop_ge by zlia. done. }
  split; [done|]. intros more. clear Hv. revert Hr'. generalize r'. clear r'.
  induction more as [|[[streaming pver] bsvnet] more IH]; intros r' Hr'; [done|].
  cbn [readMany map]. destruct (readNext_exhausted streaming pver bsvnet r') as [Hx Hr].
  { by rewrite Hr'. }
  destruct (readNext streaming pver bsvnet r') as [x r2]. cbn [fst snd] in *.
  specialize (IH r2 ltac:(by rewrite Hr)). destruct (readMany more r2) as [xs r3].
  cbn [fst] in *. by rewrite Hx, Hr', IH.
Qed.
End Relay.

(** ** Witnesses *)

Section Examples.
#[local] Existing Instance defaultLimits.
#[local] Existing Instance refExternals.
#[local] Existing Instance refExternals_spec.

Lemma Relay_witness :
  sendable 70016 examplePing /\ len (packet 70016 MainNet examplePing) <= 32 /\
  WriteMessageN (mkBuffer []) examplePing 70016 MainNet =
    Write (packet 70016 MainNet examplePing) (mkBuffer []).
Proof.
  assert (ReadMessageN ∅ 70016 MainNet pingStream =
          (mkRead 32 (Some examplePing) (payload 70016 examplePing) None, mkStream [Byte.x2a] EOF))
    as Hr by (vm_compute; reflexivity).
  pose proof (Relay (R:=stream) (W:=buffer) 70016 MainNet pingStream _ _ examplePing (mkBuffer [])
    ltac:(split; vm_compute; [discriminate|reflexivity]) Hr eq_refl
    ltac:(repeat split; discriminate) ltac:(vm_compute; discriminate)) as (Hs & Hl & Hw & _).
  split; [exact Hs|split; [exact Hl|exact Hw]].
Defined.

(** A damaged message, a whole one, and the end of the connection. *)
Lemma ReadLoop_ends_witness :
  let r := mkStream (s_data damagedStream ++ pingFrame) EOF in
  let r' := snd (readMany (repeat (true, 70016, MainNet) 3) r) in
  view r' = mkStream [] EOF /\
  forall more, fst (readMany more r') = map (fun _ => readFail 0 EOF) more.
Proof.
  intros r r'. change EOF with (s_err (view r)).
  apply (ReadLoop_ends (R:=stream) (repeat (true, 70016, MainNet) 3) r).
  vm_compute. discriminate.
Defined.
End Examples.
