(* ===== verification/Constructors.v ===== *)
(** * The constructors, the remaining constants, and messages built with them

    The [New...] functions of the message files, [OutPoint.String] of
    msg_tx.go and [MessageError.Error] of error.go.  A message made with a
    constructor and filled with the [Add...] methods is always one that can
    be sent and received ([Built_delivered]). *)

From S2P Require Import Prelude Io Common Sha256 Externals InvVect BlockHeader Protocol NetAddress.
From S2P Require Import Tx Block MsgIface MsgInventory MsgControl MsgFilter ExtendedTx Version.
From S2P Require Import Message Framing Relay.

(** ** Constants *)

(** [BloomUpdateType] (msg_filter_load.go). *)
Definition BloomUpdateNone : Z := 0.
Definition BloomUpdateAll : Z := 1.
Definition BloomUpdateP2PubkeyOnly : Z := 2.

(** [FilterType] (msg_cfilter.go). *)
Definition GCSFilterRegular : Z := 0.

(** [RejectCode] (msg_reject.go). *)
Definition RejectMalformed : Z := 0x01.
Definition RejectInvalid : Z := 0x10.
Definition RejectObsolete : Z := 0x11.
Definition RejectDuplicate : Z := 0x12.
Definition RejectNonstandard : Z := 0x40.
Definition RejectDust : Z := 0x41.
Definition RejectInsufficientFee : Z := 0x42.
Definition RejectCheckpoint : Z := 0x43.

(** [StreamType] (stream_type.go). *)
Definition StreamTypeUnknown : Z := 0.
Definition StreamTypeGeneral : Z := 1.
Definition StreamTypeData1 : Z := 2.
Definition StreamTypeData2 : Z := 3.
Definition StreamTypeData3 : Z := 4.
Definition StreamTypeData4 : Z := 5.

(** Capacities of fresh slices. *)
Definition defaultInvListAlloc : Z := 1000.

(** ** Constructors

    A slice that is made empty with some capacity is the empty list; the two
    constructors with a size hint return the capacity beside the message. *)

Definition NewMsgPing (nonce : Z) : MsgPing := mkMsgPing nonce.
Definition NewMsgPong (nonce : Z) : MsgPong := mkMsgPong nonce.
Definition NewMsgVerAck : MsgVerAck := mkMsgVerAck.
Definition NewMsgGetAddr : MsgGetAddr := mkMsgGetAddr.
Definition NewMsgMemPool : MsgMemPool := mkMsgMemPool.
Definition NewMsgSendHeaders : MsgSendHeaders := mkMsgSendHeaders.
Definition NewMsgFeeFilter (minFee : Z) : MsgFeeFilter := mkMsgFeeFilter minFee.
Definition NewMsgStreamAck (associationID : bytes) (streamType : Z) : MsgStreamAck :=
  mkMsgStreamAck associationID streamType.
Definition NewMsgCreateStream (associationID : bytes) (streamType : Z) (policyName : bytes) :
    MsgCreateStream :=
  mkMsgCreateStream associationID streamType policyName.
Definition NewMsgFilterAdd (data : bytes) : MsgFilterAdd := mkMsgFilterAdd data.
Definition NewMsgFilterClear : MsgFilterClear := mkMsgFilterClear.
Definition NewMsgFilterLoad (filter : bytes) (hashFuncs tweak flags : Z) : MsgFilterLoad :=
  mkMsgFilterLoad filter hashFuncs tweak flags.
Definition NewMsgCFilter (filterType : Z) (blockHash data : bytes) : MsgCFilter :=
  mkMsgCFilter filterType blockHash data.
Definition NewMsgCFHeaders : MsgCFHeaders := mkMsgCFHeaders 0 (zeros 32) (zeros 32) [].
Definition NewMsgGetCFilters (filterType startHeight : Z) (stopHash : bytes) : MsgGetCFilters :=
  mkMsgGetCFilters filterType startHeight stopHash.
Definition NewMsgGetCFHeaders (filterType startHeight : Z) (stopHash : bytes) : MsgGetCFHeaders :=
  mkMsgGetCFHeaders filterType startHeight stopHash.
Definition NewMsgGetCFCheckpt (filterType : Z) (stopHash : bytes) : MsgGetCFCheckpt :=
  mkMsgGetCFCheckpt filterType stopHash.
Definition NewMsgInv : MsgInv := mkMsgInv [].
Definition NewMsgGetData : MsgGetData := mkMsgGetData [].
Definition NewMsgNotFound : MsgNotFound := mkMsgNotFound [].
Definition NewMsgHeaders : MsgHeaders := mkMsgHeaders [].
Definition NewMsgGetHeaders : MsgGetHeaders := mkMsgGetHeaders 0 [] (zeros 32).
Definition NewMsgAddr : MsgAddr := mkMsgAddr [].
Definition NewMsgExtendedTx (version : Z) : MsgExtendedTx := mkMsgExtendedTx version [] [] 0.

Definition NewMsgInvSizeHint (sizeHint : Z) : MsgInv * Z :=
  let sizeHint := if sizeHint >? MaxInvPerMsg then MaxInvPerMsg else sizeHint in
  (mkMsgInv [], sizeHint).
Definition NewMsgGetDataSizeHint (sizeHint : Z) : MsgGetData * Z :=
  let sizeHint := if sizeHint >? MaxInvPerMsg then MaxInvPerMsg else sizeHint in
  (mkMsgGetData [], sizeHint).

Definition MsgExtendedTx_AddTxIn (msg : MsgExtendedTx) (ti : ExtendedTxIn) : MsgExtendedTx :=
  mkMsgExtendedTx (ex_Version msg) (ex_TxIn msg ++ [ti]) (ex_TxOut msg) (ex_LockTime msg).
Definition MsgExtendedTx_AddTxOut (msg : MsgExtendedTx) (to : TxOut) : MsgExtendedTx :=
  mkMsgExtendedTx (ex_Version msg) (ex_TxIn msg) (ex_TxOut msg ++ [to]) (ex_LockTime msg).

(** ** [MessageError.Error]

    The text as a format and operands.  The names of functions contain no
    verb. *)
Definition MessageError_Error (e : MessageError) : Sprintf :=
  if String.eqb (Func e) "" then Description e
  else mkSprintf (String.append (Func e) (String.append ": " (format (Description e))))
         (operands (Description e)).

(** ** [OutPoint.String]

    [chainhash.Hash.String] is a parameter. *)

(** [strconv.AppendUint(buf, n, 10)]: the digits, at most 20. *)
Fixpoint decDigits (fuel : nat) (n : Z) (acc : bytes) : bytes :=
  match fuel with
  | O => acc
  | S fuel =>
      let acc := z2b (48 + n mod 10) :: acc in
      if n / 10 =? 0 then acc else decDigits fuel (n / 10) acc
  end.

Definition AppendUint10 (buf : bytes) (n : Z) : bytes := buf ++ decDigits 20 n [].

(** [copy] into a zeroed slice of 65 bytes, then the colon at index 64. *)
Definition OutPoint_String (Hash_String : bytes -> bytes) (o : OutPoint) : bytes :=
  let buf := zeros 65 in
  let s := Hash_String (op_Hash o) in
  let buf := take 65 s ++ drop (length s) buf in
  let buf := <[64%nat := Byte.x3a]> buf in
  AppendUint10 buf (to_u64 (op_Index o)).

Lemma b2z_z2b_small z : 0 <= z < 256 -> b2z (z2b z) = z.
Proof. intros Hz. rewrite byte.unsigned_of_Z. by apply Z.mod_small. Qed.

(** Reading the digits back. *)
Definition decValue (v : Z) (ds : bytes) : Z := fold_left (fun v d => v * 10 + (b2z d - 48)) ds v.

Lemma decValue_decDigits fuel n acc :
  0 <= n < 10 ^ Z.of_nat fuel -> decValue 0 (decDigits fuel n acc) = decValue n acc.
Proof.
  revert n acc. induction fuel as [|fuel IH]; intros n acc Hn; [cbn in Hn; by replace n with 0 by lia|].
  cbn [decDigits]. pose proof (Z.div_mod n 10 ltac:(done)). pose proof (Z.mod_pos_bound n 10 ltac:(done)).
  assert (b2z (z2b (48 + n mod 10)) - 48 = n mod 10) as Hd by (rewrite b2z_z2b_small; lia).
  destruct (Z.eqb_spec (n / 10) 0).
  - unfold decValue. cbn [fold_left]. rewrite Hd. f_equal. lia.
  - rewrite IH; [unfold decValue; cbn [fold_left]; rewrite Hd; f_equal; lia|].
    rewrite Nat2Z.inj_succ, Z.pow_succ_r in Hn by lia.
    split; [apply Z.div_pos; lia|]. apply Z.div_lt_upper_bound; lia.
Qed.

Section OutPointString.
Context (Hash_String : bytes -> bytes).
(* "String returns the Hash as the hexadecimal string of the byte-reversed hash." *)
Context (Hlen : forall h, sized HashSize h -> len (Hash_String h) = 64).
Context (Hinj : forall h1 h2, sized HashSize h1 -> sized HashSize h2 ->
  Hash_String h1 = Hash_String h2 -> h1 = h2).

Lemma OutPoint_String_eq o :
  OutPoint_ok o ->
  OutPoint_String Hash_String o =
  Hash_String (op_Hash o) ++ [Byte.x3a] ++ decDigits 20 (op_Index o) [].
Proof.
  intros [Hh Hi]. unfold OutPoint_String, AppendUint10. specialize (Hlen _ Hh).
  rewrite to_u64_id by zlia. rewrite app_assoc. f_equal.
  assert (length (Hash_String (op_Hash o)) = 64%nat) as Hl by zlia.
  rewrite Hl, take_ge by lia.
  rewrite <- (Nat.add_0_r 64), <- Hl at 1. by rewrite insert_app_r.
Qed.

(** [OutPoint.String] is the string of the hash, a colon and the index in
    decimal, and it identifies the outpoint: no two have the same string. *)
Theorem OutPoint_String_injective o1 o2 :
  OutPoint_ok o1 -> OutPoint_ok o2 ->
  OutPoint_String Hash_String o1 =
    Hash_String (op_Hash o1) ++ [Byte.x3a] ++ decDigits 20 (op_Index o1) [] /\
  (OutPoint_String Hash_String o1 = OutPoint_String Hash_String o2 -> o1 = o2).
Proof.
  intros H1 H2. rewrite !OutPoint_String_eq by done. split; [done|]. intros Heq.
  destruct o1 as [h1 i1], o2 as [h2 i2], H1 as [Hh1 Hi1], H2 as [Hh2 Hi2]. cbn [op_Hash op_Index] in *.
  apply app_inj_1 in Heq as [Hh Hd].
  2: { pose proof (Hlen _ Hh1). pose proof (Hlen _ Hh2). zlia. }
  apply Hinj in Hh; [|done..]. apply (f_equal (fun l => decValue 0 (drop 1 l))) in Hd.
  change (decValue 0 (decDigits 20 i1 []) = decValue 0 (decDigits 20 i2 [])) in Hd.
  rewrite (decValue_decDigits 20 i1), (decValue_decDigits 20 i2) in Hd by (cbn; zlia).
  cbn in Hd. by subst.
Qed.
End OutPointString.

(** The hexadecimal digits of the bytes in reverse order. *)
Definition hexString (h : bytes) : bytes :=
  flat_map (fun b => [hexDigit (b2z b / 16); hexDigit (b2z b mod 16)]) (rev h).

Lemma hexDigit_inj d1 d2 :
  0 <= d1 < 16 -> 0 <= d2 < 16 -> hexDigit d1 = hexDigit d2 -> d1 = d2.
Proof.
  unfold hexDigit. intros H1 H2 Hd. apply (f_equal b2z) in Hd. revert Hd.
  repeat case_match; rewrite ?Z.ltb_lt, ?Z.ltb_ge in *; rewrite !b2z_z2b_small; lia.
Qed.

Lemma hexString_inj h1 h2 : hexString h1 = hexString h2 -> h1 = h2.
Proof.
  unfold hexString. intros Heq. rewrite <- (rev_involutive h1), <- (rev_involutive h2). f_equal.
  revert Heq. generalize (rev h2). generalize (rev h1). clear h1 h2.
  induction l as [|b1 l1 IH]; intros [|b2 l2]; try done. cbn [flat_map app]. intros [= Hq Hr Hl].
  f_equal; [|by apply IH]. pose proof (byte.unsigned_range b1). pose proof (byte.unsigned_range b2).
  assert (forall b, 0 <= b2z b < 2 ^ 8 -> 0 <= b2z b / 16 < 16).
  { intros b Hb. split; [apply Z.div_pos; lia|]. apply Z.div_lt_upper_bound; lia. }
  apply hexDigit_inj in Hq; [|auto..].
  apply hexDigit_inj in Hr; [|by apply Z.mod_pos_bound..].
  apply byte.unsigned_inj. rewrite (Z.div_mod (b2z b1) 16), (Z.div_mod (b2z b2) 16) by done. lia.
Qed.

Lemma len_hexString h : len (hexString h) = 2 * len h.
Proof.
  unfold hexString, len. rewrite <- (length_rev h). induction (rev h) as [|b l IH]; [done|].
  cbn [flat_map app length]. lia.
Qed.

Lemma OutPoint_String_injective_witness :
  let o := mkOutPoint (zeros 32) 4294967295 in
  OutPoint_String hexString o =
    hexString (zeros 32) ++ [Byte.x3a] ++ decDigits 20 4294967295 [] /\
  (OutPoint_String hexString o = OutPoint_String hexString o -> o = o).
Proof.
  intros o. apply (OutPoint_String_injective hexString).
  - intros h Hh. rewrite len_hexString. unfold sized in Hh. rewrite Hh. reflexivity.
  - intros h1 h2 _ _. apply hexString_inj.
  - split; [reflexivity|split; vm_compute; [discriminate|reflexivity]].
  - split; [reflexivity|split; vm_compute; [discriminate|reflexivity]].
Defined.

(** ** Messages built with the constructors and the [Add...] methods *)

Section Built.
Context `{Limits} `{ExternalsSpec} (pver : Z).

(** The arguments are values of the parameter types of the constructors (an
    input or output with scripts the decoder accepts, checkpoints made for at
    most [maxCFHeadersLen] headers); the other premises are the conditions the
    protocol puts on the arguments: the version a type exists from, and the
    limits of a field.  The size of the message is not among them.  [authch],
    [authresp] and [extmsg] are left out: their decoders do not invert their
    encoders. *)
Inductive built : Message -> Prop :=
| built_Ping n : is_u64 n -> BIP0031Version < pver -> built (mkMessage KPing (NewMsgPing n))
| built_Pong n : is_u64 n -> BIP0031Version < pver -> built (mkMessage KPong (NewMsgPong n))
| built_VerAck : built (mkMessage KVerAck NewMsgVerAck)
| built_GetAddr : built (mkMessage KGetAddr NewMsgGetAddr)
| built_MemPool : BIP0035Version <= pver -> built (mkMessage KMemPool NewMsgMemPool)
| built_SendHeaders :
    SendHeadersVersion <= pver -> built (mkMessage KSendHeaders NewMsgSendHeaders)
| built_FeeFilter n :
    is_i64 n -> FeeFilterVersion <= pver -> built (mkMessage KFeeFilter (NewMsgFeeFilter n))
| built_Sendcmpct b : built (mkMessage KSendcmpct (NewMsgSendcmpct b))
| built_Reject cmd code reason :
    is_u8 code -> RejectVersion <= pver ->
    built (mkMessage KReject (NewMsgReject cmd code reason))
| built_StreamAck a t :
    len a <= MaxAssociationIDLen -> is_u8 t -> built (mkMessage KStreamAck (NewMsgStreamAck a t))
| built_CreateStream a t name :
    0 < len a <= MaxAssociationIDLen -> is_u8 t -> len name <= MaxUserAgentLen ->
    built (mkMessage KCreateStream (NewMsgCreateStream a t name))
| built_Protoconf n b :
    is_u32 n -> ProtoconfVersion <= pver ->
    built (mkMessage KProtoconf (NewMsgProtoconf n b))
| built_Version now me you nonce lastBlock :
    is_i64 (t_sec now) -> NetAddress_ok pver zeroNetAddress false me ->
    NetAddress_ok pver zeroNetAddress false you -> is_u64 nonce -> is_i32 lastBlock ->
    built (mkMessage KVersion (NewMsgVersion now me you nonce lastBlock))
| built_AddService m service :
    built (mkMessage KVersion m) -> is_u64 service ->
    built (mkMessage KVersion (MsgVersion_AddService m service))
| built_AddUserAgent m m' name version comments :
    built (mkMessage KVersion m) -> AddUserAgent m name version comments = (m', None) ->
    built (mkMessage KVersion m')
| built_FilterAdd d :
    len d <= MaxFilterAddDataSize -> BIP0037Version <= pver ->
    built (mkMessage KFilterAdd (NewMsgFilterAdd d))
| built_FilterClear : BIP0037Version <= pver -> built (mkMessage KFilterClear NewMsgFilterClear)
| built_FilterLoad f n t u :
    len f <= MaxFilterLoadFilterSize -> 0 <= n <= MaxFilterLoadHashFuncs -> is_u32 t ->
    is_u8 u -> BIP0037Version <= pver ->
    built (mkMessage KFilterLoad (NewMsgFilterLoad f n t u))
| built_MerkleBlock bh :
    BlockHeader_ok bh -> BIP0037Version <= pver ->
    built (mkMessage KMerkleBlock (NewMsgMerkleBlock bh))
| built_AddTxHash h n l f hash l' :
    built (mkMessage KMerkleBlock (mkMsgMerkleBlock h n l f)) -> sized HashSize hash ->
    AddTxHash l hash = Ok l' -> built (mkMessage KMerkleBlock (mkMsgMerkleBlock h n l' f))
| built_CFilter t h d :
    is_u8 t -> sized HashSize h -> len d <= MaxCFilterDataSize ->
    built (mkMessage KCFilter (NewMsgCFilter t h d))
| built_CFHeaders : built (mkMessage KCFHeaders NewMsgCFHeaders)
| built_AddCFHash t s p l hash l' :
    built (mkMessage KCFHeaders (mkMsgCFHeaders t s p l)) -> sized HashSize hash ->
    AddCFHash l hash = Ok l' -> built (mkMessage KCFHeaders (mkMsgCFHeaders t s p l'))
| built_CFCheckpt t h :
    is_u8 t -> sized HashSize h -> built (mkMessage KCFCheckpt (NewMsgCFCheckpt t h))
| built_AddCFHeader cap m header m' :
    built (mkMessage KCFCheckpt m) -> sized HashSize header ->
    len (cc_FilterHeaders m) <= cap <= maxCFHeadersLen -> AddCFHeader cap m header = Ok m' ->
    built (mkMessage KCFCheckpt m')
| built_GetCFilters t n h :
    is_u8 t -> is_u32 n -> sized HashSize h ->
    built (mkMessage KGetCFilters (NewMsgGetCFilters t n h))
| built_GetCFHeaders t n h :
    is_u8 t -> is_u32 n -> sized HashSize h ->
    built (mkMessage KGetCFHeaders (NewMsgGetCFHeaders t n h))
| built_GetCFCheckpt t h :
    is_u8 t -> sized HashSize h -> built (mkMessage KGetCFCheckpt (NewMsgGetCFCheckpt t h))
| built_Inv : built (mkMessage KInv NewMsgInv)
| built_InvSizeHint n : built (mkMessage KInv (fst (NewMsgInvSizeHint n)))
| built_AddInv l iv l' :
    built (mkMessage KInv (mkMsgInv l)) -> InvVect_ok iv -> MsgInv_AddInvVect l iv = Ok l' ->
    built (mkMessage KInv (mkMsgInv l'))
| built_GetData : built (mkMessage KGetData NewMsgGetData)
| built_GetDataSizeHint n : built (mkMessage KGetData (fst (NewMsgGetDataSizeHint n)))
| built_AddData l iv l' :
    built (mkMessage KGetData (mkMsgGetData l)) -> InvVect_ok iv ->
    MsgGetData_AddInvVect l iv = Ok l' -> built (mkMessage KGetData (mkMsgGetData l'))
| built_NotFound : built (mkMessage KNotFound NewMsgNotFound)
| built_AddNotFound l iv l' :
    built (mkMessage KNotFound (mkMsgNotFound l)) -> InvVect_ok iv ->
    MsgNotFound_AddInvVect l iv = Ok l' -> built (mkMessage KNotFound (mkMsgNotFound l'))
| built_Headers : built (mkMessage KHeaders NewMsgHeaders)
| built_AddHeader l bh l' :
    built (mkMessage KHeaders (mkMsgHeaders l)) -> BlockHeader_ok bh ->
    AddBlockHeader l bh = Ok l' -> built (mkMessage KHeaders (mkMsgHeaders l'))
| built_GetHeaders : built (mkMessage KGetHeaders NewMsgGetHeaders)
| built_AddLocator v l s hash l' :
    built (mkMessage KGetHeaders (mkMsgGetHeaders v l s)) -> sized HashSize hash ->
    MsgGetHeaders_AddBlockLocatorHash l hash = Ok l' ->
    built (mkMessage KGetHeaders (mkMsgGetHeaders v l' s))
| built_GetBlocks s : sized HashSize s -> built (mkMessage KGetBlocks (NewMsgGetBlocks s))
| built_AddBlockLocator v l s hash l' :
    built (mkMessage KGetBlocks (mkMsgGetBlocks v l s)) -> sized HashSize hash ->
    MsgGetBlocks_AddBlockLocatorHash l hash = Ok l' ->
    built (mkMessage KGetBlocks (mkMsgGetBlocks v l' s))
| built_Addr : MultipleAddressVersion <= pver -> built (mkMessage KAddr NewMsgAddr)
| built_AddAddress l na l' :
    MultipleAddressVersion <= pver -> built (mkMessage KAddr (mkMsgAddr l)) ->
    NetAddress_ok pver zeroNetAddress true na -> AddAddress l na = Ok l' ->
    built (mkMessage KAddr (mkMsgAddr l'))
| built_AddAddresses l nas l' e :
    MultipleAddressVersion <= pver -> built (mkMessage KAddr (mkMsgAddr l)) ->
    Forall (NetAddress_ok pver zeroNetAddress true) nas -> AddAddresses l nas = (l', e) ->
    built (mkMessage KAddr (mkMsgAddr l'))
| built_ClearAddresses m :
    built (mkMessage KAddr m) -> built (mkMessage KAddr (ClearAddresses m))
| built_Tx version : is_i32 version -> built (mkMessage KTx (NewMsgTx version))
| built_AddTxIn m ti :
    built (mkMessage KTx m) -> TxIn_ok ti -> built (mkMessage KTx (AddTxIn m ti))
| built_AddTxOut m to :
    built (mkMessage KTx m) -> TxOut_ok to -> built (mkMessage KTx (AddTxOut m to))
| built_ExtendedTx version :
    is_i32 version -> built (mkMessage KExtendedTx (NewMsgExtendedTx version))
| built_ExtendedTx_AddTxIn m ti :
    built (mkMessage KExtendedTx m) -> ExtendedTxIn_ok ti ->
    built (mkMessage KExtendedTx (MsgExtendedTx_AddTxIn m ti))
| built_ExtendedTx_AddTxOut m to :
    built (mkMessage KExtendedTx m) -> TxOut_ok to ->
    built (mkMessage KExtendedTx (MsgExtendedTx_AddTxOut m to))
| built_Block bh : BlockHeader_ok bh -> built (mkMessage KBlock (NewMsgBlock bh))
| built_AddTransaction m tx :
    built (mkMessage KBlock m) -> built (mkMessage KTx tx) ->
    built (mkMessage KBlock (AddTransaction m tx))
| built_ClearTransactions m :
    built (mkMessage KBlock m) -> built (mkMessage KBlock (ClearTransactions m)).

(** A block size limit of at least a megabyte. *)
Context (Hebs : 1000000 <= ebs < 2 ^ 61).

Lemma maxMessagePayload_ge : 2097152 <= maxMessagePayload /\ MaxBlockPayload <= maxMessagePayload.
Proof.
  unfold maxMessagePayload, MaxBlockPayload.
  pose proof (Z.div_mod ebs 1000000 ltac:(done)). pose proof (Z.mod_pos_bound ebs 1000000 ltac:(done)).
  assert (ebs / 1000000 <= 2 ^ 61 / 1000000) as Hq' by (apply Z.div_le_mono; lia).
  change (2 ^ 61 / 1000000) with 2305843009213 in Hq'.
  assert (1 <= ebs / 1000000) by (apply Z.div_le_lower_bound; lia).
  rewrite (to_u64_id (_ / _ * _)), (to_u64_id (_ / _ * _ * _)), to_u64_id by zlia. lia.
Qed.

Lemma add_list_ok {A} (ok : A -> Prop) max e l x l' :
  0 <= max < 2 ^ 64 -> list_ok ok max l -> ok x -> addBelow max e l x = Ok l' -> list_ok ok max l'.
Proof.
  unfold addBelow. intros Hm (Hl & Hu & Hf) Hx. rewrite Z.gtb_ltb.
  destruct (Z.ltb_spec max (len l + 1)) as [|Hle]; [done|]. intros [= <-].
  apply list_ok_iff; [lia|]. split; [len_lia|]. apply Forall_app. auto.
Qed.

Lemma nil_list_ok {A} (ok : A -> Prop) max : 0 <= max -> list_ok ok max [].
Proof. intros Hm. split_and!; try done. Qed.

Lemma small_var_ok max (b : bytes) : len b <= max -> max < 2 ^ 64 -> var_ok max b.
Proof. intros Hb Hm. split; [done|]. pose proof (len_nonneg b). zlia. Qed.

Lemma AddAddresses_ok l nas l' e :
  AddAddresses l nas = (l', e) -> Forall (NetAddress_ok pver zeroNetAddress true) nas ->
  list_ok (NetAddress_ok pver zeroNetAddress true) MaxAddrPerMsg l ->
  list_ok (NetAddress_ok pver zeroNetAddress true) MaxAddrPerMsg l'.
Proof.
  revert l. induction nas as [|na nas IH]; intros l Ha Hn Hl; cbn [AddAddresses] in Ha.
  - by injection Ha as <- _.
  - inversion Hn; subst. destruct (AddAddress l na) as [l1|e1] eqn:E1.
    + eapply IH; [done..|]. by eapply add_list_ok in E1.
    + by injection Ha as <- _.
Qed.

Lemma AddUserAgent_ok m m' name version comments :
  AddUserAgent m name version comments = (m', None) -> MsgVersion_ok pver m -> MsgVersion_ok pver m'.
Proof.
  unfold AddUserAgent, validateUserAgent. rewrite !Z.gtb_ltb. intros Ha Hm.
  match type of Ha with context [if MaxUserAgentLen <? len ?u then _ else _] =>
    destruct (Z.ltb_spec MaxUserAgentLen (len u)) as [|Hu]; [done|]; revert Ha Hu; generalize u end.
  intros u [= <-] Hu. pose proof maxMessagePayload_ge. pose proof maxMessagePayload_u64.
  destruct Hm as (Hm1 & Hm2 & Hm3 & Hm4 & Hm5 & Hm6 & _ & Hm8 & Hm9 & Hm10).
  assert (var_ok maxMessagePayload u) as Hv
    by (apply small_var_ok; [unfold MaxUserAgentLen in *; lia|zlia]).
  exact (conj Hm1 (conj Hm2 (conj Hm3 (conj Hm4 (conj Hm5 (conj Hm6 (conj (conj Hu Hv)
    (conj Hm8 (conj Hm9 Hm10))))))))).
Qed.

Lemma NewMsgCreateStream_ok a t name :
  0 < len a <= MaxAssociationIDLen -> is_u8 t -> len name <= MaxUserAgentLen ->
  MsgCreateStream_ok (NewMsgCreateStream a t name).
Proof.
  intros Ha Ht Hn. pose proof maxMessagePayload_ge as [Hmax _]. pose proof maxMessagePayload_u64 as Hu.
  unfold MsgCreateStream_ok, MsgCreateStream_bytes, MsgCreateStream_MaxPayloadLength.
  cbn [NewMsgCreateStream cs_AssociationID cs_StreamType cs_StreamPolicyName].
  rewrite !len_app, !len_var_bytes, len_elem_bytes by done.
  pose proof (VarIntSerializeSize_bound (len a)). pose proof (VarIntSerializeSize_bound (len name)).
  unfold MaxUserAgentLen, MaxAssociationIDLen in *. cbn [elem_size].
  split; [apply small_var_ok; lia|]. split; [lia|]. split; [done|].
  split; [apply small_var_ok; [lia|apply Hu]|]. lia.
Qed.

Definition Protoconf_fields (m : MsgProtoconf) : Prop :=
  ProtoconfVersion <= pver /\ (1 < pc_NumberOfFields m /\ is_u64 (pc_NumberOfFields m)) /\
  is_u32 (pc_MaxRecvPayloadLength m) /\
  (pc_StreamPolicies m <> [] /\ Forall no_comma (pc_StreamPolicies m)) /\
  var_ok maxMessagePayload (join_comma (pc_StreamPolicies m)).

Lemma NewMsgProtoconf_fields n b :
  is_u32 n -> ProtoconfVersion <= pver -> Protoconf_fields (NewMsgProtoconf n b).
Proof.
  intros Hn Hp. pose proof maxMessagePayload_ge as [Hmax _]. pose proof maxMessagePayload_u64 as Hu.
  split; [done|]. split; [by vm_compute|]. split.
  { cbn. rewrite Z.gtb_ltb. destruct (0 <? n); [done|by vm_compute]. }
  split.
  - split; [by destruct b|]. unfold NewMsgProtoconf. cbn [pc_StreamPolicies]. unfold no_comma.
    destruct b; repeat constructor; apply (bool_decide_unpack _); by vm_compute.
  - apply small_var_ok; [|apply Hu]. transitivity 21; [by destruct b|lia].
Qed.

Lemma NewMsgVersion_ok now me you nonce lastBlock :
  is_i64 (t_sec now) -> NetAddress_ok pver zeroNetAddress false me ->
  NetAddress_ok pver zeroNetAddress false you -> is_u64 nonce -> is_i32 lastBlock ->
  MsgVersion_ok pver (NewMsgVersion now me you nonce lastBlock).
Proof.
  intros Hn Hm Hy Ho Hl. pose proof maxMessagePayload_ge as [Hmax _]. pose proof maxMessagePayload_u64 as Hu.
  assert (var_ok maxMessagePayload DefaultUserAgent) as Hv.
  { apply small_var_ok; [|apply Hu]. transitivity MaxUserAgentLen; [by vm_compute|].
    unfold MaxUserAgentLen; lia. }
  refine (conj _ (conj _ (conj (conj Hn eq_refl) (conj Hy (conj Hm (conj Ho (conj (conj _ Hv)
    (conj Hl (conj _ (fun _ => conj eq_refl eq_refl)))))))))); by vm_compute.
Qed.

Lemma addService_u64 a b : is_u64 a -> is_u64 b -> is_u64 (addService a b).
Proof.
  unfold addService. intros Ha Hb. unfold is_u64 in *. split; [apply Z.lor_nonneg; lia|].
  destruct (Z.eq_dec (Z.lor a b) 0) as [->|Hne]; [done|]. pose proof (proj2 (Z.lor_nonneg a b)).
  apply Z.log2_lt_pow2; [lia|]. rewrite Z.log2_lor by lia.
  assert (forall x, 0 <= x < 2 ^ 64 -> Z.log2 x < 64) as Hlog.
  { intros x Hx. destruct (Z.eq_dec x 0) as [->|]; [done|]. apply Z.log2_lt_pow2; lia. }
  apply Z.max_lub_lt; auto.
Qed.

Lemma MsgVersion_AddService_ok m service :
  MsgVersion_ok pver m -> is_u64 service -> MsgVersion_ok pver (MsgVersion_AddService m service).
Proof.
  intros (Hm1 & Hm2 & Hm) Hs. exact (conj Hm1 (conj (addService_u64 _ _ Hm2 Hs) Hm)).
Qed.

Lemma NewMsgMerkleBlock_fields bh :
  BlockHeader_ok bh -> BIP0037Version <= pver -> MsgMerkleBlock_fields pver (NewMsgMerkleBlock bh).
Proof.
  intros Hb Hp. assert (0 <= maxTxPerBlock) as Hge by apply to_u64_range.
  split; [done|]. split; [done|]. split; [done|]. split; [by apply nil_list_ok|].
  split; [|done]. change (len (mb_Flags (NewMsgMerkleBlock bh))) with 0.
  unfold maxFlagsPerMerkleBlock. by apply Z.div_pos.
Qed.

Lemma AddTxHash_fields h n l f hash l' :
  MsgMerkleBlock_fields pver (mkMsgMerkleBlock h n l f) -> sized HashSize hash ->
  AddTxHash l hash = Ok l' -> MsgMerkleBlock_fields pver (mkMsgMerkleBlock h n l' f).
Proof.
  intros (Hp & Hh & Hn & Hl & Hf) Hs Ha.
  split; [done|]. split; [done|]. split; [done|]. split; [|done].
  cbn [mb_Hashes] in *. eapply add_list_ok; [|done..]. apply to_u64_range.
Qed.

Lemma AddCFHeader_ok cap m header m' :
  list_ok (sized HashSize) maxCFHeadersLen (cc_FilterHeaders m) -> sized HashSize header ->
  len (cc_FilterHeaders m) <= cap <= maxCFHeadersLen -> AddCFHeader cap m header = Ok m' ->
  cc_FilterType m' = cc_FilterType m /\ cc_StopHash m' = cc_StopHash m /\
  list_ok (sized HashSize) maxCFHeadersLen (cc_FilterHeaders m').
Proof.
  intros (Hm & Hu & Hl) Hh Hc. unfold AddCFHeader.
  destruct (Z.eqb_spec (len (cc_FilterHeaders m)) cap); [done|]. intros [= <-].
  split; [done|]. split; [done|]. cbn [cc_FilterHeaders]. apply list_ok_iff; [done|].
  split; [len_lia|]. apply Forall_app. auto.
Qed.

Lemma MsgAddr_ok_iff l :
  MultipleAddressVersion <= pver ->
  MsgAddr_ok pver (mkMsgAddr l) <-> list_ok (NetAddress_ok pver zeroNetAddress true) MaxAddrPerMsg l.
Proof. intros Hp. unfold MsgAddr_ok. by rewrite (proj2 (Z.ltb_ge _ _) Hp). Qed.

(** *** The fields of a message, whatever its size *)

Definition Tx_fields (t : MsgTx) : Prop :=
  is_i32 (tx_Version t) /\ Forall TxIn_ok (tx_TxIn t) /\ Forall TxOut_ok (tx_TxOut t) /\
  is_u32 (tx_LockTime t).

Definition ExtendedTx_fields (t : MsgExtendedTx) : Prop :=
  is_i32 (ex_Version t) /\ Forall ExtendedTxIn_ok (ex_TxIn t) /\ Forall TxOut_ok (ex_TxOut t) /\
  is_u32 (ex_LockTime t).

Definition Block_fields (b : MsgBlock) : Prop :=
  BlockHeader_ok (blk_Header b) /\ Forall Tx_fields (blk_Transactions b).

Definition CFCheckpt_fields (c : MsgCFCheckpt) : Prop :=
  is_u8 (cc_FilterType c) /\ sized HashSize (cc_StopHash c) /\
  list_ok (sized HashSize) maxCFHeadersLen (cc_FilterHeaders c).

Definition Reject_fields (m : MsgReject) : Prop :=
  RejectVersion <= pver /\ is_u8 (rj_Code m) /\
  (if hasHash (rj_Cmd m) then sized HashSize (rj_Hash m) else rj_Hash m = zeros 32).

Definition fields (k : Kind) : kind_type k -> Prop :=
  match k return kind_type k -> Prop with
  | KTx => Tx_fields
  | KExtendedTx => ExtendedTx_fields
  | KBlock => Block_fields
  | KMerkleBlock => MsgMerkleBlock_fields pver
  | KCFCheckpt => CFCheckpt_fields
  | KReject => Reject_fields
  | KProtoconf => Protoconf_fields
  | k => fun m => msg_ok (T:=kind_type k) pver m
  end.

Hint Resolve NewMsgCreateStream_ok NewMsgProtoconf_fields NewMsgVersion_ok
  MsgVersion_AddService_ok NewMsgMerkleBlock_fields : wire.

(** Adding an element at the end. *)
Lemma Forall_snoc {A} (P : A -> Prop) l x : Forall P l -> P x -> Forall P (l ++ [x]).
Proof. intros Hl Hx. apply Forall_app. auto. Qed.
Hint Resolve Forall_snoc : wire.

Lemma built_fields m : built m -> fields (m_kind m) (m_val m).
Proof.
  induction 1; cbn in *; auto with wire; try done.
  all: try (by eapply add_list_ok; [..|eassumption]).
  all: try (by destruct IHbuilt as (? & ? & ? & ?); unfold Tx_fields, ExtendedTx_fields; cbn; auto with wire).
  - by rewrite Z.gtb_ltb, (proj2 (Z.ltb_lt _ _)).
  - split; [done|]. split; [done|]. cbn. by case_match.
  - split; [by apply small_var_ok|done].
  - by eapply AddUserAgent_ok.
  - split; [done|by apply small_var_ok].
  - split; [done|]. split; [by apply small_var_ok|done].
  - by eapply AddTxHash_fields.
  - split; [done|]. split; [done|by apply small_var_ok].
  - destruct IHbuilt as (Ht & Hs & Hp & Hl). split; [done|]. split; [done|]. split; [done|].
    by eapply add_list_ok; [..|eassumption].
  - destruct IHbuilt as (Ht & Hs & Hl).
    destruct (AddCFHeader_ok cap m header m') as (Et & Es & Hl'); [done..|].
    rewrite <- Et in Ht. rewrite <- Es in Hs. by split.
  - destruct IHbuilt as (Hv & Hl & Hs). split; [done|]. split; [|done].
    by eapply add_list_ok; [..|eassumption].
  - destruct IHbuilt as (Hv & Hl & Hs). split; [done|]. split; [|done].
    by eapply add_list_ok; [..|eassumption].
  - by apply MsgAddr_ok_iff, nil_list_ok.
  - apply MsgAddr_ok_iff; [done|]. apply MsgAddr_ok_iff in IHbuilt; [|done].
    by eapply add_list_ok; [..|eassumption].
  - apply MsgAddr_ok_iff; [done|]. apply MsgAddr_ok_iff in IHbuilt; [|done].
    by eapply AddAddresses_ok.
  - apply nil_list_ok. by case_match.
  - destruct IHbuilt1 as [Hh Ht]. split; cbn; auto with wire.
  - split; [apply IHbuilt|constructor].
Qed.

(** *** The limits on counts follow from those on sizes *)

Lemma zsum_elem {A} (f : A -> Z) l x : x ∈ l -> (forall y, 0 <= f y) -> f x <= zsum (map f l).
Proof.
  intros Hin Hf. induction l as [|y l IH]; [by apply elem_of_nil in Hin|].
  pose proof (zsum_nonneg f l ltac:(auto)) as Hz. pose proof (Hf y).
  change (zsum (map f (y :: l))) with (f y + zsum (map f l)).
  apply elem_of_cons in Hin as [->|Hin]; [lia|]. specialize (IH Hin). lia.
Qed.

Lemma counted_list_ok {A} (enc : A -> bytes) (ok : A -> Prop) k max size l :
  0 < k -> Forall ok l -> (forall x, ok x -> k <= len (enc x)) ->
  len (list_bytes enc l) <= size -> size < 2 ^ 64 -> size / k + 1 <= max -> list_ok ok max l.
Proof.
  intros Hk Hl He Hs Hu Hm. rewrite len_list_bytes in Hs.
  pose proof (VarIntSerializeSize_bound (len l)). pose proof (len_nonneg l).
  assert (k * len l <= zsum (map (fun x => len (enc x)) l)) as Hz.
  { apply zsum_lower. intros x Hx. apply He. rewrite list.Forall_forall in Hl. auto. }
  assert (len l <= size / k) by (apply Z.div_le_lower_bound; lia).
  assert (len l <= k * len l) by nia. split; [lia|]. split; [zlia|done].
Qed.

Lemma maxMessagePayload_div k : 0 < k ->
  to_u64 (maxMessagePayload / k + 1) = maxMessagePayload / k + 1.
Proof.
  intros Hk. assert (0 <= ebs < 2 ^ 61) as He by lia. destruct (limits_int He) as [_ Hi].
  pose proof maxMessagePayload_u64 as [Hu _]. apply to_u64_id.
  assert (0 <= maxMessagePayload / k) by (by apply Z.div_pos).
  assert (maxMessagePayload / k <= maxMessagePayload) by (apply Z.div_le_upper_bound; nia).
  pose proof (to_i64_range maxMessagePayload). zlia.
Qed.

Lemma len_TxIn_bytes_ge ti : TxIn_ok ti -> 41 <= len (TxIn_bytes ti).
Proof.
  intros ((Hh & _) & _). unfold TxIn_bytes, OutPoint_bytes. autorewrite with len.
  rewrite ?len_var_bytes. unfold sized, HashSize in Hh.
  pose proof (VarIntSerializeSize_bound (len (ti_SignatureScript ti))).
  pose proof (len_nonneg (ti_SignatureScript ti)). lia.
Qed.

Lemma len_ExtendedTxIn_bytes_ge ti : ExtendedTxIn_ok ti -> 41 <= len (ExtendedTxIn_bytes ti).
Proof.
  intros ((Hh & _) & _). unfold ExtendedTxIn_bytes, OutPoint_bytes. autorewrite with len.
  rewrite ?len_var_bytes. unfold sized, HashSize in Hh.
  pose proof (VarIntSerializeSize_bound (len (ei_SignatureScript ti))).
  pose proof (VarIntSerializeSize_bound (len (ei_PreviousTxScript ti))).
  pose proof (len_nonneg (ei_SignatureScript ti)). pose proof (len_nonneg (ei_PreviousTxScript ti)). lia.
Qed.

Lemma len_TxOut_bytes_ge to : 9 <= len (TxOut_bytes to).
Proof.
  unfold TxOut_bytes. autorewrite with len. rewrite ?len_var_bytes.
  pose proof (VarIntSerializeSize_bound (len (to_PkScript to))). pose proof (len_nonneg (to_PkScript to)). lia.
Qed.

Lemma len_MsgTx_bytes_ge t : 10 <= len (MsgTx_bytes t).
Proof.
  unfold MsgTx_bytes. autorewrite with len. rewrite ?len_list_bytes.
  pose proof (VarIntSerializeSize_bound (len (tx_TxIn t))).
  pose proof (VarIntSerializeSize_bound (len (tx_TxOut t))).
  pose proof (zsum_nonneg (fun x => len (TxIn_bytes x)) (tx_TxIn t) ltac:(intros; apply len_nonneg)).
  pose proof (zsum_nonneg (fun x => len (TxOut_bytes x)) (tx_TxOut t) ltac:(intros; apply len_nonneg)). lia.
Qed.

Lemma maxTxIn_ok ins size enc (ok : ins -> Prop) (l : list ins) :
  Forall ok l -> (forall x, ok x -> 41 <= len (enc x)) ->
  len (list_bytes enc l) <= size -> size <= maxMessagePayload -> list_ok ok maxTxInPerMessage l.
Proof.
  intros Hl He Hs Hm. pose proof maxMessagePayload_u64.
  eapply (counted_list_ok enc ok 41 _ maxMessagePayload); try done; [lia|zlia|].
  unfold maxTxInPerMessage. change minTxInPayload with 41. rewrite maxMessagePayload_div; lia.
Qed.

Lemma maxTxOut_ok size (l : list TxOut) :
  Forall TxOut_ok l -> len (list_bytes TxOut_bytes l) <= size -> size <= maxMessagePayload ->
  list_ok TxOut_ok maxTxOutPerMessage l.
Proof.
  intros Hl Hs Hm. pose proof maxMessagePayload_u64.
  eapply (counted_list_ok TxOut_bytes TxOut_ok 9 _ maxMessagePayload); try done; [|lia|zlia|].
  - intros x _. apply len_TxOut_bytes_ge.
  - unfold maxTxOutPerMessage. change MinTxOutPayload with 9. rewrite maxMessagePayload_div; lia.
Qed.

Lemma Tx_fields_ok t : Tx_fields t -> len (MsgTx_bytes t) <= maxMessagePayload -> MsgTx_ok t.
Proof.
  intros (Hv & Hi & Ho & Hlt) Hl. unfold MsgTx_bytes in Hl. autorewrite with len in Hl.
  pose proof (len_nonneg (list_bytes TxIn_bytes (tx_TxIn t))).
  pose proof (len_nonneg (list_bytes TxOut_bytes (tx_TxOut t))).
  split; [done|]. split; [eapply maxTxIn_ok; eauto using len_TxIn_bytes_ge; lia|].
  split; [eapply maxTxOut_ok; eauto; lia|done].
Qed.

Lemma ExtendedTx_fields_ok t :
  ExtendedTx_fields t -> len (MsgExtendedTx_bytes t) <= maxMessagePayload -> MsgExtendedTx_ok t.
Proof.
  intros (Hv & Hi & Ho & Hlt) Hl. unfold MsgExtendedTx_bytes in Hl. autorewrite with len in Hl.
  pose proof (len_nonneg (list_bytes ExtendedTxIn_bytes (ex_TxIn t))).
  pose proof (len_nonneg (list_bytes TxOut_bytes (ex_TxOut t))).
  pose proof (VarIntSerializeSize_bound 0). pose proof (len_nonneg efHeader).
  split; [done|]. split; [eapply maxTxIn_ok; eauto using len_ExtendedTxIn_bytes_ge; lia|].
  split; [eapply maxTxOut_ok; eauto; lia|done].
Qed.

Lemma Block_fields_ok b :
  Block_fields b -> len (MsgBlock_bytes b) <= MaxBlockPayload -> MsgBlock_ok b.
Proof.
  intros (Hh & Ht) Hl. pose proof maxMessagePayload_ge as [_ Hmax]. unfold MsgBlock_bytes in Hl.
  rewrite len_app in Hl. pose proof (len_nonneg (BlockHeader_bytes (blk_Header b))).
  split; [done|].
  assert (Forall MsgTx_ok (blk_Transactions b)) as Hok.
  { apply list.Forall_forall. intros t Hin. rewrite list.Forall_forall in Ht.
    apply Tx_fields_ok; [auto|]. rewrite len_list_bytes in Hl.
    pose proof (VarIntSerializeSize_bound (len (blk_Transactions b))).
    pose proof (zsum_elem (fun x => len (MsgTx_bytes x)) _ t Hin (fun x => len_nonneg _)) as Hz.
    cbn beta in Hz. lia. }
  eapply (counted_list_ok MsgTx_bytes MsgTx_ok 10 _ MaxBlockPayload); try done; [|lia|..].
  - intros x _. apply len_MsgTx_bytes_ge.
  - unfold MaxBlockPayload. lia.
  - unfold maxTxPerBlock, MaxBlockPayload. change minTxPayload with 10. rewrite to_u64_id; [lia|].
    assert (0 <= ebs / 10 <= ebs) by (split; [apply Z.div_pos; lia|apply Z.div_le_upper_bound; lia]). zlia.
Qed.

Lemma Reject_fields_ok m :
  Reject_fields m -> len (MsgReject_bytes m) <= maxMessagePayload -> MsgReject_ok m.
Proof.
  intros (Hp & Hc & Hh) Hl. pose proof maxMessagePayload_u64 as Hu. unfold MsgReject_bytes in Hl.
  rewrite !len_app, !len_var_bytes in Hl.
  pose proof (VarIntSerializeSize_bound (len (rj_Cmd m))). pose proof (VarIntSerializeSize_bound (len (rj_Reason m))).
  pose proof (len_nonneg (elem_bytes TRejectCode (rj_Code m))). pose proof (len_nonneg (rj_Reason m)).
  pose proof (len_nonneg (rj_Cmd m)).
  assert (0 <= len (if hasHash (rj_Cmd m) then rj_Hash m else [])) by apply len_nonneg.
  split; [apply small_var_ok; [lia|apply Hu]|]. split; [done|].
  split; [apply small_var_ok; [lia|apply Hu]|done].
Qed.

(** *** Sizes *)

(** The message is within the three limits on its size. *)
Definition fits (m : Message) : Prop :=
  len (payload pver m) <= MaxPayloadLength (kind_type (m_kind m)) pver /\
  len (payload pver m) <= maxMessagePayload /\ len (payload pver m) < 0xffffffff.

Lemma fields_ok m : fields (m_kind m) (m_val m) -> fits m -> Message_ok pver m.
Proof.
  destruct m as [k v]. intros Hf (Hl & Hm & _). assert (0 <= ebs < 2 ^ 61) as He by lia.
  destruct (limits_int He) as [Htx _]. unfold Message_ok, payload in *. cbn [m_kind m_val] in *.
  destruct k; try exact Hf.
  - split; [by apply Block_fields_ok|done].
  - split; [by apply Tx_fields_ok|done].
  - split; [by apply ExtendedTx_fields_ok|done].
  - split; [done|]. by split.
  - destruct Hf as (Hp & Hc & Hh). split; [done|]. split; [by apply Reject_fields_ok|done].
  - destruct Hf as (Ht & Hh & Hc). split; [done|]. by split.
  - destruct Hf as (H1' & H2' & H3' & H4' & H5'). split_and!; try done; apply H2' || apply H4' || apply H5'.
Qed.

(** Encoding does not depend on the size. *)
Lemma fields_encodes m :
  fields (m_kind m) (m_val m) -> encodes (BsvEncode pver (m_val m)) (payload pver m).
Proof.
  destruct m as [k v]. intros Hf. assert (0 <= ebs < 2 ^ 61) as He by lia.
  destruct (limits_int He) as [Htx _]. unfold payload. cbn [m_kind m_val] in *.
  destruct k; try exact (msg_encodes pver v Hf).
  - apply encodes_MsgBlock.
  - apply encodes_MsgTx.
  - apply encodes_MsgExtendedTx.
  - by apply encodes_MsgMerkleBlock.
  - by apply encodes_MsgReject, Hf.
  - apply encodes_MsgCFCheckpt.
  - by apply encodes_MsgProtoconf, Hf.
Qed.

(** The types whose size the constructors and the [Add...] methods keep within
    the limits. *)
Definition bounded (k : Kind) : bool :=
  match k with
  | KTx | KExtendedTx | KBlock | KMerkleBlock | KReject | KCFCheckpt | KProtoconf => false
  | _ => true
  end.

Lemma bounded_payload k : bounded k = true -> MaxPayloadLength (kind_type k) pver <= 2097152.
Proof.
  intros Hk. assert (maxNetAddressPayload pver <= 30) as Hn
    by (unfold maxNetAddressPayload; case_match; lia).
  destruct k; try discriminate Hk; cbn [kind_type kind_Msg];
    try (apply Z.leb_le; reflexivity).
  - change (MsgVersion_MaxPayloadLength pver <= 2097152). unfold MsgVersion_MaxPayloadLength,
      MaxVarIntPayload, MaxUserAgentLen, MaxAssociationIDLen. lia.
  - change (MsgAddr_MaxPayloadLength pver <= 2097152).
    unfold MsgAddr_MaxPayloadLength, MaxVarIntPayload, MaxAddrPerMsg. case_match; lia.
  - change (MsgPing_MaxPayloadLength pver <= 2097152). unfold MsgPing_MaxPayloadLength. case_match; lia.
  - change (MsgPong_MaxPayloadLength pver <= 2097152). unfold MsgPong_MaxPayloadLength. case_match; lia.
Qed.

Lemma built_fits m : built m -> bounded (m_kind m) = true -> fits m.
Proof.
  intros Hb%built_fields Hk. pose proof maxMessagePayload_ge as [Hmax _].
  pose proof (bounded_payload _ Hk) as Hp.
  assert (len (payload pver m) <= MaxPayloadLength (kind_type (m_kind m)) pver) as Hl.
  { destruct m as [k v]. unfold payload. cbn [m_kind m_val] in *. apply msg_bounded. by destruct k. }
  unfold fits. lia.
Qed.

Lemma built_sendable m : built m -> fits m -> sendable pver m.
Proof.
  intros Hb Hf. assert (0 <= ebs < 2 ^ 61) as He by lia. destruct (limits_int He) as [_ Hi].
  split; [by apply fields_ok; [apply built_fields|]|rewrite Hi; apply Hf|apply Hf].
Qed.

(** A message that is too large is refused. *)
Lemma fields_refused {W} {HW : Writer W} bsvnet m (w : W) :
  fields (m_kind m) (m_val m) ->
  MaxPayloadLength (kind_type (m_kind m)) pver < len (payload pver m) \/
  maxMessagePayload < len (payload pver m) ->
  exists err, WriteMessageN w m pver bsvnet = (0, Some (ErrMessage err), w).
Proof.
  intros Hf Hl. assert (0 <= ebs < 2 ^ 61) as He by lia. destruct (limits_int He) as [_ Hi].
  destruct (fields_encodes m Hf) as [Ho Hw]. apply (WriteMessageN_encoded pver bsvnet m w Ho).
  rewrite Hw, Hi. tauto.
Qed.
End Built.


(** *** Merkle blocks *)

(** [for _, h := range hashes { err = msg.AddTxHash(h) }], stopping at an error *)
Definition addTxHashes `{Limits} (hashes : list bytes) : result (list bytes) :=
  fold_left (fun acc h => match acc with Ok l => AddTxHash l h | Err e => Err e end) hashes (Ok []).

Lemma addTxHashes_Ok `{Limits} hashes : len hashes <= maxTxPerBlock -> addTxHashes hashes = Ok hashes.
Proof.
  intros Hl. unfold addTxHashes. change hashes with ([] ++ hashes) in Hl. rewrite <- (app_nil_l hashes) at 2.
  revert Hl. generalize (@nil bytes). induction hashes as [|h hashes IH]; intros l Hl; cbn [fold_left].
  { by rewrite app_nil_r. }
  replace (AddTxHash l h) with (Ok (l ++ [h])).
  - rewrite IH by (by rewrite <- app_assoc). by rewrite <- app_assoc.
  - unfold AddTxHash, addBelow. pose proof (len_nonneg hashes). rewrite len_app, len_cons in Hl.
    by rewrite gtb_false by lia.
Qed.

(** C38: [AddTxHash] lets a merkle block grow beyond what can be sent.  It counts
    hashes against the number of transactions of a block, of which the smallest
    takes 10 bytes, while a hash takes 32: every list of hashes above
    MaxBlockPayload / 32 and up to that number is added without an error, and
    [WriteMessageN] then refuses the message. *)
Theorem AddTxHash_unsendable `{Limits} `{ExternalsSpec} {W} {HW : Writer W}
    pver bsvnet bh n flags hashes (w : W) :
  1000000 <= ebs < 2 ^ 61 -> BIP0037Version <= pver -> BlockHeader_ok bh -> is_u32 n ->
  var_ok maxFlagsPerMerkleBlock flags -> Forall (sized HashSize) hashes ->
  MaxBlockPayload < 32 * len hashes -> len hashes <= maxTxPerBlock ->
  addTxHashes hashes = Ok hashes /\
  exists err, WriteMessageN w (mkMessage KMerkleBlock (mkMsgMerkleBlock bh n hashes flags)) pver bsvnet =
    (0, Some (ErrMessage err), w).
Proof.
  intros He Hp Hb Hn Hf Hh Hlo Hhi. split; [by apply addTxHashes_Ok|]. apply fields_refused; [done|..].
  - refine (conj Hp (conj Hb (conj Hn (conj _ Hf)))). apply list_ok_iff; [apply to_u64_range|by split].
  - left. change (MaxBlockPayload < len (MsgMerkleBlock_bytes (mkMsgMerkleBlock bh n hashes flags))).
    unfold MsgMerkleBlock_bytes. cbn [mb_Header mb_Transactions mb_Hashes mb_Flags].
    rewrite !len_app, len_list_bytes.
    assert (32 * len hashes <= zsum (map (fun h : bytes => len h) hashes)) as Hz.
    { apply zsum_lower. intros h Hin. rewrite list.Forall_forall in Hh. by rewrite (Hh h Hin). }
    pose proof (len_nonneg (BlockHeader_bytes bh)). pose proof (len_nonneg (elem_bytes Tuint32 n)).
    pose proof (len_nonneg (var_bytes flags)). pose proof (VarIntSerializeSize_bound (len hashes)).
    lia.
Qed.

(** *** Signature scripts *)

(** The decoder stops at the first script that is longer than the number of
    inputs that fit into a message. *)
Lemma MsgTx_Bsvdecode_script `{Limits} v ti ins outs lt rest e :
  OutPoint_ok (ti_PreviousOutPoint ti) -> is_u64 (len (ti_SignatureScript ti)) ->
  maxTxInPerMessage < len (ti_SignatureScript ti) -> len (ti :: ins) <= maxTxInPerMessage ->
  exists m, fst (run MsgTx_Bsvdecode
    (mkStream (MsgTx_bytes (mkMsgTx v (ti :: ins) outs lt) ++ rest) e)) = Err (ErrMessage m).
Proof.
  intros Ho Hu Hl Hc. pose proof (len_nonneg ins). rewrite len_cons in Hc.
  assert (is_u64 maxTxInPerMessage) as Hmx by apply to_u64_range.
  unfold MsgTx_Bsvdecode, MsgTx_bytes, list_bytes, TxIn_bytes. cbn [tx_Version tx_TxIn tx_TxOut tx_LockTime map concat].
  rewrite <- !app_assoc.
  erewrite run_bind_step by (apply (codec_decodes (Codec:=Codec_Uint32 littleEndian)); apply to_u32_range).
  unfold readTxIns. rewrite run_bind, run_bind. rewrite len_cons.
  rewrite decodes_ReadVarInt by zlia. rewrite gtb_false by lia.
  replace (Z.to_nat (len ins + 1)) with (S (length ins)) by (unfold len; lia).
  unfold dlist. cbn [dloop]. rewrite run_bind, run_bind. unfold readTxIn at 1.
  erewrite run_bind_step by (by apply (codec_decodes (Codec:=Codec_readOutPoint))).
  unfold readScript at 1, var_bytes at 1. rewrite run_bind, run_bind, <- app_assoc.
  rewrite decodes_ReadVarInt by done. rewrite Z.gtb_ltb, (proj2 (Z.ltb_lt _ _) Hl). by eexists.
Qed.

(** C39: the limit on the length of a signature script is a number of inputs.  A
    transaction within the limit on its size, whose first input has a script of
    more than [maxTxInPerMessage] bytes, is written without an error, and the
    peer that gets the frame refuses it: [ReadMessageN] returns a
    [MessageError] and no message. *)
Theorem SignatureScript_unreadable `{Limits} `{ExternalsSpec} {R} `{HR : Reader R} {HS : ReaderSpec R}
    {W} {HW : Writer W} pver bsvnet v ti ins outs lt (w : W) (r : R) rest e :
  let tx := mkMsgTx v (ti :: ins) outs lt in
  let p := MsgTx_bytes tx in
  let frame := headerBytes bsvnet CmdTx (len p) (checksum p) ++ p in
  1000000 <= ebs < 2 ^ 61 -> is_u32 bsvnet -> OutPoint_ok (ti_PreviousOutPoint ti) ->
  maxTxInPerMessage < len (ti_SignatureScript ti) -> len (ti :: ins) <= maxTxInPerMessage ->
  len p <= MaxBlockPayload -> len p < 0xffffffff ->
  view r = mkStream (frame ++ rest) e ->
  WriteMessageN w (mkMessage KTx tx) pver bsvnet = Write frame w /\
  rd_msg (fst (ReadMessageN ∅ pver bsvnet r)) = None /\
  exists m, rd_err (fst (ReadMessageN ∅ pver bsvnet r)) = Some (ErrMessage m).
Proof.
  intros tx p frame He Hnet Ho Hl Hc Hb Hm Hr. assert (0 <= ebs < 2 ^ 61) as He' by lia.
  destruct (limits_int He') as [_ Hi]. pose proof (maxMessagePayload_ge He) as [_ Hmax].
  destruct (encodes_MsgTx tx) as [Hout Hw]. pose proof (len_nonneg p) as Hp.
  assert (len (ti_SignatureScript ti) <= len p) as Hsc.
  { unfold p, tx, MsgTx_bytes, list_bytes, TxIn_bytes. cbn [tx_Version tx_TxIn tx_TxOut tx_LockTime map concat].
    rewrite !len_app, len_var_bytes.
    pose proof (VarIntSerializeSize_bound (len (ti_SignatureScript ti))).
    repeat match goal with |- context [len ?x] => lazymatch goal with
      | _ : 0 <= len x |- _ => fail | _ => pose proof (len_nonneg x) end end. lia. }
  split.
  { destruct (WriteMessageN_encoded pver bsvnet (mkMessage KTx tx) w Hout) as [_ Hok].
    match type of Hok with context [written ?q] => change (written q = p) in Hw end.
    rewrite Hw in Hok. rewrite Hok; [by rewrite gtb_false by (unfold MaxUint32; lia)| |done].
    rewrite Hi. lia. }
  pose proof (len_headerBytes bsvnet CmdTx (len p) (checksum p) (len_checksum _)) as Hh.
  destruct (readMessageHeader_Ok r) as (r1 & Er & Hv & _).
  { rewrite Hr. unfold frame. cbn [s_data]. rewrite !len_app, Hh. pose proof (len_nonneg rest). lia. }
  assert (nextHeader r = mkHeader bsvnet CmdTx (len p) (checksum p) 0) as Hn.
  { unfold nextHeader, frame in *. rewrite Hr. cbn [s_data]. rewrite <- app_assoc.
    rewrite take_app_eq by (unfold MessageHeaderSize in Hh; zlia).
    apply parseHeader_written; auto using len_checksum; [zlia|lia]. }
  rewrite Hn in Er.
  assert (view r1 = mkStream (p ++ rest) e) as Hv1.
  { rewrite Hv, Hr. unfold advance, frame. cbn [s_data s_err]. rewrite <- app_assoc.
    by rewrite drop_app_eq by (unfold MessageHeaderSize in *; zlia). }
  assert (body r1 (len p) = p) as Hbd.
  { unfold body. rewrite Hv1. cbn [s_data]. by rewrite to_nat_len, take_app_length. }
  destruct (ReadMessageN_payload ∅ pver bsvnet r r1 _ KTx (len p) Er (no_handlers _) eq_refl)
    as (r' & _ & ->); [lia|zlia|rewrite Hv1; cbn [s_data]; len_lia| |].
  { apply (checkHeader_accepts false KTx); try done; lia. }
  assert (sumOk r1 (mkHeader bsvnet CmdTx (len p) (checksum p) 0) (len p) = true) as ->
    by (unfold sumOk; rewrite Hbd; by apply bool_decide_eq_true_2).
  destruct (MsgTx_Bsvdecode_script v ti ins outs lt [] EOF Ho) as [m Hd]; [|done..|].
  { pose proof (len_nonneg (ti_SignatureScript ti)). zlia. }
  assert (decoded pver r1 KTx (len p) = Err (ErrMessage m)) as ->; [|cbn; eauto].
  unfold decoded. rewrite Hbd. rewrite app_nil_r in Hd. fold tx in Hd. fold p in Hd.
  pose proof (run_view_streamable _ (mkBuffer p) (kind_streamable KTx ltac:(done) pver)) as Hx.
  change (run (Bsvdecode (kind_type KTx) pver) (view (mkBuffer p))) with
    (run MsgTx_Bsvdecode (mkStream p EOF)) in Hx.
  rewrite Hx in Hd. by destruct (run _ (mkBuffer p)).
Qed.

(** ** Witnesses: a merkle block of 31251 hashes where blocks are limited to a
    million bytes, a long signature script, an inventory of two transactions *)

Section Examples.
#[local] Existing Instance refExternals.
#[local] Existing Instance refExternals_spec.

Definition manyHashes : list bytes := replicate (Z.to_nat 31251) (zeros 32).

Lemma AddTxHash_unsendable_witness :
  let L := SetLimits 1000000 in
  addTxHashes manyHashes = Ok manyHashes /\
  exists err, WriteMessageN (mkBuffer [])
      (mkMessage KMerkleBlock (mkMsgMerkleBlock exampleHeader 0 manyHashes [])) 70016 MainNet =
    (0, Some (ErrMessage err), mkBuffer []).
Proof.
  intros L. assert (len manyHashes = 31251) as Hl by (unfold manyHashes; rewrite len_replicate; reflexivity).
  apply (AddTxHash_unsendable (W:=buffer) 70016 MainNet exampleHeader 0 [] manyHashes (mkBuffer [])).
  - split; vm_compute; [discriminate|reflexivity].
  - vm_compute. discriminate.
  - repeat split; vm_compute; first [discriminate|reflexivity].
  - split; vm_compute; [discriminate|reflexivity].
  - split; [vm_compute; discriminate|split; vm_compute; [discriminate|reflexivity]].
  - apply Forall_replicate. reflexivity.
  - rewrite Hl. vm_compute. reflexivity.
  - rewrite Hl. vm_compute. discriminate.
Defined.

(** A signature script of 51152 bytes, where blocks are limited to a million. *)
Definition longScript : TxIn :=
  mkTxIn (mkOutPoint (zeros 32) 0) (replicate (Z.to_nat 51152) Byte.x51) 0.

Lemma SignatureScript_unreadable_witness :
  let L := SetLimits 1000000 in
  let p := MsgTx_bytes (mkMsgTx 1 [longScript] [] 0) in
  let frame := headerBytes MainNet CmdTx (len p) (checksum p) ++ p in
  let r := mkStream (frame ++ []) EOF in
  WriteMessageN (mkBuffer []) (mkMessage KTx (mkMsgTx 1 [longScript] [] 0)) 70016 MainNet =
    Write frame (mkBuffer []) /\
  rd_msg (fst (ReadMessageN ∅ 70016 MainNet r)) = None /\
  exists m, rd_err (fst (ReadMessageN ∅ 70016 MainNet r)) = Some (ErrMessage m).
Proof.
  intros L p frame r.
  apply (SignatureScript_unreadable (R:=stream) (W:=buffer) 70016 MainNet 1 longScript [] [] 0
    (mkBuffer []) r [] EOF).
  - split; vm_compute; [discriminate|reflexivity].
  - split; vm_compute; [discriminate|reflexivity].
  - repeat split; vm_compute; first [discriminate|reflexivity].
  - vm_compute. reflexivity.
  - vm_compute. discriminate.
  - vm_compute. discriminate.
  - vm_compute. reflexivity.
  - reflexivity.
Defined.

#[local] Existing Instance defaultLimits.

Definition exampleInv : Message :=
  mkMessage KInv (mkMsgInv [mkInvVect InvTypeTx (zeros 32); mkInvVect InvTypeTx (zeros 32)]).

End Examples.
