(* ===== verification/Segments.v ===== *)
(** * Connections that deliver their bytes in pieces

    The class [Reader] has one operation that obtains [n] bytes.  Go's
    [io.Reader] has [Read], which returns as many bytes as it likes: a TCP
    connection returns what has arrived.  This file has that interface
    ([RawReader]) with its contract ([RawSpec]), the loops of the Go library
    over it ([io.ReadAtLeast], [io.LimitedReader.Read], the reader of
    [io.TeeReader], the reading side of [io.Copy]), and proves that they
    implement [Reader]; and that messages which were written are read back
    over such a connection, wherever the network split their bytes
    ([Segmented_conversation]). *)

From S2P Require Import Prelude Io Common Sha256 Externals InvVect BlockHeader Protocol NetAddress.
From S2P Require Import Tx Block MsgIface MsgInventory MsgControl MsgFilter ExtendedTx Version.
From S2P Require Import Message Framing Relay.

(** ** [io.Reader] *)

(** [Read n r] is [r.Read(p)] for a slice [p] of [n] bytes: the bytes put into
    it, the error and the reader afterwards. *)
Class RawReader (R : Type) := Read : Z -> R -> bytes * option error * R.

(** The documented contract: at most [n] bytes; an error comes after the last
    byte was delivered, [io.EOF] possibly with it, and is sticky.  (The
    documentation lets any error come with the last bytes; a connection returns
    those other than [io.EOF] in a call of their own.)  [patience]
    bounds how often a reader may return less than it was asked for without
    an error. *)
Class RawSpec (R : Type) `{RawReader R} := {
  raw_view : R -> stream;
  patience : R -> nat;
  raw_Read n r bs e r' : 0 < n -> Read n r = (bs, e, r') ->
    len bs <= n /\ raw_view r = mkStream (bs ++ s_data (raw_view r')) (s_err (raw_view r')) /\
    match e with
    | Some e => s_data (raw_view r') = [] /\ e = s_err (raw_view r') /\ (bs = [] \/ e = EOF)
    | None => (len bs < n -> (patience r' < patience r)%nat) /\
              (patience r' <= patience r)%nat
    end;
}.

Section Loops.
Context {R : Type} `{RawReader R}.

(** [io.ReadAtLeast(r, buf, len(buf))] up to the final error: its loop
    [for n < min && err == nil { nn, err = r.Read(buf[n:]); n += nn }]. *)
Fixpoint readAtLeast (fuel : nat) (n : Z) (buf : bytes) (r : R) : bytes * option error * R :=
  if len buf <? n then
    match fuel with
    | O => (buf, None, r)
    | S fuel =>
        let '(nn, err, r) := Read (n - len buf) r in
        match err with
        | Some e => (buf ++ nn, Some e, r)
        | None => readAtLeast fuel n (buf ++ nn) r
        end
    end
  else (buf, None, r).

(** [if n >= min { err = nil }] *)
Definition pullRaw (fuel : nat) (n : Z) (r : R) : bytes * option error * R :=
  let '(buf, err, r) := readAtLeast fuel n [] r in
  (buf, if n <=? len buf then None else err, r).

(** [io.Copy(io.Discard, r)]: reading with a buffer of 8192 bytes until an
    error; the bytes are collected here only to be compared. *)
Definition discardBuffer : Z := 8192.

Fixpoint copyLoop (fuel : nat) (buf : bytes) (r : R) : bytes * option error * R :=
  match fuel with
  | O => (buf, None, r)
  | S fuel =>
      let '(nn, err, r) := Read discardBuffer r in
      match err with
      | Some e => (buf ++ nn, Some e, r)
      | None => copyLoop fuel (buf ++ nn) r
      end
  end.
End Loops.

(** ** The readers of the Go library, [Read] by [Read] *)

Section Wrappers.
Context {R : Type} `{RawReader R}.

(** [func (l *LimitedReader) Read(p []byte)] *)
Definition limited_Read (n : Z) (l : LimitedReader R) : bytes * option error * LimitedReader R :=
  if lr_N l <=? 0 then ([], Some EOF, l)
  else
    let n := if n >? lr_N l then lr_N l else n in
    let '(bs, err, r) := Read n (lr_R l) in
    (bs, err, mkLimited r (lr_N l - len bs)).

(** [func (t *teeReader) Read(p []byte)] with a hash as the writer *)
Definition tee_Read (n : Z) (t : TeeReader R) : bytes * option error * TeeReader R :=
  let '(bs, err, r) := Read n (tee_r t) in
  (bs, err, mkTee r (if len bs >? 0 then tee_w t ++ bs else tee_w t)).

#[export] Instance limited_raw : RawReader (LimitedReader R) := limited_Read.
#[export] Instance tee_raw : RawReader (TeeReader R) := tee_Read.
End Wrappers.

(** ** A connection *)

(** The segments that will arrive, some of them possibly empty, and the error
    at the end; [c_early] says whether an end of file comes with the last
    bytes or in a call of its own, as any other error does. *)
Record conn := mkConn { c_segments : list bytes; c_err : error; c_early : bool }.

Definition conn_Read (n : Z) (c : conn) : bytes * option error * conn :=
  match c_segments c with
  | [] => ([], Some (c_err c), c)
  | seg :: rest =>
      if len seg <=? n
      then (seg, if c_early c && bool_decide (rest = [] /\ c_err c = EOF) then Some EOF else None,
            mkConn rest (c_err c) (c_early c))
      else (take (Z.to_nat n) seg, None,
            mkConn (drop (Z.to_nat n) seg :: rest) (c_err c) (c_early c))
  end.

#[export] Instance conn_raw : RawReader conn := conn_Read.

Definition conn_stream (c : conn) : stream := mkStream (concat (c_segments c)) (c_err c).

#[export] Instance conn_rawspec : RawSpec conn.
Proof.
  refine {| raw_view := conn_stream; patience c := length (c_segments c) |}.
  intros n [segs er early] bs e c' Hn. unfold Read, conn_raw, conn_Read, conn_stream.
  cbn [c_segments c_err c_early]. destruct segs as [|seg rest].
  { intros [= <- <- <-]. rewrite len_nil. split; [lia|]. split; [done|]. auto. }
  destruct (Z.leb_spec (len seg) n) as [Hl|Hl]; intros [= <- <- <-]; cbn [c_segments c_err s_data s_err].
  - split; [done|]. split; [done|].
    destruct (early && bool_decide _) eqn:E; [|cbn; split; lia].
    apply andb_true_iff in E as [_ [-> ->]%bool_decide_eq_true]. auto.
  - split; [rewrite len_take_le; lia|]. split; [cbn [concat]; by rewrite app_assoc, take_drop|].
    rewrite len_take_le by lia. cbn. lia.
Defined.

(** ** The wrappers keep the contract *)

Lemma limit_stream_app N bs d e :
  len bs <= N ->
  limit_stream N (mkStream (bs ++ d) e) =
  (let s := limit_stream (N - len bs) (mkStream d e) in mkStream (bs ++ s_data s) (s_err s)).
Proof.
  intros Hb. unfold limit_stream. cbn [s_data s_err]. rewrite len_app.
  pose proof (len_nonneg bs).
  destruct (Z.leb_spec N (len bs + len d)), (Z.leb_spec (N - len bs) (len d)); try lia; cbn [s_data s_err]; [|done].
  f_equal. rewrite take_app. f_equal; [apply take_ge; zlia|]. f_equal. zlia.
Qed.

Section WrapperSpecs.
Context {R : Type} {HR : RawReader R} {HS : RawSpec R}.

#[export] Instance limited_rawspec : RawSpec (LimitedReader R).
Proof.
  refine {| raw_view l := limit_stream (Z.max 0 (lr_N l)) (raw_view (lr_R l));
            patience l := (patience (lr_R l) + if (0 <? lr_N l)%Z then 1 else 0)%nat |}.
  intros n [r N] bs e l' Hn. unfold Read, limited_raw, limited_Read. cbn [lr_R lr_N].
  destruct (Z.leb_spec N 0) as [HN|HN].
  { intros [= <- <- <-]. rewrite len_nil. split; [lia|]. cbn [lr_N lr_R].
    rewrite Z.max_l by lia. unfold limit_stream.
    rewrite (proj2 (Z.leb_le _ _)) by apply len_nonneg. auto. }
  destruct (Read _ r) as [[bs1 e1] r1] eqn:Er. intros [= -> -> <-]. cbn [lr_N lr_R].
  set (m := if n >? N then N else n) in Er.
  assert (0 < m <= n /\ m <= N) as Hm 
    by (subst m; rewrite Z.gtb_ltb; destruct (Z.ltb_spec N n); lia).
  apply raw_Read in Er as (Hl & Hv & He); [|lia]. rewrite !Z.max_r by lia.
  split; [lia|]. split.
  { rewrite Hv, limit_stream_app by lia. by destruct (raw_view r1). }
  destruct e as [e|].
  - destruct He as (Hd & -> & Hb). destruct (raw_view r1) as [d er]. cbn [s_data s_err] in *. subst d.
    unfold limit_stream. cbn [s_data]. rewrite len_nil.
    destruct (Z.leb_spec (N - len bs) 0); [|done]. cbn [s_data s_err].
    destruct Hb as [-> | ->]; [rewrite len_nil in *; lia|]. rewrite take_nil. auto.
  - destruct He as [He1 He2]. rewrite (proj2 (Z.ltb_lt 0 N)) by done.
    destruct (Z.ltb_spec 0 (N - len bs)); split; try lia; intros.
    assert (len bs < m) by (subst m; rewrite Z.gtb_ltb in *; destruct (Z.ltb_spec N n); lia). lia.
Defined.

#[export] Instance tee_rawspec : RawSpec (TeeReader R).
Proof.
  refine {| raw_view t := raw_view (tee_r t); patience t := patience (tee_r t) |}.
  intros n [r w] bs e t' Hn. unfold Read, tee_raw, tee_Read. cbn [tee_r tee_w].
  destruct (Read n r) as [[bs1 e1] r1] eqn:Er. intros [= -> -> <-]. by apply raw_Read in Er.
Defined.
End WrapperSpecs.

(** ** The loops implement [Reader] *)

Section RawReaders.
Context {R : Type} {HR : RawReader R} {HS : RawSpec R}.

Lemma readAtLeast_spec fuel n buf r out err r' :
  (patience r < fuel)%nat -> len buf <= n -> readAtLeast fuel n buf r = (out, err, r') ->
  exists c, out = buf ++ c /\ len out <= n /\
    raw_view r = mkStream (c ++ s_data (raw_view r')) (s_err (raw_view r')) /\
    (len out < n -> s_data (raw_view r') = [] /\ err = Some (s_err (raw_view r'))).
Proof.
  revert buf r. induction fuel as [|fuel IH]; intros buf r Hf Hb Hr; [lia|].
  cbn [readAtLeast] in Hr. destruct (Z.ltb_spec (len buf) n) as [Hlt|Hge].
  2: { injection Hr as <- <- <-. exists []. rewrite app_nil_r. split_and!; try done; [|lia].
       by destruct (raw_view r). }
  destruct (Read (n - len buf) r) as [[nn e] r1] eqn:Er.
  apply raw_Read in Er as (Hl & Hv & He); [|lia]. destruct e as [e|].
  - injection Hr as <- <- <-. exists nn. rewrite len_app. destruct He as (Hd & -> & _).
    split_and!; try done. lia.
  - destruct He as [He1 He2]. destruct (Z.eq_dec (len nn) (n - len buf)) as [Hfull|Hshort].
    + assert (n <= len (buf ++ nn)) as Hn by (rewrite len_app; lia).
      destruct fuel as [|fuel]; cbn [readAtLeast] in Hr;
        rewrite (proj2 (Z.ltb_ge _ _) Hn) in Hr; injection Hr as <- <- <-;
        exists nn; rewrite len_app; (split_and!; try done; lia).
    + apply IH in Hr as (c & -> & Hlen & Hv' & Hend); [|lia|rewrite len_app; lia].
      exists (nn ++ c). rewrite app_assoc. split_and!; try done. rewrite Hv, Hv'. cbn [s_data s_err]. by rewrite app_assoc.
Qed.

Lemma pullRaw_spec n r bs e r' :
  pullRaw (S (patience r)) n r = (bs, e, r') ->
  stream_pull n (raw_view r) = (bs, e, raw_view r').
Proof.
  unfold pullRaw. destruct (Z.le_gt_cases n 0) as [Hn|Hn].
  { cbn [readAtLeast]. rewrite len_nil, (proj2 (Z.ltb_ge 0 n)) by lia.
    rewrite len_nil, (proj2 (Z.leb_le n 0)) by lia. intros [= <- <- <-]. by apply stream_pull_neg. }
  destruct (readAtLeast _ n [] r) as [[out err] r1] eqn:Er. intros [= <- <- <-].
  apply readAtLeast_spec in Er as (c & -> & Hl & Hv & Hend); [|lia|rewrite len_nil; lia].
  rewrite app_nil_l in *. unfold stream_pull. rewrite Hv. cbn [s_data s_err]. rewrite len_app.
  pose proof (len_nonneg (s_data (raw_view r1))). destruct (Z.leb_spec n (len c)) as [Hc|Hc].
  - assert (len c = n) as <- by lia. rewrite (proj2 (Z.leb_le _ _)) by lia.
    rewrite to_nat_len, take_app_length, drop_app_length. by destruct (raw_view r1).
  - destruct (Hend Hc) as [Hd ->]. rewrite Hd, len_nil, (proj2 (Z.leb_gt _ _)), app_nil_r by lia.
    destruct (raw_view r1) as [d er]. cbn in *. by subst.
Qed.

Definition copyFuel (r : R) : nat := S (patience r + length (s_data (raw_view r))).

Lemma copyLoop_spec fuel buf r :
  (patience r + length (s_data (raw_view r)) < fuel)%nat ->
  exists r', copyLoop fuel buf r =
    (buf ++ s_data (raw_view r), Some (s_err (raw_view r)), r') /\
    raw_view r' = mkStream [] (s_err (raw_view r)).
Proof.
  revert buf r. induction fuel as [|fuel IH]; intros buf r Hf; [lia|]. cbn [copyLoop].
  destruct (Read discardBuffer r) as [[nn e] r1] eqn:Er.
  apply raw_Read in Er as (Hl & Hv & He); [|done]. rewrite Hv in Hf |- *. cbn [s_data s_err] in *.
  rewrite length_app in Hf. destruct e as [e|].
  - destruct He as (Hd & -> & _). exists r1. rewrite Hd, app_nil_r. split; [done|].
    destruct (raw_view r1). cbn in *. by subst.
  - destruct He as [He1 He2]. destruct (IH (buf ++ nn) r1) as (r' & -> & Hr').
    { destruct (Z.eq_dec (len nn) discardBuffer) as [Hfull|]; [|lia].
      assert (0 < length nn)%nat by (unfold discardBuffer in Hfull; zlia). lia. }
    exists r'. by rewrite <- app_assoc.
Qed.

(** Any [io.Reader] as a [Reader]. *)
Definition raw_reader : Reader R := {|
  Pull n r := pullRaw (S (patience r)) n r;
  PullAll r := let '(bs, e, r') := copyLoop (copyFuel r) [] r in (bs, default EOF e, r');
  AsBuffer _ := None |}.

Definition raw_readerspec : @ReaderSpec R raw_reader.
Proof.
  refine (@Build_ReaderSpec R raw_reader raw_view _ _).
  - intros n r. cbn [Pull raw_reader]. destruct (pullRaw _ n r) as [[bs e] r'] eqn:Ep.
    by apply pullRaw_spec.
  - intros r. cbn [PullAll raw_reader].
    destruct (copyLoop_spec (copyFuel r) [] r) as (r' & -> & Hr'); [unfold copyFuel; lia|]. done.
Defined.
End RawReaders.

#[export] Instance conn_reader : Reader conn := raw_reader.
#[export] Instance conn_spec : ReaderSpec conn := raw_readerspec.
#[export] Instance conn_unbuffered : Unbuffered conn := fun _ => eq_refl.

(** *** What the wrappers record *)

(** A relation between the reader before, the bytes delivered and the reader
    after, kept by [Read] and hence by the loops. *)
Section Recorded.
Context {R : Type} {HR : RawReader R} (J : R -> bytes -> R -> Prop).
Context (Jrefl : forall r, J r [] r)
  (Jtrans : forall r1 b1 r2 b2 r3, J r1 b1 r2 -> J r2 b2 r3 -> J r1 (b1 ++ b2) r3)
  (Jread : forall n r bs e r', 0 < n -> Read n r = (bs, e, r') -> J r bs r').

Lemma readAtLeast_recorded fuel n buf r out err r' :
  readAtLeast fuel n buf r = (out, err, r') -> exists c, out = buf ++ c /\ J r c r'.
Proof.
  revert buf r. induction fuel as [|fuel IH]; intros buf r Hr; cbn [readAtLeast] in Hr;
    (destruct (Z.ltb_spec (len buf) n); [|injection Hr as <- <- <-; exists []; by rewrite app_nil_r]).
  { injection Hr as <- <- <-. exists []. by rewrite app_nil_r. }
  destruct (Read (n - len buf) r) as [[nn [e|]] r1] eqn:Er; apply Jread in Er; try lia.
  - injection Hr as <- <- <-. by exists nn.
  - apply IH in Hr as (c & -> & Hc). exists (nn ++ c). rewrite app_assoc. eauto.
Qed.

Lemma pullRaw_recorded fuel n r bs e r' : pullRaw fuel n r = (bs, e, r') -> J r bs r'.
Proof.
  unfold pullRaw. destruct (readAtLeast fuel n [] r) as [[out err] r1] eqn:Er. intros [= <- <- <-].
  by apply readAtLeast_recorded in Er as (c & -> & Hc).
Qed.

Lemma copyLoop_recorded fuel buf r out err r' :
  copyLoop fuel buf r = (out, err, r') -> exists c, out = buf ++ c /\ J r c r'.
Proof.
  revert buf r. induction fuel as [|fuel IH]; intros buf r Hr; cbn [copyLoop] in Hr.
  { injection Hr as <- <- <-. exists []. by rewrite app_nil_r. }
  destruct (Read discardBuffer r) as [[nn [e|]] r1] eqn:Er; apply Jread in Er; try done.
  - injection Hr as <- <- <-. by exists nn.
  - apply IH in Hr as (c & -> & Hc). exists (nn ++ c). rewrite app_assoc. eauto.
Qed.
End Recorded.

(** A relation of that kind. *)
Record Journal {R} (J : R -> bytes -> R -> Prop) : Prop := {
  journal_refl r : J r [] r;
  journal_trans r1 b1 r2 b2 r3 : J r1 b1 r2 -> J r2 b2 r3 -> J r1 (b1 ++ b2) r3;
}.

(** [bs] was taken from the stream. *)
Definition taken {R} (v : R -> stream) (r : R) (bs : bytes) (r' : R) : Prop :=
  v r = mkStream (bs ++ s_data (v r')) (s_err (v r')).

(** [bs] was subtracted from [N]. *)
Definition limited_records {R} (J : R -> bytes -> R -> Prop) (l : LimitedReader R) (bs : bytes)
    (l' : LimitedReader R) : Prop :=
  lr_N l' = lr_N l - len bs /\ J (lr_R l) bs (lr_R l').

(** [bs] was written to the hash. *)
Definition tee_records {R} (J : R -> bytes -> R -> Prop) (t : TeeReader R) (bs : bytes)
    (t' : TeeReader R) : Prop :=
  tee_w t' = tee_w t ++ bs /\ J (tee_r t) bs (tee_r t').

Lemma taken_journal {R} (v : R -> stream) : Journal (taken v).
Proof.
  unfold taken. split; [intros r; by destruct (v r)|]. intros r1 b1 r2 b2 r3 H1 H2.
  rewrite H2 in H1. cbn [s_data s_err] in H1. by rewrite <- app_assoc.
Qed.

Lemma limited_journal {R} (J : R -> bytes -> R -> Prop) : Journal J -> Journal (limited_records J).
Proof.
  intros [HJ1 HJ2]. split.
  - intros l. split; [rewrite len_nil; lia|done].
  - intros l1 b1 l2 b2 l3 [H1 H2] [H3 H4]. split; [rewrite H3, H1, len_app; lia|eauto].
Qed.

Lemma tee_journal {R} (J : R -> bytes -> R -> Prop) : Journal J -> Journal (tee_records J).
Proof.
  intros [HJ1 HJ2]. split.
  - intros t. split; [by rewrite app_nil_r|done].
  - intros t1 b1 t2 b2 t3 [H1 H2] [H3 H4]. split; [by rewrite H3, H1, app_assoc|eauto].
Qed.

(** Which the raw readers keep. *)
Definition keeps_raw {R} `{RawReader R} (J : R -> bytes -> R -> Prop) : Prop :=
  forall n r bs e r', 0 < n -> Read n r = (bs, e, r') -> J r bs r'.

Section RawRecords.
Context {R : Type} {HR : RawReader R}.

Lemma taken_raw {HS : RawSpec R} : keeps_raw (taken raw_view).
Proof. intros n r bs e r' Hn Hr. by apply raw_Read in Hr as (_ & Hv & _). Qed.

Lemma limited_keeps J : Journal J -> keeps_raw J -> keeps_raw (limited_records J).
Proof.
  intros HJ Hk n [r N] bs e l' Hn. unfold Read, limited_raw, limited_Read. cbn [lr_N lr_R].
  destruct (Z.leb_spec N 0) as [HN|HN].
  { intros [= <- <- <-]. by apply (journal_refl _ (limited_journal J HJ)). }
  destruct (Read _ r) as [[b1 e1] r1] eqn:Er. intros [= <- <- <-].
  split; [done|]. eapply Hk; [|exact Er]. rewrite Z.gtb_ltb. destruct (Z.ltb_spec N n); lia.
Qed.

Lemma tee_keeps J : keeps_raw J -> keeps_raw (tee_records J).
Proof.
  intros Hk n [r w] bs e t' Hn. unfold Read, tee_raw, tee_Read. cbn [tee_r tee_w].
  destruct (Read n r) as [[b1 e1] r1] eqn:Er. intros [= <- <- <-]. split; [|by eapply Hk].
  cbn [tee_w]. rewrite Z.gtb_ltb. destruct (Z.ltb_spec 0 (len b1)) as [|Hz]; [done|].
  pose proof (len_nonneg b1). rewrite (len_0_inv b1) by lia. by rewrite app_nil_r.
Qed.
End RawRecords.

(** And the readers of the model. *)
Definition keeps {R} `{Reader R} (J : R -> bytes -> R -> Prop) : Prop :=
  (forall n r bs e r', Pull n r = (bs, e, r') -> J r bs r') /\
  (forall r bs e r', PullAll r = (bs, e, r') -> J r bs r').

Lemma stream_pull_app n s bs e s' :
  stream_pull n s = (bs, e, s') -> s = mkStream (bs ++ s_data s') (s_err s').
Proof.
  destruct s as [d er]. unfold stream_pull. cbn [s_data s_err].
  case_match; intros [= <- <- <-]; cbn [s_data s_err]; [by rewrite take_drop|by rewrite app_nil_r].
Qed.

Section PullRecords.
Context {R : Type} {HR : Reader R}.

Lemma taken_keeps {HS : ReaderSpec R} : keeps (taken view).
Proof.
  split; [intros n r|intros r]; intros bs e r' Hp; unfold taken.
  - pose proof (view_Pull n r) as Hv. rewrite Hp in Hv. by eapply stream_pull_app.
  - pose proof (view_PullAll r) as Hv. rewrite Hp in Hv. destruct Hv as (<- & <- & ->).
    cbn [s_data s_err]. rewrite app_nil_r. by destruct (view r).
Qed.

Lemma limited_reader_keeps J : keeps J -> keeps (limited_records J).
Proof.
  intros [Hp _]. split; [intros n [r N]|intros [r N]]; intros bs e l'.
  - cbn [Pull limited_reader]. unfold limited_pull. cbn [lr_N lr_R].
    destruct (n <=? _); destruct (Pull _ r) as [[b1 e1] r1] eqn:Er; intros [= <- <- <-];
      apply Hp in Er; done.
  - cbn [PullAll limited_reader lr_N lr_R]. destruct (Pull _ r) as [[b1 e1] r1] eqn:Er.
    intros [= <- <- <-]. by apply Hp in Er.
Qed.

Lemma tee_reader_keeps J : keeps J -> keeps (tee_records J).
Proof.
  intros [Hp Ha]. split; [intros n [r w]|intros [r w]]; intros bs e t'.
  - cbn [Pull tee_reader tee_r tee_w]. destruct (Pull n r) as [[b1 e1] r1] eqn:Er.
    intros [= <- <- <-]. by apply Hp in Er.
  - cbn [PullAll tee_reader tee_r tee_w]. destruct (PullAll r) as [[b1 e1] r1] eqn:Er.
    intros [= <- <- <-]. by apply Ha in Er.
Qed.
End PullRecords.

(** ** Readers that cannot be told apart *)

(** Equal values, and readers in the relation. *)
Definition same {A R S} (P : R -> S -> Prop) (x : A * R) (y : A * S) : Prop :=
  fst x = fst y /\ P (snd x) (snd y).

Record Simulation {R S : Type} `{Reader R} `{Reader S} (P : R -> S -> Prop) : Prop := {
  sim_Pull n r s : P r s -> same P (Pull n r) (Pull n s);
  sim_PullAll r s : P r s -> same P (PullAll r) (PullAll s);
  sim_AsBuffer r s : P r s -> AsBuffer r = AsBuffer s;
}.

(** Two calls that are simulated: their values become one variable. *)
Ltac sim_step H :=
  match type of H with
  | same _ ?x ?y =>
      let a := fresh "a" in let a' := fresh "a" in let r := fresh "r" in let s := fresh "s" in
      let Ha := fresh "Ha" in
      destruct x as [a r]; destruct y as [a' s]; destruct H as [Ha H]; cbn [fst snd] in Ha, H;
      subst a'
  end.

Section Simulations.
Context {R S : Type} {HR : Reader R} {HS : Reader S} (P : R -> S -> Prop) (HP : Simulation P).

Lemma ReadFull_sim n r s : P r s -> same P (ReadFull n r) (ReadFull n s).
Proof.
  intros Hrs. unfold ReadFull. pose proof (sim_Pull _ HP n _ _ Hrs) as Hp. sim_step Hp.
  by destruct a.
Qed.

Lemma DiscardAll_sim r s : P r s -> same P (DiscardAll r) (DiscardAll s).
Proof.
  intros Hrs. unfold DiscardAll. pose proof (sim_PullAll _ HP _ _ Hrs) as Hp. sim_step Hp.
  by destruct a.
Qed.

Lemma run_sim {A} (d : Dec A) r s : P r s -> same P (run d r) (run d s).
Proof.
  revert r s. induction d as [a|e|n k IH|k IH]; intros r s Hrs; cbn [run]; try done.
  - pose proof (ReadFull_sim n _ _ Hrs) as Hp. sim_step Hp. destruct a. by apply IH.
  - rewrite (sim_AsBuffer _ HP _ _ Hrs). by apply IH.
Qed.

Lemma readChunks_sim n N r s : P r s ->
  P (Nat.iter n (fun r => snd (ReadFull N r)) r) (Nat.iter n (fun s => snd (ReadFull N s)) s).
Proof. intros Hrs. induction n as [|n IH]; [done|]. by apply ReadFull_sim. Qed.

Lemma discardInput_sim n r s : P r s -> P (discardInput n r) (discardInput n s).
Proof.
  intros Hrs. unfold discardInput. case_match.
  - destruct (n >? 0); apply ReadFull_sim; [by apply readChunks_sim|done].
  - destruct (n >? 0); [by apply readChunks_sim|done].
Qed.

Lemma readMessageHeader_sim r s : P r s -> same P (readMessageHeader r) (readMessageHeader s).
Proof.
  intros Hrs. unfold readMessageHeader. pose proof (ReadFull_sim MessageHeaderSize _ _ Hrs) as Hp.
  sim_step Hp. by destruct a as [bs [e|]].
Qed.
End Simulations.

(** [ReadMessageStreamingN] with the readers it puts around the connection as
    parameters: [io.LimitedReader] and [io.TeeReader] over it.  With those of
    [Io] it is the function of [Message] ([streamingWith_model]); with
    [raw_reader] each of them is run [Read] by [Read]. *)
Section StreamingWith.
Context `{Limits} `{Externals} {R : Type} {HR : Reader R}.
Context (HL : Reader (LimitedReader R)) (HT : Reader (TeeReader (LimitedReader R))).

Definition streamingWith (hs : Handlers (R:=R)) (pver bsvnet : Z) (r : R) :
    Message.Read * R :=
  let '(n, hdr, r) := readMessageHeader r in
  match hdr with
  | Err e => (readFail n e, r)
  | Ok hdr =>
    let '(c, r) := checkHeader true hdr pver bsvnet r in
    match c with
    | inl e => (readFail n e, r)
    | inr (k, length) =>
      match hs !! h_command hdr with
      | Some handler =>
          let '(x, r) := handler r length n in
          (mkRead (rd_n x) (rd_msg x) [] (rd_err x), r)
      | None =>
        let verifyChecksum := negb (length =? 0xffffffff) && (h_extLength hdr =? 0) in
        let limited := mkLimited r (to_i64 length) in
        let close (l : LimitedReader R) : R := lr_R (snd (DiscardAll l)) in
        let consumed (l : LimitedReader R) : Z := to_i64 length - lr_N l in
        if verifyChecksum then
          let '(x, src) := run (Bsvdecode (kind_type k) pver) (mkTee limited []) in
          match x with
          | Err e => (readFail (n + consumed (tee_r src)) e, close (tee_r src))
          | Ok m =>
              let '(copyErr, src) := DiscardAll src in
              match copyErr with
              | Some e => (readFail (n + consumed (tee_r src)) e, close (tee_r src))
              | None =>
                  let checksum := take 4 (Sum256 (Sum256 (tee_w src))) in
                  if negb (bool_decide (checksum = h_checksum hdr))
                  then (readFail (n + length) (checksumFailed hdr checksum), close (tee_r src))
                  else (mkRead (n + length) (Some (mkMessage k m)) [] None, close (tee_r src))
              end
          end
        else
          let '(x, src) := run (Bsvdecode (kind_type k) pver) limited in
          match x with
          | Err e => (readFail (n + consumed src) e, close src)
          | Ok m =>
              let '(copyErr, src) := DiscardAll src in
              match copyErr with
              | Some e => (readFail (n + consumed src) e, close src)
              | None => (mkRead (n + length) (Some (mkMessage k m)) [] None, close src)
              end
          end
      end
    end
  end.
End StreamingWith.

Lemma streamingWith_model `{Limits} `{Externals} `{Reader R} hs pver bsvnet (r : R) :
  streamingWith limited_reader tee_reader hs pver bsvnet r = ReadMessageStreamingN hs pver bsvnet r.
Proof. reflexivity. Qed.

Section MessageSimulation.
Context `{Limits} `{Externals}.
Context {R S : Type} {HR : Reader R} {HS : Reader S} (P : R -> S -> Prop) (HP : Simulation P).

Lemma checkHeader_sim b hdr pver bsvnet r s : P r s ->
  same P (checkHeader b hdr pver bsvnet r) (checkHeader b hdr pver bsvnet s).
Proof.
  intros Hrs. unfold checkHeader. repeat case_match; (split; [done|]); cbn [snd]; try done;
    by apply discardInput_sim.
Qed.

(** Handlers that cannot tell the readers apart either. *)
Definition handlers_sim (hs : Handlers (R:=R)) (gs : Handlers (R:=S)) : Prop :=
  forall cmd, option_Forall2 (fun f g => forall L n r s, P r s -> same P (f r L n) (g s L n))
    (hs !! cmd) (gs !! cmd).

Lemma handlers_sim_empty : handlers_sim ∅ ∅.
Proof. intros cmd. constructor. Qed.

Context (HL : Reader (LimitedReader R)) (HM : Reader (LimitedReader S)).
Context (HT : Reader (TeeReader (LimitedReader R))) (HU : Reader (TeeReader (LimitedReader S))).

(** Limited readers over related readers, and tees over those. *)
Definition limitedP (l : LimitedReader R) (m : LimitedReader S) : Prop :=
  lr_N l = lr_N m /\ P (lr_R l) (lr_R m).
Definition teeP (t : TeeReader (LimitedReader R)) (u : TeeReader (LimitedReader S)) : Prop :=
  tee_w t = tee_w u /\ limitedP (tee_r t) (tee_r u).

Context (SL : Simulation limitedP) (ST : Simulation teeP).

(** The deferred drain. *)
Lemma close_sim (l : LimitedReader R) (m : LimitedReader S) :
  limitedP l m -> P (lr_R (snd (DiscardAll l))) (lr_R (snd (DiscardAll m))).
Proof. intros Hl. by apply (DiscardAll_sim _ SL) in Hl as (_ & _ & ?). Qed.

Lemma streamingWith_sim hs gs pver bsvnet r s : handlers_sim hs gs -> P r s ->
  same P (streamingWith HL HT hs pver bsvnet r) (streamingWith HM HU gs pver bsvnet s).
Proof.
  intros Hhs Hrs. unfold streamingWith.
  pose proof (readMessageHeader_sim P HP _ _ Hrs) as H1. sim_step H1.
  destruct a as [n [hdr|e]]; [|done].
  pose proof (checkHeader_sim true hdr pver bsvnet _ _ H1) as H2. sim_step H2.
  destruct a as [e|[k L]]; [done|]. destruct (Hhs (h_command hdr)) as [f g Hfg|].
  { pose proof (Hfg L n _ _ H2) as H3. by sim_step H3. }
  assert (limitedP (mkLimited r1 (to_i64 L)) (mkLimited s1 (to_i64 L))) as Hl by done.
  destruct (negb (L =? 0xffffffff) && (h_extLength hdr =? 0)).
  - assert (teeP (mkTee (mkLimited r1 (to_i64 L)) []) (mkTee (mkLimited s1 (to_i64 L)) [])) as H3 by done.
    apply (run_sim _ ST (Bsvdecode (kind_type k) pver)) in H3. sim_step H3. destruct a as [m|e].
    2: { destruct H3 as (_ & H4). split; cbn [fst snd]; [by rewrite (proj1 H4)|by apply close_sim]. }
    pose proof (DiscardAll_sim _ ST _ _ H3) as H4. sim_step H4. destruct H4 as (H4 & H5).
    destruct a as [e|]; [|rewrite H4; case_match];
      (split; cbn [fst snd]; [by rewrite ?(proj1 H5)|by apply close_sim]).
  - apply (run_sim _ SL (Bsvdecode (kind_type k) pver)) in Hl. sim_step Hl. destruct a as [m|e].
    2: { split; cbn [fst snd]; [by rewrite (proj1 Hl)|by apply close_sim]. }
    pose proof (DiscardAll_sim _ SL _ _ Hl) as H4. sim_step H4.
    destruct a as [e|]; (split; cbn [fst snd]; [by rewrite ?(proj1 H4)|by apply close_sim]).
Qed.
End MessageSimulation.

(** *** [Read] by [Read] *)

(** A raw reader and a reader of the model are simulated when their journals
    keep the relation and it gives the same bytes to come. *)
Lemma raw_simulation {R S} `{RawSpec R} `{ReaderSpec S} J K (P : R -> S -> Prop) :
  Journal J -> keeps_raw J -> keeps K ->
  (forall r s, P r s -> raw_view r = view s) -> (forall s, AsBuffer s = None) ->
  (forall r s bs r' s', P r s -> J r bs r' -> K s bs s' -> P r' s') ->
  @Simulation _ _ raw_reader _ P.
Proof.
  intros [HJ1 HJ2] HJ [HK1 HK2] Hview Hb Hstep. split.
  - intros n r s Hrs. pose proof (view_Pull n s) as Hv. rewrite <- (Hview _ _ Hrs) in Hv.
    cbn [Pull raw_reader]. destruct (pullRaw _ n r) as [[b1 e1] r1] eqn:E1.
    destruct (Pull n s) as [[b2 e2] s1] eqn:E2.
    rewrite (pullRaw_spec _ _ _ _ _ E1) in Hv. injection Hv as <- <- Hv.
    split; [done|]. eapply Hstep; [done|by eapply (pullRaw_recorded J)|by eapply HK1].
  - intros r s Hrs. pose proof (view_PullAll s) as Hv. rewrite <- (Hview _ _ Hrs) in Hv.
    cbn [PullAll raw_reader].
    destruct (copyLoop_spec (copyFuel r) [] r) as (r1 & E1 & Hr'); [unfold copyFuel; lia|].
    rewrite E1. destruct (PullAll s) as [[b2 e2] s1] eqn:E2. destruct Hv as (<- & <- & Hv).
    split; [done|]. apply (copyLoop_recorded J) in E1 as (c & Hc & E1); try done.
    rewrite !app_nil_l in Hc. subst c. eapply Hstep; [done..|by eapply HK2].
  - intros r s _. by rewrite Hb.
Qed.

Section Refinement.
Context {R : Type} {RR : RawReader R} {RS : RawSpec R}.
Context {S : Type} {HS : Reader S} {VS : ReaderSpec S} {US : Unbuffered S}.

Definition raw_sim (r : R) (s : S) : Prop := raw_view r = view s.

Definition limitedRaw_sim (l : LimitedReader R) (m : LimitedReader S) : Prop :=
  lr_N l = lr_N m /\ raw_sim (lr_R l) (lr_R m).

Definition teeRaw_sim (t : TeeReader (LimitedReader R)) (u : TeeReader (LimitedReader S)) : Prop :=
  tee_w t = tee_w u /\ limitedRaw_sim (tee_r t) (tee_r u).

Lemma taken_sim r s bs r' s' :
  raw_sim r s -> taken raw_view r bs r' -> taken view s bs s' -> raw_sim r' s'.
Proof.
  unfold raw_sim, taken. intros H1 H2 H3. rewrite H1, H3 in H2. injection H2 as H2 H4.
  apply app_inv_head in H2. destruct (raw_view r') as [d1 e1], (view s') as [d2 e2]. simpl in *. congruence.
Qed.

Lemma limited_taken_sim l m bs l' m' :
  limitedRaw_sim l m -> limited_records (taken raw_view) l bs l' ->
  limited_records (taken view) m bs m' -> limitedRaw_sim l' m'.
Proof.
  intros [H1 H2] [H3 H4] [H5 H6]. split; [by rewrite H3, H5, H1|by eapply taken_sim].
Qed.

Lemma raw_simulates : @Simulation _ _ raw_reader _ raw_sim.
Proof.
  apply (raw_simulation (taken raw_view) (taken view)); [apply taken_journal|apply taken_raw| |done|done|].
  - apply taken_keeps.
  - apply taken_sim.
Qed.

Lemma limited_simulates : @Simulation _ _ raw_reader limited_reader limitedRaw_sim.
Proof.
  apply (raw_simulation (limited_records (taken raw_view)) (limited_records (taken view)));
    [| | | |done|apply limited_taken_sim].
  - apply limited_journal, taken_journal.
  - apply limited_keeps; [apply taken_journal|apply taken_raw].
  - apply limited_reader_keeps, taken_keeps.
  - intros l m [H1 H2]. cbn [raw_view limited_rawspec view limited_spec]. by rewrite H1, H2.
Qed.

Lemma tee_simulates : @Simulation _ _ raw_reader tee_reader teeRaw_sim.
Proof.
  apply (raw_simulation (tee_records (limited_records (taken raw_view)))
           (tee_records (limited_records (taken view)))); [| | | |done|].
  - apply tee_journal, limited_journal, taken_journal.
  - apply tee_keeps, limited_keeps; [apply taken_journal|apply taken_raw].
  - apply tee_reader_keeps, limited_reader_keeps, taken_keeps.
  - intros t u (H1 & H2 & H3).
    cbn [raw_view tee_rawspec limited_rawspec view tee_spec limited_spec]. by rewrite H2, H3.
  - intros t u bs t' u' [H1 H2] [H3 H4] [H5 H6]. split; [by rewrite H3, H5, H1|].
    by eapply limited_taken_sim.
Qed.
End Refinement.

(** [ReadMessageStreamingN] over a connection, with [io.ReadFull],
    [io.LimitedReader], [io.TeeReader] and [io.Copy] as the loops and wrappers
    above, call by call. *)
Section ReadRaw.
Context `{Limits} `{Externals} {R : Type} {RR : RawReader R} {RS : RawSpec R}.

Definition ReadMessageStreamingN_raw : Handlers (R:=R) -> Z -> Z -> R -> Message.Read * R :=
  streamingWith (HR:=raw_reader) raw_reader raw_reader.

Context {S : Type} {HS : Reader S} {VS : ReaderSpec S} {US : Unbuffered S}.

(** Run [Read] by [Read] through [io.TeeReader(&io.LimitedReader{R, N}, hash)], it
    returns what it returns over whole pulls. *)
Lemma ReadMessageStreamingN_raw_refines hs gs pver bsvnet (r : R) (s : S) :
  raw_view r = view s -> handlers_sim raw_sim hs gs ->
  let '(x, r') := ReadMessageStreamingN_raw hs pver bsvnet r in
  let '(y, s') := ReadMessageStreamingN gs pver bsvnet s in
  x = y /\ raw_view r' = view s'.
Proof.
  intros Hrs Hhs.
  pose proof (streamingWith_sim raw_sim raw_simulates raw_reader limited_reader raw_reader tee_reader
    limited_simulates tee_simulates hs gs pver bsvnet r s Hhs Hrs) as He.
  rewrite streamingWith_model in He. fold ReadMessageStreamingN_raw in He. by sim_step He.
Qed.
End ReadRaw.

(** ** A conversation *)

Section Conversation.
Context `{Limits} `{ExternalsSpec}.

(** What is on the wire after [WriteMessageN] has been called for each of the
    messages. *)
Definition sent (pver bsvnet : Z) (msgs : list Message) : bytes :=
  b_data (fold_left (fun w m => snd (WriteMessageN w m pver bsvnet)) msgs (mkBuffer [])).

Lemma sent_packets pver bsvnet msgs :
  Forall (sendable pver) msgs -> sent pver bsvnet msgs = concat (map (packet pver bsvnet) msgs).
Proof.
  intros Hm. unfold sent. change (concat (map (packet pver bsvnet) msgs))
    with (b_data (mkBuffer []) ++ concat (map (packet pver bsvnet) msgs)).
  generalize (mkBuffer []). induction Hm as [|m msgs Hs _ IH]; intros w; cbn [fold_left map concat].
  { by rewrite app_nil_r. }
  rewrite IH, WriteMessageN_writes by done. cbn [Write buffer_writer snd b_data]. by rewrite app_assoc.
Qed.

Context {R : Type} {RR : RawReader R} {RS : RawSpec R}.

(** One call of a reading function, and several, [Read] by [Read]. *)
Definition readNextRaw (streaming : bool) (pver bsvnet : Z) (r : R) : Message.Read * R :=
  if streaming then ReadMessageStreamingN_raw ∅ pver bsvnet r
  else ReadMessageN (H1:=raw_reader) ∅ pver bsvnet r.

Fixpoint readAllRaw (calls : list bool) (pver bsvnet : Z) (r : R) : list Message.Read * R :=
  match calls with
  | [] => ([], r)
  | streaming :: calls =>
      let '(x, r) := readNextRaw streaming pver bsvnet r in
      let '(xs, r) := readAllRaw calls pver bsvnet r in (x :: xs, r)
  end.

(** What is to be returned for a message that was sent. *)
Definition delivery (pver bsvnet : Z) (call : bool) (m : Message) : Message.Read :=
  mkRead (len (packet pver bsvnet m)) (Some m) (if call then [] else payload pver m) None.

Lemma readNextRaw_delivers (call : bool) pver bsvnet m (r : R) rest e :
  sendable pver m -> symmetric (m_kind m) -> (call = true -> m_kind m <> KVersion) ->
  is_u32 bsvnet -> raw_view r = mkStream (packet pver bsvnet m ++ rest) e ->
  exists r', readNextRaw call pver bsvnet r = (delivery pver bsvnet call m, r') /\
    raw_view r' = mkStream rest e.
Proof.
  intros Hs [Hk _] Hv Hnet Hr. unfold delivery. rewrite len_packet. destruct call; cbn [readNextRaw].
  - destruct (packet_read (R:=stream) ∅ pver bsvnet m (raw_view r) rest e Hs Hk ltac:(done) Hnet Hr)
      as [_ (s' & Es & Hs')]; [by apply Hv|].
    pose proof (ReadMessageStreamingN_raw_refines (S:=stream) ∅ ∅ pver bsvnet r (raw_view r) eq_refl
      (handlers_sim_empty _)) as Hx. rewrite Es in Hx.
    destruct (ReadMessageStreamingN_raw ∅ pver bsvnet r) as [x r']. destruct Hx as [-> Hx].
    exists r'. by rewrite Hx.
  - destruct (packet_read (HR:=raw_reader) (HS:=raw_readerspec) ∅ pver bsvnet m r rest e Hs Hk
      ltac:(done) Hnet Hr) as [(r' & Er & Hr') _]. by exists r'.
Qed.

(** C5: a conversation over a connection that is read [Read] call by [Read]
    call.  The sender calls [WriteMessageN] for any well-formed messages (of
    the types whose decoder inverts their encoder), the network delivers the
    bytes in pieces of any size, also empty ones, and the receiver calls
    [ReadMessageN] or [ReadMessageStreamingN] (not for a version message) as it
    likes: it gets exactly those messages in order, with their byte counts, and
    what follows them is left on the connection. *)
Theorem Segmented_conversation pver bsvnet (calls : list bool) (msgs : list Message) (r : R) rest e :
  Forall2 (fun (call : bool) m => sendable pver m /\ symmetric (m_kind m) /\
             (call = true -> m_kind m <> KVersion)) calls msgs ->
  is_u32 bsvnet -> raw_view r = mkStream (sent pver bsvnet msgs ++ rest) e ->
  exists r', readAllRaw calls pver bsvnet r = (zip_with (delivery pver bsvnet) calls msgs, r') /\
    raw_view r' = mkStream rest e.
Proof.
  intros HF Hnet Hr. rewrite sent_packets in Hr.
  2: { eapply Forall2_Forall_r; [exact HF|]. apply list.Forall_true. by intros c m (Hs & _). }
  revert r Hr. induction HF as [|call m calls msgs (Hs & Hk & Hv) _ IH]; intros r Hr; [by exists r|].
  cbn [map concat] in Hr. rewrite <- app_assoc in Hr.
  destruct (readNextRaw_delivers call pver bsvnet m r _ e Hs Hk Hv Hnet Hr) as (r1 & E1 & Hr1).
  destruct (IH r1 Hr1) as (r2 & E2 & Hr2). exists r2. split; [|done].
  cbn [readAllRaw zip_with]. by rewrite E1, E2.
Qed.
End Conversation.

(** ** Witnesses *)

Section Examples.
#[local] Existing Instance defaultLimits.
#[local] Existing Instance refExternals.
#[local] Existing Instance refExternals_spec.

(** Two pings, in pieces that do not respect the frames. *)
Definition pingsInPieces : conn :=
  mkConn [take 5 pingFrame; []; drop 5 pingFrame ++ take 30 pingFrame; drop 30 pingFrame ++ [Byte.x2a]]
    EOF true.

Lemma Segmented_conversation_witness :
  exists r', readAllRaw [true; false] 70016 MainNet pingsInPieces =
      ([mkRead 32 (Some examplePing) [] None;
        mkRead 32 (Some examplePing) (payload 70016 examplePing) None], r') /\
    raw_view r' = mkStream [Byte.x2a] EOF.
Proof.
  destruct (Segmented_conversation (R:=conn) 70016 MainNet [true; false] [examplePing; examplePing]
    pingsInPieces [Byte.x2a] EOF) as (r' & Hr & Hv).
  - repeat constructor; first [exact examplePing_sendable|discriminate].
  - split; vm_compute; [discriminate|reflexivity].
  - vm_compute. reflexivity.
  - exists r'. split; [|exact Hv]. rewrite Hr. vm_compute. reflexivity.
Defined.
End Examples.
