(* ===== verification/Frames.v ===== *)
(** * Frames are independent

    On a connection the frames of messages follow each other.  What a reading
    function returns for one of them (the message or the error, and the byte
    count) is what it returns for that frame alone: neither a frame before it,
    however malformed, nor anything behind it makes a difference, and every
    reader of the same connection, buffering or streaming, is in step
    ([Frames_independent]). *)

From S2P Require Import Prelude Io Common Sha256 Externals InvVect BlockHeader Protocol NetAddress.
From S2P Require Import Tx Block MsgIface MsgInventory MsgControl MsgFilter ExtendedTx Version.
From S2P Require Import Message Framing Relay.

Section Frames.
Context `{Limits} `{ExternalsSpec}.

(** 24 bytes of header, of any content, and as many bytes as it announces, at
    most the overall maximum.  The length 2^32 - 1 is left out: for any command
    the code takes it for the mark of an extended message, of length 0
    ([ReadMessage_aligned]). *)
Record frame (f : bytes) : Prop := {
  frame_whole : len f = MessageHeaderSize + h_length (parseHeader (take 24 f));
  frame_max : h_length (parseHeader (take 24 f)) <= maxMessagePayload;
  frame_normal : h_length (parseHeader (take 24 f)) <> 0xffffffff;
}.

(** Whether a header passes the checks does not depend on the connection. *)
Lemma checkHeader_fst {R S} `{Reader R} `{Reader S} b hdr pver bsvnet (r : R) (s : S) :
  fst (checkHeader b hdr pver bsvnet r) = fst (checkHeader b hdr pver bsvnet s).
Proof. unfold checkHeader. repeat case_match; done. Qed.

Section Front.
Context {R : Type} {HR : Reader R} {HS : ReaderSpec R}.
Context (f rest : bytes) (e : error) (Hf : frame f) (r : R) (Hr : view r = mkStream (f ++ rest) e).

Lemma front_len : 24 <= len f.
Proof.
  destruct Hf as [Hw _ _]. pose proof (parseHeader_length (take 24 f)).
  unfold MessageHeaderSize in Hw. zlia.
Qed.

Lemma front_header : nextHeader r = parseHeader (take 24 f).
Proof.
  unfold nextHeader. rewrite Hr. cbn [s_data]. pose proof front_len.
  rewrite take_app_le by zlia. done.
Qed.

Lemma front_read :
  exists r1, readMessageHeader r = (MessageHeaderSize, Ok (parseHeader (take 24 f)), r1) /\
    view r1 = mkStream (drop 24 f ++ rest) e /\ h_extLength (parseHeader (take 24 f)) = 0.
Proof.
  pose proof front_len. destruct (readMessageHeader_Ok r) as (r1 & Er & Hv & _ & Hx).
  { rewrite Hr. cbn [s_data]. unfold MessageHeaderSize. len_lia. }
  rewrite front_header in *. exists r1. split_and!; [done| |done]. rewrite Hv, Hr. unfold advance.
  cbn [s_data s_err]. change (Z.to_nat MessageHeaderSize) with 24%nat. rewrite drop_app_le by zlia. done.
Qed.

(** Where a reading function stops. *)
Lemma front_consumed (streaming : bool) pver bsvnet :
  view (snd (readNext streaming pver bsvnet r)) = mkStream rest e.
Proof.
  pose proof front_len. destruct Hf as [Hw Hm Hn].
  assert (view (snd (readNext streaming pver bsvnet r)) =
          advance (frameSize (nextHeader r)) (view r)) as ->.
  { unfold readNext. assert (MessageHeaderSize <= len (s_data (view r))).
    { rewrite Hr. cbn [s_data]. unfold MessageHeaderSize. len_lia. }
    rewrite <- front_header in Hn.
    destruct streaming; [by apply frame_aligned_streaming|by apply frame_aligned_buffered]. }
  rewrite front_header, Hr. unfold frameSize, advance. rewrite gtb_false by done. cbn [s_data s_err].
  by rewrite <- Hw, to_nat_len, drop_app_length.
Qed.

(** The payload, which is all that is handed to a decoder. *)
Lemma front_body r1 :
  view r1 = mkStream (drop 24 f ++ rest) e ->
  let L := h_length (parseHeader (take 24 f)) in
  L <= len (s_data (view r1)) /\ body r1 L = drop 24 f.
Proof.
  intros Hv L. pose proof front_len. destruct Hf as [Hw _ _]. fold L in Hw.
  assert (len (drop 24 f) = L) as Hl by (unfold len, MessageHeaderSize in *; rewrite length_drop; lia).
  unfold body. rewrite Hv. cbn [s_data]. split; [len_lia|].
  by rewrite <- Hl, to_nat_len, take_app_length.
Qed.
End Front.

(** One frame, read from any connection that begins with it. *)
Lemma frame_read {R S} `{ReaderSpec R} `{ReaderSpec S} (streaming : bool) pver bsvnet f rest e rest' e'
    (r : R) (s : S) :
  frame f -> view r = mkStream (f ++ rest) e -> view s = mkStream (f ++ rest') e' ->
  fst (readNext streaming pver bsvnet r) = fst (readNext streaming pver bsvnet s).
Proof.
  intros Hf Hr Hs. set (hdr := parseHeader (take 24 f)).
  destruct (front_read f rest e Hf r Hr) as (r1 & Er & Hv & Hx).
  destruct (front_read f rest' e' Hf s Hs) as (s1 & Es & Hw & _). fold hdr in Er, Es, Hx.
  pose proof (parseHeader_length (take 24 f)) as Hu. fold hdr in Hu.
  pose proof (checkHeader_fst streaming hdr pver bsvnet r1 s1) as Hc.
  destruct (checkHeader streaming hdr pver bsvnet r1) as [c r2] eqn:Ec.
  destruct (checkHeader streaming hdr pver bsvnet s1) as [c' s2] eqn:Ec'.
  cbn [fst] in Hc. subst c'. destruct c as [err|[k L]].
  { unfold readNext, ReadMessageN, ReadMessageWithEncodingN, ReadMessageStreamingN.
    by destruct streaming; rewrite Er, Ec, Es, Ec'. }
  pose proof (view_checkHeader streaming hdr pver bsvnet r1 (proj1 Hu) Hx) as Hv1.
  pose proof (view_checkHeader streaming hdr pver bsvnet s1 (proj1 Hu) Hx) as Hv2.
  rewrite Ec in Hv1. rewrite Ec' in Hv2.
  destruct Hv1 as (-> & _ & HL & Hk & Hver), Hv2 as (-> & _).
  pose proof (frame_normal _ Hf) as Hn. fold hdr in Hn. specialize (HL Hn). subst L.
  destruct (front_body f rest e Hf r1 Hv) as [Hl1 Hb1], (front_body f rest' e' Hf s1 Hw) as [Hl2 Hb2].
  fold hdr in Hl1, Hb1, Hl2, Hb2. unfold readNext. destruct streaming.
  - assert (k <> KVersion) as Hkv by (intros ->; apply (Hver eq_refl); by apply makeEmptyMessage_inv in Hk).
    destruct (ReadMessageStreamingN_payload ∅ pver bsvnet r r1 hdr k _ Er (no_handlers _) Hx Hn Hu Hl1 Hkv Ec)
      as (r' & _ & ->).
    destruct (ReadMessageStreamingN_payload ∅ pver bsvnet s s1 hdr k _ Es (no_handlers _) Hx Hn Hu Hl2 Hkv Ec')
      as (s' & _ & ->).
    cbn [fst]. unfold decoded, unread, sumOk. by rewrite Hb1, Hb2.
  - destruct (ReadMessageN_payload ∅ pver bsvnet r r1 hdr k _ Er (no_handlers _) Hx Hn Hu Hl1 Ec)
      as (r' & _ & ->).
    destruct (ReadMessageN_payload ∅ pver bsvnet s s1 hdr k _ Es (no_handlers _) Hx Hn Hu Hl2 Ec')
      as (s' & _ & ->).
    cbn [fst]. unfold decoded, sumOk. by rewrite Hb1, Hb2.
Qed.

(** What a call returns for a frame alone. *)
Definition alone (call : bool * Z * Z) (f : bytes) : Read :=
  let '(streaming, pver, bsvnet) := call in fst (readNext streaming pver bsvnet (mkStream f EOF)).

(** C6: frames do not influence each other.  On a connection that delivers
    complete frames one after the other, of a length of at most the maximum and
    other than the mark 2^32 - 1, whatever they contain (damaged payloads,
    unknown commands, other networks), reading them with any mixture of the two
    functions and of protocol versions gives for each frame exactly what
    reading that frame alone gives, and leaves what follows the last one. *)
Theorem Frames_independent {R} `{ReaderSpec R} calls fs (r : R) rest e :
  Forall frame fs -> length calls = length fs ->
  view r = mkStream (concat fs ++ rest) e ->
  fst (readMany calls r) = zip_with alone calls fs /\
  view (snd (readMany calls r)) = mkStream rest e.
Proof.
  intros Hfs. revert calls r. induction Hfs as [|f fs Hf _ IH]; intros calls r Hl Hr.
  { by destruct calls. }
  destruct calls as [|[[streaming pver] bsvnet] calls]; [done|]. injection Hl as Hl.
  cbn [concat] in Hr. rewrite <- app_assoc in Hr.
  pose proof (front_consumed f _ e Hf r Hr streaming pver bsvnet) as Hv.
  pose proof (frame_read streaming pver bsvnet f _ e [] EOF r (mkStream f EOF) Hf Hr) as Hx.
  rewrite app_nil_r in Hx. specialize (Hx eq_refl).
  cbn [readMany zip_with alone]. destruct (readNext streaming pver bsvnet r) as [x r1].
  cbn [fst snd] in Hx, Hv. destruct (IH calls r1 Hl Hv) as [Hxs Hrs].
  destruct (readMany calls r1) as [xs r2]. cbn [fst snd] in *. by rewrite Hx, Hxs.
Qed.
End Frames.

(** ** Witness: a damaged ping, a ping for another network, a whole ping *)

Section Examples.
#[local] Existing Instance defaultLimits.
#[local] Existing Instance refExternals.
#[local] Existing Instance refExternals_spec.

Definition otherFrame : bytes := headerBytes TestNet CmdPing 3 (zeros 4) ++ zeros 3.
Definition threeFrames : list bytes := [s_data damagedStream; otherFrame; pingFrame].
Definition threeCalls : list (bool * Z * Z) :=
  [(false, 70016, MainNet); (true, 70016, MainNet); (true, 70016, MainNet)].

Lemma threeFrames_ok : Forall frame threeFrames.
Proof.
  repeat constructor; vm_compute; first [reflexivity | discriminate].
Qed.

Lemma Frames_independent_witness :
  let r := mkStream (concat threeFrames ++ [Byte.x2a]) EOF in
  map rd_msg (zip_with alone threeCalls threeFrames) = [None; None; Some examplePing] /\
  fst (readMany threeCalls r) = zip_with alone threeCalls threeFrames /\
  view (snd (readMany threeCalls r)) = mkStream [Byte.x2a] EOF.
Proof.
  intros r. split; [vm_compute; reflexivity|].
  apply (Frames_independent (R:=stream) threeCalls threeFrames r [Byte.x2a] EOF threeFrames_ok);
    reflexivity.
Defined.
End Examples.
