(* ===== verification/Bounds.v ===== *)
(** * Buffers stay within the limits

    A length on the wire is an integer of up to 64 bits that anybody can send;
    the code makes a buffer of that length before the bytes are there.  Here
    the buffers are recorded: [AuditReader] is a reader that notes the length of
    every slice handed to [io.ReadFull].  [Buffers_bounded] shows that none is
    longer than the limits of the package, whatever a peer sends. *)

From S2P Require Import Prelude Io Common Sha256 Externals InvVect BlockHeader Protocol NetAddress.
From S2P Require Import Tx Mem Block MsgIface MsgInventory MsgControl MsgFilter ExtendedTx Version.
From S2P Require Import Message Framing Relay.

(** ** A reader that is watched *)

Record AuditReader (R : Type) := mkAudit { au_r : R; au_sizes : list Z }.
Arguments mkAudit {R} au_r au_sizes.
Arguments au_r {R} _.
Arguments au_sizes {R} _.

#[export] Instance audit_reader `{Reader R} : Reader (AuditReader R) := {
  Pull n a := let '(bs, e, r) := Pull n (au_r a) in (bs, e, mkAudit r (au_sizes a ++ [n]));
  PullAll a := let '(bs, e, r) := PullAll (au_r a) in (bs, e, mkAudit r (au_sizes a));
  AsBuffer a := AsBuffer (au_r a);
}.

(** ** Decoders whose buffers have a length in [P] *)

(** [Q] holds of what the decoder returns, if it returns. *)
Fixpoint within (P : Z -> Prop) {A} (Q : A -> Prop) (d : Dec A) : Prop :=
  match d with
  | DRet a => Q a
  | DFail _ => True
  | DRead n k => P n /\ forall x, within P Q (k x)
  | DLen k => forall x, within P Q (k x)
  end.

Section Within.
Context (P : Z -> Prop).

Definition anything {A} (_ : A) : Prop := True.

Lemma within_bind {A B} (Q : A -> Prop) (Q' : B -> Prop) (d : Dec A) (f : A -> Dec B) :
  within P Q d -> (forall a, Q a -> within P Q' (f a)) -> within P Q' (d ≫= f).
Proof.
  unfold mbind, Dec_bind. induction d as [a|e|n k IH|k IH]; simpl; auto.
  intros [Hn Hk] Hf. auto.
Qed.

Lemma within_dloop {St} n (body : St -> Dec St) st :
  (forall s, within P anything (body s)) -> within P anything (dloop n body st).
Proof.
  intros Hb. revert st. induction n as [|n IH]; intros st; [exact I|].
  by apply within_bind with (Q := anything).
Qed.

Lemma within_dtry {A} (d : Dec A) : within P anything d -> within P anything (dtry d).
Proof. induction d as [a|e|n k IH|k IH]; simpl; auto. intros [Hn Hk]. auto. Qed.

Lemma within_readFull n : P n -> within P anything (readFull n).
Proof. split; [done|]. by intros [bs [e|]]. Qed.

Lemma within_lift {A} (x : result A) : within P anything (lift x).
Proof. by destruct x. Qed.

Lemma within_run {R} `{Reader R} {A} (Q : A -> Prop) (d : Dec A) (a : AuditReader R) :
  within P Q d -> Forall P (au_sizes a) -> Forall P (au_sizes (snd (run d a))).
Proof.
  revert a. induction d as [x|e|n k IH|k IH]; intros a Hd Ha; cbn [run within] in *; try done.
  - unfold ReadFull. cbn [Pull audit_reader]. destruct (Pull n (au_r a)) as [[bs e] r].
    apply IH; [apply Hd|]. cbn [au_sizes]. apply Forall_app_2; [done|]. constructor; [apply Hd|constructor].
  - by apply IH.
Qed.
End Within.

(** ** Lengths that come from the wire *)

Definition upto (L n : Z) : Prop := 0 <= n <= L.

Lemma within_mono (P P' : Z -> Prop) {A} (Q Q' : A -> Prop) (d : Dec A) :
  (forall n, P n -> P' n) -> (forall a, Q a -> Q' a) -> within P Q d -> within P' Q' d.
Proof.
  intros HP HQ. induction d as [a|e|n k IH|k IH]; simpl; auto. intros [Hn Hk]. auto.
Qed.

Section Lengths.
Context (L : Z) (HL : 8 <= L).

Lemma within_uint o n : upto L n -> within (upto L) (fun v => 0 <= v) (buf ← readFull n; mret (get_uint o buf)).
Proof.
  intros Hn. eapply within_bind; [by apply within_readFull|]. intros bs _. apply get_uint_range.
Qed.

Lemma within_ReadVarInt : within (upto L) (fun v => 0 <= v) ReadVarInt.
Proof.
  unfold ReadVarInt. apply within_bind with (Q := fun v => 0 <= v).
  - eapply within_bind; [apply within_readFull; unfold upto; lia|]. intros bs _.
    apply byte.unsigned_range.
  - intros d Hd. repeat case_match; try done.
    all: eapply within_bind; [apply within_uint; unfold upto; lia|]; intros v Hv.
    all: unfold canonical; by case_match.
Qed.

(** The pattern of [ReadVarBytes], [ReadVarString] and [readScript]: the
    length is compared with the limit before the buffer is made. *)
Lemma within_counted max (e : Z -> error) :
  max <= L ->
  within (upto L) anything
    (count ← ReadVarInt; if count >? max then DFail (e count) else readFull count).
Proof.
  intros Hm. eapply within_bind; [apply within_ReadVarInt|]. intros count Hc. cbn beta in *.
  rewrite Z.gtb_ltb. destruct (Z.ltb_spec max count); [exact I|]. apply within_readFull.
  unfold upto. lia.
Qed.

Lemma within_ReadVarBytes max name : max <= L -> within (upto L) anything (ReadVarBytes max name).
Proof. apply (within_counted max (fun count => messageError _ _ [_; AInt count; _])). Qed.

Lemma within_readScript max name : max <= L -> within (upto L) anything (readScript max name).
Proof. apply (within_counted max (fun count => messageError _ _ [_; AInt count; _])). Qed.

Lemma within_ReadVarString `{Limits} : maxMessagePayload <= L -> within (upto L) anything ReadVarString.
Proof. apply (within_counted maxMessagePayload (fun count => messageError _ _ [AInt count; _])). Qed.

Lemma within_readScriptArena max fmt : max <= L -> within (upto L) anything (readScriptArena max fmt).
Proof.
  intros Hm. eapply within_bind; [apply within_ReadVarInt|]. intros count Hc. cbn beta in *.
  rewrite !Z.gtb_ltb. destruct (Z.ltb_spec max count); [exact I|].
  destruct (0 <? count); [|exact I]. apply within_readFull. unfold upto. lia.
Qed.

Lemma within_ReadVarInt_any : within (upto L) anything ReadVarInt.
Proof. by apply (within_mono (upto L) _ (fun v => 0 <= v)); [..|apply within_ReadVarInt]. Qed.
End Lengths.

(** Follow the branches of a decoder, through the functions it calls; [lim]
    proves that a length is within the limit. *)
Ltac solve_within lim :=
  repeat
    lazymatch goal with
    | |- anything _ => exact I
    | |- within _ _ (DFail _) => exact I
    | |- within _ _ (mret _) => exact I
    | |- within _ _ (readFull _) => apply within_readFull; lim
    | |- within _ _ ReadVarInt => apply within_ReadVarInt_any; lim
    | |- within _ _ (ReadVarBytes _ _) => apply within_ReadVarBytes; lim
    | |- within _ _ ReadVarString => apply within_ReadVarString; lim
    | |- within _ _ (readScript _ _) => apply within_readScript; lim
    | |- within _ _ (readScriptArena _ _) => apply within_readScriptArena; lim
    | |- within _ _ (lift _) => apply within_lift
    | |- within _ _ (dtry _) => apply within_dtry
    | |- within _ _ (dloop _ _ _) => apply within_dloop; intros
    | |- within _ _ (_ ≫= _) => apply within_bind with (Q := anything); [|intros ? _]
    | |- within _ _ (match ?x with _ => _ end) => destruct x
    | |- within _ _ (DLen _) => cbn [within]; intros
    | |- within _ _ ?d => unfold_head d; cbv beta
    end.

(** ** The limits of the messages *)

Section Limits.
Context `{Limits} `{Externals}.

(** The longest buffer a decoder makes for a peer: the payload maximum for
    the types that hold scripts or free text, the limit of the field for the
    others, and 32 bytes where the type has no field of variable length. *)
Definition bufferLimit (k : Kind) : Z :=
  match k with
  | KVersion | KTx | KExtendedTx | KBlock | KReject | KCreateStream | KProtoconf =>
      Z.max MaxAssociationIDLen maxMessagePayload
  | KMerkleBlock => Z.max HashSize maxFlagsPerMerkleBlock
  | KFilterAdd => MaxFilterAddDataSize
  | KFilterLoad => MaxFilterLoadFilterSize
  | KCFilter => MaxCFilterDataSize
  | KStreamAck => MaxAssociationIDLen
  | KAuthch => MsgAuthch_MaxPayloadLength 0
  | KAuthresp => MsgAuthresp_MaxPayloadLength 0
  | _ => HashSize
  end.

Lemma maxTxIn_payload : maxTxInPerMessage <= Z.max MaxAssociationIDLen maxMessagePayload.
Proof.
  assert (0 <= maxMessagePayload) as Hm by (unfold maxMessagePayload; apply to_u64_range).
  unfold maxTxInPerMessage, minTxInPayload, MaxAssociationIDLen, HashSize.
  pose proof (Z.div_mod maxMessagePayload 41 ltac:(lia)).
  pose proof (Z.mod_pos_bound maxMessagePayload 41 ltac:(lia)).
  change (9 + 32) with 41. set (q := maxMessagePayload / 41) in *.
  assert (to_u64 (q + 1) <= q + 1) by (apply Z.mod_le; lia). lia.
Qed.

(** What is used of [bt.VarInt]: [ReadFrom] reads into small buffers and gives
    an unsigned integer. *)
Hypothesis VarInt_small : within (upto 8) (fun v => 0 <= v) bt_VarInt_ReadFrom.

Ltac limit :=
  unfold upto, bufferLimit, CommandSize, HashSize, MsgAuthch_MaxPayloadLength,
    MsgAuthresp_MaxPayloadLength, SECP256K1_COMP_PUB_KEY_SIZE_IN_BYTES, SECP256K1_DER_SIGN_MAX_SIZE_IN_BYTES, MaxAssociationIDLen,
    MaxFilterAddDataSize, MaxFilterLoadFilterSize, MaxCFilterDataSize in *;
  lia.

Lemma within_protoconf pver :
  within (upto (bufferLimit KProtoconf)) anything (MsgProtoconf_Bsvdecode pver).
Proof.
  assert (within (upto (bufferLimit KProtoconf)) (fun v => 0 <= v) bt_VarInt_ReadFrom) as Hv.
  { eapply within_mono; [| |exact VarInt_small]; limit. }
  unfold MsgProtoconf_Bsvdecode. case_match; [exact I|].
  eapply within_bind; [exact Hv|]. intros fields _. cbn beta.
  apply within_bind with (Q := anything).
  { case_match; [|exact I]. unfold Uint32.
    solve_within limit. }
  intros ? _. apply within_bind with (Q := anything); [|done]. case_match; [|exact I].
  eapply within_bind; [exact Hv|]. intros vi Hvi. cbn beta in *. rewrite Z.gtb_ltb.
  destruct (Z.ltb_spec maxMessagePayload vi); [exact I|].
  apply within_bind with (Q := anything); [|done]. apply within_readFull.
  limit.
Qed.

(** Every buffer of every decoder. *)
Lemma kind_within k pver :
  within (upto (bufferLimit k)) anything (Bsvdecode (kind_type k) pver).
Proof.
  pose proof maxTxIn_payload as Hin.
  destruct k; [..|]; cbn [kind_type kind_Msg];
    lazymatch goal with |- within _ _ (@Bsvdecode _ ?M _) => unfold_head M end; cbn [Bsvdecode];
    try apply within_protoconf.
  all: solve_within limit.
Qed.
(** *** The frame around a payload *)

Context {R : Type} `{HR : Reader R}.

(** One [io.ReadFull] of a reading function. *)
Lemma audit_ReadFull (P : Z -> Prop) n (a : AuditReader R) bs e a' :
  P n -> Forall P (au_sizes a) -> ReadFull n a = (bs, e, a') -> Forall P (au_sizes a').
Proof.
  intros Hn Ha. unfold ReadFull. cbn [Pull audit_reader].
  destruct (Pull n (au_r a)) as [[? ?] ?]. intros [= _ _ <-]. cbn [au_sizes].
  by apply Forall_app_2; [|constructor].
Qed.

Definition frameLimit : Z := Z.max discardChunk maxMessagePayload.

Lemma audit_discardInput n (a : AuditReader R) :
  Forall (upto frameLimit) (au_sizes a) -> Forall (upto frameLimit) (au_sizes (discardInput n a)).
Proof.
  intros Ha. unfold discardInput. cbv zeta.
  pose proof (Z.mod_pos_bound n discardChunk ltac:(done)) as Hm.
  assert (forall (a : AuditReader R) n, 0 <= n <= discardChunk -> Forall (upto frameLimit) (au_sizes a) ->
    Forall (upto frameLimit) (au_sizes (snd (ReadFull n a)))) as Hs.
  { intros a0 n0 Hn0 Ha0. destruct (ReadFull n0 a0) as [[? ?] ?] eqn:E.
    eapply audit_ReadFull; [|exact Ha0|exact E]. unfold upto, frameLimit. lia. }
  assert (Forall (upto frameLimit) (au_sizes (if n >? 0 then
    Nat.iter (Z.to_nat (n / discardChunk)) (fun r => snd (ReadFull discardChunk r)) a else a))).
  { destruct (n >? 0); [|exact Ha]. generalize (Z.to_nat (n / discardChunk)) as m.
    intros m. induction m as [|m IH]; [exact Ha|]. rewrite Nat.iter_succ. by apply Hs. }
  destruct (n mod discardChunk >? 0); [|done]. apply Hs; [lia|done].
Qed.

(** An extended length is never negative, whatever the reader returned. *)
Lemma parseHeader_ext_nonneg bs : 0 <= h_extLength (parseHeader bs).
Proof.
  unfold parseHeader.
  destruct (run (readElements _) _) as [[(magic & cmd & length & checksum & [])|e] hr]; [|done].
  destruct (_ && _); [|done]. destruct (run (readElement Tcommand) hr) as [[c|e] hr'] eqn:Ec; [|done].
  cbn [h_extLength]. destruct (run (readElement Tuint64) hr') as [[l|e] ?] eqn:El; [|done].
  apply (codec_exact (Codec:=Codec_elem Tuint64 ltac:(done))) in El as [_ Hl]. apply Hl.
Qed.

(** The checks hand on a length that passed the overall limit. *)
Lemma audit_checkHeader b hdr pver bsvnet (a : AuditReader R) c a' :
  is_u32 (h_length hdr) -> 0 <= h_extLength hdr -> Forall (upto frameLimit) (au_sizes a) ->
  checkHeader b hdr pver bsvnet a = (c, a') ->
  Forall (upto frameLimit) (au_sizes a') /\ (forall k L, c = inr (k, L) -> upto frameLimit L).
Proof.
  intros Hu Hx Ha. unfold checkHeader.
  destruct ((h_length hdr >? maxMessagePayload) || _) eqn:Hl; [intros [= <- <-]; done|].
  apply orb_false_iff in Hl as [Hl Hl']. rewrite Z.gtb_ltb, Z.ltb_ge in Hl, Hl'.
  intros Hc. repeat (case_match; simplify_eq); (split; [try done; by apply audit_discardInput|]);
    intros k' L' Hk; simplify_eq; unfold upto, frameLimit, discardChunk; zlia.
Qed.

(** C9: a peer cannot make the code allocate a buffer longer than its limits.
    Whatever bytes arrive and however the connection fails, every slice that
    [ReadMessageN] itself hands to [io.ReadFull] is at most as long as the
    payload maximum (or the 10240 bytes of a discarded chunk), and every slice
    that the decoder of a message of type [k] hands to it, whether it runs on a
    buffered payload or on the connection, is at most [bufferLimit k] long; no
    length is negative. *)
Theorem Buffers_bounded k pver bsvnet (r : R) :
  Forall (upto frameLimit) (au_sizes (snd (ReadMessageN ∅ pver bsvnet (mkAudit r [])))) /\
  Forall (upto (bufferLimit k))
    (au_sizes (snd (run (Bsvdecode (kind_type k) pver) (mkAudit r [])))).
Proof.
  split; [|by eapply within_run; [apply kind_within|]].
  unfold ReadMessageN, ReadMessageWithEncodingN, readMessageHeader.
  destruct (ReadFull MessageHeaderSize (mkAudit r [])) as [[bs e] a] eqn:Eh.
  assert (Forall (upto frameLimit) (au_sizes a)) as Ha.
  { eapply audit_ReadFull; [| |exact Eh]; [|by constructor].
    unfold upto, frameLimit, MessageHeaderSize, discardChunk. lia. }
  destruct e as [e|]; [done|].
  destruct (checkHeader false (parseHeader bs) pver bsvnet a) as [c a1] eqn:Ec.
  destruct (audit_checkHeader _ _ _ _ _ _ _ (parseHeader_length bs) (parseHeader_ext_nonneg bs) Ha Ec) as [Ha1 HL].
  destruct c as [e|[k' L]]; [done|]. rewrite no_handlers.
  destruct (ReadFull L a1) as [[payload e] a2] eqn:Ep.
  assert (Forall (upto frameLimit) (au_sizes a2)) as Ha2.
  { eapply audit_ReadFull; [by eapply HL|exact Ha1|exact Ep]. }
  by repeat case_match.
Qed.
End Limits.

(** ** Witness: a filter that claims to be 2^32 - 1 bytes long *)

Section Examples.
#[local] Existing Instance defaultLimits.
#[local] Existing Instance refExternals.

Definition hugeFilter : stream :=
  mkStream [Byte.xfe; Byte.xff; Byte.xff; Byte.xff; Byte.xff; Byte.x2a] EOF.

Lemma Buffers_bounded_witness :
  au_sizes (snd (run (Bsvdecode (kind_type KFilterLoad) 70016) (mkAudit hugeFilter []))) = [1; 4] /\
  bufferLimit KFilterLoad = 36000 /\
  Forall (upto frameLimit) (au_sizes (snd (ReadMessageN ∅ 70016 MainNet (mkAudit hugeFilter [])))) /\
  Forall (upto (bufferLimit KFilterLoad))
    (au_sizes (snd (run (Bsvdecode (kind_type KFilterLoad) 70016) (mkAudit hugeFilter [])))).
Proof.
  split; [vm_compute; reflexivity|]. split; [reflexivity|].
  apply (@Buffers_bounded defaultLimits refExternals (within_ReadVarInt 8 ltac:(lia))).
Defined.
End Examples.
