(* ===== verification/Errors.v ===== *)
(** * Errors, cut connections, limits and external handlers

    What the reading functions of message.go do when things go wrong: which
    errors they return ([Error_provenance]), what they do when the connection
    ends in the middle of a message ([Truncated_packet]), what the limit on
    payloads is for every excessive block size ([SetLimits_payload]), and what
    a handler registered with [SetExternalHandler] is given
    ([External_handler]). *)

From S2P Require Import Prelude Io Common Sha256 Externals InvVect BlockHeader Protocol NetAddress.
From S2P Require Import Tx Mem Block MsgIface MsgInventory MsgControl MsgFilter ExtendedTx Version.
From S2P Require Import Message Framing Relay.

(** ** Decoders that stop at the first error of their reader *)

(** [if err != nil { return err }] after every read. *)
Fixpoint prompt {A} (d : Dec A) : Prop :=
  match d with
  | DRet _ | DFail _ => True
  | DRead _ k => (forall bs e, k (bs, Some e) = DFail e) /\ forall bs, prompt (k (bs, None))
  | DLen k => forall x, prompt (k x)
  end.

(** Every error is in [P] when those of the reader are; a reader that is asked
    whether it is a buffer is one. *)
Fixpoint raises (P : error -> Prop) {A} (d : Dec A) : Prop :=
  match d with
  | DRet _ => True
  | DFail e => P e
  | DRead _ k => forall bs o, (forall e, o = Some e -> P e) -> raises P (k (bs, o))
  | DLen k => forall l, raises P (k (Some l))
  end.

Lemma prompt_bind {A B} (d : Dec A) (f : A -> Dec B) :
  prompt d -> (forall a, prompt (f a)) -> prompt (d ≫= f).
Proof.
  unfold mbind, Dec_bind. induction d as [a|e|n k IH|k IH]; simpl; auto.
  intros [H1 H2] Hf. split; [|auto]. intros bs e. by rewrite H1.
Qed.
Lemma prompt_ret {A} (a : A) : prompt (mret a).
Proof. exact I. Qed.
Lemma prompt_readFull n : prompt (readFull n).
Proof. by split. Qed.
Lemma prompt_lift {A} (x : result A) : prompt (lift x).
Proof. by destruct x. Qed.
Lemma prompt_dloop {St} n (body : St -> Dec St) st :
  (forall s, prompt (body s)) -> prompt (dloop n body st).
Proof.
  intros Hb. revert st. induction n as [|n IH]; intros st; [exact I|]. by apply prompt_bind.
Qed.

Lemma raises_bind P {A B} (d : Dec A) (f : A -> Dec B) :
  raises P d -> (forall a, raises P (f a)) -> raises P (d ≫= f).
Proof. unfold mbind, Dec_bind. induction d as [a|e|n k IH|k IH]; simpl; auto. Qed.
Lemma raises_ret P {A} (a : A) : raises P (mret a).
Proof. exact I. Qed.
Lemma raises_readFull P n : raises P (readFull n).
Proof. intros bs [e|] He; [by apply He|exact I]. Qed.
Lemma raises_dloop P {St} n (body : St -> Dec St) st :
  (forall s, raises P (body s)) -> raises P (dloop n body st).
Proof.
  intros Hb. revert st. induction n as [|n IH]; intros st; [exact I|]. by apply raises_bind.
Qed.
Lemma raises_dtry P {A} (d : Dec A) : raises P d -> raises P (dtry d).
Proof. induction d as [a|e|n k IH|k IH]; simpl; auto. Qed.

Create HintDb prompt.
#[export] Hint Resolve prompt_bind prompt_ret prompt_readFull prompt_lift prompt_dloop : prompt.
Create HintDb raises.
#[export] Hint Resolve raises_bind raises_ret raises_readFull raises_dloop raises_dtry : raises.

(** Follow the branches of a decoder, through the functions it calls. *)
Ltac solve_prompt :=
  repeat first
    [ exact I
    | solve [eauto with prompt nocore]
    | apply prompt_bind; [|intros]
    | apply prompt_dloop; intros
    | match goal with
      | |- prompt (match ?x with _ => _ end) => destruct x
      | |- prompt ?d => unfold_head d; cbv beta
      end ].

Lemma raises_lift P {A} (x : result A) : (forall e, x = Err e -> P e) -> raises P (lift x).
Proof. destruct x; cbn; auto. Qed.

Ltac solve_raises :=
  repeat first
    [ exact I
    | solve [eauto with raises nocore]
    | apply raises_bind; [|intros]
    | apply raises_dloop; intros
    | apply raises_dtry
    | apply raises_lift; intros ? ?
    | match goal with
      | |- raises _ (match ?x with _ => _ end) => destruct x eqn:?
      | |- raises _ (DFail _) => cbn [raises]
      | |- raises _ (DLen _) => cbn [raises]; intros
      | |- raises _ ?d => unfold_head d; cbv beta
      end ].

(** An [Add...] method that refuses. *)
Lemma addBelow_Err {A} max m (l : list A) x e :
  addBelow max (ErrMessage m) l x = Err e -> e = ErrMessage m.
Proof. unfold addBelow. case_match; congruence. Qed.

Section Kinds.
Context `{Limits} `{Externals}.

(** The decoder of protoconf reads integers with a package that is not part of
    the program; that of version passes over an error of the last field but
    one. *)
Lemma kind_prompt k pver :
  k <> KVersion -> k <> KProtoconf -> prompt (Bsvdecode (kind_type k) pver).
Proof.
  intros Hv Hp. destruct k; try done; cbn [kind_type kind_Msg].
  all: lazymatch goal with |- prompt (@Bsvdecode _ ?M _) => unfold_head M end; cbn [Bsvdecode].
  all: solve_prompt.
Qed.

(** The errors made with [errors.New]. *)
Definition errEFHeader : error := ErrText (mkSprintf "invalid extended tx EF header" []).

Definition textError (cmd : bytes) (e : error) : Prop :=
  cmd = CmdExtendedTx /\ e = errEFHeader \/ cmd = CmdCFCheckpt /\ e = ErrInsaneCFHeaderCount.

(** The errors that [bt.VarInt.ReadFrom] returns of its own, next to those of
    the reader it passes on. *)
Context (varIntError : error -> Prop)
  (VarInt_raises : forall P : error -> Prop,
     (forall e, varIntError e -> P e) -> raises P bt_VarInt_ReadFrom).

(** What a decoder returns that is no [MessageError]. *)
Definition plainError (cmd : bytes) (e : error) : Prop :=
  textError cmd e \/ cmd = CmdProtoconf /\ varIntError e.

Lemma protoconf_raises (P : error -> Prop) pver :
  (forall m, P (ErrMessage m)) -> (forall e, varIntError e -> P e) ->
  raises P (MsgProtoconf_Bsvdecode pver).
Proof.
  intros HM HT. pose proof (VarInt_raises P HT) as Hv. unfold MsgProtoconf_Bsvdecode.
  destruct (_ <? _); [apply HM|]. apply raises_bind; [done|]. intros fields.
  apply raises_bind; [destruct (_ >? _); solve_raises|]. intros maxRecv.
  apply raises_bind; [|intros; exact I]. destruct (_ >? _); [|exact I].
  apply raises_bind; [done|]. intros vi. destruct (_ >? _); [apply HM|]. solve_raises.
Qed.

Lemma kind_raises (P : error -> Prop) k pver :
  (forall m, P (ErrMessage m)) ->
  (forall e, textError (command k) e \/ k = KProtoconf /\ varIntError e -> P e) ->
  raises P (Bsvdecode (kind_type k) pver).
Proof.
  intros HM HT. destruct (decide (k = KProtoconf)) as [->|Hp].
  { apply protoconf_raises; [done|]. intros e He. apply HT. by right. }
  destruct k; try done; cbn [kind_type kind_Msg].
  all: lazymatch goal with |- raises _ (@Bsvdecode _ ?M _) => unfold_head M end; cbn [Bsvdecode].
  all: solve_raises; first
    [ apply HM
    | apply HT; left; left; split; reflexivity
    | apply HT; left; right; split; reflexivity
    | match goal with He : _ = Err _ |- _ => apply addBelow_Err in He; rewrite He; apply HM end
    | match goal with He : _ = Some _ |- _ => apply validateUserAgent_Err in He as [? ->]; apply HM end ].
Qed.
End Kinds.

(** ** Running them *)

(** What a reader at the end of [s] returns to [io.ReadFull]. *)
Definition endError (s : stream) (e : error) : Prop :=
  e = s_err s \/ s_err s = EOF /\ e = ErrUnexpectedEOF.

Lemma full_error_end bs s e : e = full_error bs (s_err s) -> endError s e.
Proof. intros ->. unfold endError. destruct (s_err s), bs; cbn; auto. Qed.

Section Running.
Context {R : Type} {HR : Reader R} {HS : ReaderSpec R}.

Lemma ReadFull_error n (r : R) bs o r' :
  ReadFull n r = (bs, o, r') ->
  s_err (view r') = s_err (view r) /\ forall e, o = Some e -> endError (view r) e.
Proof.
  intros Hr. pose proof (view_ReadFull n r) as Hv. rewrite Hr in Hv. unfold ReadFull in Hv.
  cbn [Pull stream_reader] in Hv. unfold stream_pull in Hv.
  destruct (n <=? len (s_data (view r))); injection Hv as <- <- <-; cbn [s_err]; (split; [done|]).
  - done.
  - intros e [= <-]. by eapply full_error_end.
Qed.

Lemma raises_run (P : error -> Prop) {A} (d : Dec A) (r : R) e r' :
  streamable d \/ (forall r, is_Some (AsBuffer r)) -> raises P d ->
  (forall e, endError (view r) e -> P e) -> run d r = (Err e, r') -> P e.
Proof.
  revert r. induction d as [a|e'|n k IH|k IH]; intros r Hb Hd HP Hr; cbn [run raises streamable] in *.
  - done.
  - by injection Hr as -> ->.
  - destruct (ReadFull n r) as [[bs o] r1] eqn:Er. apply ReadFull_error in Er as [Hs Ho].
    apply (IH (bs, o) r1); [destruct Hb; auto|apply Hd; eauto| |done].
    intros e1 He1. apply HP. unfold endError in *. by rewrite Hs in He1.
  - destruct Hb as [[]|Hb]. destruct (Hb r) as [l Hl]. rewrite Hl in Hr. eapply IH; eauto.
Qed.
End Running.

(** A stop in the middle of what a decoder would have accepted: it reads all
    there is and fails with the error of the reader. *)
Lemma prompt_cut {A} (d : Dec A) p a e j e' :
  prompt d -> streamable d -> run d (mkStream p e) = (Ok a, mkStream [] e) -> 0 <= j < len p ->
  exists x, run d (mkStream (take (Z.to_nat j) p) e') = (Err x, mkStream [] e') /\
    endError (mkStream [] e') x.
Proof.
  revert p j. induction d as [b|e1|n k IH|k IH]; intros p j Hd Hst Hr Hj; cbn [run prompt] in *.
  - injection Hr as -> ->. exfalso. len_lia.
  - done.
  - destruct Hd as [Hd1 Hd2]. unfold ReadFull in *. cbn [Pull stream_reader] in *.
    unfold stream_pull in *. cbn [s_data s_err] in *.
    destruct (Z.leb_spec n (len p)) as [Hn|Hn].
    2: { cbn in Hr. by rewrite Hd1 in Hr. }
    rewrite len_take_le by lia. destruct (Z.leb_spec n j) as [Hnj|Hnj].
    + cbn [fmap option_fmap option_map] in *. cbn [s_data s_err] in *.
      destruct (Z.le_gt_cases n 0) as [H0|H0].
      { replace (Z.to_nat n) with O in * by lia. rewrite !drop_0, !firstn_O in *. by eapply IH. }
      rewrite take_take, Nat.min_l by lia. rewrite skipn_firstn_comm.
      replace (Z.to_nat j - Z.to_nat n)%nat with (Z.to_nat (j - n)) by lia.
      eapply IH; [done|apply Hst|done|]. unfold len. rewrite length_drop. zlia.
    + cbn [fmap option_fmap option_map]. rewrite Hd1. cbn [run]. eexists. split; [done|].
      by eapply full_error_end.
  - done.
Qed.

(** ** Where the errors of the reading functions come from *)

Section Provenance.
Context `{Limits} `{ExternalsSpec} {R : Type} {HR : Reader R} {HS : ReaderSpec R}.
Context (varIntError : error -> Prop)
  (VarInt_raises : forall P : error -> Prop,
     (forall e, varIntError e -> P e) -> raises P bt_VarInt_ReadFrom).

(** What may be returned when the reader ends as [s] does and a message of
    the command is decoded. *)
Definition expected (s : stream) (cmd : bytes) (e : error) : Prop :=
  e = s_err s \/ e = EOF \/ e = ErrUnexpectedEOF \/ (exists m, e = ErrMessage m) \/
  plainError varIntError cmd e.

Lemma expected_end s cmd e : endError s e -> expected s cmd e.
Proof. unfold endError, expected. naive_solver. Qed.

Lemma expected_message s cmd e : (exists m, e = ErrMessage m) -> expected s cmd e.
Proof. unfold expected. auto. Qed.

Lemma checkHeader_inl b hdr pver bsvnet (r r' : R) e :
  checkHeader b hdr pver bsvnet r = (inl e, r') -> exists m, e = ErrMessage m.
Proof. unfold checkHeader. intros Hc. repeat (case_match; simplify_eq); by eexists. Qed.

Lemma decode_expected {S} `{ReaderSpec S} cmd k pver (s : stream) (r : S) e r' :
  k <> KVersion \/ (forall r : S, is_Some (AsBuffer r)) ->
  s_err (view r) = s_err s \/ s_err (view r) = EOF -> makeEmptyMessage cmd = inl k ->
  run (Bsvdecode (kind_type k) pver) r = (Err e, r') -> expected s cmd e.
Proof.
  intros Hb Hs Hk. apply raises_run.
  - destruct Hb as [Hb|Hb]; [left; by apply kind_streamable|by right].
  - apply (kind_raises varIntError VarInt_raises); [|intros e1 He1].
    + intros m. apply expected_message. by exists m.
    + do 4 right. apply makeEmptyMessage_inv in Hk. rewrite Hk. destruct (decide (k = KExtMsg)) as [->|].
      { by destruct He1 as [[[? _]|[? _]]|[? _]]. }
      destruct He1 as [?|[-> ?]]; [by left|by right].
  - intros e1. unfold endError, expected. naive_solver.
Qed.

Lemma limited_err N (r : R) w :
  s_err (view (mkTee (mkLimited r N) w)) = s_err (view r) \/
  s_err (view (mkTee (mkLimited r N) w)) = EOF.
Proof.
  cbn [view tee_spec limited_spec tee_r lr_N lr_R]. unfold limit_stream. case_match; auto.
Qed.

Section Frame.
Context (pver bsvnet : Z) (r r1 : R) (hdr : messageHeader) (k : Kind) (L : Z) (x : Read) (r' : R) (e : error).
Context (Hhdr : readMessageHeader r = (MessageHeaderSize, Ok hdr, r1)) (Hext : h_extLength hdr = 0)
  (HL : L <> 0xffffffff) (Hu : is_u32 L) (Hk : makeEmptyMessage (h_command hdr) = inl k).
Context (He : rd_err x = Some e).

Lemma buffered_expected :
  checkHeader false hdr pver bsvnet r1 = (inr (k, L), r1) ->
  ReadMessageN ∅ pver bsvnet r = (x, r') -> expected (view r1) (h_command hdr) e.
Proof.
  intros Hc. unfold ReadMessageN, ReadMessageWithEncodingN. rewrite Hhdr, Hc, no_handlers.
  destruct (ReadFull L r1) as [[bs [e1|]] r3] eqn:Er; apply ReadFull_error in Er as [_ Er].
  { intros [= <- <-]. injection He as ->. by apply expected_end, Er. }
  destruct (_ && _ && _).
  { intros [= <- <-]. injection He as <-. apply expected_message. by eexists. }
  destruct (run _ (mkBuffer bs)) as [[m|e1] b] eqn:Ed; intros [= <- <-]; [done|].
  injection He as ->. eapply (decode_expected (S:=buffer)); [by right|by right|done..].
Qed.

Lemma streaming_expected :
  k <> KVersion -> checkHeader true hdr pver bsvnet r1 = (inr (k, L), r1) ->
  ReadMessageStreamingN ∅ pver bsvnet r = (x, r') -> expected (view r1) (h_command hdr) e.
Proof.
  intros Hv Hc. unfold ReadMessageStreamingN.
  rewrite Hhdr, Hc, no_handlers, Hext, (proj2 (Z.eqb_neq _ _) HL).
  assert (to_i64 L = L) as -> by (unfold to_i64; rewrite Z.mod_small; zlia).
  cbn [negb andb Z.eqb]. destruct (run _ (mkTee (mkLimited r1 L) [])) as [[m|e1] t] eqn:Ed.
  2: { intros [= <- <-]. injection He as ->.
       eapply (decode_expected (S:=TeeReader (LimitedReader R))); [by left|apply limited_err|done..]. }
  assert (LInv r1 L (tee_r t) (tee_w t)) as HI.
  { eapply (run_TInv r1 L); [|exact Ed]. apply LInv_init, Hu. }
  unfold DiscardAll. cbn [PullAll tee_reader].
  destruct (PullAll (tee_r t)) as [[bs e1] l] eqn:Ep.
  apply (LInv_PullAll r1 L _ _ _ _ _ HI) in Ep as (_ & _ & _ & Ep). destruct (decide (e1 = EOF)).
  - generalize (take 4 (Sum256 (Sum256 (tee_w (mkTee l (tee_w t ++ bs)))))). intros checksum.
    destruct (negb _); intros [= <- <-]; [|discriminate He]. injection He as <-.
    apply expected_message. by eexists.
  - intros [= <- <-]. injection He as ->. left. by destruct (L <=? _).
Qed.
End Frame.

(** C8: where the errors of the two reading functions come from.  Whatever
    bytes arrive, and with no handlers registered, an error is the one of the
    connection, [io.EOF] or [io.ErrUnexpectedEOF], a [MessageError], one of the
    two plain errors that the decoders of extended transactions and of filter
    checkpoints return, or, for a protoconf message, one that the external
    [bt.VarInt.ReadFrom] returns of its own ([varIntError]). *)
Theorem Error_provenance streaming pver bsvnet (r : R) x r' e :
  readNext streaming pver bsvnet r = (x, r') -> rd_err x = Some e ->
  expected (view r) (h_command (nextHeader r)) e.
Proof.
  intros Hx He.
  destruct (Z.le_gt_cases MessageHeaderSize (len (s_data (view r)))) as [Hl|Hl].
  2: { pose proof (view_readMessageHeader r) as Hv.
       unfold readNext, ReadMessageN, ReadMessageWithEncodingN, ReadMessageStreamingN in Hx.
       destruct (readMessageHeader r) as [[n [h|e1]] r1]; destruct Hv as (_ & Hv & [? Hv1]); [lia|].
       apply expected_end. assert (e = e1) as -> by (destruct streaming; injection Hx as <- <-; by injection He).
       by eapply full_error_end. }
  destruct (readMessageHeader_Ok r Hl) as (r1 & Er & Hv & Hu & Hext).
  destruct (checkHeader streaming (nextHeader r) pver bsvnet r1) as [[e1|[k L]] r2] eqn:Ec.
  - unfold readNext, ReadMessageN, ReadMessageWithEncodingN, ReadMessageStreamingN in Hx.
    apply expected_message. assert (e = e1) as -> by 
      (destruct streaming; rewrite Er, Ec in Hx; injection Hx as <- <-; by injection He).
    by eapply checkHeader_inl.
  - pose proof (view_checkHeader streaming (nextHeader r) pver bsvnet r1 (proj1 Hu) Hext) as Hc.
    rewrite Ec in Hc. destruct Hc as (-> & _ & _ & Hm & Hver).
    destruct (checkHeader_length _ _ _ _ _ _ _ _ Hu Hext Ec) as (HL & Hne & _).
    pose proof (makeEmptyMessage_inv _ _ Hm) as Hcmd.
    assert (expected (view r1) (h_command (nextHeader r)) e) as Hres; [|by rewrite Hv in Hres].
    assert (k = KVersion -> h_command (nextHeader r) = CmdVersion) as Hkv
      by (intros ->; by rewrite Hcmd in *).
    destruct streaming; [eapply streaming_expected|eapply buffered_expected]; eauto.
    intros Hk. by apply Hver, Hkv.
Qed.
End Provenance.

(** ** A connection that ends inside a message *)

Section Truncation.
Context `{Limits} `{ExternalsSpec} {R : Type} {HR : Reader R} {HS : ReaderSpec R}.

(** What a call returns when the connection ended too early: no message, all
    the bytes that arrived, the error of the connection; nothing is left. *)
Definition cutOff (r : R) (x : Read * R) : Prop :=
  exists e, fst x = readFail (len (s_data (view r))) e /\ endError (view r) e /\
    view (snd x) = mkStream [] (s_err (view r)).

Lemma header_cut streaming pver bsvnet (r : R) :
  len (s_data (view r)) < MessageHeaderSize -> cutOff r (readNext streaming pver bsvnet r).
Proof.
  intros Hl. pose proof (view_readMessageHeader r) as Hv. unfold MessageHeaderSize in *.
  unfold cutOff, readNext, ReadMessageN, ReadMessageWithEncodingN, ReadMessageStreamingN.
  destruct (readMessageHeader r) as [[n [h|e]] r1]; destruct Hv as (-> & Hr & Hx);
    [unfold MessageHeaderSize in Hx; lia|].
  rewrite take_ge by zlia. exists e. split; [by destruct streaming|]. split; [eapply full_error_end, Hx|].
  assert (view r1 = mkStream [] (s_err (view r))) by (rewrite Hr; unfold advance; by rewrite drop_ge by zlia).
  by destruct streaming.
Qed.

(** The payload is cut, of a frame of any content. *)
Lemma payload_cut_buffered pver bsvnet (r : R) :
  let hdr := nextHeader r in
  h_length hdr <= maxMessagePayload -> passes false pver bsvnet hdr = true ->
  h_length hdr <> 0xffffffff ->
  MessageHeaderSize <= len (s_data (view r)) < MessageHeaderSize + h_length hdr ->
  cutOff r (readNext false pver bsvnet r).
Proof.
  intros hdr Hm Hp Hn Hl. destruct (readMessageHeader_Ok r) as (r1 & Er & Hv & Hu & Hx); [lia|].
  fold hdr in Er, Hu, Hx. pose proof (checkHeader_passes false hdr pver bsvnet r1 Hx (proj1 Hu)) as Hc.
  rewrite (gtb_false _ _ Hm), Hp, (proj2 (Z.eqb_neq _ _) Hn) in Hc. unfold passes in Hp.
  destruct (makeEmptyMessage (h_command hdr)) as [k|]; [|by rewrite andb_false_r in Hp].
  unfold cutOff, readNext, ReadMessageN, ReadMessageWithEncodingN. rewrite Er, Hc, no_handlers.
  assert (len (s_data (view r1)) = len (s_data (view r)) - 24) as Hl1.
  { rewrite Hv. unfold advance, len. cbn [s_data]. rewrite length_drop. unfold MessageHeaderSize in *. zlia. }
  pose proof (view_ReadFull (h_length hdr) r1) as Hf. destruct (ReadFull _ r1) as [[bs o] r3].
  unfold ReadFull in Hf. cbn [Pull stream_reader] in Hf. rewrite stream_pull_advance in Hf by apply Hu.
  unfold MessageHeaderSize in *. rewrite (proj2 (Z.leb_gt _ _)) in Hf by lia.
  unfold advance in Hf. rewrite take_ge, drop_ge in Hf by zlia. injection Hf as <- <- Hr3.
  cbn [fmap option_fmap option_map fst snd]. eexists. split; [f_equal; lia|].
  assert (s_err (view r1) = s_err (view r)) as He by (by rewrite Hv).
  rewrite <- Hr3, He. split; [|done]. eapply full_error_end. done.
Qed.

Section Payload.
Context (pver bsvnet : Z) (msg : Message) (r r1 : R) (j : Z) (err : error).
Let P := len (payload pver msg).
Context (Hs : sendable pver msg)
  (Hhdr : readMessageHeader r = (MessageHeaderSize, Ok (packetHeader pver bsvnet msg), r1))
  (Hr1 : view r1 = mkStream (take (Z.to_nat j) (payload pver msg)) err) (Hj : 0 <= j < P).

(** The payload of a written message is cut. *)
Lemma payload_cut_streaming :
  m_kind msg <> KVersion -> m_kind msg <> KProtoconf ->
  checkHeader true (packetHeader pver bsvnet msg) pver bsvnet r1 = (inr (m_kind msg, P), r1) ->
  len (s_data (view r)) = MessageHeaderSize + j -> s_err (view r) = err ->
  cutOff r (readNext true pver bsvnet r).
Proof.
  intros Hk1 Hk2 Hc Hlen He. pose proof (payload_u32 pver msg Hs) as Hu. pose proof (send_u32 _ _ Hs) as Hne.
  fold P in Hu, Hne. unfold cutOff, readNext, ReadMessageStreamingN. rewrite Hlen, He, Hhdr, Hc, no_handlers.
  rewrite (proj2 (Z.eqb_neq P 0xffffffff)) by lia. cbn [h_extLength packetHeader].
  assert (to_i64 P = P) as -> by (unfold to_i64; rewrite Z.mod_small; zlia).
  cbn [negb andb Z.eqb].
  pose proof (kind_streamable (m_kind msg) Hk1 pver) as Hst.
  pose proof (run_view_streamable _ (mkTee (mkLimited r1 P) []) Hst) as Hv.
  pose proof (run_view_streamable _ (mkBuffer (payload pver msg)) Hst) as Hv2.
  rewrite (msg_decodes pver (m_val msg) (send_ok _ _ Hs) : run _ (mkBuffer (payload pver msg)) = _) in Hv2.
  destruct (prompt_cut _ _ _ _ j err (kind_prompt _ _ Hk1 Hk2) Hst Hv2 Hj) as (x & Hx & Hxe).
  assert (view (mkTee (mkLimited r1 P) []) = mkStream (take (Z.to_nat j) (payload pver msg)) err) as Hvt.
  { cbn [view tee_spec limited_spec tee_r lr_N lr_R]. rewrite Hr1, Z.max_r by lia. unfold limit_stream.
    cbn [s_data]. rewrite len_take_le by (unfold P in Hj; lia). by rewrite (proj2 (Z.leb_gt P j)) by lia. }
  cbn [b_data] in Hx. rewrite Hvt, Hx in Hv. destruct (run _ (mkTee (mkLimited r1 P) [])) as [y t] eqn:Ed.
  injection Hv as <- Hvt'.
  assert (LInv r1 P (tee_r t) (tee_w t)) as HI.
  { eapply (run_TInv r1 P); [|exact Ed]. apply LInv_init. lia. }
  exists x. cbn [fst snd]. split; [|split; [unfold endError in *; by rewrite He|]].
  2: { rewrite (close_advance r1 P _ _ HI), Hr1. unfold advance. cbn [s_data s_err].
       by rewrite drop_ge by (rewrite length_take; lia). }
  f_equal. destruct HI as (HN & Hle & Hd & _). rewrite HN.
  assert (len (tee_w t) = j) as ->; [|lia].
  rewrite Hr1 in Hd. cbn [s_data] in Hd. apply (f_equal len) in Hd.
  rewrite len_app, len_take_le in Hd by (unfold P in Hj; lia).
  cbn [view tee_spec limited_spec] in Hvt'. rewrite HN, Z.max_r in Hvt' by lia.
  apply (f_equal s_data) in Hvt'. cbn [s_data] in Hvt'. unfold limit_stream in Hvt'.
  pose proof (len_nonneg (s_data (view (lr_R (tee_r t))))).
  destruct (Z.leb_spec (P - len (tee_w t)) (len (s_data (view (lr_R (tee_r t)))))); [lia|].
  rewrite <- Hvt', len_nil in Hd. lia.
Qed.
End Payload.

(** C7: a connection that ends too early never yields a message.  If it ends
    inside a header, both reading functions return no message, the number of
    bytes that arrived, and the error of the connection ([io.ErrUnexpectedEOF]
    or [io.EOF] if it was closed), and leave nothing unread.  If it ends inside
    the payload of a frame whose header passes the checks, whatever that
    payload is, [ReadMessageN] does the same, for every type; and so does
    [ReadMessageStreamingN] if the frame is that of a well-formed message and
    not of type version, which it refuses, or protoconf, which is read by
    another package. *)
Theorem Truncated_packet pver bsvnet (r : R) :
  let n := len (s_data (view r)) in
  let hdr := nextHeader r in
  (n < MessageHeaderSize -> forall streaming, cutOff r (readNext streaming pver bsvnet r)) /\
  (h_length hdr <= maxMessagePayload -> passes false pver bsvnet hdr = true ->
   h_length hdr <> 0xffffffff -> MessageHeaderSize <= n < MessageHeaderSize + h_length hdr ->
   cutOff r (readNext false pver bsvnet r)) /\
  (forall msg, sendable pver msg -> symmetric (m_kind msg) -> m_kind msg <> KVersion ->
   m_kind msg <> KProtoconf -> is_u32 bsvnet -> n < len (packet pver bsvnet msg) ->
   s_data (view r) = take (Z.to_nat n) (packet pver bsvnet msg) ->
   cutOff r (readNext true pver bsvnet r)).
Proof.
  intros n hdr. split_and!; [intros; by apply header_cut|by apply payload_cut_buffered|].
  intros msg Hs [Hk _] Hkv Hkp Hnet Hn Hd.
  destruct (Z.lt_ge_cases n MessageHeaderSize) as [Hh|Hh]; [by apply header_cut|].
  rewrite len_packet in Hn.
  assert (view r = mkStream (packetFront pver bsvnet msg ++
    take (Z.to_nat (n - MessageHeaderSize)) (payload pver msg)) (s_err (view r))) as Hr.
  { destruct (view r) as [d e]. cbn [s_data s_err] in *. f_equal. rewrite Hd at 1.
    unfold MessageHeaderSize in *. rewrite packet_front, take_app, length_packetFront.
    f_equal; [|f_equal; lia]. apply take_ge. rewrite length_packetFront. lia. }
  destruct (packet_header pver bsvnet msg r _ _ Hs Hnet Hr Hk) as (r1 & Er & Hv & Hc).
  eapply (payload_cut_streaming pver bsvnet msg r r1 (n - MessageHeaderSize)); eauto; [lia|].
  fold n. lia.
Qed.
End Truncation.

(** ** [SetLimits] *)

Section SetLimits.
Context `{ExternalsSpec} {R : Type} {HR : Reader R} {HS : ReaderSpec R} {W : Type} {HW : Writer W}.

(** The limit for any [uint64]: two binary megabytes for each whole million, up
    to the wrap-around. *)
Definition millions (e : Z) : Z := e / 1000000 mod 2 ^ 43.

Lemma maxMessagePayload_eq e : @maxMessagePayload (SetLimits e) = millions e * 2097152.
Proof.
  unfold maxMessagePayload, to_u64, millions. cbn [ebs SetLimits]. generalize (e / 1000000). intros x.
  rewrite (Z.mul_mod_idemp_l _ 1024), Z.mul_mod_idemp_l by done. rewrite <- !Z.mul_assoc.
  change (1024 * (1024 * 2)) with 2097152. replace (2 ^ 64) with (2 ^ 43 * 2097152) by reflexivity.
  by rewrite Z.mul_mod_distr_r.
Qed.

(** With a limit of 0 a header that announces a payload is refused. *)
Lemma checkHeader_tooLarge `{Limits} b hdr pver bsvnet (r : R) :
  maxMessagePayload < h_length hdr -> checkHeader b hdr pver bsvnet r = (inl (tooLarge hdr), r).
Proof.
  intros Hl. unfold checkHeader. by rewrite Z.gtb_ltb, (proj2 (Z.ltb_lt _ _) Hl).
Qed.

(** C30: the limit that [SetLimits] puts on payloads, for every [uint64].  It is
    two binary megabytes for each whole million of the excessive block size,
    modulo 2^64.  Where that is 0, below one million and at multiples of 2^43
    million, every message with a payload is refused: by the writer before
    anything is written and by both readers right behind the header.  Where it
    is 2^63 or more it is negative as an [int], and the writer refuses every
    message, also an empty one.  From one million up to 2^42 million the limit is
    above the excessive block size, and every block of at most that size and at
    most 2^32 - 1 bytes is written. *)
Theorem SetLimits_payload e pver bsvnet (msg : Message) (w : W) (r : R) streaming :
  is_u64 e ->
  let L := SetLimits e in
  let p := BsvEncode pver (m_val msg) in
  maxMessagePayload = millions e * 2097152 /\
  (millions e = 0 ->
   (outcome p = None -> written p <> [] ->
    exists err, WriteMessageN w msg pver bsvnet = (0, Some (ErrMessage err), w)) /\
   (MessageHeaderSize <= len (s_data (view r)) -> 0 < h_length (nextHeader r) ->
    exists r', readNext streaming pver bsvnet r =
                 (readFail MessageHeaderSize (tooLarge (nextHeader r)), r') /\
      view r' = advance MessageHeaderSize (view r))) /\
  (2 ^ 42 <= millions e -> outcome p = None ->
   exists err, WriteMessageN w msg pver bsvnet = (0, Some (ErrMessage err), w)) /\
  (1000000 <= e < 2 ^ 42 * 1000000 ->
   e < maxMessagePayload /\
   forall blk : MsgBlock, len (MsgBlock_bytes blk) <= Z.min e MaxUint32 ->
   WriteMessageN w (mkMessage KBlock blk) pver bsvnet =
   Write (headerBytes bsvnet CmdBlock (len (MsgBlock_bytes blk)) (checksum (MsgBlock_bytes blk))
          ++ MsgBlock_bytes blk) w).
Proof.
  intros He L p. pose proof (maxMessagePayload_eq e) as Hm. fold L in Hm.
  assert (0 <= millions e < 2 ^ 43) as Hq by (apply Z.mod_pos_bound; lia).
  split_and!; [done|intros Hz0; split| |].
  - intros Ho Hw. apply (WriteMessageN_encoded pver bsvnet msg w Ho). left. rewrite Hm, Hz0.
    change (to_i64 (0 * 2097152)) with 0. fold p. pose proof (len_nonneg (written p)).
    destruct (Z.eq_dec (len (written p)) 0) as [Hz|]; [|lia]. by apply len_0_inv in Hz.
  - intros Hl Hh. destruct (readMessageHeader_Ok r Hl) as (r1 & Er & Hv & _).
    exists r1. split; [|done].
    unfold readNext, ReadMessageN, ReadMessageWithEncodingN, ReadMessageStreamingN.
    by destruct streaming; rewrite Er, checkHeader_tooLarge by lia.
  - intros Hb Ho. apply (WriteMessageN_encoded pver bsvnet msg w Ho). left. rewrite Hm.
    pose proof (len_nonneg (written (BsvEncode pver (m_val msg)))).
    enough (to_i64 (millions e * 2097152) < 0) by lia. unfold to_i64.
    rewrite (Z.mod_eq (_ + _) (2 ^ 64)) by done.
    rewrite <- (Z.div_unique (millions e * 2097152 + 2 ^ 63) (2 ^ 64) 1
                 (millions e * 2097152 + 2 ^ 63 - 2 ^ 64)) by lia. lia.
  - intros Hb. pose proof (Z.div_mod e 1000000 ltac:(done)) as Hdm.
    pose proof (Z.mod_pos_bound e 1000000 ltac:(done)).
    assert (0 <= e / 1000000 < 2 ^ 42) as Hd.
    { split; [apply Z.div_pos; lia|]. apply Z.div_lt_upper_bound; lia. }
    unfold millions in Hm. rewrite (Z.mod_small _ (2 ^ 43)) in Hm by lia.
    assert (e < maxMessagePayload) as Hlt by lia. split; [done|]. intros blk Hlen.
    destruct (encodes_MsgBlock blk) as [Ho Hw].
    destruct (WriteMessageN_encoded pver bsvnet (mkMessage KBlock blk) w Ho) as [_ Hok].
    match type of Hok with context [written ?q] => change (written q = MsgBlock_bytes blk) in Hw end.
    rewrite Hw in Hok. rewrite Hok; [by rewrite gtb_false by lia| |].
    + rewrite Hm. unfold to_i64. rewrite Z.mod_small; lia.
    + change (len (MsgBlock_bytes blk) <= e). lia.
Qed.
End SetLimits.

(** ** [SetExternalHandler] *)

Section External.
Context `{Limits} `{ExternalsSpec} {R : Type} {HR : Reader R} {HS : ReaderSpec R}.
Implicit Types (hs : Handlers (R:=R)) (r : R).

(** C29: a message whose command has a handler is handed to it once its header
    has passed the checks: with the reader at the first byte of the payload,
    the length of the payload and the 24 bytes read so far; what it returns is
    returned (by [ReadMessageStreamingN] without the payload).  Messages of
    all other commands are read as if it were not there, and a nil handler
    takes the one of its command away. *)
Theorem External_handler hs cmd handler pver bsvnet r :
  let hs' := SetExternalHandler cmd (Some handler) hs in
  (forall msg rest e, sendable pver msg -> readable (m_kind msg) -> is_u32 bsvnet ->
   view r = mkStream (packet pver bsvnet msg ++ rest) e -> command (m_kind msg) = cmd ->
   exists r1, view r1 = mkStream (payload pver msg ++ rest) e /\
     ReadMessageN hs' pver bsvnet r = handler r1 (len (payload pver msg)) MessageHeaderSize /\
     (m_kind msg <> KVersion ->
      ReadMessageStreamingN hs' pver bsvnet r =
      (let '(x, r2) := handler r1 (len (payload pver msg)) MessageHeaderSize in
       (mkRead (rd_n x) (rd_msg x) [] (rd_err x), r2)))) /\
  (h_command (nextHeader r) <> cmd ->
   ReadMessageN hs' pver bsvnet r = ReadMessageN hs pver bsvnet r /\
   ReadMessageStreamingN hs' pver bsvnet r = ReadMessageStreamingN hs pver bsvnet r) /\
  (hs !! cmd = None -> SetExternalHandler cmd None hs' = hs).
Proof.
  intros hs'. split_and!.
  - intros msg rest e Hs Hk Hnet Hr Hc. rewrite packet_front, <- app_assoc in Hr.
    destruct (packet_header pver bsvnet msg r _ e Hs Hnet Hr Hk) as (r1 & Er & Hv & Hck).
    assert (hs' !! command (m_kind msg) = Some handler) as Hh.
    { unfold hs', SetExternalHandler. rewrite Hc. apply (lookup_insert_eq (M:=gmap bytes)). }
    exists r1. split; [done|].
    unfold ReadMessageN, ReadMessageWithEncodingN, ReadMessageStreamingN.
    rewrite Er, (Hck false) by done. cbn [h_command packetHeader]. rewrite Hh. split; [done|].
    intros Hkv. by rewrite (Hck true) by done.
  - intros Hc. unfold ReadMessageN, ReadMessageWithEncodingN, ReadMessageStreamingN.
    pose proof (view_readMessageHeader r) as Hv.
    destruct (readMessageHeader r) as [[n [h|e]] r1]; [|done].
    destruct Hv as (_ & _ & _ & ->). fold (nextHeader r).
    assert (hs' !! h_command (nextHeader r) = hs !! h_command (nextHeader r)) as ->; [|done].
    unfold hs', SetExternalHandler. by apply (lookup_insert_ne (M:=gmap bytes)).
  - intros Hc. unfold hs', SetExternalHandler. by apply (delete_insert_id (M:=gmap bytes)).
Qed.
End External.

(** ** Witnesses *)

Section Examples.
#[local] Existing Instance refExternals.
#[local] Existing Instance refExternals_spec.

Section Default.
#[local] Existing Instance defaultLimits.

(** A complete frame whose payload is too short for its type: the error is that
    of a connection that was cut, although nothing is missing. *)
Definition shortPing : stream :=
  mkStream (headerBytes MainNet CmdPing 3 (checksum (zeros 3)) ++ zeros 3 ++ pingFrame) EOF.

(** [ReadVarInt], which stands for the external function, returns
    [MessageError]s. *)
Definition refVarIntError (e : error) : Prop := exists m, e = ErrMessage m.

Lemma refVarInt_raises (P : error -> Prop) :
  (forall e, refVarIntError e -> P e) -> raises P bt_VarInt_ReadFrom.
Proof.
  intros HP. cbn [bt_VarInt_ReadFrom refExternals]. unfold ReadVarInt, canonical.
  solve_raises; apply HP; by eexists.
Qed.

Lemma Error_provenance_witness :
  rd_err (fst (readNext false 70016 MainNet shortPing)) = Some ErrUnexpectedEOF /\
  expected refVarIntError (view shortPing) CmdPing ErrUnexpectedEOF.
Proof.
  split; [vm_compute; reflexivity|].
  assert (h_command (nextHeader shortPing) = CmdPing) as Hc by (vm_compute; reflexivity).
  rewrite <- Hc.
  apply (Error_provenance (R:=stream) refVarIntError refVarInt_raises false 70016 MainNet shortPing
    (fst (readNext false 70016 MainNet shortPing)) (snd (readNext false 70016 MainNet shortPing)));
    [by destruct (readNext _ _ _ shortPing)|vm_compute; reflexivity].
Defined.

(** A ping of which 27 of the 32 bytes arrive. *)
Definition cutPing : stream := mkStream (take 27 (packet 70016 MainNet examplePing)) EOF.

Lemma Truncated_packet_witness :
  cutOff cutPing (readNext false 70016 MainNet cutPing) /\
  cutOff cutPing (readNext true 70016 MainNet cutPing).
Proof.
  destruct (Truncated_packet (R:=stream) 70016 MainNet cutPing) as (_ & Hb & Hs). split.
  - apply Hb; by vm_compute.
  - apply (Hs examplePing);
      [apply examplePing_sendable|repeat split; discriminate|discriminate..|done| |]; by vm_compute.
Defined.

(** A handler that takes 3 bytes and returns no message. *)
Definition takeThree (r : stream) (length n : Z) : Read * stream :=
  let '(bs, e, r) := ReadFull 3 r in (mkRead (n + len bs) None bs e, r).

Lemma External_handler_witness :
  ReadMessageN (SetExternalHandler CmdPing (Some takeThree) ∅) 70016 MainNet pingStream =
  takeThree (mkStream (payload 70016 examplePing ++ [Byte.x2a]) EOF) 8 24.
Proof.
  destruct (External_handler (R:=stream) ∅ CmdPing takeThree 70016 MainNet pingStream) as (Hh & _ & _).
  destruct (Hh examplePing [Byte.x2a] EOF examplePing_sendable ltac:(split; discriminate)
    ltac:(done) ltac:(vm_compute; reflexivity) eq_refl) as (r1 & Hv & Hr & _).
  cbn [view stream_spec] in Hv. subst r1. exact Hr.
Defined.
End Default.

(** A limit of 999999 bytes: a ping is neither written nor read; and the limit
    that follows from 2^43 million. *)
Lemma SetLimits_payload_witness :
  let L := SetLimits 999999 in
  (exists err, WriteMessageN (mkBuffer []) examplePing 70016 MainNet =
     (0, Some (ErrMessage err), mkBuffer [])) /\
  (exists r', readNext true 70016 MainNet pingStream =
     (readFail 24 (tooLarge (nextHeader pingStream)), r') /\ view r' = advance 24 (view pingStream)) /\
  @maxMessagePayload (SetLimits (2 ^ 43 * 1000000)) = 0.
Proof.
  intros L.
  destruct (SetLimits_payload (R:=stream) (W:=buffer) 999999 70016 MainNet examplePing (mkBuffer [])
    pingStream true ltac:(zlia)) as (_ & Hb & _).
  destruct (Hb ltac:(reflexivity)) as [Hw Hr]. split_and!.
  - apply Hw; vm_compute; [reflexivity|discriminate].
  - apply Hr; vm_compute; [discriminate|reflexivity].
  - apply (SetLimits_payload (R:=stream) (W:=buffer) (2 ^ 43 * 1000000) 70016 MainNet examplePing
      (mkBuffer []) pingStream true ltac:(zlia)).
Defined.
End Examples.
