(* ===== verification/Examples.v ===== *)
(** * The programs under examples/

    [read_message] writes a version message into a buffer and reads it back;
    [write_message] writes a [getaddr] message to a buffered standard
    output.  The first does what it shows ([read_message_prints]); the second
    never flushes its buffer, so nothing reaches the standard output
    ([write_message_prints_nothing]). *)

From S2P Require Import Prelude Io Common Sha256 Externals InvVect BlockHeader Protocol NetAddress.
From S2P Require Import Tx Block MsgIface MsgInventory MsgControl MsgFilter ExtendedTx Version.
From S2P Require Import Message Framing Relay Constructors.

(** ** [bufio.Writer] over a writer that is not modelled further *)

Record bufioWriter (W : Type) := mkBufio {
  bw_buf : bytes; bw_size : Z; bw_err : option error; bw_wr : W }.
Arguments mkBufio {W}.
Arguments bw_buf {W}.
Arguments bw_size {W}.
Arguments bw_err {W}.
Arguments bw_wr {W}.

Definition NewWriterSize {W} (w : W) (size : Z) : bufioWriter W := mkBufio [] size None w.

(** [io.ErrShortWrite]. *)
Definition ErrShortWrite : error := ErrText (mkSprintf "short write" []).

Section Bufio.
Context {W : Type} {HW : Writer W}.

Definition bufio_Flush (b : bufioWriter W) : bufioWriter W :=
  match bw_err b with
  | Some _ => b
  | None =>
      if len (bw_buf b) =? 0 then b
      else
        let '(n, err, w) := Write (bw_buf b) (bw_wr b) in
        let err := if (n <? len (bw_buf b)) && negb (bool_decide (is_Some err))
                   then Some ErrShortWrite else err in
        match err with
        | Some e => mkBufio (drop (Z.to_nat n) (bw_buf b)) (bw_size b) (Some e) w
        | None => mkBufio [] (bw_size b) None w
        end
  end.

(** [Write]: the loop while [p] does not fit, once through the buffer and then
    straight to the writer.  A writer that takes less than it was given
    returns an error, which ends the loop. *)
Fixpoint bufio_loop (fuel : nat) (nn : Z) (p : bytes) (b : bufioWriter W) :
    Z * bytes * bufioWriter W :=
  match fuel with
  | O => (nn, p, b)
  | S fuel =>
      let available := bw_size b - len (bw_buf b) in
      if (len p >? available) && negb (bool_decide (is_Some (bw_err b))) then
        if len (bw_buf b) =? 0 then
          let '(n, err, w) := Write p (bw_wr b) in
          bufio_loop fuel (nn + n) (drop (Z.to_nat n) p) (mkBufio [] (bw_size b) err w)
        else
          let n := available in
          let b := bufio_Flush (mkBufio (bw_buf b ++ take (Z.to_nat n) p) (bw_size b) None (bw_wr b)) in
          bufio_loop fuel (nn + n) (drop (Z.to_nat n) p) b
      else (nn, p, b)
  end.

Definition bufio_Write (p : bytes) (b : bufioWriter W) : Z * option error * bufioWriter W :=
  let '(nn, p, b) := bufio_loop (S (S (length p))) 0 p b in
  match bw_err b with
  | Some e => (nn, Some e, b)
  | None => (nn + len p, None, mkBufio (bw_buf b ++ p) (bw_size b) None (bw_wr b))
  end.

#[export] Instance bufio_Writer : Writer (bufioWriter W) := bufio_Write.

(** What fits is only kept. *)
Lemma bufio_Write_fits p (b : bufioWriter W) :
  bw_err b = None -> len (bw_buf b) + len p <= bw_size b ->
  bufio_Write p b = (len p, None, mkBufio (bw_buf b ++ p) (bw_size b) None (bw_wr b)).
Proof.
  intros He Hp. unfold bufio_Write. cbn [bufio_loop]. rewrite gtb_false by lia.
  cbn [andb]. by rewrite He.
Qed.
End Bufio.

(** ** write_message.go *)

Section Programs.
Context `{Limits} `{Externals}.

(** A panic, or the writer when the program ends. *)
Definition write_message_main {W} `{Writer W} (stdout : W) : error + bufioWriter W :=
  let pVer := ProtocolVersion in
  let bsvNet := MainNet in
  let conn := NewWriterSize stdout 1024 in
  let msg := mkMessage KGetAddr NewMsgGetAddr in
  let '(err, conn) := WriteMessage conn msg pVer bsvNet in
  match err with Some err => inl err | None => inr conn end.

(** ** read_message.go *)

(** [net.ParseIP] of the two addresses. *)
Definition ipYou : bytes := v4InV6Prefix ++ [Byte.xc0; Byte.xa8; Byte.x00; Byte.x01].
Definition ipMe : bytes := v4InV6Prefix ++ [Byte.x7f; Byte.x00; Byte.x00; Byte.x01].

(** [na.Timestamp = time.Time{}]. *)
Definition clearTimestamp (na : NetAddress) : NetAddress :=
  mkNetAddress zeroTime (na_Services na) (na_IP na) (na_Port na).

(** The message of the program when the clock shows [t1], [t2] and [t3]. *)
Definition read_message_version (t1 t2 t3 : Time) : MsgVersion :=
  let you := clearTimestamp (NewNetAddress t1 ipYou 8333 SFNodeNetwork) in
  let me := clearTimestamp (NewNetAddress t2 ipMe 8333 SFNodeNetwork) in
  NewMsgVersion t3 me you 123123 0.

(** A panic, or the message that is logged. *)
Definition read_message_main (t1 t2 t3 : Time) : error + option Message :=
  let pVer := ProtocolVersion in
  let bsvNet := MainNet in
  let msgVersion := read_message_version t1 t2 t3 in
  let '(_, err, buf) := WriteMessageN (mkBuffer []) (mkMessage KVersion msgVersion) pVer bsvNet in
  match err with
  | Some err => inl err
  | None =>
      let readBuf := mkStream (b_data buf) EOF in
      let '(msg, _, err, _) := ReadMessage ∅ pVer bsvNet readBuf in
      match err with Some err => inl err | None => inr msg end
  end.
End Programs.

(** ** What they do *)

Section Theorems.
Context `{Limits} `{ExternalsSpec} (Hebs : 1000000 <= ebs < 2 ^ 61).

(** The message is left in the buffer when [main] returns: the standard
    output is not written to. *)
Theorem write_message_prints_nothing {W} {HW : Writer W} (stdout : W) :
  exists conn, write_message_main stdout = inr conn /\ bw_wr conn = stdout /\
    bw_buf conn = packet ProtocolVersion MainNet (mkMessage KGetAddr NewMsgGetAddr).
Proof.
  pose proof (built_sendable ProtocolVersion Hebs _ (built_GetAddr _)
    (built_fits ProtocolVersion Hebs _ (built_GetAddr _) eq_refl)) as Hs.
  unfold write_message_main, WriteMessage. rewrite WriteMessageN_writes by done.
  change (Write (packet ?v ?n ?m) ?w) with (bufio_Write (packet v n m) w). rewrite bufio_Write_fits; [by eexists|done|].
  rewrite len_packet. by vm_compute.
Qed.

(** The program logs the message it wrote, whatever the clock shows. *)
Theorem read_message_prints t1 t2 t3 :
  is_i64 (t_sec t3) ->
  read_message_main t1 t2 t3 = inr (Some (mkMessage KVersion (read_message_version t1 t2 t3))).
Proof.
  intros Ht. set (m := mkMessage KVersion (read_message_version t1 t2 t3)).
  assert (built ProtocolVersion m) as Hb.
  { apply built_Version; [done| | |by vm_compute..];
      (split; [done|]; split; [by vm_compute|]; split; [done|by vm_compute]). }
  pose proof (built_sendable ProtocolVersion Hebs m Hb (built_fits ProtocolVersion Hebs m Hb eq_refl)) as Hs.
  unfold read_message_main. fold m. rewrite WriteMessageN_writes by done.
  cbn [Write buffer_writer b_data]. rewrite app_nil_l.
  destruct (packet_read ∅ ProtocolVersion MainNet m
    (mkStream (packet ProtocolVersion MainNet m) EOF : stream) [] EOF Hs) as [(r' & Hr & _) _];
    [done|done|done|by rewrite app_nil_r|].
  unfold ReadMessage. by rewrite Hr.
Qed.
End Theorems.
